(** * Native File Dialog Extended, portal backend (src/nfd_portal.cpp)

    A shallow embedding of the portal interaction core and the properties
    of it that the specification states.

    Conventions of the embedding.
    - A [char] is an 8-bit byte.  Where the source compares or subtracts
      [char]s the value is the signed one ([char_to_int]).
    - A pointer into a character object is the list of the bytes from the
      pointed position to the end of that object ([ptr]): [*p] is the head,
      [p + 1] the tail, and a dereference of the empty list is a read
      outside the object.  A range [[begin, end)] is the list of its bytes.
    - Code that can leave the defined behaviour of C++ runs in [ub]; code
      that also reads or writes the file-scope variables, or calls the
      operating system or the bus, runs in [M].  [Undef ScriptExhausted]
      is a call that is still blocked when the scripted environment has
      no further answer, [Undef BadCall] a library call outside its
      contract.
    - Sizes of type [size_t] and [ptrdiff_t] are natural numbers: no
      object that fits the address space makes them wrap.  A value of
      type [int] is a natural number checked against [INT_MAX] where the
      code computes it: a result beyond it is a signed overflow, which
      leaves the defined behaviour ([Undef SizeOverflow]). *)

From Stdlib Require Import String Ascii.
From Stdlib Require Import List NArith ZArith Lia Bool Arith.
Import ListNotations.
Open Scope list_scope.

(* ================================================================= *)
(** ** Characters, strings and pointers *)

Definition char := ascii.

Bind Scope char_scope with char.

Definition NUL : char := Ascii.zero.

Definition lit (s : string) : list char := list_ascii_of_string s.

Definition is_nul (c : char) : bool := Ascii.eqb c NUL.

(** The value of a [char] in an arithmetic expression. *)
Definition char_to_int (c : char) : Z :=
  let n := Z.of_N (N_of_ascii c) in
  if (n <? 128)%Z then n else (n - 256)%Z.

Arguments char_to_int c%_char.

(** Conversion of an [int] back to [char] keeps the low eight bits. *)
Definition int_to_char (z : Z) : char :=
  ascii_of_N (Z.to_N (z mod 256)).

Definition char_le (a b : char) : bool := (char_to_int a <=? char_to_int b)%Z.

Arguments char_le (a b)%_char.

Definition no_nul (s : list char) : Prop := ~ In NUL s.

(** Byte-for-byte equality, [strcmp(a, b) == 0] on strings. *)
Fixpoint bytes_eqb (a b : list char) : bool :=
  match a, b with
  | [], [] => true
  | x :: a', y :: b' => Ascii.eqb x y && bytes_eqb a' b'
  | _, _ => false
  end.

Definition ptr := list char.

(** A NUL-terminated string held in an object of its own. *)
Definition c_string (s : list char) : ptr := s ++ [NUL].

Inductive fault : Type :=
| ReadOutOfBounds
| WriteOutOfBounds
| Unreachable
| SizeOverflow
| BadCall
| ScriptExhausted.

Inductive ub (A : Type) : Type :=
| Def (a : A)
| Undef (f : fault).

Arguments Def {A} a.
Arguments Undef {A} f.

Definition ub_bind {A B : Type} (c : ub A) (k : A -> ub B) : ub B :=
  match c with
  | Def a => k a
  | Undef f => Undef f
  end.

Declare Scope ub_scope.
Delimit Scope ub_scope with ub.
Notation "x <- c ;; k" := (ub_bind c (fun x => k))
  (at level 61, c at next level, right associativity) : ub_scope.
Notation "' pat <- c ;; k" := (ub_bind c (fun x => match x with pat => k end))
  (at level 61, pat pattern, c at next level, right associativity) : ub_scope.

Definition deref (p : ptr) : ub char :=
  match p with
  | [] => Undef ReadOutOfBounds
  | c :: _ => Def c
  end.

(** [strlen]-style scan: the bytes before the first NUL and the pointer
    one past that NUL. *)
Fixpoint scan_string (p : ptr) : ub (list char * ptr) :=
  match p with
  | [] => Undef ReadOutOfBounds
  | c :: p' =>
      if is_nul c then Def ([], p')
      else match scan_string p' with
           | Def (s, q) => Def (c :: s, q)
           | Undef f => Undef f
           end
  end.

(** The string a [const char*] denotes, as D-Bus and [strcpy] read it. *)
Definition string_at (p : ptr) : ub (list char) :=
  match scan_string p with
  | Def (s, _) => Def s
  | Undef f => Undef f
  end.

Definition strlen (p : ptr) : ub nat :=
  match scan_string p with
  | Def (s, _) => Def (length s)
  | Undef f => Undef f
  end.

(** [p + strlen(p) + 1]. *)
Definition past_string (p : ptr) : ub ptr :=
  match scan_string p with
  | Def (_, q) => Def q
  | Undef f => Undef f
  end.

(** A store of [bytes] into a buffer of [capacity] bytes. *)
Definition store (capacity : nat) (bytes : list char) : ub (list char) :=
  if length bytes <=? capacity then Def bytes else Undef WriteOutOfBounds.

(** The range [[p, q)] for [q] a later position of the same object. *)
Definition range (p q : ptr) : list char := firstn (length p - length q) p.

(* ================================================================= *)
(** ** Result codes and the file-scope variables *)

(** Modelled from the spec: the enumeration [nfdresult_t] of nfd.h, which
    is not among the sources; the three terminals the spec names. *)
Inductive nfdresult_t : Type := NFD_ERROR | NFD_OKAY | NFD_CANCEL.

Definition nfdresult_eqb (a b : nfdresult_t) : bool :=
  match a, b with
  | NFD_ERROR, NFD_ERROR | NFD_OKAY, NFD_OKAY | NFD_CANCEL, NFD_CANCEL => true
  | _, _ => false
  end.

(* ================================================================= *)
(** ** D-Bus values and messages *)

(** A value in a message body.  An array carries the element signature
    it was opened with, a variant the signature of its content.
    [DOther] stands for a value of any basic type the code never reads. *)
#[local] Unset Elimination Schemes.

Inductive DBusValue : Type :=
| DByte (c : char)
| DBoolean (b : bool)
| DUInt32 (n : N)
| DString (s : list char)
| DObjectPath (s : list char)
| DOther (type_code : char)
| DArray (signature : string) (elements : list DBusValue)
| DStruct (fields : list DBusValue)
| DVariant (signature : string) (content : DBusValue)
| DDictEntry (fields : list DBusValue).

#[local] Set Elimination Schemes.

Inductive message_type : Type :=
| MethodCall | MethodReturn | ErrorMessage | Signal.

Record DBusMessage : Type := mkMessage {
  msg_type : message_type;
  msg_path : string;
  msg_interface : string;
  msg_member : string;
  msg_args : list DBusValue
}.

(* ================================================================= *)
(** ** The file-scope variables and the environment *)

(** One answer of [getrandom]: some bytes, an interrupted call
    ([errno == EINTR]), or another error. *)
Inductive getrandom_reply : Type :=
| GR_bytes (bytes : list char)
| GR_eintr
| GR_error.

(** The state a call runs in.  [err_ptr], [dbus_err] and
    [dbus_unique_name] are the file-scope variables ([None] is the null
    pointer, or an error that is not set).  The other fields script the
    operating system and the bus: what [getrandom], [dbus_bus_add_match]
    and [dbus_connection_send_with_reply_and_block] will answer in turn,
    the queue of received messages with the batches that later
    [dbus_connection_read_write] calls bring in (the connection is
    closed when none is left), the files [access] finds, whether
    [pthread_mutex_init] and [pthread_create] succeed; and they record
    what the call did to the bus: the match rules installed and the
    method calls sent. *)
Record world : Type := mkWorld {
  err_ptr : option string;
  dbus_err : option string;
  dbus_unique_name : ptr;
  getrandom_replies : list getrandom_reply;
  add_match_replies : list (option string);
  send_replies : list (string + DBusMessage);
  queue : list DBusMessage;
  arrivals : list (list DBusMessage);
  existing_files : list (list char);
  mutex_available : bool;
  threads_available : bool;
  match_rules : list (list char);
  sent : list DBusMessage
}.

Definition set_err_ptr (x : option string) (w : world) : world :=
  mkWorld x (dbus_err w) (dbus_unique_name w) (getrandom_replies w)
          (add_match_replies w) (send_replies w) (queue w) (arrivals w)
          (existing_files w) (mutex_available w) (threads_available w)
          (match_rules w) (sent w).

Definition set_dbus_err (x : option string) (w : world) : world :=
  mkWorld (err_ptr w) x (dbus_unique_name w) (getrandom_replies w)
          (add_match_replies w) (send_replies w) (queue w) (arrivals w)
          (existing_files w) (mutex_available w) (threads_available w)
          (match_rules w) (sent w).

Definition set_getrandom_replies (x : list getrandom_reply) (w : world) : world :=
  mkWorld (err_ptr w) (dbus_err w) (dbus_unique_name w) x
          (add_match_replies w) (send_replies w) (queue w) (arrivals w)
          (existing_files w) (mutex_available w) (threads_available w)
          (match_rules w) (sent w).

Definition set_add_match_replies (x : list (option string)) (w : world) : world :=
  mkWorld (err_ptr w) (dbus_err w) (dbus_unique_name w)
          (getrandom_replies w) x (send_replies w) (queue w) (arrivals w)
          (existing_files w) (mutex_available w) (threads_available w)
          (match_rules w) (sent w).

Definition set_send_replies (x : list (string + DBusMessage)) (w : world) : world :=
  mkWorld (err_ptr w) (dbus_err w) (dbus_unique_name w)
          (getrandom_replies w) (add_match_replies w) x (queue w)
          (arrivals w) (existing_files w) (mutex_available w)
          (threads_available w) (match_rules w) (sent w).

Definition set_queue (x : list DBusMessage) (w : world) : world :=
  mkWorld (err_ptr w) (dbus_err w) (dbus_unique_name w)
          (getrandom_replies w) (add_match_replies w) (send_replies w) x
          (arrivals w) (existing_files w) (mutex_available w)
          (threads_available w) (match_rules w) (sent w).

Definition set_arrivals (x : list (list DBusMessage)) (w : world) : world :=
  mkWorld (err_ptr w) (dbus_err w) (dbus_unique_name w)
          (getrandom_replies w) (add_match_replies w) (send_replies w)
          (queue w) x (existing_files w) (mutex_available w)
          (threads_available w) (match_rules w) (sent w).

Definition set_match_rules (x : list (list char)) (w : world) : world :=
  mkWorld (err_ptr w) (dbus_err w) (dbus_unique_name w)
          (getrandom_replies w) (add_match_replies w) (send_replies w)
          (queue w) (arrivals w) (existing_files w) (mutex_available w)
          (threads_available w) x (sent w).

Definition set_sent (x : list DBusMessage) (w : world) : world :=
  mkWorld (err_ptr w) (dbus_err w) (dbus_unique_name w)
          (getrandom_replies w) (add_match_replies w) (send_replies w)
          (queue w) (arrivals w) (existing_files w) (mutex_available w)
          (threads_available w) (match_rules w) x.

Definition M (A : Type) : Type := world -> ub (A * world).

Definition ret {A : Type} (a : A) : M A := fun w => Def (a, w).

Definition bind {A B : Type} (c : M A) (k : A -> M B) : M B :=
  fun w => match c w with
           | Def (a, w') => k a w'
           | Undef f => Undef f
           end.

Definition lift {A : Type} (c : ub A) : M A :=
  fun w => match c with
           | Def a => Def (a, w)
           | Undef f => Undef f
           end.

Definition get {A : Type} (field : world -> A) : M A :=
  fun w => Def (field w, w).

Definition modify (f : world -> world) : M unit :=
  fun w => Def (tt, f w).

Declare Scope m_scope.
Delimit Scope m_scope with M.
Notation "x <- c ;; k" := (bind c (fun x => k))
  (at level 61, c at next level, right associativity) : m_scope.
Notation "' pat <- c ;; k" := (bind c (fun x => match x with pat => k end))
  (at level 61, pat pattern, c at next level, right associativity) : m_scope.
Notation "c ;;; k" := (bind c (fun _ => k))
  (at level 61, right associativity) : m_scope.

Definition NFDi_SetError (msg : option string) : M unit :=
  modify (set_err_ptr msg).

Definition NFD_GetError : M (option string) := get err_ptr.

(* ================================================================= *)
(** ** 4.A  URI codec *)

Module UriCodec.

Definition IsHex (ch : char) : bool :=
  (char_le "0" ch && char_le ch "9")
  || (char_le "A" ch && char_le ch "F")
  || (char_le "a" ch && char_le ch "f").

(** Precondition [IsHex ch]; the source marks the fall-through
    unreachable. *)
Definition ParseHexUnchecked (ch : char) : ub char :=
  if char_le "0" ch && char_le ch "9"
  then Def (int_to_char (char_to_int ch - char_to_int "0"))
  else if char_le "A" ch && char_le ch "F"
  then Def (int_to_char (char_to_int ch - (char_to_int "A" - 10)))
  else if char_le "a" ch && char_le ch "f"
  then Def (int_to_char (char_to_int ch - (char_to_int "a" - 10)))
  else Undef Unreachable.

(** The measurement pass.  [None] is the [false] return; on [true] the
    result carries [out] and [fileUriEnd].  [len] is the running count. *)
Fixpoint TryUriDecodeLen_from (len : nat) (fileUri : ptr)
  : ub (option (nat * ptr)) :=
  match fileUri with
  | [] => Undef ReadOutOfBounds
  | c :: p1 =>
      if is_nul c then Def (Some (len, fileUri))
      else if negb (Ascii.eqb c "%") then TryUriDecodeLen_from (S len) p1
      else match p1 with
           | [] => Undef ReadOutOfBounds
           | h1 :: p2 =>
               if is_nul h1 then Def None
               else match p2 with
                    | [] => Undef ReadOutOfBounds
                    | h2 :: p3 =>
                        if is_nul h2 then Def None
                        else if negb (IsHex h1) || negb (IsHex h2)
                        then Def None
                        else TryUriDecodeLen_from (S len) p3
                    end
           end
  end.

Definition TryUriDecodeLen (fileUri : ptr) : ub (option (nat * ptr)) :=
  TryUriDecodeLen_from 0 fileUri.

(** The writing pass over [[fileUri, fileUriEnd)]; the result is the
    bytes stored through [outPath]. *)
Fixpoint UriDecodeUnchecked (r : list char) : ub (list char) :=
  match r with
  | [] => Def []
  | c :: r1 =>
      if negb (Ascii.eqb c "%")
      then match UriDecodeUnchecked r1 with
           | Def out => Def (c :: out)
           | Undef f => Undef f
           end
      else match r1 with
           | h1 :: h2 :: r3 =>
               match ParseHexUnchecked h1, ParseHexUnchecked h2 with
               | Def high_nibble, Def low_nibble =>
                   match UriDecodeUnchecked r3 with
                   | Def out =>
                       Def (int_to_char
                              (Z.lor (Z.shiftl (char_to_int high_nibble) 4)
                                     (char_to_int low_nibble)) :: out)
                   | Undef f => Undef f
                   end
               | Undef f, _ => Undef f
               | _, Undef f => Undef f
               end
           | _ => Undef ReadOutOfBounds
           end
  end.

Definition FILE_URI_PREFIX : list char := lit "file://".

(** The loop that walks [FILE_URI_PREFIX] and [fileUri] together, at the
    head of every function that takes a file URI; [None] when a byte
    differs. *)
Fixpoint skip_file_uri_prefix (prefix : list char) (fileUri : ptr)
  : ub (option ptr) :=
  match prefix with
  | [] => Def (Some fileUri)
  | c :: prefix' =>
      match fileUri with
      | [] => Undef ReadOutOfBounds
      | d :: fileUri' =>
          if Ascii.eqb c d then skip_file_uri_prefix prefix' fileUri'
          else Def None
      end
  end.

Definition ERR_NOT_FILE_URI : string :=
  "D-Bus freedesktop portal returned a URI that is not a file URI.".

Definition ERR_MALFORMED_URI : string :=
  "D-Bus freedesktop portal returned a malformed URI.".

(** Returns the result code and, when they are assigned, the new
    [outPath] with [*outSize]. *)
Definition AllocAndCopyFilePath (fileUri : ptr)
  : M (nfdresult_t * option (list char * nat)) :=
  (stripped <- lift (skip_file_uri_prefix FILE_URI_PREFIX fileUri) ;;
   match stripped with
   | None =>
       NFDi_SetError (Some ERR_NOT_FILE_URI) ;;;
       ret (NFD_ERROR, None)
   | Some fileUri =>
       measured <- lift (TryUriDecodeLen fileUri) ;;
       match measured with
       | None =>
           NFDi_SetError (Some ERR_MALFORMED_URI) ;;;
           ret (NFD_ERROR, None)
       | Some (decoded_len, file_uri_end) =>
           decoded <- lift (UriDecodeUnchecked (range fileUri file_uri_end)) ;;
           path_without_prefix <- lift (store (decoded_len + 1) (decoded ++ [NUL])) ;;
           ret (NFD_OKAY, Some (path_without_prefix, decoded_len + 1))
       end
   end)%M.

(** [malloc(sizeof(URI_FILE_PREFIX) + strlen(path))] and two [strcpy]. *)
Definition ConvertToUriPath (path : ptr) : ub ptr :=
  match string_at path with
  | Def s =>
      store (S (length FILE_URI_PREFIX) + length s)
            (FILE_URI_PREFIX ++ s ++ [NUL])
  | Undef f => Undef f
  end.

End UriCodec.


(* ================================================================= *)
(** ** 4.B  Handle generator *)

Module HandleGenerator.

(** The value of an [unsigned char]. *)
Definition uchar_to_int (c : char) : Z := Z.of_N (N_of_ascii c).

(** The two characters written for one random byte. *)
Definition encode_random_byte (b : char) : list char :=
  [ int_to_char (char_to_int "A" + Z.land (uchar_to_int b) 15);
    int_to_char (char_to_int "A" + Z.shiftr (uchar_to_int b) 4) ].

(** The loop of [Generate64RandomChars], over the answers [getrandom]
    gives: the characters appended and the answers left.  An answer of
    more than [amount] bytes fills [amount] bytes only. *)
Fixpoint Generate64RandomChars_loop
    (replies : list getrandom_reply) (amount : nat) {struct replies}
  : ub (list char * list getrandom_reply) :=
  match amount with
  | 0 => Def ([], replies)
  | S _ =>
      match replies with
      | [] => Undef ScriptExhausted
      | GR_eintr :: replies' => Generate64RandomChars_loop replies' amount
      | GR_error :: replies' => Def ([], replies')
      | GR_bytes bytes :: replies' =>
          let buf := firstn amount bytes in
          match Generate64RandomChars_loop replies' (amount - length buf) with
          | Def (out, rest) => Def (flat_map encode_random_byte buf ++ out, rest)
          | Undef f => Undef f
          end
      end
  end.

Definition Generate64RandomChars : M (list char) :=
  fun w =>
    match Generate64RandomChars_loop (getrandom_replies w) 32 with
    | Def (out, rest) => Def (out, set_getrandom_replies rest w)
    | Undef f => Undef f
    end.

Definition STR_RESPONSE_HANDLE_PREFIX : list char :=
  lit "/org/freedesktop/portal/desktop/request/".

Definition STR_RESPONSE_HANDLE_PREFIX_LEN : nat :=
  length STR_RESPONSE_HANDLE_PREFIX.

(** The lambda given to [transform]. *)
Definition dot_to_underscore (ch : char) : char :=
  if negb (Ascii.eqb ch ".") then ch else "_"%char.

(** Returns the path, NUL-terminated, and [*handle_token_ptr], the
    pointer to its TOKEN part. *)
Definition MakeUniqueObjectPath : M (list char * ptr) :=
  (sender <- get dbus_unique_name ;;
   first <- lift (deref sender) ;;
   let sender := if Ascii.eqb first ":" then tl sender else sender in
   sender_chars <- lift (string_at sender) ;;
   let sender_len := length sender_chars in
   let sz := STR_RESPONSE_HANDLE_PREFIX_LEN + sender_len + 1 + 64 in
   token <- Generate64RandomChars ;;
   path <- lift (store (sz + 1)
                   (STR_RESPONSE_HANDLE_PREFIX
                    ++ map dot_to_underscore sender_chars
                    ++ "/"%char :: token ++ [NUL])) ;;
   ret (path, token ++ [NUL]))%M.

End HandleGenerator.

(* ================================================================= *)
(** ** 4.C  Filter encoder *)

Definition STR_ALL_FILES : list char := lit "All files".
Definition STR_ASTERISK : list char := lit "*".
Definition STR_FILTERS : list char := lit "filters".
Definition STR_CURRENT_FILTER : list char := lit "current_filter".

(** [name] null selects the default argument: "All files". *)
Definition AppendWildcardFilter (name : option ptr) : ub DBusValue :=
  (shown <- match name with
            | Some name => string_at name
            | None => Def STR_ALL_FILES
            end ;;
   Def (DStruct [DString shown;
                 DArray "(us)" [DStruct [DUInt32 0; DString STR_ASTERISK]]]))%ub.

(** [do { ++end; } while ( *end != sep && *end != '\0' )], entered with
    [end] one past [begin]: the bytes passed and the final [end]. *)
Fixpoint scan_to (sep : char) (p : ptr) : ub (list char * ptr) :=
  match p with
  | [] => Undef ReadOutOfBounds
  | c :: p' =>
      if Ascii.eqb c sep || is_nul c then Def ([], p)
      else match scan_to sep p' with
           | Def (r, e) => Def (c :: r, e)
           | Undef f => Undef f
           end
  end.

(** The range [[begin, end)] that the scan delimits, and [end]. *)
Definition next_item (sep : char) (begin : ptr) : ub (list char * ptr) :=
  match begin with
  | [] => Undef ReadOutOfBounds
  | c :: p =>
      match scan_to sep p with
      | Def (r, e) => Def (c :: r, e)
      | Undef f => Undef f
      end
  end.

(** Modelled from the spec: the struct [nfdnfilteritem_t] of nfd.h, which
    is not among the sources; a display name and a comma-separated list
    of extensions, as the native filter list of the spec. *)
Record nfdnfilteritem_t : Type := mkFilterItem {
  name : ptr;
  spec : ptr
}.

(** The first [filterCount] elements of the array at [filterList]. *)
Definition filter_array (filterList : list nfdnfilteritem_t) (filterCount : nat)
  : ub (list nfdnfilteritem_t) :=
  if filterCount <=? length filterList
  then Def (firstn filterCount filterList)
  else Undef ReadOutOfBounds.

Module Native.

(** [do { *buf_end++ = *spec_ptr; if ( *spec_ptr == ',') *buf_end++ = ' ';
    ++spec_ptr; } while ( *spec_ptr != '\0')]: the bytes written. *)
Fixpoint copy_spec (spec_ptr : ptr) : ub (list char) :=
  match spec_ptr with
  | [] => Undef ReadOutOfBounds
  | c :: spec_ptr' =>
      let written := if Ascii.eqb c "," then [c; " "%char] else [c] in
      match spec_ptr' with
      | [] => Undef ReadOutOfBounds
      | d :: _ =>
          if is_nul d then Def written
          else match copy_spec spec_ptr' with
               | Def out => Def (written ++ out)
               | Undef f => Undef f
               end
      end
  end.

(** The count of separators, plus one. *)
Fixpoint count_sep (sep : char) (p : ptr) : ub nat :=
  match p with
  | [] => Undef ReadOutOfBounds
  | c :: p' =>
      if is_nul c then Def 1
      else match count_sep sep p' with
           | Def n => Def (if Ascii.eqb c sep then S n else n)
           | Undef f => Undef f
           end
  end.

(** The first block of both [AppendSingleFilter] and
    [AppendSingleFilterCheckExtn]: the display name "name (spec)". *)
Definition display_name (filter : nfdnfilteritem_t) : ub (list char) :=
  (sep <- count_sep "," (spec filter) ;;
   name_chars <- string_at (name filter) ;;
   spec_len <- strlen (spec filter) ;;
   spec_chars <- copy_spec (spec filter) ;;
   buf <- store (sep + length name_chars + 2 + spec_len + 1)
                (name_chars ++ " "%char :: "("%char :: spec_chars
                 ++ [")"%char; NUL]) ;;
   string_at buf)%ub.

(** The pattern "*.ext" appended for [[extn_begin, extn_end)]. *)
Definition extn_pattern (extn : list char) : ub DBusValue :=
  (buf <- store (2 + length extn + 1) ("*"%char :: "."%char :: extn ++ [NUL]) ;;
   s <- string_at buf ;;
   Def (DStruct [DUInt32 0; DString s]))%ub.

(** The [while (true)] loop over the extensions.  The fuel bounds the
    iterations by the bytes left in the object. *)
Fixpoint extn_loop (fuel : nat) (extn_begin : ptr) : ub (list DBusValue) :=
  match fuel with
  | 0 => Undef ReadOutOfBounds
  | S fuel' =>
      ('(extn, extn_end) <- next_item "," extn_begin ;;
       entry <- extn_pattern extn ;;
       c <- deref extn_end ;;
       if is_nul c then Def [entry]
       else (rest <- extn_loop fuel' (tl extn_end) ;;
             Def (entry :: rest)))%ub
  end.

Definition AppendSingleFilter (filter : nfdnfilteritem_t) : ub DBusValue :=
  (shown <- display_name filter ;;
   patterns <- extn_loop (length (spec filter)) (spec filter) ;;
   Def (DStruct [DString shown; DArray "(us)" patterns]))%ub.

(** The comparison of [[extn_begin, extn_end)] with [match_extn]. *)
Fixpoint extn_equal (extn : list char) (match_extn_p : ptr) : ub bool :=
  match extn with
  | [] => (m <- deref match_extn_p ;; Def (is_nul m))%ub
  | c :: extn' =>
      (m <- deref match_extn_p ;;
       if is_nul m then Def false
       else if negb (Ascii.eqb c m) then Def false
       else extn_equal extn' (tl match_extn_p))%ub
  end.

(** The loop of [AppendSingleFilterCheckExtn]: the patterns and
    [extn_matched]. *)
Fixpoint extn_loop_check (fuel : nat) (extn_begin : ptr) (match_extn : ptr)
    (extn_matched : bool) : ub (list DBusValue * bool) :=
  match fuel with
  | 0 => Undef ReadOutOfBounds
  | S fuel' =>
      ('(extn, extn_end) <- next_item "," extn_begin ;;
       entry <- extn_pattern extn ;;
       extn_matched <- (if negb extn_matched
                        then extn_equal extn match_extn
                        else Def extn_matched) ;;
       c <- deref extn_end ;;
       if is_nul c then Def ([entry], extn_matched)
       else ('(rest, extn_matched) <-
               extn_loop_check fuel' (tl extn_end) match_extn extn_matched ;;
             Def (entry :: rest, extn_matched)))%ub
  end.

Definition AppendSingleFilterCheckExtn (filter : nfdnfilteritem_t)
    (match_extn : ptr) : ub (DBusValue * bool) :=
  (shown <- display_name filter ;;
   '(patterns, extn_matched) <-
     extn_loop_check (length (spec filter)) (spec filter) match_extn false ;;
   Def (DStruct [DString shown; DArray "(us)" patterns], extn_matched))%ub.

(** [while ( *p) ++p; while ( *--p != '.') ; ++p;]: the pointer one past
    the last ['.'] of the string, [None] when the string has no ['.'] and
    the backward scan leaves it. *)
Fixpoint past_last_dot (p : ptr) : ub (option ptr) :=
  match p with
  | [] => Undef ReadOutOfBounds
  | c :: p' =>
      if is_nul c then Def None
      else match past_last_dot p' with
           | Def (Some q) => Def (Some q)
           | Def None => if Ascii.eqb c "." then Def (Some p') else Def None
           | Undef f => Undef f
           end
  end.

(** The extension of [defaultName], null when there is none. *)
Definition default_extn (defaultName : option ptr) : ub (option ptr) :=
  match defaultName with
  | None => Def None
  | Some defaultName =>
      (found <- past_last_dot defaultName ;;
       match found with
       | None => Undef ReadOutOfBounds
       | Some p => (c <- deref p ;;
                    Def (if is_nul c then None else Some p))
       end)%ub
  end.

(** The [for] loop over the filters: the structs appended, then
    [extn_matched] and [selected_filter_index]. *)
Fixpoint save_filters_loop (filters : list nfdnfilteritem_t) (i : nat)
    (extn : option ptr) (extn_matched : bool) (selected_filter_index : option nat)
  : ub (list DBusValue * bool * option nat) :=
  match filters with
  | [] => Def ([], extn_matched, selected_filter_index)
  | filter :: filters' =>
      ('(entry, extn_matched, selected_filter_index) <-
         match extn with
         | Some match_extn =>
             if negb extn_matched
             then ('(entry, matched) <- AppendSingleFilterCheckExtn filter match_extn ;;
                   Def (entry, matched,
                        if matched then Some i else selected_filter_index))
             else (entry <- AppendSingleFilter filter ;;
                   Def (entry, extn_matched, selected_filter_index))
         | None =>
             (entry <- AppendSingleFilter filter ;;
              Def (entry, extn_matched, selected_filter_index))
         end ;;
       '(rest, extn_matched, selected_filter_index) <-
         save_filters_loop filters' (S i) extn extn_matched selected_filter_index ;;
       Def (entry :: rest, extn_matched, selected_filter_index))%ub
  end.

Definition filters_entry (structs : list DBusValue) : DBusValue :=
  DDictEntry [DString STR_FILTERS;
              DVariant "a(sa(us))" (DArray "(sa(us))" structs)].

Definition current_filter_entry (filter : DBusValue) : DBusValue :=
  DDictEntry [DString STR_CURRENT_FILTER; DVariant "(sa(us))" filter].

(** The dict entries appended to the options dictionary. *)
Definition AppendSaveFileQueryDictEntryFilters
    (filterList : list nfdnfilteritem_t) (filterCount : nat)
    (defaultName : option ptr) : ub (list DBusValue) :=
  if negb (filterCount =? 0) then
    (filters <- filter_array filterList filterCount ;;
     extn <- default_extn defaultName ;;
     '(structs, extn_matched, selected_filter_index) <-
       save_filters_loop filters 0 extn false None ;;
     wildcard <- AppendWildcardFilter None ;;
     current <- (if extn_matched
                 then match selected_filter_index with
                      | Some i =>
                          match nth_error filterList i with
                          | Some filter => AppendSingleFilter filter
                          | None => Undef ReadOutOfBounds
                          end
                      | None => Undef ReadOutOfBounds
                      end
                 else Def wildcard) ;;
     Def [filters_entry (structs ++ [wildcard]); current_filter_entry current])%ub
  else Def [].

(** [AppendOpenFileQueryDictEntryFilters<true>]. *)
Definition AppendOpenFileQueryDictEntryFilters
    (filterList : list nfdnfilteritem_t) (filterCount : nat)
  : ub (list DBusValue) :=
  if negb (filterCount =? 0) then
    (filters <- filter_array filterList filterCount ;;
     structs <- (fix each (l : list nfdnfilteritem_t) : ub (list DBusValue) :=
                   match l with
                   | [] => Def []
                   | filter :: l' =>
                       (entry <- AppendSingleFilter filter ;;
                        rest <- each l' ;;
                        Def (entry :: rest))
                   end) filters ;;
     wildcard <- AppendWildcardFilter None ;;
     current <- match nth_error filterList 0 with
                | Some filter => AppendSingleFilter filter
                | None => Undef ReadOutOfBounds
                end ;;
     Def [filters_entry (structs ++ [wildcard]); current_filter_entry current])%ub
  else Def [].

End Native.

(** The classification functions of <cctype> in the "C" locale, the
    locale of a program that never calls [setlocale]; the argument and
    the result are [int]s. *)
Module Ctype.

Definition isupper (c : Z) : bool := ((65 <=? c) && (c <=? 90))%Z.

Definition islower (c : Z) : bool := ((97 <=? c) && (c <=? 122))%Z.

Definition isalpha (c : Z) : bool := isupper c || islower c.

Definition tolower (c : Z) : Z := if isupper c then (c + 32)%Z else c.

Definition toupper (c : Z) : Z := if islower c then (c - 32)%Z else c.

End Ctype.

(** The bytes written through [out] for the range [[begin, end)]. *)
Fixpoint genCaseSensitivePattern (r : list char) : list char :=
  match r with
  | [] => []
  | c :: r' =>
      if Ctype.isalpha (char_to_int c)
      then "["%char
           :: int_to_char (Ctype.tolower (char_to_int c))
           :: int_to_char (Ctype.toupper (char_to_int c))
           :: "]"%char
           :: genCaseSensitivePattern r'
      else c :: genCaseSensitivePattern r'
  end.

Module Win.

(** The largest [int]. *)
Definition INT_MAX : N := 2147483647.

(** The value of an [int] expression whose mathematical result is [n]. *)
Definition int_result (n : nat) : ub nat :=
  if (INT_MAX <? N.of_nat n)%N then Undef SizeOverflow else Def n.

(** [int letter_count = 0;] and the [++letter_count] of the scan of
    [[pattern_begin, pattern_end)], started with the counter at
    [letter_count]. *)
Fixpoint letter_count_from (letter_count : nat) (r : list char) : ub nat :=
  match r with
  | [] => Def letter_count
  | c :: r' =>
      if Ctype.isalpha (char_to_int c)
      then (letter_count <- int_result (letter_count + 1) ;;
            letter_count_from letter_count r')%ub
      else letter_count_from letter_count r'
  end.

Definition letter_count (r : list char) : ub nat := letter_count_from 0 r.

(** The scratch buffer,
    [alloca((pattern_end - pattern_begin) + 3 * letter_count + 1)] with
    the product computed in [int], and the pattern emitted from it. *)
Definition glob_pattern (r : list char) : ub DBusValue :=
  (letter_count <- letter_count r ;;
   tripled <- int_result (3 * letter_count) ;;
   buf <- store (length r + tripled + 1)
                (genCaseSensitivePattern r ++ [NUL]) ;;
   s <- string_at buf ;;
   Def (DStruct [DUInt32 0; DString s]))%ub.

(** The [while (true)] loop over the semicolon-separated patterns.  The
    fuel bounds the iterations by the bytes left in the object. *)
Fixpoint pattern_loop (fuel : nat) (pattern_begin : ptr) : ub (list DBusValue) :=
  match fuel with
  | 0 => Undef ReadOutOfBounds
  | S fuel' =>
      ('(r, pattern_end) <- next_item ";" pattern_begin ;;
       entry <- glob_pattern r ;;
       c <- deref pattern_end ;;
       if is_nul c then Def [entry]
       else (rest <- pattern_loop fuel' (tl pattern_end) ;;
             Def (entry :: rest)))%ub
  end.

(** [AppendSingleFilter(base_iter, name, pattern)]. *)
Definition AppendSingleFilter (name pattern : ptr) : ub DBusValue :=
  (_ <- Native.count_sep ";" pattern ;;
   shown <- string_at name ;;
   patterns <- pattern_loop (length pattern) pattern ;;
   Def (DStruct [DString shown; DArray "(us)" patterns]))%ub.

(** The [for] loop over the name/pattern pairs: the structs appended and
    [curFilter].  The counter [i] is an [unsigned long]; it counts
    strings of the buffer and cannot wrap.  The fuel bounds the
    iterations by the bytes left in the buffer. *)
Fixpoint filters_loop (fuel : nat) (i filterIndex : N) (p curFilter : ptr)
  : ub (list DBusValue * ptr) :=
  match fuel with
  | 0 => Undef ReadOutOfBounds
  | S fuel' =>
      (c <- deref p ;;
       if is_nul c then Def ([], curFilter)
       else
         let curFilter := if (i =? filterIndex)%N then p else curFilter in
         let name := p in
         p <- past_string p ;;
         c <- deref p ;;
         if is_nul c
         then (entry <- AppendWildcardFilter (Some name) ;;
               Def ([entry], curFilter))
         else (entry <- AppendSingleFilter name p ;;
               p <- past_string p ;;
               '(rest, curFilter) <-
                 filters_loop fuel' (i + 1)%N filterIndex p curFilter ;;
               Def (entry :: rest, curFilter)))%ub
  end.

(** The dict entries appended to the options dictionary. *)
Definition AppendFileQueryDictEntryFilters (winFilter : option ptr)
    (filterIndex : N) : ub (list DBusValue) :=
  match winFilter with
  | None => Def []
  | Some winFilter =>
      (c <- deref winFilter ;;
       if is_nul c then Def []
       else
         ('(structs, curFilter) <-
            filters_loop (length winFilter) 1%N filterIndex winFilter winFilter ;;
          curFilterPattern <- past_string curFilter ;;
          c <- deref curFilterPattern ;;
          current <- (if is_nul c
                      then AppendWildcardFilter (Some curFilter)
                      else AppendSingleFilter curFilter curFilterPattern) ;;
          Def [Native.filters_entry structs;
               Native.current_filter_entry current]))%ub
  end.

End Win.

(* ================================================================= *)
(** ** The message iterator of libdbus *)

Module Iter.

Inductive arg_type : Type :=
| TYPE_INVALID | TYPE_BYTE | TYPE_BOOLEAN | TYPE_UINT32 | TYPE_STRING
| TYPE_OBJECT_PATH | TYPE_OTHER | TYPE_ARRAY | TYPE_STRUCT | TYPE_VARIANT
| TYPE_DICT_ENTRY.

Definition arg_type_eqb (a b : arg_type) : bool :=
  match a, b with
  | TYPE_INVALID, TYPE_INVALID | TYPE_BYTE, TYPE_BYTE
  | TYPE_BOOLEAN, TYPE_BOOLEAN | TYPE_UINT32, TYPE_UINT32
  | TYPE_STRING, TYPE_STRING | TYPE_OBJECT_PATH, TYPE_OBJECT_PATH
  | TYPE_OTHER, TYPE_OTHER | TYPE_ARRAY, TYPE_ARRAY
  | TYPE_STRUCT, TYPE_STRUCT | TYPE_VARIANT, TYPE_VARIANT
  | TYPE_DICT_ENTRY, TYPE_DICT_ENTRY => true
  | _, _ => false
  end.

(** A [DBusMessageIter]: the value it stands on and those after it in
    the same container. *)
Definition DBusMessageIter : Type := list DBusValue.

Definition type_of (v : DBusValue) : arg_type :=
  match v with
  | DByte _ => TYPE_BYTE
  | DBoolean _ => TYPE_BOOLEAN
  | DUInt32 _ => TYPE_UINT32
  | DString _ => TYPE_STRING
  | DObjectPath _ => TYPE_OBJECT_PATH
  | DOther _ => TYPE_OTHER
  | DArray _ _ => TYPE_ARRAY
  | DStruct _ => TYPE_STRUCT
  | DVariant _ _ => TYPE_VARIANT
  | DDictEntry _ => TYPE_DICT_ENTRY
  end.

(** [dbus_message_iter_init]: the iterator, and [false] when the message
    has no arguments. *)
Definition init (msg : DBusMessage) : bool * DBusMessageIter :=
  (match msg_args msg with [] => false | _ :: _ => true end, msg_args msg).

Definition get_arg_type (iter : DBusMessageIter) : arg_type :=
  match iter with
  | [] => TYPE_INVALID
  | v :: _ => type_of v
  end.

(** [dbus_message_iter_next]: steps over the current value; [false] when
    nothing follows it. *)
Definition next (iter : DBusMessageIter) : bool * DBusMessageIter :=
  match iter with
  | [] => (false, [])
  | _ :: rest => (match rest with [] => false | _ :: _ => true end, rest)
  end.

(** [dbus_message_iter_recurse], defined on a container. *)
Definition recurse (iter : DBusMessageIter) : ub DBusMessageIter :=
  match iter with
  | DArray _ elements :: _ => Def elements
  | DStruct fields :: _ => Def fields
  | DDictEntry fields :: _ => Def fields
  | DVariant _ content :: _ => Def [content]
  | _ => Undef BadCall
  end.

(** [dbus_message_iter_get_basic] on a string or an object path: the
    pointer to the characters, which the message owns. *)
Definition get_string (iter : DBusMessageIter) : ub ptr :=
  match iter with
  | DString s :: _ => Def (c_string s)
  | DObjectPath s :: _ => Def (c_string s)
  | _ => Undef BadCall
  end.

Definition get_uint32 (iter : DBusMessageIter) : ub N :=
  match iter with
  | DUInt32 n :: _ => Def n
  | _ => Undef BadCall
  end.

(** [dbus_message_iter_get_element_count], defined on an array. *)
Definition get_element_count (iter : DBusMessageIter) : ub nat :=
  match iter with
  | DArray _ elements :: _ => Def (length elements)
  | _ => Undef BadCall
  end.

(** [dbus_message_is_signal]. *)
Definition is_signal (msg : DBusMessage) (interface member : string) : bool :=
  match msg_type msg with
  | Signal => String.eqb (msg_interface msg) interface
              && String.eqb (msg_member msg) member
  | _ => false
  end.

End Iter.

(* ================================================================= *)
(** ** 4.E  Response parser *)

Module Response.

Import Iter.

(** A callback of [ReadDict]: it gets the content of the variant and the
    variables it captured by reference, and returns those with its
    result code. *)
Definition callback (S : Type) : Type :=
  DBusMessageIter -> S -> M (nfdresult_t * S).

Fixpoint ReadDictImpl {S : Type} (key : list char) (iter : DBusMessageIter)
    (args : list (list char * callback S)) (captured : S)
  : M (nfdresult_t * S) :=
  match args with
  | [] => ret (NFD_OKAY, captured)
  | (candidate_key, candidate_callback) :: args' =>
      if bytes_eqb key candidate_key
      then candidate_callback iter captured
      else ReadDictImpl key iter args' captured
  end.

(** The [while] loop of [ReadDict] over the entries of the dictionary. *)
Fixpoint ReadDict_loop {S : Type} (sub_iter : DBusMessageIter)
    (args : list (list char * callback S)) (captured : S)
  : M (nfdresult_t * S) :=
  match sub_iter with
  | DDictEntry fields :: sub_iter' =>
      let de_iter := fields in
      if negb (arg_type_eqb (get_arg_type de_iter) TYPE_STRING) then
        (NFDi_SetError
           (Some "D-Bus response signal dict entry does not start with a string."%string) ;;;
         ret (NFD_ERROR, captured))%M
      else
        (key <- lift (ub_bind (get_string de_iter) string_at) ;;
         let '(more, de_iter) := next de_iter in
         if negb more then
           NFDi_SetError
             (Some "D-Bus response signal dict entry is missing one or more arguments."%string) ;;;
           ret (NFD_ERROR, captured)
         else if negb (arg_type_eqb (get_arg_type de_iter) TYPE_VARIANT) then
           NFDi_SetError
             (Some "D-Bus response signal dict entry value is not a variant."%string) ;;;
           ret (NFD_ERROR, captured)
         else
           de_variant_iter <- lift (recurse de_iter) ;;
           '(res, captured) <- ReadDictImpl key de_variant_iter args captured ;;
           if nfdresult_eqb res NFD_ERROR then ret (NFD_ERROR, captured)
           else ReadDict_loop sub_iter' args captured)%M
  | _ => ret (NFD_OKAY, captured)
  end.

Definition ReadDict {S : Type} (iter : DBusMessageIter)
    (args : list (list char * callback S)) (captured : S)
  : M (nfdresult_t * S) :=
  if negb (arg_type_eqb (get_arg_type iter) TYPE_ARRAY) then
    (NFDi_SetError (Some "D-Bus response signal argument is not an array."%string) ;;;
     ret (NFD_ERROR, captured))%M
  else
    (sub_iter <- lift (recurse iter) ;;
     ReadDict_loop sub_iter args captured)%M.

(** The result code and, on [NFD_OKAY], [resultsIter]. *)
Definition ReadResponseResults (msg : DBusMessage)
  : M (nfdresult_t * option DBusMessageIter) :=
  let '(has_args, iter) := init msg in
  if negb has_args then
    (NFDi_SetError
       (Some "D-Bus response signal is missing one or more arguments."%string) ;;;
     ret (NFD_ERROR, None))%M
  else if negb (arg_type_eqb (get_arg_type iter) TYPE_UINT32) then
    (NFDi_SetError (Some "D-Bus response signal argument is not a uint32."%string) ;;;
     ret (NFD_ERROR, None))%M
  else
    (resp_code <- lift (get_uint32 iter) ;;
     if negb (resp_code =? 0)%N then
       if (resp_code =? 1)%N then ret (NFD_CANCEL, None)
       else
         NFDi_SetError
           (Some "D-Bus file dialog interaction was ended abruptly."%string) ;;;
         ret (NFD_ERROR, None)
     else
       let '(more, iter) := next iter in
       if negb more then
         NFDi_SetError
           (Some "D-Bus response signal is missing one or more arguments."%string) ;;;
         ret (NFD_ERROR, None)
       else ret (NFD_OKAY, Some iter))%M.

Definition STR_URIS : list char := lit "uris".

(** The result code and, on [NFD_OKAY], [uriIter].  The callback
    captures [uriIter] and [has_uris]. *)
Definition ReadResponseUris (msg : DBusMessage)
  : M (nfdresult_t * option DBusMessageIter) :=
  ('(res, iter) <- ReadResponseResults msg ;;
   match res, iter with
   | NFD_OKAY, Some iter =>
       '(res, (uriIter, has_uris)) <-
         ReadDict iter
           [(STR_URIS,
             fun uris_iter '(uriIter, has_uris) =>
               if negb (arg_type_eqb (get_arg_type uris_iter) TYPE_ARRAY) then
                 NFDi_SetError
                   (Some "D-Bus response signal URI iter is not an array."%string) ;;;
                 ret (NFD_ERROR, (uriIter, has_uris))
               else
                 sub <- lift (recurse uris_iter) ;;
                 ret (NFD_OKAY, (Some sub, true)))]
           (None, false) ;;
       if nfdresult_eqb res NFD_ERROR then ret (NFD_ERROR, None)
       else if negb has_uris then
         NFDi_SetError (Some "D-Bus response signal has no URI field."%string) ;;;
         ret (NFD_ERROR, None)
       else ret (NFD_OKAY, uriIter)
   | _, _ => ret (res, None)
   end)%M.

(** [uriIter] is left unassigned ([None]) when the message has no
    "uris". *)
Definition ReadResponseUrisUnchecked (msg : DBusMessage)
  : M (option DBusMessageIter) :=
  (let '(_, iter) := init msg in
   let '(_, iter) := next iter in
   '(_, uriIter) <-
     ReadDict iter
       [(STR_URIS,
         fun uris_iter (_ : option DBusMessageIter) =>
           sub <- lift (recurse uris_iter) ;;
           ret (NFD_OKAY, Some sub))]
       None ;;
   ret uriIter)%M.

Definition ReadResponseUrisUncheckedGetArraySize (msg : DBusMessage) : M nat :=
  (let '(_, iter) := init msg in
   let '(_, iter) := next iter in
   '(_, sz) <-
     ReadDict iter
       [(STR_URIS,
         fun uris_iter (_ : nat) =>
           sz <- lift (get_element_count uris_iter) ;;
           ret (NFD_OKAY, sz))]
       0 ;;
   ret sz)%M.

(** The result code and, on [NFD_OKAY], [file]. *)
Definition ReadResponseUrisSingle (msg : DBusMessage)
  : M (nfdresult_t * option ptr) :=
  ('(res, uri_iter) <- ReadResponseUris msg ;;
   match res, uri_iter with
   | NFD_OKAY, Some uri_iter =>
       if negb (arg_type_eqb (get_arg_type uri_iter) TYPE_STRING) then
         NFDi_SetError
           (Some "D-Bus response signal URI sub iter is not a string."%string) ;;;
         ret (NFD_ERROR, None)
       else
         file <- lift (get_string uri_iter) ;;
         ret (NFD_OKAY, Some file)
   | _, _ => ret (res, None)
   end)%M.

End Response.

(* ================================================================= *)
(** ** 4.D  Query builder *)

(** Modelled from the spec: the struct [NfdDialogParams] of nfd.h, which
    is not among the sources; the dialog request of section 3 of the
    spec, with the fields nfd_portal.cpp reads and writes.  [outPath] and
    [outAsyncOpHandle] are pointers to variables of the caller:
    [outPath] holds what [*params->outPath] holds, [outAsyncOpHandle] is
    [None] for a null pointer and else holds [*params->outAsyncOpHandle].
    ['handle] is the type of an asynchronous operation handle. *)
Record NfdDialogParams (handle : Type) : Type := mkParams {
  parentWindow : N;
  title : option ptr;
  winFilter : option ptr;
  filterIndex : N;
  defaultName : option ptr;
  defaultPath : option ptr;
  outPath : option (list char);
  outPathSize : nat;
  outAsyncOpHandle : option (option handle)
}.

Arguments mkParams {handle}.
Arguments parentWindow {handle}.
Arguments title {handle}.
Arguments winFilter {handle}.
Arguments filterIndex {handle}.
Arguments defaultName {handle}.
Arguments defaultPath {handle}.
Arguments outPath {handle}.
Arguments outPathSize {handle}.
Arguments outAsyncOpHandle {handle}.

Definition set_outPath {handle : Type} (path : option (list char)) (size : nat)
    (p : NfdDialogParams handle) : NfdDialogParams handle :=
  mkParams (parentWindow p) (title p) (winFilter p) (filterIndex p)
           (defaultName p) (defaultPath p) path size (outAsyncOpHandle p).

Definition set_outAsyncOpHandle {handle : Type} (h : handle)
    (p : NfdDialogParams handle) : NfdDialogParams handle :=
  mkParams (parentWindow p) (title p) (winFilter p) (filterIndex p)
           (defaultName p) (defaultPath p) (outPath p) (outPathSize p)
           (Some (Some h)).

Module Query.

Definition STR_EMPTY : list char := lit "".
Definition STR_OPEN_FILE : list char := lit "Open File".
Definition STR_OPEN_FILES : list char := lit "Open Files".
Definition STR_SAVE_FILE : list char := lit "Save File".
Definition STR_SELECT_FOLDER : list char := lit "Select Folder".
Definition STR_HANDLE_TOKEN : list char := lit "handle_token".
Definition STR_MULTIPLE : list char := lit "multiple".
Definition STR_DIRECTORY : list char := lit "directory".
Definition STR_CURRENT_NAME : list char := lit "current_name".
Definition STR_CURRENT_FOLDER : list char := lit "current_folder".
Definition STR_CURRENT_FILE : list char := lit "current_file".

(** The values appended for the title. *)
Definition AppendOpenFileQueryTitle (Multiple Directory : bool) (title : option ptr)
  : ub (list DBusValue) :=
  match title with
  | Some title => (s <- string_at title ;; Def [DString s])%ub
  | None =>
      if negb Multiple && negb Directory then Def [DString STR_OPEN_FILE]
      else if Multiple && negb Directory then Def [DString STR_OPEN_FILES]
      else if negb Multiple then Def [DString STR_SELECT_FOLDER]
      else Def []
  end.

(** Called with the default argument only. *)
Definition AppendSaveFileQueryTitle : list DBusValue := [DString STR_SAVE_FILE].

Definition AppendOpenFileQueryDictEntryHandleToken (handle_token : ptr)
  : ub (list DBusValue) :=
  (token <- string_at handle_token ;;
   Def [DDictEntry [DString STR_HANDLE_TOKEN; DVariant "s" (DString token)]])%ub.

Definition AppendOpenFileQueryDictEntryMultiple (Multiple : bool) : list DBusValue :=
  if Multiple
  then [DDictEntry [DString STR_MULTIPLE; DVariant "b" (DBoolean true)]]
  else [].

Definition AppendOpenFileQueryDictEntryDirectory (Directory : bool) : list DBusValue :=
  if Directory
  then [DDictEntry [DString STR_DIRECTORY; DVariant "b" (DBoolean true)]]
  else [].

Definition AppendSaveFileQueryDictEntryCurrentName (name : option ptr)
  : ub (list DBusValue) :=
  match name with
  | None => Def []
  | Some name =>
      (s <- string_at name ;;
       Def [DDictEntry [DString STR_CURRENT_NAME; DVariant "s" (DString s)]])%ub
  end.

(** The string as a byte array, with its terminating NUL. *)
Definition AppendSaveFileQueryDictEntryCurrentFolder (path : option ptr)
  : ub (list DBusValue) :=
  match path with
  | None => Def []
  | Some path =>
      (s <- string_at path ;;
       Def [DDictEntry [DString STR_CURRENT_FOLDER;
                        DVariant "ay" (DArray "y" (map DByte (s ++ [NUL])))]])%ub
  end.

(** [access(pathname, F_OK) == 0]. *)
Definition access (pathname : list char) : M bool :=
  (files <- get existing_files ;;
   ret (existsb (bytes_eqb pathname) files))%M.

Definition AppendSaveFileQueryDictEntryCurrentFile (path name : option ptr)
  : M (list DBusValue) :=
  match path, name with
  | Some path, Some name =>
      (path_chars <- lift (string_at path) ;;
       name_chars <- lift (string_at name) ;;
       let path_len := length path_chars in
       let name_len := length name_chars in
       pathname <-
         lift (if negb (path_len =? 0)
                  && Ascii.eqb (last path_chars NUL) "/"
               then store (path_len + name_len + 1)
                          (path_chars ++ name_chars ++ [NUL])
               else store (path_len + 1 + name_len + 1)
                          (path_chars ++ "/"%char :: name_chars ++ [NUL])) ;;
       file <- lift (string_at pathname) ;;
       exists_ <- access file ;;
       if negb exists_ then ret []
       else ret [DDictEntry [DString STR_CURRENT_FILE;
                             DVariant "ay" (DArray "y" (map DByte pathname))]])%M
  | _, _ => ret []
  end.

Definition hex_digit (d : N) : char :=
  if (d <? 10)%N then ascii_of_N (48 + d) else ascii_of_N (87 + d).

Fixpoint hex_digits (fuel : nat) (n : N) (acc : list char) : list char :=
  match fuel with
  | 0 => acc
  | S fuel' =>
      if (n =? 0)%N then acc
      else hex_digits fuel' (n / 16)%N (hex_digit (n mod 16)%N :: acc)
  end.

(** [sprintf] with "%08lx": lower-case hexadecimal, at least eight
    digits. *)
Definition format_08lx (n : N) : list char :=
  let digits := hex_digits (N.size_nat n) n [] in
  repeat "0"%char (8 - length digits) ++ digits.

(** [sizeof(parentWindow)], an [unsigned long]. *)
Definition SIZEOF_PARENT_WINDOW : nat := 8.

Definition AppendFileQueryParentWindow (parentWindow : N) : ub (list DBusValue) :=
  if negb (parentWindow =? 0)%N then
    (parentWindowStr <-
       store (5 + SIZEOF_PARENT_WINDOW)
             (lit "x11:" ++ format_08lx parentWindow ++ [NUL]) ;;
     s <- string_at parentWindowStr ;;
     Def [DString s])%ub
  else Def [DString STR_EMPTY].

(** The arguments of [OpenFile] for the native filter list. *)
Definition AppendOpenFileQueryParams (Multiple Directory : bool)
    (handle_token : ptr) (filterList : list nfdnfilteritem_t) (filterCount : nat)
  : ub (list DBusValue) :=
  (title <- AppendOpenFileQueryTitle Multiple Directory None ;;
   token <- AppendOpenFileQueryDictEntryHandleToken handle_token ;;
   filters <- (if negb Directory
               then Native.AppendOpenFileQueryDictEntryFilters filterList filterCount
               else Def []) ;;
   Def (DString STR_EMPTY :: title
        ++ [DArray "{sv}"
              (token ++ AppendOpenFileQueryDictEntryMultiple Multiple
               ++ AppendOpenFileQueryDictEntryDirectory Directory
               ++ filters)]))%ub.

(** The arguments of [OpenFile] for [NfdDialogParams]. *)
Definition AppendOpenFileQueryParams_win {handle : Type} (Multiple Directory : bool)
    (handle_token : ptr) (params : NfdDialogParams handle) : ub (list DBusValue) :=
  (parent <- AppendFileQueryParentWindow (parentWindow params) ;;
   title <- AppendOpenFileQueryTitle Multiple Directory (title params) ;;
   token <- AppendOpenFileQueryDictEntryHandleToken handle_token ;;
   filters <- (if Directory then Def []
               else Win.AppendFileQueryDictEntryFilters
                      (winFilter params) (filterIndex params)) ;;
   Def (parent ++ title
        ++ [DArray "{sv}"
              (token ++ AppendOpenFileQueryDictEntryMultiple Multiple
               ++ AppendOpenFileQueryDictEntryDirectory Directory
               ++ filters)]))%ub.

(** The arguments of [SaveFile] for [NfdDialogParams]. *)
Definition AppendSaveFileQueryParams_win {handle : Type} (handle_token : ptr)
    (params : NfdDialogParams handle) : M (list DBusValue) :=
  (parent <- lift (AppendFileQueryParentWindow (parentWindow params)) ;;
   token <- lift (AppendOpenFileQueryDictEntryHandleToken handle_token) ;;
   filters <- lift (Win.AppendFileQueryDictEntryFilters
                      (winFilter params) (filterIndex params)) ;;
   current_name <- lift (AppendSaveFileQueryDictEntryCurrentName (defaultName params)) ;;
   current_folder <- lift (AppendSaveFileQueryDictEntryCurrentFolder (defaultPath params)) ;;
   current_file <- AppendSaveFileQueryDictEntryCurrentFile
                     (defaultPath params) (defaultName params) ;;
   ret (parent ++ AppendSaveFileQueryTitle
        ++ [DArray "{sv}"
              (token ++ filters ++ current_name ++ current_folder
               ++ current_file)]))%M.

(** The arguments of [SaveFile] for the native filter list. *)
Definition AppendSaveFileQueryParams (handle_token : ptr)
    (filterList : list nfdnfilteritem_t) (filterCount : nat)
    (defaultPath defaultName : option ptr) : M (list DBusValue) :=
  (token <- lift (AppendOpenFileQueryDictEntryHandleToken handle_token) ;;
   filters <- lift (Native.AppendSaveFileQueryDictEntryFilters
                      filterList filterCount defaultName) ;;
   current_name <- lift (AppendSaveFileQueryDictEntryCurrentName defaultName) ;;
   current_folder <- lift (AppendSaveFileQueryDictEntryCurrentFolder defaultPath) ;;
   current_file <- AppendSaveFileQueryDictEntryCurrentFile defaultPath defaultName ;;
   ret (DString STR_EMPTY :: AppendSaveFileQueryTitle
        ++ [DArray "{sv}"
              (token ++ filters ++ current_name ++ current_folder
               ++ current_file)]))%M.

End Query.

(* ================================================================= *)
(** ** 4.F  Dialog driver *)

Module Driver.

Import Iter.

Definition STR_RESPONSE_SUBSCRIPTION_PATH_1 : list char :=
  lit "type='signal',sender='org.freedesktop.portal.Desktop',path='".

Definition STR_RESPONSE_SUBSCRIPTION_PATH_2 : list char :=
  lit "',interface='org.freedesktop.portal.Request',member='Response',destination='".

Definition STR_RESPONSE_SUBSCRIPTION_PATH_3 : list char := lit "'".

Definition MakeResponseSubscriptionPath (handle_path unique_name : ptr)
  : ub (list char) :=
  (handle_chars <- string_at handle_path ;;
   unique_chars <- string_at unique_name ;;
   let sz := length STR_RESPONSE_SUBSCRIPTION_PATH_1 + length handle_chars
             + length STR_RESPONSE_SUBSCRIPTION_PATH_2 + length unique_chars
             + length STR_RESPONSE_SUBSCRIPTION_PATH_3 in
   store (sz + 1)
         (STR_RESPONSE_SUBSCRIPTION_PATH_1 ++ handle_chars
          ++ STR_RESPONSE_SUBSCRIPTION_PATH_2 ++ unique_chars
          ++ STR_RESPONSE_SUBSCRIPTION_PATH_3 ++ [NUL]))%ub.

(** [dbus_bus_add_match] with an error argument: the next scripted
    answer, [Some message] when the error is set.  A rule that the bus
    accepts is recorded. *)
Definition dbus_bus_add_match (rule : list char) : M (option string) :=
  fun w =>
    match add_match_replies w with
    | [] => Undef ScriptExhausted
    | None :: rest =>
        Def (None, set_match_rules (match_rules w ++ [rule])
                     (set_add_match_replies rest w))
    | Some message :: rest => Def (Some message, set_add_match_replies rest w)
    end.

Fixpoint remove_rule (rule : list char) (rules : list (list char))
  : list (list char) :=
  match rules with
  | [] => []
  | r :: rules' => if bytes_eqb r rule then rules' else r :: remove_rule rule rules'
  end.

(** [dbus_bus_remove_match]; its error is discarded by the caller. *)
Definition dbus_bus_remove_match (rule : list char) : M unit :=
  fun w => Def (tt, set_match_rules (remove_rule rule (match_rules w)) w).

(** The class [DBusSignalSubscriptionHandler] is its member [sub_cmd],
    the rule without its terminating NUL, [None] for null. *)
Definition Unsubscribe (sub_cmd : option (list char)) : M (option (list char)) :=
  match sub_cmd with
  | Some rule => (dbus_bus_remove_match rule ;;; ret None)%M
  | None => ret None
  end.

(** The destructor: [if (sub_cmd) Unsubscribe();]. *)
Definition destroy_subscription (sub_cmd : option (list char)) : M unit :=
  match sub_cmd with
  | Some _ => (Unsubscribe sub_cmd ;;; ret tt)%M
  | None => ret tt
  end.

(** The result code and the new [sub_cmd]. *)
Definition Subscribe (handle_path : ptr) (sub_cmd : option (list char))
  : M (nfdresult_t * option (list char)) :=
  (sub_cmd <- (match sub_cmd with
               | Some _ => Unsubscribe sub_cmd
               | None => ret sub_cmd
               end) ;;
   unique_name <- get dbus_unique_name ;;
   rule <- lift (MakeResponseSubscriptionPath handle_path unique_name) ;;
   rule <- lift (string_at rule) ;;
   err <- dbus_bus_add_match rule ;;
   match err with
   | Some message =>
       modify (set_dbus_err (Some message)) ;;;
       NFDi_SetError (Some message) ;;;
       ret (NFD_ERROR, Some rule)
   | None => ret (NFD_OKAY, Some rule)
   end)%M.

(** [dbus_connection_send_with_reply_and_block]: the next scripted
    answer, the reply or the message of the error; the call is
    recorded. *)
Definition send_with_reply_and_block (query : DBusMessage)
  : M (string + DBusMessage) :=
  fun w =>
    match send_replies w with
    | [] => Undef ScriptExhausted
    | r :: rest => Def (r, set_sent (sent w ++ [query]) (set_send_replies rest w))
    end.

Definition new_method_call (destination path interface method : string)
    (args : list DBusValue) : DBusMessage :=
  mkMessage MethodCall path interface method args.

Definition portal_call (method : string) (args : list DBusValue) : DBusMessage :=
  new_method_call "org.freedesktop.portal.Desktop"
                  "/org/freedesktop/portal/desktop"
                  "org.freedesktop.portal.FileChooser" method args.

(** The inner [while (true)] loop: pops messages up to the first
    [Response] signal; the messages before it are released. *)
Fixpoint pop_until_response (q : list DBusMessage)
  : option DBusMessage * list DBusMessage :=
  match q with
  | [] => (None, [])
  | msg :: q' =>
      if is_signal msg "org.freedesktop.portal.Request" "Response"
      then (Some msg, q')
      else pop_until_response q'
  end.

(** The [do ... while (dbus_connection_read_write(dbus_conn, -1))] loop
    that waits for the response; every blocking read brings in the next
    batch of messages, and fails when the connection is closed. *)
Fixpoint wait_loop (q : list DBusMessage) (later : list (list DBusMessage))
  : option DBusMessage * list DBusMessage * list (list DBusMessage) :=
  match pop_until_response q with
  | (Some msg, q') => (Some msg, q', later)
  | (None, _) =>
      match later with
      | [] => (None, [], [])
      | batch :: later' => wait_loop batch later'
      end
  end.

(** The wait with which [NFD_DBus_OpenFile], [NFD_DBus_SaveFile],
    [NFD_DBus_OpenFileWin] and [NFD_DBus_SaveFileWin] end: [NFD_OKAY]
    and [outMsg], or the error. *)
Definition wait_for_response : M (nfdresult_t * option DBusMessage) :=
  (q <- get queue ;;
   later <- get arrivals ;;
   let '(found, q, later) := wait_loop q later in
   modify (set_queue q) ;;;
   modify (set_arrivals later) ;;;
   match found with
   | Some msg => ret (NFD_OKAY, Some msg)
   | None =>
       NFDi_SetError
         (Some "D-Bus freedesktop portal did not give us a reply."%string) ;;;
       ret (NFD_ERROR, None)
   end)%M.

(** The part that the four request functions share once the query
    exists: the blocking call and the check of the reply, with the
    change of the subscription when the portal answers with another
    object path.  The result code and [sub_cmd]. *)
Definition send_and_rebind (query : DBusMessage) (handle_obj_path : list char)
    (sub_cmd : option (list char)) : M (nfdresult_t * option (list char)) :=
  (reply <- send_with_reply_and_block query ;;
   match reply with
   | inl message =>
       modify (set_dbus_err (Some message)) ;;;
       NFDi_SetError (Some message) ;;;
       ret (NFD_ERROR, sub_cmd)
   | inr reply =>
       let '(has_args, iter) := init reply in
       if negb has_args then
         NFDi_SetError (Some "D-Bus reply is missing an argument."%string) ;;;
         ret (NFD_ERROR, sub_cmd)
       else if negb (arg_type_eqb (get_arg_type iter) TYPE_OBJECT_PATH) then
         NFDi_SetError (Some "D-Bus reply is not an object path."%string) ;;;
         ret (NFD_ERROR, sub_cmd)
       else
         path <- lift (get_string iter) ;;
         path_chars <- lift (string_at path) ;;
         handle_chars <- lift (string_at handle_obj_path) ;;
         if negb (bytes_eqb path_chars handle_chars) then
           (* the result of this Subscribe is not looked at *)
           '(_, sub_cmd) <- Subscribe path sub_cmd ;;
           ret (NFD_OKAY, sub_cmd)
         else ret (NFD_OKAY, sub_cmd)
   end)%M.

(** [NFD_DBus_OpenFile<Multiple, Directory>]. *)
Definition NFD_DBus_OpenFile (Multiple Directory : bool)
    (filterList : list nfdnfilteritem_t) (filterCount : nat)
  : M (nfdresult_t * option DBusMessage) :=
  ('(handle_obj_path, handle_token_ptr) <- HandleGenerator.MakeUniqueObjectPath ;;
   '(res, signal_sub) <- Subscribe handle_obj_path None ;;
   if negb (nfdresult_eqb res NFD_OKAY)
   then destroy_subscription signal_sub ;;; ret (res, None)
   else
     args <- lift (Query.AppendOpenFileQueryParams
                     Multiple Directory handle_token_ptr filterList filterCount) ;;
     '(res, signal_sub) <-
       send_and_rebind (portal_call "OpenFile" args) handle_obj_path signal_sub ;;
     if negb (nfdresult_eqb res NFD_OKAY)
     then destroy_subscription signal_sub ;;; ret (res, None)
     else
       out <- wait_for_response ;;
       destroy_subscription signal_sub ;;;
       ret out)%M.

(** [NFD_DBus_ShowOpenFileDialog<Multiple, Directory>]. *)
Definition NFD_DBus_ShowOpenFileDialog {handle : Type} (Multiple Directory : bool)
    (params : NfdDialogParams handle) : M nfdresult_t :=
  ('(handle_obj_path, handle_token_ptr) <- HandleGenerator.MakeUniqueObjectPath ;;
   '(res, signal_sub) <- Subscribe handle_obj_path None ;;
   if negb (nfdresult_eqb res NFD_OKAY)
   then destroy_subscription signal_sub ;;; ret res
   else
     args <- lift (Query.AppendOpenFileQueryParams_win
                     Multiple Directory handle_token_ptr params) ;;
     '(res, signal_sub) <-
       send_and_rebind (portal_call "OpenFile" args) handle_obj_path signal_sub ;;
     destroy_subscription signal_sub ;;;
     ret res)%M.

(** [NFD_DBus_OpenFileWin<Multiple, Directory>]. *)
Definition NFD_DBus_OpenFileWin {handle : Type} (Multiple Directory : bool)
    (params : NfdDialogParams handle) : M (nfdresult_t * option DBusMessage) :=
  (res <- NFD_DBus_ShowOpenFileDialog Multiple Directory params ;;
   if negb (nfdresult_eqb res NFD_OKAY) then ret (res, None)
   else wait_for_response)%M.

Definition NFD_DBus_SaveFile (filterList : list nfdnfilteritem_t)
    (filterCount : nat) (defaultPath defaultName : option ptr)
  : M (nfdresult_t * option DBusMessage) :=
  ('(handle_obj_path, handle_token_ptr) <- HandleGenerator.MakeUniqueObjectPath ;;
   '(res, signal_sub) <- Subscribe handle_obj_path None ;;
   if negb (nfdresult_eqb res NFD_OKAY)
   then destroy_subscription signal_sub ;;; ret (res, None)
   else
     args <- Query.AppendSaveFileQueryParams
               handle_token_ptr filterList filterCount defaultPath defaultName ;;
     '(res, signal_sub) <-
       send_and_rebind (portal_call "SaveFile" args) handle_obj_path signal_sub ;;
     if negb (nfdresult_eqb res NFD_OKAY)
     then destroy_subscription signal_sub ;;; ret (res, None)
     else
       out <- wait_for_response ;;
       destroy_subscription signal_sub ;;;
       ret out)%M.

Definition NFD_DBus_ShowSaveFileDialog {handle : Type}
    (params : NfdDialogParams handle) : M nfdresult_t :=
  ('(handle_obj_path, handle_token_ptr) <- HandleGenerator.MakeUniqueObjectPath ;;
   '(res, signal_sub) <- Subscribe handle_obj_path None ;;
   if negb (nfdresult_eqb res NFD_OKAY)
   then destroy_subscription signal_sub ;;; ret res
   else
     args <- Query.AppendSaveFileQueryParams_win handle_token_ptr params ;;
     '(res, signal_sub) <-
       send_and_rebind (portal_call "SaveFile" args) handle_obj_path signal_sub ;;
     destroy_subscription signal_sub ;;;
     ret res)%M.

Definition NFD_DBus_SaveFileWin {handle : Type} (params : NfdDialogParams handle)
  : M (nfdresult_t * option DBusMessage) :=
  (res <- NFD_DBus_ShowSaveFileDialog params ;;
   if negb (nfdresult_eqb res NFD_OKAY) then ret (res, None)
   else wait_for_response)%M.

End Driver.

(* ================================================================= *)
(** ** Multi-path output *)

(** [dirname] and [basename] of <libgen.h>, which makes [basename] the
    POSIX one; both as the C library (glibc) has them: they work in
    place and return a pointer into the argument, or to a static
    string. *)
Module Libgen.

Inductive segment : Type :=
| InBuffer (offset : nat)
| StaticString (s : list char).

(** [strrchr] within the string, as an index. *)
Fixpoint last_index (c : char) (s : list char) : option nat :=
  match s with
  | [] => None
  | x :: s' =>
      match last_index c s' with
      | Some i => Some (S i)
      | None => if Ascii.eqb x c then Some 0 else None
      end
  end.

(** [for (runp = i; runp != path; --runp) if (runp[-1] != '/') break;] *)
Fixpoint run_back (s : list char) (i : nat) : nat :=
  match i with
  | 0 => 0
  | S j => if Ascii.eqb (nth j s NUL) "/" then run_back s j else i
  end.

(** [while (p > filename && p[-1] != '/') --p;] *)
Fixpoint name_back (s : list char) (i : nat) : nat :=
  match i with
  | 0 => 0
  | S j => if Ascii.eqb (nth j s NUL) "/" then i else name_back s j
  end.

(** [buf[k] = c]. *)
Definition set_nth (k : nat) (c : char) (buf : list char) : ub (list char) :=
  if k <? length buf then Def (firstn k buf ++ c :: skipn (S k) buf)
  else Undef WriteOutOfBounds.

Definition dirname (path : list char) : ub (list char * segment) :=
  (s <- string_at path ;;
   let last_slash :=
     match last_index "/" s with
     | Some ls =>
         if negb (ls =? 0) && is_nul (nth (S ls) path NUL) then
           let runp := run_back s ls in
           if negb (runp =? 0) then last_index "/" (firstn runp s)
           else Some ls
         else Some ls
     | None => None
     end in
   match last_slash with
   | Some ls =>
       let runp := run_back s ls in
       let ls := if runp =? 0 then (if ls =? 1 then 2 else 1) else runp in
       path <- set_nth ls NUL path ;;
       Def (path, InBuffer 0)
   | None => Def (path, StaticString (lit "."))
   end)%ub.

Definition basename (filename : list char) : ub (list char * segment) :=
  (s <- string_at filename ;;
   match s with
   | [] => Def (filename, StaticString (lit "."))
   | _ :: _ =>
       match last_index "/" s with
       | None => Def (filename, InBuffer 0)
       | Some p =>
           if is_nul (nth (S p) filename NUL) then
             let p := run_back s p in
             if 0 <? p then
               filename <- set_nth p NUL filename ;;
               Def (filename, InBuffer (name_back s (p - 1)))
             else Def (filename, InBuffer (length s - 1))
           else Def (filename, InBuffer (S p))
       end
   end)%ub.

End Libgen.

Module PathList.

Import Iter.

Inductive Policy : Type := Basename | Dirname | FullPath.

(** The list under construction: the bytes of [[outPathList, curOutPath)]
    and [outPathSize], the size of the allocation. *)
Record OutPathList : Type := mkOut {
  written : list char;
  capacity : nat
}.

Definition INT_MAX : N := 2147483647.

(** [while (size - offset < targetSize) size <<= 1;].  [size] is an
    [int]: the run leaves the model when the doubling passes
    [INT_MAX]. *)
Fixpoint grow (fuel size offset targetSize : nat) : ub nat :=
  if size - offset <? targetSize then
    match fuel with
    | 0 => Undef SizeOverflow
    | S fuel' =>
        if (INT_MAX <? N.of_nat (2 * size))%N then Undef SizeOverflow
        else grow fuel' (2 * size) offset targetSize
    end
  else Def size.

Definition expandOnDemand (out : OutPathList) (targetSize : nat) : ub OutPathList :=
  (size <- grow 32 (capacity out) (length (written out)) targetSize ;;
   Def (mkOut (written out) size))%ub.

(** A store of [bytes] through [curOutPath]. *)
Definition append (out : OutPathList) (bytes : list char) : ub OutPathList :=
  if length (written out) + length bytes <=? capacity out
  then Def (mkOut (written out ++ bytes) (capacity out))
  else Undef WriteOutOfBounds.

(** [copyFileInfo<Policy>]: the result code and the list. *)
Definition copyFileInfo (policy : Policy) (fileUri : ptr) (out : OutPathList)
  : M (nfdresult_t * OutPathList) :=
  (stripped <- lift (UriCodec.skip_file_uri_prefix UriCodec.FILE_URI_PREFIX fileUri) ;;
   match stripped with
   | None =>
       NFDi_SetError (Some UriCodec.ERR_NOT_FILE_URI) ;;;
       ret (NFD_ERROR, out)
   | Some fileUri =>
       measured <- lift (UriCodec.TryUriDecodeLen fileUri) ;;
       match measured with
       | None =>
           NFDi_SetError (Some UriCodec.ERR_MALFORMED_URI) ;;;
           ret (NFD_ERROR, out)
       | Some (decoded_len, file_uri_end) =>
           decoded <- lift (UriCodec.UriDecodeUnchecked (range fileUri file_uri_end)) ;;
           match policy with
           | FullPath =>
               out <- lift (expandOnDemand out (decoded_len + 1)) ;;
               out <- lift (append out (decoded ++ [NUL])) ;;
               ret (NFD_OKAY, out)
           | _ =>
               buf <- lift (store (decoded_len + 1) (decoded ++ [NUL])) ;;
               '(buf, segment) <-
                 lift (match policy with
                       | Basename => Libgen.basename buf
                       | _ => Libgen.dirname buf
                       end) ;;
               match segment with
               | Libgen.InBuffer offset =>
                   segmentLen <- lift (strlen (skipn offset buf)) ;;
                   out <- lift (expandOnDemand out (segmentLen + 1)) ;;
                   (* copy(segment, bufEnd + 1, curOutPath) *)
                   out <- lift (append out (skipn offset buf)) ;;
                   ret (NFD_OKAY, out)
               | Libgen.StaticString _ =>
                   (* the copy starts in another object than the one
                      [bufEnd + 1] ends *)
                   lift (Undef ReadOutOfBounds)
               end
           end
       end
   end)%M.

(** [while (index > 0) { --index; if (!dbus_message_iter_next(..)) ...]:
    [None] when the iterator runs out. *)
Fixpoint advance (index : nat) (uri_iter : DBusMessageIter)
  : option DBusMessageIter :=
  match index with
  | 0 => Some uri_iter
  | S index' =>
      let '(more, uri_iter) := next uri_iter in
      if negb more then None else advance index' uri_iter
  end.

Definition NFD_PathSet_GetCount (pathSet : DBusMessage) : M nat :=
  Response.ReadResponseUrisUncheckedGetArraySize pathSet.

(** [NFD_PathSet_GetPathWin<Policy>]. *)
Definition NFD_PathSet_GetPathWin (policy : Policy) (pathSet : DBusMessage)
    (index : nat) (out : OutPathList) : M (nfdresult_t * OutPathList) :=
  (uri_iter <- Response.ReadResponseUrisUnchecked pathSet ;;
   match uri_iter with
   | None => lift (Undef BadCall)
   | Some uri_iter =>
       match advance index uri_iter with
       | None =>
           NFDi_SetError (Some "Index out of bounds."%string) ;;;
           ret (NFD_ERROR, out)
       | Some uri_iter =>
           if negb (arg_type_eqb (get_arg_type uri_iter) TYPE_STRING) then
             NFDi_SetError
               (Some "D-Bus response signal URI sub iter is not a string."%string) ;;;
             ret (NFD_ERROR, out)
           else
             uri <- lift (get_string uri_iter) ;;
             copyFileInfo policy uri out
       end
   end)%M.

(** [for (i = 1; i < numPaths; ++i)] over the basenames; [count] is the
    number of iterations left. *)
Fixpoint basenames_loop (count : nat) (pathSet : DBusMessage) (i : nat)
    (out : OutPathList) : M (nfdresult_t * OutPathList) :=
  match count with
  | 0 => ret (NFD_OKAY, out)
  | S count' =>
      ('(res, out) <- NFD_PathSet_GetPathWin Basename pathSet i out ;;
       if negb (nfdresult_eqb res NFD_OKAY) then ret (NFD_ERROR, out)
       else basenames_loop count' pathSet (S i) out)%M
  end.

(** [if (pathListSize == curOutPath - base) realloc(base, ++pathListSize);
    *curOutPath = '\0';]: the double-NUL-terminated list. *)
Definition terminate_list (out : OutPathList) : ub OutPathList :=
  let out := if capacity out =? length (written out)
             then mkOut (written out) (S (capacity out))
             else out in
  append out [NUL].

End PathList.

(* ================================================================= *)
(** ** 4.G  Async monitor *)

(** The guarded fields of the class [NfdDialogMonitor]; every member
    function runs under the mutex, so each is one step on this record. *)
Record NfdDialogMonitor : Type := mkMonitor {
  mon_outPath : option (list char);
  mon_outPathSize : nat;
  resultCode : nfdresult_t;
  completed : bool
}.

(** Modelled from the spec: the struct [NfdDialogResponse] of nfd.h,
    which is not among the sources; the output buffer and its size that
    a retrieve hands to the caller (section 4.G of the spec).  [outPath]
    is a pointer to a variable of the caller: [resp_outPath] holds what
    [*result->outPath] holds. *)
Record NfdDialogResponse : Type := mkResponse {
  resp_outPath : option (list char);
  resp_outPathSize : nat
}.

Module Monitor.

Import Iter PathList.

(** The object after its default member initializers. *)
Definition fresh : NfdDialogMonitor := mkMonitor None 0 NFD_ERROR false.

Definition set_out (path : option (list char)) (size : nat) (self : NfdDialogMonitor)
  : NfdDialogMonitor :=
  mkMonitor path size (resultCode self) (completed self).

Definition finish (res : nfdresult_t) (self : NfdDialogMonitor) : NfdDialogMonitor :=
  mkMonitor (mon_outPath self) (mon_outPathSize self) res true.

Definition allocAndCopyFilePath (self : NfdDialogMonitor) (fileUri : ptr)
  : M (nfdresult_t * NfdDialogMonitor) :=
  (stripped <- lift (UriCodec.skip_file_uri_prefix UriCodec.FILE_URI_PREFIX fileUri) ;;
   match stripped with
   | None =>
       NFDi_SetError (Some UriCodec.ERR_NOT_FILE_URI) ;;;
       ret (NFD_ERROR, self)
   | Some fileUri =>
       measured <- lift (UriCodec.TryUriDecodeLen fileUri) ;;
       match measured with
       | None =>
           NFDi_SetError (Some UriCodec.ERR_MALFORMED_URI) ;;;
           ret (NFD_ERROR, self)
       | Some (decoded_len, file_uri_end) =>
           decoded <- lift (UriCodec.UriDecodeUnchecked (range fileUri file_uri_end)) ;;
           path_without_prefix <- lift (store (decoded_len + 1) (decoded ++ [NUL])) ;;
           ret (NFD_OKAY, set_out (Some path_without_prefix) (decoded_len + 1) self)
       end
   end)%M.

Definition copySingleFilepath (self : NfdDialogMonitor) (msg : DBusMessage)
  : M (nfdresult_t * NfdDialogMonitor) :=
  ('(res, uri) <- Response.ReadResponseUrisSingle msg ;;
   match res, uri with
   | NFD_OKAY, Some uri =>
       '(res, self) <- allocAndCopyFilePath self uri ;;
       if negb (nfdresult_eqb res NFD_OKAY) then ret (res, self)
       else ret (NFD_OKAY, self)
   | _, _ => ret (res, self)
   end)%M.

Definition copyMultipleFilePath (self : NfdDialogMonitor) (msg : DBusMessage)
  : M (nfdresult_t * NfdDialogMonitor) :=
  ('(res, uri_iter) <- Response.ReadResponseUris msg ;;
   if negb (nfdresult_eqb res NFD_OKAY) then ret (res, self)
   else
     numPaths <- NFD_PathSet_GetCount msg ;;
     let out := mkOut [] 256 in
     '(res, out) <- NFD_PathSet_GetPathWin
                      (if numPaths =? 1 then FullPath else Dirname) msg 0 out ;;
     if negb (nfdresult_eqb res NFD_OKAY) then ret (res, self)
     else
       '(res, out) <- basenames_loop (numPaths - 1) msg 1 out ;;
       if negb (nfdresult_eqb res NFD_OKAY) then ret (NFD_ERROR, self)
       else
         out <- lift (terminate_list out) ;;
         ret (NFD_OKAY,
              set_out (Some (written out)) (length (written out)) self))%M.

(** The body of the worker thread, [monitorUntilReturn<Multiple>]. *)
Definition monitorUntilReturn (Multiple : bool) (self : NfdDialogMonitor)
  : M NfdDialogMonitor :=
  ('(res, msg) <- Driver.wait_for_response ;;
   match msg with
   | Some msg =>
       '(res, self) <- (if Multiple then copyMultipleFilePath self msg
                        else copySingleFilepath self msg) ;;
       ret (finish res self)
   | None => ret (finish NFD_ERROR self)
   end)%M.

(** [~MutexDestroyGuard]: [pthread_mutex_destroy(m_)].  [allocated]
    tells whether the monitor that holds the mutex is still allocated;
    the call on freed memory is outside the contract of the library. *)
Definition destroy_mutex_guard (allocated : bool) : ub unit :=
  if allocated then Def tt else Undef BadCall.

(** [create<Multiple>]: the new monitor, or null; the thread it starts
    runs [monitorUntilReturn] on its own.  [mutexDestroyGuard] is
    declared after the mutex is initialised and is never released, so
    its destructor runs on both returns that follow: after
    [NFDi_Free(ret)] when [pthread_create] fails, and on the monitor that
    is returned when it succeeds.  The monitor has no member for the
    state of its mutex: a member function is one step, whatever
    [pthread_mutex_lock] answers on the destroyed mutex. *)
Definition create : M (option NfdDialogMonitor) :=
  (mutex <- get mutex_available ;;
   if negb mutex then
     NFDi_SetError (Some "pthread_mutex_init failed"%string) ;;;
     ret None
   else
     thread <- get threads_available ;;
     if negb thread then
       NFDi_SetError (Some "pthread_create failed"%string) ;;;
       lift (destroy_mutex_guard false) ;;;
       ret None
     else
       lift (destroy_mutex_guard true) ;;;
       ret (Some fresh))%M.

Definition hasDialogReturned (self : NfdDialogMonitor) : bool := completed self.

(** The result code, the monitor and [*result] after the call. *)
Definition getDialogResult (self : NfdDialogMonitor) (result : NfdDialogResponse)
  : M (nfdresult_t * NfdDialogMonitor * NfdDialogResponse) :=
  if negb (completed self) then
    (NFDi_SetError (Some "response not ready"%string) ;;;
     ret (NFD_ERROR, self, result))%M
  else if negb (nfdresult_eqb (resultCode self) NFD_OKAY) then
    ret (resultCode self, self, result)
  else
    ret (NFD_OKAY,
         mkMonitor None (mon_outPathSize self) (resultCode self) (completed self),
         mkResponse (mon_outPath self) (mon_outPathSize self)).

End Monitor.

(* ================================================================= *)
(** ** The public functions *)

Definition NFD_ClearError : M unit :=
  (NFDi_SetError None ;;; modify (set_dbus_err None))%M.

Definition NFD_HasAsyncOpCompleted (opHandle : option NfdDialogMonitor) : M bool :=
  match opHandle with
  | None => (NFDi_SetError (Some "opHandle null"%string) ;;; ret false)%M
  | Some monitor => ret (Monitor.hasDialogReturned monitor)
  end.

(** The result code, the monitor behind the handle and [*result] after
    the call. *)
Definition NFD_GetAsyncOpResult (opHandle : option NfdDialogMonitor)
    (result : NfdDialogResponse)
  : M (nfdresult_t * option NfdDialogMonitor * NfdDialogResponse) :=
  match opHandle with
  | None =>
      (NFDi_SetError (Some "opHandle null"%string) ;;;
       ret (NFD_ERROR, None, result))%M
  | Some monitor =>
      ('(res, monitor, result) <- Monitor.getDialogResult monitor result ;;
       ret (res, Some monitor, result))%M
  end.

Definition DialogParams : Type := NfdDialogParams NfdDialogMonitor.

(** The asynchronous branch the three [...Win] dialogs share after their
    [NFD_DBus_Show...Dialog] call. *)
Definition start_monitor (res : nfdresult_t) (params : DialogParams)
  : M (nfdresult_t * DialogParams) :=
  if negb (nfdresult_eqb res NFD_OKAY) then ret (res, params)
  else
    (monitor <- Monitor.create ;;
     match monitor with
     | None => ret (NFD_ERROR, params)
     | Some monitor => ret (NFD_OKAY, set_outAsyncOpHandle monitor params)
     end)%M.

(** The result code and, when [*outPath] is assigned, the new buffer. *)
Definition NFD_OpenDialogN (filterList : list nfdnfilteritem_t) (filterCount : nat)
    (defaultPath : option ptr) : M (nfdresult_t * option (list char)) :=
  ('(res, msg) <- Driver.NFD_DBus_OpenFile false false filterList filterCount ;;
   match res, msg with
   | NFD_OKAY, Some msg =>
       '(res, uri) <- Response.ReadResponseUrisSingle msg ;;
       match res, uri with
       | NFD_OKAY, Some uri =>
           '(res, path) <- UriCodec.AllocAndCopyFilePath uri ;;
           ret (res, option_map fst path)
       | _, _ => ret (res, None)
       end
   | _, _ => ret (res, None)
   end)%M.

(** The tail the synchronous single-path dialogs on [NfdDialogParams]
    share: [ReadResponseUrisSingle], then [AllocAndCopyFilePath] into
    [*params->outPath] and [params->outPathSize]. *)
Definition read_single_path (msg : DBusMessage) (params : DialogParams)
  : M (nfdresult_t * DialogParams) :=
  ('(res, uri) <- Response.ReadResponseUrisSingle msg ;;
   match res, uri with
   | NFD_OKAY, Some uri =>
       '(res, path) <- UriCodec.AllocAndCopyFilePath uri ;;
       match path with
       | Some (path, size) => ret (res, set_outPath (Some path) size params)
       | None => ret (res, params)
       end
   | _, _ => ret (res, params)
   end)%M.

Definition NFD_OpenDialogWin (params : DialogParams) : M (nfdresult_t * DialogParams) :=
  match outAsyncOpHandle params with
  | Some _ =>
      (res <- Driver.NFD_DBus_ShowOpenFileDialog false false params ;;
       start_monitor res params)%M
  | None =>
      ('(res, msg) <- Driver.NFD_DBus_OpenFileWin false false params ;;
       match res, msg with
       | NFD_OKAY, Some msg => read_single_path msg params
       | _, _ => ret (res, params)
       end)%M
  end.

Definition NFD_OpenDialogMultipleWin (params : DialogParams)
  : M (nfdresult_t * DialogParams) :=
  match outAsyncOpHandle params with
  | Some _ =>
      (res <- Driver.NFD_DBus_ShowOpenFileDialog true false params ;;
       start_monitor res params)%M
  | None =>
      ('(res, msg) <- Driver.NFD_DBus_OpenFileWin true false params ;;
       match res, msg with
       | NFD_OKAY, Some msg =>
           '(res, uri_iter) <- Response.ReadResponseUris msg ;;
           if negb (nfdresult_eqb res NFD_OKAY) then ret (res, params)
           else
             numPaths <- PathList.NFD_PathSet_GetCount msg ;;
             let out := PathList.mkOut [] 256 in
             '(res, out) <-
               PathList.NFD_PathSet_GetPathWin
                 (if numPaths =? 1 then PathList.FullPath else PathList.Dirname)
                 msg 0 out ;;
             if negb (nfdresult_eqb res NFD_OKAY)
             then ret (NFD_ERROR, set_outPath None (outPathSize params) params)
             else
               '(res, out) <- PathList.basenames_loop (numPaths - 1) msg 1 out ;;
               if negb (nfdresult_eqb res NFD_OKAY)
               then ret (NFD_ERROR, set_outPath None (outPathSize params) params)
               else
                 out <- lift (PathList.terminate_list out) ;;
                 ret (NFD_OKAY,
                      set_outPath (Some (PathList.written out))
                                  (length (PathList.written out)) params)
       | _, _ => ret (res, params)
       end)%M
  end.

(** The result code and, on [NFD_OKAY], the path set: the response
    message itself. *)
Definition NFD_OpenDialogMultipleN (filterList : list nfdnfilteritem_t)
    (filterCount : nat) (defaultPath : option ptr)
  : M (nfdresult_t * option DBusMessage) :=
  ('(res, msg) <- Driver.NFD_DBus_OpenFile true false filterList filterCount ;;
   match res, msg with
   | NFD_OKAY, Some msg =>
       '(res, uri_iter) <- Response.ReadResponseUris msg ;;
       if negb (nfdresult_eqb res NFD_OKAY) then ret (res, None)
       else ret (NFD_OKAY, Some msg)
   | _, _ => ret (res, None)
   end)%M.

Definition NFD_SaveDialogWin (params : DialogParams) : M (nfdresult_t * DialogParams) :=
  match outAsyncOpHandle params with
  | Some _ =>
      (res <- Driver.NFD_DBus_ShowSaveFileDialog params ;;
       start_monitor res params)%M
  | None =>
      ('(res, msg) <- Driver.NFD_DBus_SaveFileWin params ;;
       match res, msg with
       | NFD_OKAY, Some msg => read_single_path msg params
       | _, _ => ret (res, params)
       end)%M
  end.

Definition NFD_SaveDialogN (filterList : list nfdnfilteritem_t) (filterCount : nat)
    (defaultPath defaultName : option ptr) : M (nfdresult_t * option (list char)) :=
  ('(res, msg) <- Driver.NFD_DBus_SaveFile filterList filterCount
                    defaultPath defaultName ;;
   match res, msg with
   | NFD_OKAY, Some msg =>
       '(res, uri) <- Response.ReadResponseUrisSingle msg ;;
       match res, uri with
       | NFD_OKAY, Some uri =>
           '(res, path) <- UriCodec.AllocAndCopyFilePath uri ;;
           ret (res, option_map fst path)
       | _, _ => ret (res, None)
       end
   | _, _ => ret (res, None)
   end)%M.

Definition NFD_PickFolderN (defaultPath : option ptr)
  : M (nfdresult_t * option (list char)) :=
  ('(res, msg) <- Driver.NFD_DBus_OpenFile false true [] 0 ;;
   match res, msg with
   | NFD_OKAY, Some msg =>
       '(res, uri) <- Response.ReadResponseUrisSingle msg ;;
       match res, uri with
       | NFD_OKAY, Some uri =>
           '(res, path) <- UriCodec.AllocAndCopyFilePath uri ;;
           ret (res, option_map fst path)
       | _, _ => ret (res, None)
       end
   | _, _ => ret (res, None)
   end)%M.
(* ================================================================= *)
(** ** The path set of [NFD_OpenDialogMultipleN] *)

Module PathSet.

Import Iter.

(** [NFD_PathSet_GetPathN]: the result code and, when [*outPath] is
    assigned, the new buffer.  The path set is the response message. *)
Definition NFD_PathSet_GetPathN (pathSet : DBusMessage) (index : nat)
  : M (nfdresult_t * option (list char)) :=
  (uri_iter <- Response.ReadResponseUrisUnchecked pathSet ;;
   match uri_iter with
   | None => lift (Undef BadCall)
   | Some uri_iter =>
       match PathList.advance index uri_iter with
       | None =>
           NFDi_SetError (Some "Index out of bounds."%string) ;;;
           ret (NFD_ERROR, None)
       | Some uri_iter =>
           if negb (arg_type_eqb (get_arg_type uri_iter) TYPE_STRING) then
             NFDi_SetError
               (Some "D-Bus response signal URI sub iter is not a string."%string) ;;;
             ret (NFD_ERROR, None)
           else
             uri <- lift (get_string uri_iter) ;;
             '(res, path) <- UriCodec.AllocAndCopyFilePath uri ;;
             ret (res, option_map fst path)
       end
   end)%M.

(** [NFD_PathSet_GetEnum]: the enumerator is the iterator over the URIs,
    left unassigned ([None]) when the message has none. *)
Definition NFD_PathSet_GetEnum (pathSet : DBusMessage)
  : M (nfdresult_t * option DBusMessageIter) :=
  (outEnumerator <- Response.ReadResponseUrisUnchecked pathSet ;;
   ret (NFD_OKAY, outEnumerator))%M.

(** [NFD_PathSet_EnumNextN]: the result code, the enumerator after the
    call, and what [*outPath] was assigned: nothing ([None]), the null
    pointer ([Some None]) or a new buffer. *)
Definition NFD_PathSet_EnumNextN (enumerator : DBusMessageIter)
  : M (nfdresult_t * DBusMessageIter * option (option (list char))) :=
  let uri_iter := enumerator in
  let arg_type := get_arg_type uri_iter in
  if arg_type_eqb arg_type TYPE_INVALID then
    ret (NFD_OKAY, uri_iter, Some None)
  else if negb (arg_type_eqb arg_type TYPE_STRING) then
    (NFDi_SetError
       (Some "D-Bus response signal URI sub iter is not a string."%string) ;;;
     ret (NFD_ERROR, uri_iter, None))%M
  else
    (uri <- lift (get_string uri_iter) ;;
     '(res, path) <- UriCodec.AllocAndCopyFilePath uri ;;
     if negb (nfdresult_eqb res NFD_OKAY)
     then ret (res, uri_iter, option_map (fun p => Some (fst p)) path)
     else
       let '(_, uri_iter) := next uri_iter in
       ret (NFD_OKAY, uri_iter, option_map (fun p => Some (fst p)) path))%M.

End PathSet.

(* ================================================================= *)
(** ** The test program of the multi-select dialog *)

(** The loop of test/test_opendialogmultiple_win.c that prints the paths
    of the list: while [curPath] is not at a NUL, [printf(.., curPath);
    curPath += strlen(curPath) + 1;].  The strings printed, in order.
    Every turn moves [curPath] forward, so [fuel] turns suffice for a
    list of [fuel] bytes. *)
Fixpoint print_paths_loop (fuel : nat) (curPath : ptr) : ub (list (list char)) :=
  match fuel with
  | 0 => Undef Unreachable
  | S fuel' =>
      (c <- deref curPath ;;
       if is_nul c then Def []
       else
         (printed <- string_at curPath ;;
          len <- strlen curPath ;;
          rest <- print_paths_loop fuel' (skipn (len + 1) curPath) ;;
          Def (printed :: rest)))%ub
  end.

Definition print_paths (outPath : ptr) : ub (list (list char)) :=
  print_paths_loop (S (length outPath)) outPath.
(* ================================================================= *)
(** ** States and inputs of the worked examples *)

(** A state with no error recorded and an environment that answers
    nothing, for the runs that do not reach the environment. *)
Definition quiet_world : world :=
  mkWorld None None (c_string (lit ":1.42")) [] [] [] [] [] [] false false [] [].

(** [quiet_world] with the given answers of [getrandom]. *)
Definition world_with_random (replies : list getrandom_reply) : world :=
  set_getrandom_replies replies quiet_world.

(** Thirty-two bytes [getrandom] may deliver: 0, 17, 34, ... *)
Definition sample_random_bytes : list char :=
  map (fun i => ascii_of_nat (17 * i)) (seq 0 32).

(** A native filter item whose two strings are objects of their own. *)
Definition native_filter (shown : string) (extensions : string) : nfdnfilteritem_t :=
  mkFilterItem (c_string (lit shown)) (c_string (lit extensions)).

(* ================================================================= *)
(** ** Vocabulary of the statements *)

(** A ['%'] at index [i] that does not start a well-formed escape: fewer
    than two bytes follow it, or one of the two is not a hex digit. *)
Definition bad_escape_at (s : list char) (i : nat) : Prop :=
  nth_error s i = Some "%"%char
  /\ match nth_error s (i + 1), nth_error s (i + 2) with
     | Some h1, Some h2 => UriCodec.IsHex h1 = false \/ UriCodec.IsHex h2 = false
     | _, _ => True
     end.

(** The bytes an answer of [getrandom] carries. *)
Definition reply_bytes (r : getrandom_reply) : list char :=
  match r with
  | GR_bytes bytes => bytes
  | GR_eintr | GR_error => []
  end.

(** The answers of [getrandom] before its first error other than an
    interrupted call, and the bytes they deliver. *)
Fixpoint before_error (replies : list getrandom_reply) : list getrandom_reply :=
  match replies with
  | [] => []
  | GR_error :: _ => []
  | r :: replies' => r :: before_error replies'
  end.

Definition delivered (replies : list getrandom_reply) : list char :=
  flat_map reply_bytes (before_error replies).

(** The token of the given random bytes: for each byte the letter
    ['A'] + its low four bits, then the letter ['A'] + its high four
    bits. *)
Definition token_of (random_bytes : list char) : list char :=
  flat_map (fun b => [ascii_of_N (65 + N_of_ascii b mod 16);
                      ascii_of_N (65 + N_of_ascii b / 16)])
           random_bytes.

Definition in_A_to_P (c : char) : Prop :=
  char_le "A" c = true /\ char_le c "P" = true.

(** The sender part of the handle path: the unique name without its
    leading [':'], every ['.'] replaced by ['_']. *)
Definition sanitized_sender (unique_name : list char) : list char :=
  map (fun c => if Ascii.eqb c "." then "_"%char else c)
      match unique_name with
      | c :: rest => if Ascii.eqb c ":" then rest else unique_name
      | [] => []
      end.

(** The items, each followed by [sep] except the last. *)
Fixpoint join_with (sep : char) (items : list (list char)) : list char :=
  match items with
  | [] => []
  | [x] => x
  | x :: rest => x ++ sep :: join_with sep rest
  end.

(** One entry of a separated list: not empty, free of the separator and
    of NUL. *)
Definition list_item (sep : char) (e : list char) : Prop :=
  e <> [] /\ ~ In sep e /\ no_nul e.

(** A native filter: a display name and its bare extensions. *)
Definition native_filter_wf (f : list char * list (list char)) : Prop :=
  no_nul (fst f) /\ snd f <> [] /\ Forall (list_item ",") (snd f).

(** The filter item as the caller passes it: two strings, the second the
    extensions joined by commas. *)
Definition native_item (f : list char * list (list char)) : nfdnfilteritem_t :=
  mkFilterItem (c_string (fst f)) (c_string (join_with "," (snd f))).

(** "commas -> ', '". *)
Definition widen_commas (s : list char) : list char :=
  flat_map (fun c => if Ascii.eqb c "," then [c; " "%char] else [c]) s.

(** The portal filter of a native filter, section 4.C of the spec:
    display name "<name> (<spec with commas -> ', '>)", one glob pattern
    "*.<ext>" of kind 0 for each extension. *)
Definition encode_native_filter (f : list char * list (list char)) : DBusValue :=
  DStruct [DString (fst f ++ lit " (" ++ widen_commas (join_with "," (snd f))
                    ++ lit ")");
           DArray "(us)"
             (map (fun e => DStruct [DUInt32 0; DString (lit "*." ++ e)])
                  (snd f))].

(** The wildcard entry with the given display name. *)
Definition wildcard_filter (shown : list char) : DBusValue :=
  DStruct [DString shown; DArray "(us)" [DStruct [DUInt32 0; DString (lit "*")]]].

(** The two option entries a filter list becomes, as the portal
    documents them: "filters", an array of filters, and
    "current_filter", one filter. *)
Definition filters_option (filters : list DBusValue) : DBusValue :=
  DDictEntry [DString (lit "filters");
              DVariant "a(sa(us))" (DArray "(sa(us))" filters)].

Definition current_filter_option (filter : DBusValue) : DBusValue :=
  DDictEntry [DString (lit "current_filter"); DVariant "(sa(us))" filter].

(** Does the filter list [ext] among its extensions? *)
Definition lists_extension (ext : list char) (f : list char * list (list char)) : bool :=
  existsb (bytes_eqb ext) (snd f).

(** The index of the first element that satisfies [p], counting from [i]. *)
Fixpoint find_index {A : Type} (p : A -> bool) (l : list A) (i : nat) : option nat :=
  match l with
  | [] => None
  | x :: l' => if p x then Some i else find_index p l' (S i)
  end.

(** A Windows-style filter: a display name and its glob patterns; no
    pattern at all is the empty pattern string. *)
Definition win_filter : Type := (list char * list (list char))%type.

(** "name\0pattern\0" for each pair, then the closing NUL. *)
Definition win_buffer (pairs : list win_filter) : list char :=
  flat_map (fun f => fst f ++ NUL :: join_with ";" (snd f) ++ [NUL]) pairs
  ++ [NUL].

Definition is_ascii_letter (c : char) : bool :=
  let n := nat_of_ascii c in
  ((65 <=? n) && (n <=? 90)) || ((97 <=? n) && (n <=? 122)).

Definition ascii_lowercase (c : char) : char :=
  let n := nat_of_ascii c in
  if (65 <=? n) && (n <=? 90) then ascii_of_nat (n + 32) else c.

Definition ascii_uppercase (c : char) : char :=
  let n := nat_of_ascii c in
  if (97 <=? n) && (n <=? 122) then ascii_of_nat (n - 32) else c.

(** Each letter [c] becomes "[", lowercase c, uppercase c, "]"; any other
    character stays. *)
Definition case_wrap (s : list char) : list char :=
  flat_map (fun c => if is_ascii_letter c
                     then ["["%char; ascii_lowercase c; ascii_uppercase c; "]"%char]
                     else [c]) s.

(** The portal filter of a Windows-style pair: the wildcard carrying the
    name when the pattern is empty, else one case-wrapped glob of kind 0
    for each semicolon-separated pattern. *)
Definition encode_win_filter (f : win_filter) : DBusValue :=
  match snd f with
  | [] => wildcard_filter (fst f)
  | globs =>
      DStruct [DString (fst f);
               DArray "(us)"
                 (map (fun g => DStruct [DUInt32 0; DString (case_wrap g)]) globs)]
  end.

(** A glob with at most 715,827,882 letters: three times their number
    is an [int]. *)
Definition letters_fit (g : list char) : Prop :=
  (3 * N.of_nat (length (filter is_ascii_letter g)) <= 2147483647)%N.

(** A pair: the name is not empty, the patterns are entries of a
    semicolon-separated list. *)
Definition win_filter_wf (f : win_filter) : Prop :=
  fst f <> [] /\ no_nul (fst f) /\ Forall (list_item ";") (snd f).

(** The pair [filterIndex] selects: the one at that 1-based position,
    the first when there is none. *)
Definition selected_filter (filterIndex : N) (pairs : list win_filter)
  : option win_filter :=
  if ((1 <=? filterIndex) && (filterIndex <=? N.of_nat (length pairs)))%N
  then nth_error pairs (N.to_nat filterIndex - 1)
  else nth_error pairs 0.

(** A computation whose only way out of the defined behaviour is a read
    outside an object. *)
Definition reads_only {A : Type} (c : ub A) : Prop :=
  forall f, c = Undef f -> f = ReadOutOfBounds.

(** A computation that does not end in a write outside an object. *)
Definition no_overrun {A : Type} (c : ub A) : Prop :=
  c <> Undef WriteOutOfBounds.

(** The bytes of the buffer from the first of the given pairs on. *)
Definition win_pairs_bytes (pairs : list win_filter) : list char :=
  flat_map (fun f => fst f ++ NUL :: join_with ";" (snd f) ++ [NUL]) pairs.

(** [curFilter] after the loop: the pair with index [filterIndex], when
    the loop passes it. *)
Definition cur_after (i filterIndex : N) (pairs : list win_filter)
    (after cur : list char) : list char :=
  if ((i <=? filterIndex) && (filterIndex <? i + N.of_nat (length pairs)))%N
  then win_pairs_bytes (skipn (N.to_nat (filterIndex - i)) pairs) ++ after
  else cur.

(** The [Response] signal of the portal with the given body. *)
Definition response_signal (args : list DBusValue) : DBusMessage :=
  mkMessage Signal "/org/freedesktop/portal/desktop/request/1_42/t"
            "org.freedesktop.portal.Request" "Response" args.

(** The body of a successful response that carries the given URIs. *)
Definition results_with_uris (uris : list (list char)) : list DBusValue :=
  [DUInt32 0;
   DArray "{sv}"
     [DDictEntry [DString (lit "uris");
                  DVariant "as" (DArray "s" (map DString uris))]]].

(** The reply of the portal to [OpenFile] or [SaveFile]. *)
Definition portal_reply (request_path : list char) : DBusMessage :=
  mkMessage MethodReturn "" "" "" [DObjectPath request_path].

(** A session in which [getrandom] delivers [sample_random_bytes], the
    bus accepts the match rules with the given answers, the portal
    replies with the object path ".../request/1_42/t" and the given
    batches of messages arrive. *)
Definition dialog_world (add_match : list (option string))
    (incoming : list (list DBusMessage)) : world :=
  mkWorld None None (c_string (lit ":1.42"))
          [GR_bytes sample_random_bytes] add_match
          [inr (portal_reply (lit "/org/freedesktop/portal/desktop/request/1_42/t"))]
          [] incoming [] true true [] [].

(** A synchronous request with the filter list of the test programs. *)
Definition sample_params : DialogParams :=
  mkParams 0 (Some (c_string (lit "this is a custom title")))
           (Some (win_buffer [(lit "All", [lit "*.*"]); (lit "Text", [lit "*.TXT"])]))
           1 None None None 0 None.

(** An entry of the results dictionary under another key than "uris". *)
Definition other_entry (e : DBusValue) : Prop :=
  exists k sig v,
    e = DDictEntry [DString k; DVariant sig v]
    /\ no_nul k /\ k <> Response.STR_URIS.

Definition uris_entry (uris : list (list char)) : DBusValue :=
  DDictEntry [DString (lit "uris"); DVariant "as" (DArray "s" (map DString uris))].

(** The body of a response: the code and the results, which hold the
    URIs among other entries. *)
Definition response_body (code : N) (before : list DBusValue)
    (uris : list (list char)) (after : list DBusValue) : list DBusValue :=
  [DUInt32 code; DArray "{sv}" (before ++ uris_entry uris :: after)].

(** The path the single-path decoder [AllocAndCopyFilePath] yields for
    the URI. *)
Definition decodes_to (uri path : list char) : Prop :=
  forall w,
    UriCodec.AllocAndCopyFilePath (c_string uri) w
    = Def ((NFD_OKAY, Some (c_string path, length path + 1)), w).

(** A decoded path "dir/base" with something before its last slash, no
    slash doubled there, and something after it. *)
Definition regular_path (p : list char * list char) : Prop :=
  fst p <> [] /\ last (fst p) NUL <> "/"%char /\ no_nul (fst p)
  /\ snd p <> [] /\ ~ In "/"%char (snd p) /\ no_nul (snd p).

Definition full_path (p : list char * list char) : list char :=
  fst p ++ "/"%char :: snd p.

(** The double-NUL-terminated list of two or more paths: the directory
    of the first, then the file name of each, the first included. *)
Definition packed_list (first : list char * list char)
    (others : list (list char * list char)) : list char :=
  fst first ++ NUL :: snd first ++ NUL
  :: flat_map (fun p => snd p ++ [NUL]) others ++ [NUL].

(** The list under construction is within its allocation, whose size is
    an [int] of at least the initial 256. *)
Definition out_ok (out : PathList.OutPathList) : Prop :=
  256 <= PathList.capacity out
  /\ length (PathList.written out) <= PathList.capacity out
  /\ (N.of_nat (PathList.capacity out) <= PathList.INT_MAX)%N.

(** 2^30 bytes: no list below this size makes the [int] size wrap. *)
Definition SIZE_LIMIT : N := 1073741824.

(** What the caller sees of a dialog call: the result code and
    [*params->outPath]. *)
Definition outcome_of (r : ub (nfdresult_t * DialogParams * world))
  : option (nfdresult_t * option (list char)) :=
  match r with
  | Def (res, params, _) => Some (res, outPath params)
  | Undef _ => None
  end.

(** Scenario S3 of the spec: three files are selected. *)
Definition three_files_world : world :=
  dialog_world [None; None]
    [[response_signal
        (results_with_uris [lit "file:///home/u/a.c";
                            lit "file:///home/u/sub/b.c";
                            lit "file:///home/u/sub/c.c"])]].

(** The user cancels: the response carries code 1.  The bus rejects the
    second match rule, the one for the object path of the reply. *)
Definition cancel_world_failed_rebind : world :=
  dialog_world [None; Some "Did not receive a reply."%string]
    [[response_signal [DUInt32 1; DArray "{sv}" []]]].

(** The user cancels, and the bus accepts every match rule. *)
Definition cancel_world : world :=
  dialog_world [None; None] [[response_signal [DUInt32 1; DArray "{sv}" []]]].

(** One file is selected. *)
Definition one_file_world : world :=
  dialog_world [None; None]
    [[response_signal (results_with_uris [lit "file:///tmp/a%20b.txt"])]].

(** The result code and the error slot after a dialog call. *)
Definition code_and_error {A : Type} (r : ub (nfdresult_t * A * world))
  : option (nfdresult_t * option string) :=
  match r with
  | Def (res, _, w) => Some (res, err_ptr w)
  | Undef _ => None
  end.

(** The monitor a worker leaves behind. *)
Definition monitor_after (r : ub (NfdDialogMonitor * world)) : NfdDialogMonitor :=
  match r with
  | Def (monitor, _) => monitor
  | Undef _ => Monitor.fresh
  end.

(** The bus accepts every match rule that is still to be added. *)
Definition accepts (w : world) : Prop :=
  Forall (fun reply : option string => reply = None) (add_match_replies w).

(** A step that, on a bus that accepts every match rule, leaves the
    error slot as it is unless it reports [NFD_ERROR]. *)
Definition steady {A : Type} (code : A -> nfdresult_t) (c : M A) : Prop :=
  forall w a w',
    c w = Def (a, w') -> accepts w ->
    accepts w' /\ (code a <> NFD_ERROR -> err_ptr w' = err_ptr w).

(** The code of a step that reports nothing. *)
Definition no_code {A : Type} (_ : A) : nfdresult_t := NFD_OKAY.

(** Callbacks of [ReadDict] that are all steady. *)
Definition steady_callbacks {S : Type}
    (args : list (list char * Response.callback S)) : Prop :=
  Forall (fun entry => forall iter captured, steady fst (snd entry iter captured))
         args.
(* ================================================================= *)
(** ** Vocabulary of the further properties *)

(** The hexadecimal digit of a nibble, in upper or lower case. *)
Definition hex_of (upper : bool) (d : N) : char :=
  if (d <? 10)%N then ascii_of_N (48 + d)
  else if upper then ascii_of_N (55 + d) else ascii_of_N (87 + d).

(** One piece of a percent-encoded string: a byte written as it is, or a
    byte written as ['%'] and its two hexadecimal digits, each in either
    case. *)
Inductive uri_piece : Type :=
| Plain (c : char)
| Escaped (upper_high upper_low : bool) (b : char).

Definition piece_byte (p : uri_piece) : char :=
  match p with
  | Plain c => c
  | Escaped _ _ b => b
  end.

Definition render_piece (p : uri_piece) : list char :=
  match p with
  | Plain c => [c]
  | Escaped upper_high upper_low b =>
      [ "%"%char; hex_of upper_high (N_of_ascii b / 16);
        hex_of upper_low (N_of_ascii b mod 16) ]
  end.

(** A byte that may stand unescaped: not the terminator and not ['%']. *)
Definition plain_ok (p : uri_piece) : Prop :=
  match p with
  | Plain c => c <> NUL /\ c <> "%"%char
  | Escaped _ _ _ => True
  end.

(** The message the wait loops look for. *)
Definition is_response (msg : DBusMessage) : bool :=
  Iter.is_signal msg "org.freedesktop.portal.Request" "Response".

(** A step after which the error slot is set whenever it was set before,
    and whenever the step reports a failure. *)
Definition loud {A : Type} (failed : A -> bool) (c : M A) : Prop :=
  forall w a w',
    c w = Def (a, w') ->
    (err_ptr w <> None -> err_ptr w' <> None)
    /\ (failed a = true -> err_ptr w' <> None).

(** The ways a result reports a failure: by [NFD_ERROR], by anything but
    [NFD_OKAY], by a null pointer, or not at all. *)
Definition is_error (res : nfdresult_t) : bool := nfdresult_eqb res NFD_ERROR.

Definition not_okay (res : nfdresult_t) : bool := negb (nfdresult_eqb res NFD_OKAY).

Definition never {A : Type} (_ : A) : bool := false.

(** A call that returns [NFD_ERROR] only with the error slot set. *)
Definition error_is_reported {A : Type} (call : M (nfdresult_t * A)) : Prop :=
  forall w res out w',
    call w = Def ((res, out), w') -> res = NFD_ERROR -> err_ptr w' <> None.

(** A call that, on a bus that accepts every match rule, changes the
    error slot only when it returns [NFD_ERROR]. *)
Definition slot_kept_unless_error {A : Type} (call : M (nfdresult_t * A)) : Prop :=
  forall w res out w',
    accepts w -> call w = Def ((res, out), w') -> res <> NFD_ERROR ->
    err_ptr w' = err_ptr w.

(** A callback of [ReadDict] that neither fails nor touches the state. *)
Definition quiet_callback {S : Type} (cb : Response.callback S) : Prop :=
  forall iter captured w r w',
    cb iter captured w = Def (r, w') -> w' = w /\ fst r <> NFD_ERROR.


(** [count] successive calls of [NFD_PathSet_EnumNextN], as long as they
    return [NFD_OKAY]: what each call assigned to [*outPath], and the
    code of the last call. *)
Fixpoint enumerate (count : nat) (enumerator : Iter.DBusMessageIter)
  : M (list (option (option (list char))) * nfdresult_t) :=
  match count with
  | 0 => ret ([], NFD_OKAY)
  | S count' =>
      ('(res, enumerator, outPath) <- PathSet.NFD_PathSet_EnumNextN enumerator ;;
       if negb (nfdresult_eqb res NFD_OKAY) then ret ([outPath], res)
       else
         '(rest, res) <- enumerate count' enumerator ;;
         ret (outPath :: rest, res))%M
  end.

(** A directory of 200 bytes and a file name of 100. *)
Definition long_directory : list char := "/"%char :: repeat "d"%char 199.

Definition long_file_name : list char := repeat "f"%char 100.

(** The response to a multi-select in which the given paths, free of
    ['%'], were chosen. *)
Definition selection_world (paths : list (list char)) : world :=
  dialog_world [None; None]
    [[response_signal
        (results_with_uris (map (fun p => UriCodec.FILE_URI_PREFIX ++ p) paths))]].

(** The state a run ends in. *)
Definition world_of {A : Type} (r : ub (A * world)) : world :=
  match r with
  | Def (_, w) => w
  | Undef _ => quiet_world
  end.

(** The request with [outAsyncOpHandle] pointing at a handle variable of
    the caller that holds [slot]: what makes a dialog asynchronous. *)
Definition with_handle (slot : option NfdDialogMonitor) (p : DialogParams)
  : DialogParams :=
  mkParams (parentWindow p) (title p) (winFilter p) (filterIndex p)
           (defaultName p) (defaultPath p) (outPath p) (outPathSize p)
           (Some slot).

(** What an asynchronous dialog delivers: the worker of the monitor in
    the handle of [params'] runs in the state [w1], and the caller then
    retrieves the result into [response].  The result code, the path
    and its size, and the state at the end. *)
Definition async_outcome (params' : DialogParams) (response : NfdDialogResponse)
    (w1 : world) : ub (nfdresult_t * option (list char) * nat * world) :=
  let retrieve opHandle w :=
    match NFD_GetAsyncOpResult opHandle response w with
    | Def ((res, _, response), w3) =>
        Def (res, resp_outPath response, resp_outPathSize response, w3)
    | Undef f => Undef f
    end in
  match outAsyncOpHandle params' with
  | Some (Some monitor) =>
      match Monitor.monitorUntilReturn false monitor w1 with
      | Def (monitor, w2) => retrieve (Some monitor) w2
      | Undef f => Undef f
      end
  | _ => retrieve None w1
  end.

(** What a synchronous dialog delivers. *)
Definition sync_outcome (r : ub (nfdresult_t * DialogParams * world))
  : ub (nfdresult_t * option (list char) * nat * world) :=
  match r with
  | Def ((res, params), w) => Def (res, outPath params, outPathSize params, w)
  | Undef f => Undef f
  end.

(** A match rule of the shape [Subscribe] installs. *)
Definition response_rule (rule : list char) : Prop :=
  exists rest, rule = Driver.STR_RESPONSE_SUBSCRIPTION_PATH_1 ++ rest.

(** A connection on which no rule of that shape is installed. *)
Definition no_response_rule (w : world) : Prop :=
  Forall (fun rule => ~ response_rule rule) (match_rules w).

(** A step that installs no match rule, removes none, asks the bus for
    none and sends nothing. *)
Definition calm {A : Type} (c : M A) : Prop :=
  forall w a w',
    c w = Def (a, w') ->
    match_rules w' = match_rules w
    /\ sent w' = sent w
    /\ add_match_replies w' = add_match_replies w.

(** A [DBusSignalSubscriptionHandler] with member [sub_cmd] on a
    connection whose other rules are [base]: the rule it holds is one of
    its own shape, and installed at the end of the rules unless the bus
    refused it. *)
Definition held (base : list (list char)) (sub_cmd : option (list char))
    (w : world) : Prop :=
  match sub_cmd with
  | None => match_rules w = base
  | Some rule =>
      response_rule rule
      /\ (match_rules w = base ++ [rule] \/ match_rules w = base)
  end.

(** A call that leaves the match rules of the connection as it found
    them and sends one method call of the portal's file chooser, or
    none, with [NFD_ERROR], when the bus does not accept its match
    rule. *)
Definition one_request {A : Type} (method : string) (code : A -> nfdresult_t)
    (call : M A) : Prop :=
  forall w a w',
    no_response_rule w ->
    call w = Def (a, w') ->
    match_rules w' = match_rules w
    /\ match hd_error (add_match_replies w) with
       | Some None =>
           exists args, sent w' = sent w ++ [Driver.portal_call method args]
       | _ => sent w' = sent w /\ code a = NFD_ERROR
       end.

(** The session of [three_files_world] on a connection that already
    carries a match rule of the application. *)
Definition subscribed_world : world :=
  set_match_rules [lit "type='signal',interface='org.freedesktop.DBus.Properties'"]
                  three_files_world.

(** The file a save dialog looks for: [name] in [dir], with one ['/']
    between them unless [dir] ends in one. *)
Definition join_path (dir name : list char) : list char :=
  match rev dir with
  | c :: _ => if Ascii.eqb c "/" then dir ++ name else dir ++ "/"%char :: name
  | [] => "/"%char :: name
  end.

(** A string as the portal wants a path: a byte array that ends with the
    NUL. *)
Definition path_bytes (s : list char) : DBusValue :=
  DVariant "ay" (DArray "y" (map DByte (s ++ [NUL]))).

(** The options of a [SaveFile] call without filters. *)
Definition save_options (token : list char) (dir name : option (list char))
    (files : list (list char)) : list DBusValue :=
  [DDictEntry [DString (lit "handle_token"); DVariant "s" (DString token)]]
  ++ match name with
     | Some n => [DDictEntry [DString (lit "current_name"); DVariant "s" (DString n)]]
     | None => []
     end
  ++ match dir with
     | Some d => [DDictEntry [DString (lit "current_folder"); path_bytes d]]
     | None => []
     end
  ++ match dir, name with
     | Some d, Some n =>
         if existsb (bytes_eqb (join_path d n)) files
         then [DDictEntry [DString (lit "current_file"); path_bytes (join_path d n)]]
         else []
     | _, _ => []
     end.
(* ================================================================= *)
(** * Properties *)

Lemma is_nul_spec (c : char) : is_nul c = true <-> c = NUL.
Proof. unfold is_nul. apply Ascii.eqb_eq. Qed.

Lemma is_nul_false (c : char) : c <> NUL -> is_nul c = false.
Proof.
  intro H. destruct (is_nul c) eqn:E; [|reflexivity].
  apply is_nul_spec in E. contradiction.
Qed.

Lemma no_nul_cons (c : char) (s : list char) :
  no_nul (c :: s) <-> c <> NUL /\ no_nul s.
Proof.
  unfold no_nul. simpl. split.
  - intro H. split; [intro E; subst; tauto | tauto].
  - intros [H1 H2] [E | E]; [subst; tauto | tauto].
Qed.

Lemma no_nul_app (s t : list char) :
  no_nul (s ++ t) <-> no_nul s /\ no_nul t.
Proof.
  unfold no_nul. rewrite in_app_iff. tauto.
Qed.

Lemma scan_string_app (s rest : list char) :
  no_nul s -> scan_string (s ++ NUL :: rest) = Def (s, rest).
Proof.
  induction s as [|c s IH]; intro H; simpl.
  - reflexivity.
  - apply no_nul_cons in H. destruct H as [Hc Hs].
    rewrite (is_nul_false c Hc), (IH Hs). reflexivity.
Qed.

Lemma string_at_app (s rest : list char) :
  no_nul s -> string_at (s ++ NUL :: rest) = Def s.
Proof. intro H. unfold string_at. rewrite scan_string_app; auto. Qed.

Lemma strlen_app (s rest : list char) :
  no_nul s -> strlen (s ++ NUL :: rest) = Def (length s).
Proof. intro H. unfold strlen. rewrite scan_string_app; auto. Qed.

Lemma past_string_app (s rest : list char) :
  no_nul s -> past_string (s ++ NUL :: rest) = Def rest.
Proof. intro H. unfold past_string. rewrite scan_string_app; auto. Qed.

Lemma range_app (s q : list char) : range (s ++ q) q = s.
Proof.
  unfold range. rewrite length_app.
  replace (length s + length q - length q) with (length s) by lia.
  rewrite firstn_app, firstn_all, Nat.sub_diag. simpl. apply app_nil_r.
Qed.

(* ----------------------------------------------------------------- *)
(** *** URI codec *)

Section UriCodecFacts.

Import UriCodec.

Lemma IsHex_not_percent (c : char) : IsHex c = true -> c <> "%"%char.
Proof. intros H E. subst. discriminate H. Qed.

(** The measurement pass is defined on every NUL-terminated string, and
    a [true] return leaves [fileUriEnd] on the terminator. *)
Lemma TryUriDecodeLen_from_total (s rest : list char) :
  no_nul s ->
  forall len,
    TryUriDecodeLen_from len (s ++ NUL :: rest) = Def None
    \/ exists n, TryUriDecodeLen_from len (s ++ NUL :: rest)
                 = Def (Some (n, NUL :: rest)).
Proof.
  remember (length s) as k eqn:Hk.
  revert s Hk. induction k as [k IH] using lt_wf_ind.
  intros s Hk Hs len. destruct s as [|c s1]; simpl.
  - right. eexists. reflexivity.
  - apply no_nul_cons in Hs. destruct Hs as [Hc Hs1].
    rewrite (is_nul_false c Hc).
    destruct (Ascii.eqb c "%"); simpl.
    + destruct s1 as [|h1 s2]; simpl; [left; reflexivity|].
      apply no_nul_cons in Hs1. destruct Hs1 as [Hh1 Hs2].
      rewrite (is_nul_false h1 Hh1).
      destruct s2 as [|h2 s3]; simpl; [left; reflexivity|].
      apply no_nul_cons in Hs2. destruct Hs2 as [Hh2 Hs3].
      rewrite (is_nul_false h2 Hh2).
      destruct (negb (IsHex h1) || negb (IsHex h2)); [left; reflexivity|].
      apply (IH (length s3)); [simpl in Hk; lia | reflexivity | assumption].
    + apply (IH (length s1)); [simpl in Hk; lia | reflexivity | assumption].
Qed.

(** In an accepted string every ['%'] starts an escape. *)
Lemma TryUriDecodeLen_from_accepts (s rest : list char) :
  no_nul s ->
  forall len n e,
    TryUriDecodeLen_from len (s ++ NUL :: rest) = Def (Some (n, e)) ->
    forall i, nth_error s i = Some "%"%char ->
      exists h1 h2, nth_error s (i + 1) = Some h1
                    /\ nth_error s (i + 2) = Some h2
                    /\ IsHex h1 = true /\ IsHex h2 = true.
Proof.
  remember (length s) as k eqn:Hk.
  revert s Hk. induction k as [k IH] using lt_wf_ind.
  intros s Hk Hs len n e Hrun i Hi. destruct s as [|c s1].
  - destruct i; discriminate Hi.
  - simpl in Hrun. apply no_nul_cons in Hs. destruct Hs as [Hc Hs1].
    rewrite (is_nul_false c Hc) in Hrun.
    destruct (Ascii.eqb c "%") eqn:Ec; simpl in Hrun.
    + destruct s1 as [|h1 s2]; simpl in Hrun; [discriminate|].
      apply no_nul_cons in Hs1. destruct Hs1 as [Hh1 Hs2].
      rewrite (is_nul_false h1 Hh1) in Hrun.
      destruct s2 as [|h2 s3]; simpl in Hrun; [discriminate|].
      apply no_nul_cons in Hs2. destruct Hs2 as [Hh2 Hs3].
      rewrite (is_nul_false h2 Hh2) in Hrun.
      destruct (IsHex h1) eqn:E1; [|discriminate].
      destruct (IsHex h2) eqn:E2; [|discriminate].
      simpl in Hrun.
      destruct i as [|[|[|j]]]; simpl in Hi |- *.
      * exists h1, h2. auto.
      * injection Hi as Hi. apply IsHex_not_percent in E1. contradiction.
      * injection Hi as Hi. apply IsHex_not_percent in E2. contradiction.
      * apply (IH (length s3)) with (len := S len) (n := n) (e := e);
          [simpl in Hk; lia | reflexivity | assumption | assumption | assumption].
    + destruct i as [|j]; simpl in Hi |- *.
      * injection Hi as Hi. subst c. discriminate Ec.
      * apply (IH (length s1)) with (len := S len) (n := n) (e := e);
          [simpl in Hk; lia | reflexivity | assumption | assumption | assumption].
Qed.

End UriCodecFacts.

(** C8.  On a NUL-terminated string that holds a ['%'] followed by fewer
    than two bytes, or by two bytes that are not both hex digits, the
    measurement pass [TryUriDecodeLen] returns [false]; and in every
    string on which it returns [true], each ['%'] is followed by two hex
    digits. *)
Theorem TryUriDecodeLen_rejects_malformed (s rest : list char) :
  no_nul s ->
  ((exists i, bad_escape_at s i) ->
   UriCodec.TryUriDecodeLen (s ++ NUL :: rest) = Def None)
  /\ (forall n e,
        UriCodec.TryUriDecodeLen (s ++ NUL :: rest) = Def (Some (n, e)) ->
        forall i, nth_error s i = Some "%"%char ->
          exists h1 h2, nth_error s (i + 1) = Some h1
                        /\ nth_error s (i + 2) = Some h2
                        /\ UriCodec.IsHex h1 = true
                        /\ UriCodec.IsHex h2 = true).
Proof.
  intro Hs. split.
  - intros [i [Hi Hbad]].
    destruct (TryUriDecodeLen_from_total s rest Hs 0) as [H | [n H]];
      [exact H|].
    exfalso.
    destruct (TryUriDecodeLen_from_accepts s rest Hs 0 n _ H i Hi)
      as [h1 [h2 [E1 [E2 [X1 X2]]]]].
    rewrite E1, E2 in Hbad. destruct Hbad; congruence.
  - intros n e H. exact (TryUriDecodeLen_from_accepts s rest Hs 0 n e H).
Qed.

Lemma TryUriDecodeLen_rejects_malformed_witness :
  UriCodec.TryUriDecodeLen (c_string (lit "/tmp/a%2")) = Def None
  /\ UriCodec.TryUriDecodeLen (c_string (lit "/tmp/a%zz.txt")) = Def None.
Proof.
  split.
  - apply (TryUriDecodeLen_rejects_malformed (lit "/tmp/a%2") []).
    + unfold no_nul. simpl. intuition discriminate.
    + exists 6. split; [reflexivity | exact I].
  - apply (TryUriDecodeLen_rejects_malformed (lit "/tmp/a%zz.txt") []).
    + unfold no_nul. simpl. intuition discriminate.
    + exists 6. split; [reflexivity | simpl; left; reflexivity].
Defined.

Section UriRoundTrip.

Import UriCodec.

Lemma TryUriDecodeLen_from_plain (s rest : list char) :
  no_nul s -> ~ In "%"%char s ->
  forall len,
    TryUriDecodeLen_from len (s ++ NUL :: rest)
    = Def (Some (len + length s, NUL :: rest)).
Proof.
  induction s as [|c s IH]; intros Hs Hp len; simpl.
  - rewrite Nat.add_0_r. reflexivity.
  - apply no_nul_cons in Hs. destruct Hs as [Hc Hs].
    rewrite (is_nul_false c Hc).
    destruct (Ascii.eqb c "%") eqn:Ec.
    + apply Ascii.eqb_eq in Ec. subst c. exfalso. apply Hp. left. reflexivity.
    + simpl. rewrite IH; [|assumption|intro X; apply Hp; right; exact X].
      do 3 f_equal. lia.
Qed.

Lemma UriDecodeUnchecked_plain (s : list char) :
  ~ In "%"%char s -> UriDecodeUnchecked s = Def s.
Proof.
  induction s as [|c s IH]; intro Hp; simpl.
  - reflexivity.
  - destruct (Ascii.eqb c "%") eqn:Ec.
    + apply Ascii.eqb_eq in Ec. subst c. exfalso. apply Hp. left. reflexivity.
    + simpl. rewrite IH; [reflexivity|]. intro X. apply Hp. right. exact X.
Qed.

Lemma store_fits (capacity : nat) (bytes : list char) :
  length bytes <= capacity -> store capacity bytes = Def bytes.
Proof.
  intro H. unfold store. apply Nat.leb_le in H. rewrite H. reflexivity.
Qed.

Lemma skip_file_uri_prefix_app (prefix p : list char) :
  skip_file_uri_prefix prefix (prefix ++ p) = Def (Some p).
Proof.
  induction prefix as [|c prefix IH]; simpl.
  - reflexivity.
  - rewrite Ascii.eqb_refl. exact IH.
Qed.

Lemma ConvertToUriPath_app (s rest : list char) :
  no_nul s ->
  ConvertToUriPath (s ++ NUL :: rest) = Def (FILE_URI_PREFIX ++ s ++ [NUL]).
Proof.
  intro Hs. unfold ConvertToUriPath. rewrite string_at_app by assumption.
  apply store_fits. rewrite !length_app. simpl. lia.
Qed.

(** A path without ['%'] survives [ConvertToUriPath] followed by
    [AllocAndCopyFilePath]. *)
Lemma AllocAndCopyFilePath_plain (s : list char) (w : world) :
  no_nul s -> ~ In "%"%char s ->
  AllocAndCopyFilePath (FILE_URI_PREFIX ++ s ++ [NUL]) w
  = Def ((NFD_OKAY, Some (s ++ [NUL], length s + 1)), w).
Proof.
  intros Hs Hp. unfold AllocAndCopyFilePath, bind, lift.
  rewrite skip_file_uri_prefix_app.
  unfold TryUriDecodeLen. rewrite TryUriDecodeLen_from_plain by assumption.
  rewrite range_app, UriDecodeUnchecked_plain by assumption.
  rewrite store_fits by (rewrite length_app; simpl; lia).
  reflexivity.
Qed.

End UriRoundTrip.

(** C3, as the code has it.  For every byte string [S] without a NUL and
    without a ['%'], the URI that [ConvertToUriPath] composes from [S]
    (the prefix ["file://"], no escaping) is accepted by
    [AllocAndCopyFilePath], which returns [NFD_OKAY], leaves the error
    slot alone and yields exactly [S], NUL-terminated. *)
Theorem uri_round_trip (S rest : list char) (w : world) :
  no_nul S -> ~ In "%"%char S ->
  exists uri,
    UriCodec.ConvertToUriPath (S ++ NUL :: rest) = Def uri
    /\ UriCodec.AllocAndCopyFilePath uri w
       = Def ((NFD_OKAY, Some (c_string S, length S + 1)), w).
Proof.
  intros Hs Hp. exists (UriCodec.FILE_URI_PREFIX ++ S ++ [NUL]). split.
  - apply ConvertToUriPath_app. assumption.
  - apply AllocAndCopyFilePath_plain; assumption.
Qed.

Lemma uri_round_trip_witness :
  exists uri,
    UriCodec.ConvertToUriPath (lit "/tmp/a b.txt" ++ NUL :: []) = Def uri
    /\ UriCodec.AllocAndCopyFilePath uri quiet_world
       = Def ((NFD_OKAY, Some (c_string (lit "/tmp/a b.txt"), 13)),
              quiet_world).
Proof.
  apply (uri_round_trip (lit "/tmp/a b.txt") [] quiet_world).
  - unfold no_nul. simpl. intuition discriminate.
  - simpl. intuition discriminate.
Defined.

(** C3 as stated fails on a string that holds a ['%']: ["/a%41"] has no
    NUL, its URI is ["file:///a%41"], and decoding yields ["/aA"]; the
    string ["100%"] does not even decode. *)
Lemma uri_round_trip_counterexample :
  no_nul (lit "/a%41")
  /\ UriCodec.ConvertToUriPath (c_string (lit "/a%41"))
     = Def (c_string (lit "file:///a%41"))
  /\ UriCodec.AllocAndCopyFilePath (c_string (lit "file:///a%41"))
       quiet_world
     = Def ((NFD_OKAY, Some (c_string (lit "/aA"), 4)), quiet_world)
  /\ c_string (lit "/aA") <> c_string (lit "/a%41")
  /\ no_nul (lit "100%")
  /\ UriCodec.ConvertToUriPath (c_string (lit "100%"))
     = Def (c_string (lit "file://100%"))
  /\ UriCodec.AllocAndCopyFilePath (c_string (lit "file://100%"))
       quiet_world
     = Def ((NFD_ERROR, None),
            set_err_ptr (Some UriCodec.ERR_MALFORMED_URI) quiet_world).
Proof.
  repeat split; try reflexivity; try discriminate;
    unfold no_nul; simpl; intuition discriminate.
Qed.

(* ----------------------------------------------------------------- *)
(** *** Handle generator *)

Section HandleGeneratorFacts.

Import HandleGenerator.

Lemma encode_random_byte_range (b : char) :
  Forall in_A_to_P (encode_random_byte b).
Proof.
  destruct b as [[] [] [] [] [] [] [] []];
    repeat constructor.
Qed.

Lemma encode_random_bytes_range (bytes : list char) :
  Forall in_A_to_P (flat_map encode_random_byte bytes).
Proof.
  induction bytes as [|b bytes IH]; cbn [flat_map].
  - constructor.
  - apply Forall_app. split; [apply encode_random_byte_range | exact IH].
Qed.

Lemma encode_random_bytes_length (bytes : list char) :
  length (flat_map encode_random_byte bytes) = 2 * length bytes.
Proof.
  induction bytes as [|b bytes IH]; cbn [flat_map]; [reflexivity|].
  rewrite length_app, IH. cbn [encode_random_byte length]. lia.
Qed.

(** Every run of the loop that ends has written two characters for each
    of at most [amount] bytes. *)
Lemma Generate64RandomChars_loop_shape (replies : list getrandom_reply) :
  forall amount out rest,
    Generate64RandomChars_loop replies amount = Def (out, rest) ->
    exists bytes,
      out = flat_map encode_random_byte bytes /\ length bytes <= amount.
Proof.
  induction replies as [|r replies IH]; intros amount out rest H.
  - destruct amount; simpl in H; [|discriminate].
    injection H as <- <-. exists []. split; [reflexivity | simpl; lia].
  - destruct amount as [|a].
    + simpl in H. injection H as <- <-. exists []. split; [reflexivity | simpl; lia].
    + cbn [Generate64RandomChars_loop] in H. destruct r as [bytes | |].
      * destruct (Generate64RandomChars_loop replies
                    (S a - length (firstn (S a) bytes))) as [[out' rest']|f] eqn:E;
          [|discriminate].
        injection H as <- <-.
        destruct (IH _ _ _ E) as [bs [-> Hlen]].
        exists (firstn (S a) bytes ++ bs). split.
        -- rewrite flat_map_app. reflexivity.
        -- rewrite length_app. pose proof (firstn_le_length (S a) bytes).
           rewrite length_firstn in *. lia.
      * apply IH in H. exact H.
      * injection H as <- <-. exists []. split; [reflexivity | simpl; lia].
Qed.

(** With no error other than an interrupted call and enough bytes on
    offer, the loop ends with exactly [amount] bytes encoded. *)
Lemma Generate64RandomChars_loop_full (replies : list getrandom_reply) :
  ~ In GR_error replies ->
  forall amount,
    amount <= length (flat_map reply_bytes replies) ->
    exists bytes rest,
      Generate64RandomChars_loop replies amount
      = Def (flat_map encode_random_byte bytes, rest)
      /\ length bytes = amount.
Proof.
  induction replies as [|r replies IH]; intros Herr amount Hn.
  - simpl in Hn. assert (amount = 0) by lia. subst.
    exists [], []. split; reflexivity.
  - destruct amount as [|a].
    + exists [], (r :: replies). split; reflexivity.
    + assert (Herr' : ~ In GR_error replies) by (intro X; apply Herr; right; exact X).
      cbn [Generate64RandomChars_loop]. destruct r as [bytes | |].
      * simpl in Hn. rewrite length_app in Hn.
        destruct (IH Herr' (S a - length (firstn (S a) bytes)))
          as [bs [rest [E Hlen]]].
        { rewrite length_firstn. lia. }
        rewrite E. exists (firstn (S a) bytes ++ bs), rest. split.
        -- rewrite flat_map_app. reflexivity.
        -- rewrite length_app, Hlen, length_firstn. lia.
      * simpl in Hn. destruct (IH Herr' (S a) Hn) as [bs [rest [E Hlen]]].
        exists bs, rest. split; assumption.
      * exfalso. apply Herr. left. reflexivity.
Qed.

Lemma dot_to_underscore_spec (s : list char) :
  map dot_to_underscore s
  = map (fun c => if Ascii.eqb c "." then "_"%char else c) s.
Proof.
  apply map_ext. intro c. unfold dot_to_underscore.
  destruct (Ascii.eqb c "."); reflexivity.
Qed.

Lemma encode_random_byte_token (b : char) : encode_random_byte b = token_of [b].
Proof. destruct b as [[] [] [] [] [] [] [] []]; reflexivity. Qed.

Lemma encode_random_bytes_token (bytes : list char) :
  flat_map encode_random_byte bytes = token_of bytes.
Proof.
  induction bytes as [|b bytes IH]; [reflexivity|].
  cbn [flat_map]. rewrite encode_random_byte_token, IH. reflexivity.
Qed.

(** The loop encodes the first [amount] bytes that [getrandom] delivers
    before its first error other than an interrupted call. *)
Lemma Generate64RandomChars_loop_delivers (replies : list getrandom_reply) :
  forall amount,
    In GR_error replies \/ amount <= length (flat_map reply_bytes replies) ->
    exists rest,
      Generate64RandomChars_loop replies amount
      = Def (flat_map encode_random_byte (firstn amount (delivered replies)), rest).
Proof.
  unfold delivered.
  induction replies as [|r replies IH]; intros amount H.
  - destruct amount as [|a].
    + exists []. reflexivity.
    + exfalso. destruct H as [[]|H]. simpl in H. lia.
  - destruct amount as [|a]; [exists (r :: replies); reflexivity|].
    cbn [Generate64RandomChars_loop]. destruct r as [bytes | |].
    + cbn [before_error flat_map reply_bytes].
      destruct (IH (S a - length (firstn (S a) bytes))) as [rest E].
      { destruct H as [[X|X]|H]; [discriminate X | left; exact X | right].
        cbn [flat_map reply_bytes] in H. rewrite length_app in H.
        rewrite length_firstn. lia. }
      rewrite E. exists rest. rewrite firstn_app, flat_map_app.
      do 3 f_equal. rewrite length_firstn.
      destruct (Nat.le_gt_cases (length bytes) (S a)) as [Hle|Hgt].
      * rewrite Nat.min_r by exact Hle. reflexivity.
      * rewrite Nat.min_l by lia.
        replace (S a - S a) with 0 by lia.
        replace (S a - length bytes) with 0 by lia. reflexivity.
    + cbn [before_error flat_map reply_bytes app]. apply IH.
      destruct H as [[X|X]|H]; [discriminate X | left; exact X | right; exact H].
    + exists replies. reflexivity.
Qed.

End HandleGeneratorFacts.

(** C5, as the code has it.  The generated handle path is the prefix
    ["/org/freedesktop/portal/desktop/request/"], the unique bus name
    without its leading [':'] and with every ['.'] replaced by ['_'], a
    ['/'], and the token; the token pointer points at that token.  The
    token holds, for each of the first 32 bytes that [getrandom] delivers
    before its first error other than an interrupted call, the letter
    ['A'] + low nibble and then the letter ['A'] + high nibble, so every
    character of it is in ['A'..'P'].  It has exactly 64 characters when
    32 bytes are delivered before such an error, and two for each
    delivered byte, fewer than 64, when the error comes earlier.  (Source
    comment: "Appends up to 64 random chars".) *)
Theorem MakeUniqueObjectPath_shape (w : world) (name after : list char) :
  dbus_unique_name w = name ++ NUL :: after ->
  no_nul name ->
  In GR_error (getrandom_replies w)
  \/ 32 <= length (flat_map reply_bytes (getrandom_replies w)) ->
  let obtained := delivered (getrandom_replies w) in
  let token := token_of (firstn 32 obtained) in
  exists w',
    HandleGenerator.MakeUniqueObjectPath w
    = Def ((lit "/org/freedesktop/portal/desktop/request/"
            ++ sanitized_sender name ++ "/"%char :: token ++ [NUL],
            token ++ [NUL]), w')
    /\ err_ptr w' = err_ptr w
    /\ Forall in_A_to_P token
    /\ (32 <= length obtained -> length token = 64)
    /\ (length obtained < 32 ->
        length token = 2 * length obtained /\ length token < 64).
Proof.
  intros Hname Hnn Hscript obtained token.
  destruct (Generate64RandomChars_loop_delivers _ 32 Hscript) as [rest Hloop].
  fold obtained in Hloop. rewrite encode_random_bytes_token in Hloop.
  fold token in Hloop.
  assert (Hlen : length token = 2 * length (firstn 32 obtained)).
  { unfold token. rewrite <- encode_random_bytes_token.
    apply encode_random_bytes_length. }
  rewrite length_firstn in Hlen.
  exists (set_getrandom_replies rest w).
  split; [|split; [reflexivity | split; [|split]]].
  - unfold HandleGenerator.MakeUniqueObjectPath, bind, get, lift.
    rewrite Hname.
    assert (Hfirst : deref (name ++ NUL :: after)
                     = Def (hd NUL (name ++ NUL :: after)))
      by (destruct name; reflexivity).
    rewrite Hfirst. cbv beta iota zeta.
    match goal with
    | |- context [string_at ?p] =>
        assert (Hsender :
          string_at p
          = Def match name with
                | c :: rest => if Ascii.eqb c ":" then rest else name
                | [] => []
                end)
    end.
    { destruct name as [|c name']; simpl.
      - reflexivity.
      - apply no_nul_cons in Hnn. destruct Hnn as [Hc Hn'].
        destruct (Ascii.eqb c ":") eqn:Ec.
        + apply string_at_app. exact Hn'.
        + change (c :: name' ++ NUL :: after) with ((c :: name') ++ NUL :: after).
          apply string_at_app. apply no_nul_cons. split; assumption. }
    rewrite Hsender. cbv beta iota zeta.
    unfold HandleGenerator.Generate64RandomChars.
    rewrite Hloop. cbv beta iota zeta. rewrite store_fits.
    + unfold ret, sanitized_sender. rewrite dot_to_underscore_spec. reflexivity.
    + unfold HandleGenerator.STR_RESPONSE_HANDLE_PREFIX_LEN.
      rewrite !length_app. cbn [length]. rewrite length_app, length_map.
      cbn [length]. lia.
  - unfold token. rewrite <- encode_random_bytes_token.
    apply encode_random_bytes_range.
  - intro H. lia.
  - intro H. lia.
Qed.

Lemma MakeUniqueObjectPath_shape_witness :
  let obtained :=
    delivered [GR_eintr; GR_bytes (firstn 20 sample_random_bytes);
               GR_bytes (skipn 20 sample_random_bytes)] in
  let token := token_of (firstn 32 obtained) in
  exists w',
    HandleGenerator.MakeUniqueObjectPath
      (world_with_random [GR_eintr; GR_bytes (firstn 20 sample_random_bytes);
                          GR_bytes (skipn 20 sample_random_bytes)])
    = Def ((lit "/org/freedesktop/portal/desktop/request/"
            ++ sanitized_sender (lit ":1.42") ++ "/"%char :: token ++ [NUL],
            token ++ [NUL]), w')
    /\ err_ptr w' = None
    /\ Forall in_A_to_P token
    /\ (32 <= length obtained -> length token = 64)
    /\ (length obtained < 32 ->
        length token = 2 * length obtained /\ length token < 64).
Proof.
  apply (MakeUniqueObjectPath_shape
           (world_with_random [GR_eintr; GR_bytes (firstn 20 sample_random_bytes);
                               GR_bytes (skipn 20 sample_random_bytes)])
           (lit ":1.42") []).
  - reflexivity.
  - unfold no_nul. simpl. intuition discriminate.
  - right. vm_compute. lia.
Defined.

(** C5 as stated fails when [getrandom] reports an error other than an
    interrupted call: at once, the token is empty; after one byte, it has
    two characters. *)
Lemma MakeUniqueObjectPath_counterexample :
  HandleGenerator.MakeUniqueObjectPath (world_with_random [GR_error])
  = Def ((c_string (lit "/org/freedesktop/portal/desktop/request/1_42/"),
          c_string []), world_with_random [])
  /\ HandleGenerator.MakeUniqueObjectPath
       (world_with_random [GR_bytes [ascii_of_nat 37]; GR_error])
     = Def ((c_string (lit "/org/freedesktop/portal/desktop/request/1_42/FC"),
             c_string (lit "FC")), world_with_random [])
  /\ length (lit "FC") <> 64.
Proof.
  repeat split; discriminate.
Qed.

(* ----------------------------------------------------------------- *)
(** *** Filter encoder, native list *)

Lemma bytes_eqb_eq (a b : list char) : bytes_eqb a b = true <-> a = b.
Proof.
  revert b. induction a as [|x a IH]; intros [|y b]; simpl;
    try (split; [discriminate | discriminate]); try tauto.
  rewrite andb_true_iff, Ascii.eqb_eq, IH. split.
  - intros [-> ->]. reflexivity.
  - intro H. injection H as -> ->. auto.
Qed.

Section NativeFilterFacts.

Import Native.

Lemma scan_to_app (sep : char) (e rest : list char) (stop : char) :
  ~ In sep e -> no_nul e -> (stop = sep \/ stop = NUL) ->
  scan_to sep (e ++ stop :: rest) = Def (e, stop :: rest).
Proof.
  intros Hsep Hnul Hstop. induction e as [|c e IH]; simpl.
  - destruct Hstop as [-> | ->].
    + rewrite Ascii.eqb_refl. reflexivity.
    + rewrite orb_true_r. reflexivity.
  - apply no_nul_cons in Hnul. destruct Hnul as [Hc Hnul].
    rewrite (is_nul_false c Hc).
    destruct (Ascii.eqb c sep) eqn:Ec.
    + apply Ascii.eqb_eq in Ec. subst. exfalso. apply Hsep. left. reflexivity.
    + simpl. rewrite IH; [reflexivity | | assumption].
      intro X. apply Hsep. right. exact X.
Qed.

Lemma next_item_app (sep : char) (e rest : list char) (stop : char) :
  list_item sep e -> (stop = sep \/ stop = NUL) ->
  next_item sep (e ++ stop :: rest) = Def (e, stop :: rest).
Proof.
  intros [Hne [Hsep Hnul]] Hstop. destruct e as [|c e]; [congruence|].
  simpl. rewrite scan_to_app; auto.
  - intro X. apply Hsep. right. exact X.
  - apply no_nul_cons in Hnul. tauto.
Qed.

Lemma extn_pattern_ok (e : list char) :
  no_nul e ->
  extn_pattern e = Def (DStruct [DUInt32 0; DString (lit "*." ++ e)]).
Proof.
  intro H. unfold extn_pattern, ub_bind.
  rewrite store_fits by (simpl; rewrite length_app; simpl; lia).
  change ("*"%char :: "."%char :: e ++ [NUL]) with ((lit "*." ++ e) ++ NUL :: []).
  rewrite string_at_app; [reflexivity|].
  apply no_nul_app. split; [|assumption].
  unfold no_nul. simpl. intuition discriminate.
Qed.

Lemma extn_loop_ok (exts : list (list char)) (after : list char) :
  exts <> [] -> Forall (list_item ",") exts ->
  forall fuel, length exts <= fuel ->
    extn_loop fuel (join_with "," exts ++ NUL :: after)
    = Def (map (fun e => DStruct [DUInt32 0; DString (lit "*." ++ e)]) exts).
Proof.
  induction exts as [|e exts IH]; intros Hne Hwf fuel Hfuel; [congruence|].
  inversion Hwf as [|? ? He Hrest]; subst.
  destruct fuel as [|fuel]; [simpl in Hfuel; lia|].
  cbn [extn_loop]. destruct exts as [|e2 exts].
  - cbn [join_with]. unfold ub_bind.
    rewrite next_item_app by auto. rewrite extn_pattern_ok by apply He.
    reflexivity.
  - cbn [join_with]. rewrite <- app_assoc. cbn [app]. unfold ub_bind.
    rewrite next_item_app by auto. rewrite extn_pattern_ok by apply He.
    cbn [deref tl]. change (is_nul ",") with false. cbv iota.
    fold (ub_bind (A := list DBusValue) (B := list DBusValue)).
    rewrite IH; [reflexivity | discriminate | assumption | simpl in *; lia].
Qed.

Lemma extn_equal_ok (e target after : list char) :
  no_nul e -> no_nul target ->
  extn_equal e (target ++ NUL :: after) = Def (bytes_eqb target e).
Proof.
  revert target. induction e as [|c e IH]; intros target He Ht.
  - destruct target as [|t target]; simpl; [reflexivity|].
    apply no_nul_cons in Ht. rewrite (is_nul_false t) by tauto. reflexivity.
  - apply no_nul_cons in He. destruct He as [Hc He].
    destruct target as [|t target]; simpl; [reflexivity|].
    apply no_nul_cons in Ht. destruct Ht as [Ht Htarget].
    rewrite (is_nul_false t Ht). rewrite Ascii.eqb_sym.
    destruct (Ascii.eqb t c); simpl; [|reflexivity].
    apply IH; assumption.
Qed.

Lemma extn_loop_check_ok (exts : list (list char)) (target after after' : list char) :
  exts <> [] -> Forall (list_item ",") exts -> no_nul target ->
  forall fuel matched, length exts <= fuel ->
    extn_loop_check fuel (join_with "," exts ++ NUL :: after)
                    (target ++ NUL :: after') matched
    = Def (map (fun e => DStruct [DUInt32 0; DString (lit "*." ++ e)]) exts,
           matched || existsb (bytes_eqb target) exts).
Proof.
  intros Hne Hwf Ht.
  induction exts as [|e exts IH]; intros fuel matched Hfuel; [congruence|].
  inversion Hwf as [|? ? He Hrest]; subst.
  destruct fuel as [|fuel]; [simpl in Hfuel; lia|].
  assert (Heq : (if negb matched
                 then extn_equal e (target ++ NUL :: after')
                 else Def matched)
                = Def (matched || bytes_eqb target e)).
  { destruct matched; simpl; [reflexivity|].
    apply extn_equal_ok; [apply He | assumption]. }
  cbn [extn_loop_check]. destruct exts as [|e2 exts].
  - cbn [join_with]. unfold ub_bind.
    rewrite next_item_app by auto. rewrite extn_pattern_ok by apply He.
    rewrite Heq. cbn [deref]. change (is_nul NUL) with true. cbv iota.
    simpl. rewrite orb_false_r. reflexivity.
  - cbn [join_with]. rewrite <- app_assoc. cbn [app]. unfold ub_bind.
    rewrite next_item_app by auto. rewrite extn_pattern_ok by apply He.
    rewrite Heq. cbn [deref tl]. change (is_nul ",") with false. cbv iota.
    rewrite IH; [| discriminate | assumption | simpl in *; lia].
    cbn [map existsb]. rewrite !orb_assoc. reflexivity.
Qed.

End NativeFilterFacts.

Section NativeFilterEncoding.

Import Native.

Lemma count_sep_app (sep : char) (s after : list char) :
  no_nul s ->
  count_sep sep (s ++ NUL :: after) = Def (1 + count_occ ascii_dec s sep).
Proof.
  induction s as [|c s IH]; intro H; simpl.
  - reflexivity.
  - apply no_nul_cons in H. destruct H as [Hc H].
    rewrite (is_nul_false c Hc), (IH H).
    destruct (ascii_dec c sep) as [->|Hne].
    + rewrite Ascii.eqb_refl. reflexivity.
    + apply Ascii.eqb_neq in Hne. rewrite Hne. reflexivity.
Qed.

Lemma copy_spec_app (s after : list char) :
  s <> [] -> no_nul s ->
  copy_spec (s ++ NUL :: after) = Def (widen_commas s).
Proof.
  induction s as [|c s IH]; intros Hne H; [congruence|].
  apply no_nul_cons in H. destruct H as [Hc H].
  destruct s as [|d s].
  - simpl. destruct (Ascii.eqb c ","); reflexivity.
  - change ((c :: d :: s) ++ NUL :: after) with (c :: (d :: s) ++ NUL :: after).
    cbn [copy_spec]. cbn [app].
    assert (Hd : is_nul d = false)
      by (apply is_nul_false; apply no_nul_cons in H; tauto).
    rewrite Hd. change (d :: s ++ NUL :: after) with ((d :: s) ++ NUL :: after).
    rewrite IH by (auto; discriminate).
    reflexivity.
Qed.

Lemma widen_commas_length (s : list char) :
  length (widen_commas s) = length s + count_occ ascii_dec s ","%char.
Proof.
  induction s as [|c s IH]; [reflexivity|].
  change (widen_commas (c :: s))
    with ((if Ascii.eqb c "," then [c; " "%char] else [c]) ++ widen_commas s).
  cbn [count_occ]. rewrite length_app, IH.
  destruct (ascii_dec c ",") as [->|Hne].
  - simpl. lia.
  - apply Ascii.eqb_neq in Hne. rewrite Hne. simpl. lia.
Qed.

Lemma widen_commas_no_nul (s : list char) : no_nul s -> no_nul (widen_commas s).
Proof.
  induction s as [|c s IH]; intro H; [exact H|].
  apply no_nul_cons in H. destruct H as [Hc H].
  change (widen_commas (c :: s))
    with ((if Ascii.eqb c "," then [c; " "%char] else [c]) ++ widen_commas s).
  apply no_nul_app. split; [|apply IH; exact H].
  destruct (Ascii.eqb c ","); intro X; simpl in X;
    intuition (try discriminate; congruence).
Qed.

Lemma join_with_no_nul (sep : char) (items : list (list char)) :
  sep <> NUL -> Forall (list_item sep) items -> no_nul (join_with sep items).
Proof.
  intros Hsep H. induction H as [|e items He Hrest IH]; simpl.
  - intros [].
  - destruct items as [|e2 items]; [apply He|].
    apply no_nul_app. split; [apply He|].
    apply no_nul_cons. split; [assumption | exact IH].
Qed.

Lemma join_with_not_nil (sep : char) (items : list (list char)) :
  items <> [] -> Forall (list_item sep) items -> join_with sep items <> [].
Proof.
  intros Hne H. destruct H as [|e items He Hrest]; [congruence|].
  destruct He as [He _]. simpl. destruct items; [assumption|].
  destruct e; [congruence | discriminate].
Qed.

Lemma join_with_length (sep : char) (items : list (list char)) :
  Forall (list_item sep) items -> length items <= length (join_with sep items) + 1.
Proof.
  intro H. induction H as [|e items He Hrest IH]; simpl; [lia|].
  destruct items as [|e2 items]; [simpl; lia|].
  rewrite length_app. simpl in *. lia.
Qed.

Lemma display_name_ok (f : list char * list (list char)) :
  native_filter_wf f ->
  display_name (native_item f)
  = Def (fst f ++ lit " (" ++ widen_commas (join_with "," (snd f)) ++ lit ")").
Proof.
  intros [Hn [Hne Hwf]]. unfold display_name, native_item, c_string, ub_bind.
  cbn [name spec].
  assert (Hs : no_nul (join_with "," (snd f)))
    by (apply join_with_no_nul; [discriminate | assumption]).
  rewrite count_sep_app, string_at_app, strlen_app by assumption.
  rewrite copy_spec_app by (auto using join_with_not_nil).
  rewrite store_fits.
  - change (fst f ++ " "%char :: "("%char :: widen_commas (join_with "," (snd f))
            ++ [")"%char; NUL])
      with (fst f ++ lit " (" ++ widen_commas (join_with "," (snd f))
            ++ lit ")" ++ NUL :: []).
    rewrite !app_assoc. rewrite string_at_app; [reflexivity|].
    rewrite !no_nul_app. repeat split; auto using widen_commas_no_nul;
      unfold no_nul; simpl; intuition discriminate.
  - rewrite length_app. simpl. rewrite length_app, widen_commas_length.
    simpl. lia.
Qed.

Lemma AppendSingleFilter_ok (f : list char * list (list char)) :
  native_filter_wf f ->
  AppendSingleFilter (native_item f) = Def (encode_native_filter f).
Proof.
  intro H. unfold AppendSingleFilter, ub_bind. rewrite display_name_ok by exact H.
  destruct H as [Hn [Hne Hwf]]. unfold native_item, c_string. cbn [spec].
  rewrite extn_loop_ok; auto.
  rewrite length_app. pose proof (join_with_length _ _ Hwf). simpl. lia.
Qed.

Lemma AppendSingleFilterCheckExtn_ok (f : list char * list (list char))
    (target after : list char) :
  native_filter_wf f -> no_nul target ->
  AppendSingleFilterCheckExtn (native_item f) (target ++ NUL :: after)
  = Def (encode_native_filter f, lists_extension target f).
Proof.
  intros H Ht. unfold AppendSingleFilterCheckExtn, ub_bind.
  rewrite display_name_ok by exact H.
  destruct H as [Hn [Hne Hwf]]. unfold native_item, c_string. cbn [spec].
  rewrite extn_loop_check_ok; auto.
  rewrite length_app. pose proof (join_with_length _ _ Hwf). simpl. lia.
Qed.

End NativeFilterEncoding.

Section SaveFilters.

Import Native.

Lemma find_index_find {A : Type} (p : A -> bool) (l : list A) :
  forall i,
    match find_index p l i with
    | Some k => exists x, find p l = Some x /\ i <= k /\ nth_error l (k - i) = Some x
    | None => find p l = None
    end.
Proof.
  induction l as [|x l IH]; intro i; simpl; [reflexivity|].
  destruct (p x).
  - exists x. rewrite Nat.sub_diag. auto.
  - specialize (IH (S i)). destruct (find_index p l (S i)) as [k|]; [|exact IH].
    destruct IH as [y [Hf [Hle Hn]]]. exists y. split; [exact Hf|].
    split; [lia|]. replace (k - i) with (S (k - S i)) by lia. exact Hn.
Qed.

Lemma find_index_existsb {A : Type} (p : A -> bool) (l : list A) (i : nat) :
  existsb p l = match find_index p l i with Some _ => true | None => false end.
Proof.
  revert i. induction l as [|x l IH]; intro i; simpl; [reflexivity|].
  destruct (p x); simpl; [reflexivity | apply IH].
Qed.

Lemma save_filters_loop_plain (fs : list (list char * list (list char)))
    (extn : option ptr) (matched : bool) (sel : option nat) :
  Forall native_filter_wf fs ->
  extn = None \/ matched = true ->
  forall i,
    save_filters_loop (map native_item fs) i extn matched sel
    = Def (map encode_native_filter fs, matched, sel).
Proof.
  intros Hwf Hcase. induction Hwf as [|f fs Hf Hrest IH]; intro i.
  - reflexivity.
  - cbn [map save_filters_loop]. unfold ub_bind.
    assert (E : match extn with
                | Some match_extn =>
                    if negb matched
                    then ub_bind (AppendSingleFilterCheckExtn (native_item f) match_extn)
                           (fun x => let '(entry, m) := x in
                                     Def (entry, m, if m then Some i else sel))
                    else ub_bind (AppendSingleFilter (native_item f))
                           (fun entry => Def (entry, matched, sel))
                | None => ub_bind (AppendSingleFilter (native_item f))
                            (fun entry => Def (entry, matched, sel))
                end = Def (encode_native_filter f, matched, sel)).
    { destruct Hcase as [-> | ->].
      - unfold ub_bind. rewrite AppendSingleFilter_ok by exact Hf. reflexivity.
      - destruct extn; unfold ub_bind; cbn [negb];
          rewrite AppendSingleFilter_ok by exact Hf; reflexivity. }
    unfold ub_bind in E. rewrite E. rewrite IH. reflexivity.
Qed.

Lemma save_filters_loop_search (fs : list (list char * list (list char)))
    (target after : list char) (sel : option nat) :
  Forall native_filter_wf fs -> no_nul target ->
  forall i,
    save_filters_loop (map native_item fs) i (Some (target ++ NUL :: after)) false sel
    = Def (map encode_native_filter fs,
           existsb (lists_extension target) fs,
           match find_index (lists_extension target) fs i with
           | Some k => Some k
           | None => sel
           end).
Proof.
  intros Hwf Ht. induction Hwf as [|f fs Hf Hrest IH]; intro i.
  - reflexivity.
  - cbn [map save_filters_loop negb existsb find_index]. unfold ub_bind.
    rewrite AppendSingleFilterCheckExtn_ok by assumption.
    destruct (lists_extension target f) eqn:Em.
    + rewrite save_filters_loop_plain by auto. reflexivity.
    + rewrite IH. reflexivity.
Qed.

Lemma past_last_dot_none (s after : list char) :
  no_nul s -> ~ In "."%char s -> past_last_dot (s ++ NUL :: after) = Def None.
Proof.
  induction s as [|c s IH]; intros Hn Hd; simpl; [reflexivity|].
  apply no_nul_cons in Hn. destruct Hn as [Hc Hn].
  rewrite (is_nul_false c Hc), IH; [|assumption|intro X; apply Hd; right; exact X].
  destruct (Ascii.eqb c ".") eqn:E; [|reflexivity].
  apply Ascii.eqb_eq in E. subst. exfalso. apply Hd. left. reflexivity.
Qed.

Lemma past_last_dot_found (stem ext after : list char) :
  no_nul stem -> no_nul ext -> ~ In "."%char ext ->
  past_last_dot (stem ++ "."%char :: ext ++ NUL :: after)
  = Def (Some (ext ++ NUL :: after)).
Proof.
  intros Hs He Hd. induction stem as [|c stem IH]; simpl.
  - rewrite past_last_dot_none by assumption. reflexivity.
  - apply no_nul_cons in Hs. destruct Hs as [Hc Hs].
    rewrite (is_nul_false c Hc), (IH Hs). reflexivity.
Qed.

Lemma no_empty_extension (fs : list (list char * list (list char))) :
  Forall native_filter_wf fs -> find (lists_extension []) fs = None.
Proof.
  intro H. induction H as [|f fs Hf Hrest IH]; simpl; [reflexivity|].
  assert (E : lists_extension [] f = false).
  { destruct Hf as [_ [_ Hwf]]. unfold lists_extension.
    induction Hwf as [|e exts He Hexts IHe]; cbn [existsb]; [reflexivity|].
    rewrite IHe. destruct e; [destruct He; congruence | reflexivity]. }
  rewrite E. exact IH.
Qed.

End SaveFilters.

(** C2.  For a save dialog with a non-empty native filter list (every
    filter a display name and a comma-separated list of non-empty bare
    extensions) and a [defaultName] that contains a dot: when the part of
    [defaultName] after its last dot is byte-for-byte equal to one of the
    extensions of some filter, the [current_filter] entry of the options
    dictionary is the encoding of the first such filter; otherwise it is
    the wildcard entry, name "All files" and single pattern "*". *)
Theorem save_dialog_current_filter
    (filters : list (list char * list (list char)))
    (stem ext after : list char) :
  filters <> [] ->
  Forall native_filter_wf filters ->
  no_nul stem -> no_nul ext -> ~ In "."%char ext ->
  Native.AppendSaveFileQueryDictEntryFilters
    (map native_item filters) (length filters)
    (Some (stem ++ "."%char :: ext ++ NUL :: after))
  = Def [filters_option
           (map encode_native_filter filters ++ [wildcard_filter (lit "All files")]);
         current_filter_option
           match find (lists_extension ext) filters with
           | Some f => encode_native_filter f
           | None => wildcard_filter (lit "All files")
           end].
Proof.
  intros Hne Hwf Hstem Hext Hdot.
  unfold Native.AppendSaveFileQueryDictEntryFilters.
  destruct filters as [|f0 fs0] eqn:Efs; [congruence|]. rewrite <- Efs in *.
  replace (length filters =? 0) with false
    by (subst filters; reflexivity).
  cbn [negb]. unfold ub_bind at 1.
  unfold filter_array. rewrite length_map, Nat.leb_refl.
  rewrite <- (length_map native_item), firstn_all.
  unfold ub_bind at 1. unfold Native.default_extn, ub_bind at 1.
  rewrite past_last_dot_found by assumption.
  destruct ext as [|c ext'].
  - cbn [app deref ub_bind]. change (is_nul NUL) with true. cbv iota.
    unfold ub_bind. rewrite save_filters_loop_plain by auto.
    rewrite no_empty_extension by assumption. reflexivity.
  - cbn [app deref].
    assert (Hc : is_nul c = false)
      by (apply is_nul_false; apply no_nul_cons in Hext; tauto).
    cbn [ub_bind]. rewrite Hc.
    change (c :: ext' ++ NUL :: after) with ((c :: ext') ++ NUL :: after).
    unfold ub_bind.
    rewrite save_filters_loop_search with (i := 0) by assumption.
    rewrite (find_index_existsb _ filters 0).
    pose proof (find_index_find (lists_extension (c :: ext')) filters 0) as Hfi.
    destruct (find_index (lists_extension (c :: ext')) filters 0) as [k|].
    + destruct Hfi as [f [Hfind [_ Hnth]]]. rewrite Hfind.
      rewrite Nat.sub_0_r in Hnth.
      rewrite (map_nth_error native_item _ _ Hnth).
      rewrite AppendSingleFilter_ok; [reflexivity|].
      rewrite Forall_forall in Hwf. apply Hwf.
      apply nth_error_In with (n := k). exact Hnth.
    + rewrite Hfi. reflexivity.
Qed.

Lemma save_dialog_current_filter_witness :
  Native.AppendSaveFileQueryDictEntryFilters
    [native_filter "Header" "h,hpp"; native_filter "Src" "cpp,c"] 2
    (Some (c_string (lit "x.cpp")))
  = Def [filters_option
           [encode_native_filter (lit "Header", [lit "h"; lit "hpp"]);
            encode_native_filter (lit "Src", [lit "cpp"; lit "c"]);
            wildcard_filter (lit "All files")];
         current_filter_option
           (encode_native_filter (lit "Src", [lit "cpp"; lit "c"]))].
Proof.
  apply (save_dialog_current_filter
           [(lit "Header", [lit "h"; lit "hpp"]); (lit "Src", [lit "cpp"; lit "c"])]
           (lit "x") (lit "cpp") []).
  - discriminate.
  - repeat constructor; simpl; try discriminate;
      intro X; simpl in X; intuition discriminate.
  - intro X; simpl in X; intuition discriminate.
  - intro X; simpl in X; intuition discriminate.
  - intro X; simpl in X; intuition discriminate.
Defined.

(* ----------------------------------------------------------------- *)
(** *** Filter encoder, Windows list *)

Lemma ctype_isalpha_letter (c : char) :
  Ctype.isalpha (char_to_int c) = is_ascii_letter c.
Proof. destruct c as [[] [] [] [] [] [] [] []]; reflexivity. Qed.

Lemma ctype_tolower_lowercase (c : char) :
  int_to_char (Ctype.tolower (char_to_int c)) = ascii_lowercase c.
Proof. destruct c as [[] [] [] [] [] [] [] []]; reflexivity. Qed.

Lemma ctype_toupper_uppercase (c : char) :
  int_to_char (Ctype.toupper (char_to_int c)) = ascii_uppercase c.
Proof. destruct c as [[] [] [] [] [] [] [] []]; reflexivity. Qed.

Lemma letter_case_not_nul (c : char) :
  is_ascii_letter c = true ->
  ascii_lowercase c <> NUL /\ ascii_uppercase c <> NUL.
Proof.
  destruct c as [[] [] [] [] [] [] [] []]; intro H;
    try discriminate H; split; discriminate.
Qed.

Lemma genCaseSensitivePattern_case_wrap (r : list char) :
  genCaseSensitivePattern r = case_wrap r.
Proof.
  induction r as [|c r IH]; [reflexivity|].
  change (case_wrap (c :: r))
    with ((if is_ascii_letter c
           then ["["%char; ascii_lowercase c; ascii_uppercase c; "]"%char]
           else [c]) ++ case_wrap r).
  cbn [genCaseSensitivePattern].
  rewrite ctype_isalpha_letter, ctype_tolower_lowercase,
    ctype_toupper_uppercase, IH.
  destruct (is_ascii_letter c); reflexivity.
Qed.

Lemma genCaseSensitivePattern_length (r : list char) :
  length (genCaseSensitivePattern r)
  = length r + 3 * length (filter is_ascii_letter r).
Proof.
  induction r as [|c r IH]; [reflexivity|].
  cbn [genCaseSensitivePattern filter]. rewrite ctype_isalpha_letter.
  destruct (is_ascii_letter c); cbn [length]; rewrite IH; lia.
Qed.

Lemma case_wrap_no_nul (r : list char) : no_nul r -> no_nul (case_wrap r).
Proof.
  induction r as [|c r IH]; intro H; [exact H|].
  apply no_nul_cons in H. destruct H as [Hc H].
  change (case_wrap (c :: r))
    with ((if is_ascii_letter c
           then ["["%char; ascii_lowercase c; ascii_uppercase c; "]"%char]
           else [c]) ++ case_wrap r).
  apply no_nul_app. split; [|apply IH; exact H].
  destruct (is_ascii_letter c) eqn:E.
  - destruct (letter_case_not_nul c E) as [Hl Hu].
    intro X. simpl in X. intuition (try discriminate; congruence).
  - intro X. simpl in X. intuition congruence.
Qed.

Section WinFilterFacts.

Import Win.

Lemma int_result_fits (n : nat) :
  (N.of_nat n <= INT_MAX)%N -> int_result n = Def n.
Proof.
  intro H. unfold int_result.
  destruct (N.ltb_spec INT_MAX (N.of_nat n)); [lia | reflexivity].
Qed.

Lemma int_result_overflow (n : nat) :
  (INT_MAX < N.of_nat n)%N -> int_result n = Undef SizeOverflow.
Proof.
  intro H. unfold int_result.
  destruct (N.ltb_spec INT_MAX (N.of_nat n)); [reflexivity | lia].
Qed.

(** The counter ends with the number of letters of the range, unless an
    increment passes [INT_MAX]. *)
Lemma letter_count_from_spec (r : list char) :
  forall k,
    (N.of_nat k <= INT_MAX)%N ->
    letter_count_from k r = int_result (k + length (filter is_ascii_letter r)).
Proof.
  induction r as [|c r IH]; intros k Hk; cbn [letter_count_from filter].
  - cbn [length]. rewrite Nat.add_0_r. symmetry. apply int_result_fits. exact Hk.
  - rewrite ctype_isalpha_letter. destruct (is_ascii_letter c).
    + cbn [length]. unfold int_result at 1.
      destruct (N.ltb_spec INT_MAX (N.of_nat (k + 1))) as [Hbig|Hok].
      * cbn [ub_bind]. symmetry. apply int_result_overflow. lia.
      * cbn [ub_bind]. rewrite IH by exact Hok. f_equal. lia.
    + apply IH. exact Hk.
Qed.

Lemma letter_count_spec (r : list char) :
  letter_count r = int_result (length (filter is_ascii_letter r)).
Proof.
  unfold letter_count. rewrite letter_count_from_spec; [reflexivity|].
  unfold INT_MAX. lia.
Qed.

Lemma glob_pattern_ok (r : list char) :
  no_nul r -> letters_fit r ->
  glob_pattern r = Def (DStruct [DUInt32 0; DString (case_wrap r)]).
Proof.
  intros H Hfit. unfold letters_fit in Hfit. unfold glob_pattern.
  rewrite letter_count_spec, int_result_fits by (unfold INT_MAX; lia).
  cbn [ub_bind]. rewrite int_result_fits by (unfold INT_MAX; lia).
  cbn [ub_bind].
  rewrite store_fits
    by (rewrite length_app, genCaseSensitivePattern_length; cbn [length]; lia).
  cbn [ub_bind]. rewrite genCaseSensitivePattern_case_wrap.
  rewrite string_at_app by (apply case_wrap_no_nul; exact H).
  reflexivity.
Qed.

(** With more letters, the counter or the product [3 * letter_count]
    passes [INT_MAX]. *)
Lemma glob_pattern_overflow (r : list char) :
  ~ letters_fit r -> glob_pattern r = Undef SizeOverflow.
Proof.
  intro Hbig. unfold letters_fit in Hbig. unfold glob_pattern.
  rewrite letter_count_spec. unfold int_result at 1.
  destruct (N.ltb_spec INT_MAX (N.of_nat (length (filter is_ascii_letter r))))
    as [Hcount|Hcount]; [reflexivity|].
  cbn [ub_bind]. rewrite int_result_overflow by (unfold INT_MAX; lia).
  reflexivity.
Qed.

Lemma pattern_loop_ok (globs : list (list char)) (after : list char) :
  globs <> [] -> Forall (list_item ";") globs -> Forall letters_fit globs ->
  forall fuel, length globs <= fuel ->
    pattern_loop fuel (join_with ";" globs ++ NUL :: after)
    = Def (map (fun g => DStruct [DUInt32 0; DString (case_wrap g)]) globs).
Proof.
  induction globs as [|g globs IH]; intros Hne Hwf Hfit fuel Hfuel; [congruence|].
  inversion Hwf as [|? ? Hg Hrest]; subst.
  inversion Hfit as [|? ? Hgfit Hrestfit]; subst.
  destruct fuel as [|fuel]; [simpl in Hfuel; lia|].
  cbn [pattern_loop]. destruct globs as [|g2 globs].
  - cbn [join_with]. rewrite next_item_app by auto. cbn [ub_bind].
    rewrite glob_pattern_ok by (apply Hg || exact Hgfit). reflexivity.
  - cbn [join_with]. rewrite <- app_assoc. cbn [app].
    rewrite next_item_app by auto. cbn [ub_bind].
    rewrite glob_pattern_ok by (apply Hg || exact Hgfit).
    cbn [ub_bind deref tl]. change (is_nul ";") with false. cbv iota.
    rewrite IH;
      [reflexivity | discriminate | assumption | assumption | simpl in *; lia].
Qed.

Lemma letters_fit_cases (g : list char) : letters_fit g \/ ~ letters_fit g.
Proof.
  unfold letters_fit.
  destruct (N.le_gt_cases (3 * N.of_nat (length (filter is_ascii_letter g)))
                          2147483647) as [H|H]; [left; exact H | right; lia].
Qed.

(** A glob with too many letters stops the loop: nothing is emitted. *)
Lemma pattern_loop_overflow (globs : list (list char)) (after : list char) :
  globs <> [] -> Forall (list_item ";") globs -> ~ Forall letters_fit globs ->
  forall fuel, length globs <= fuel ->
    pattern_loop fuel (join_with ";" globs ++ NUL :: after) = Undef SizeOverflow.
Proof.
  induction globs as [|g globs IH]; intros Hne Hwf Hbig fuel Hfuel; [congruence|].
  inversion Hwf as [|? ? Hg Hrest]; subst.
  destruct fuel as [|fuel]; [simpl in Hfuel; lia|].
  cbn [pattern_loop]. destruct globs as [|g2 globs].
  - cbn [join_with]. rewrite next_item_app by auto. cbn [ub_bind].
    rewrite glob_pattern_overflow; [reflexivity|].
    intro Hfit. apply Hbig. constructor; [exact Hfit | constructor].
  - cbn [join_with]. rewrite <- app_assoc. cbn [app].
    rewrite next_item_app by auto. cbn [ub_bind].
    destruct (letters_fit_cases g) as [Hfit|Hnofit].
    + rewrite glob_pattern_ok by (apply Hg || exact Hfit).
      cbn [ub_bind deref tl]. change (is_nul ";") with false. cbv iota.
      rewrite IH;
        [reflexivity | discriminate | assumption | | simpl in *; lia].
      intro Hall. apply Hbig. constructor; assumption.
    + rewrite glob_pattern_overflow by exact Hnofit. reflexivity.
Qed.

Lemma Win_AppendSingleFilter_ok (shown : list char) (globs : list (list char))
    (after1 after2 : list char) :
  no_nul shown -> globs <> [] -> Forall (list_item ";") globs ->
  Forall letters_fit globs ->
  AppendSingleFilter (shown ++ NUL :: after1)
                     (join_with ";" globs ++ NUL :: after2)
  = Def (DStruct [DString shown;
                  DArray "(us)"
                    (map (fun g => DStruct [DUInt32 0; DString (case_wrap g)])
                         globs)]).
Proof.
  intros Hn Hne Hwf Hfit. unfold AppendSingleFilter.
  assert (Hs : no_nul (join_with ";" globs))
    by (apply join_with_no_nul; [discriminate | assumption]).
  rewrite count_sep_app by assumption. cbn [ub_bind].
  rewrite string_at_app by assumption. cbn [ub_bind].
  rewrite pattern_loop_ok; auto.
  rewrite length_app. pose proof (join_with_length _ _ Hwf). simpl. lia.
Qed.

Lemma Win_AppendSingleFilter_overflow (shown : list char) (globs : list (list char))
    (after1 after2 : list char) :
  no_nul shown -> globs <> [] -> Forall (list_item ";") globs ->
  ~ Forall letters_fit globs ->
  AppendSingleFilter (shown ++ NUL :: after1)
                     (join_with ";" globs ++ NUL :: after2)
  = Undef SizeOverflow.
Proof.
  intros Hn Hne Hwf Hbig. unfold AppendSingleFilter.
  assert (Hs : no_nul (join_with ";" globs))
    by (apply join_with_no_nul; [discriminate | assumption]).
  rewrite count_sep_app by assumption. cbn [ub_bind].
  rewrite string_at_app by assumption. cbn [ub_bind].
  rewrite pattern_loop_overflow; auto.
  rewrite length_app. pose proof (join_with_length _ _ Hwf). simpl. lia.
Qed.

(** Whether every glob fits or not. *)
Lemma all_fit_cases (globs : list (list char)) :
  Forall letters_fit globs \/ ~ Forall letters_fit globs.
Proof.
  induction globs as [|g globs IH]; [left; constructor|].
  destruct (letters_fit_cases g) as [Hg|Hg].
  - destruct IH as [IH|IH].
    + left. constructor; assumption.
    + right. intro H. inversion H; subst. contradiction.
  - right. intro H. inversion H; subst. contradiction.
Qed.

End WinFilterFacts.

(** C7.  The Windows-list [AppendSingleFilter] emits, for each glob of a
    semicolon-separated pattern string, the glob with every alphabetic
    character [c] replaced by the four characters '[', lowercase [c],
    uppercase [c], ']' and every other character unchanged; in
    particular "*.TXT" is emitted as "*.[tT][xX][tT]".  The replacement
    itself, [genCaseSensitivePattern], is this for every range.  The
    emission takes place when the number of letters of each glob, times
    three, is an [int]; and whatever pattern string it is given, the
    function emits nothing else. *)
Theorem win_pattern_case_wrap (shown : list char) (globs : list (list char))
    (after1 after2 : list char) :
  no_nul shown -> globs <> [] -> Forall (list_item ";") globs ->
  (Forall letters_fit globs ->
   Win.AppendSingleFilter (shown ++ NUL :: after1)
                          (join_with ";" globs ++ NUL :: after2)
   = Def (DStruct [DString shown;
                   DArray "(us)"
                     (map (fun g => DStruct [DUInt32 0; DString (case_wrap g)])
                          globs)]))
  /\ (forall emitted,
        Win.AppendSingleFilter (shown ++ NUL :: after1)
                               (join_with ";" globs ++ NUL :: after2)
        = Def emitted ->
        emitted
        = DStruct [DString shown;
                   DArray "(us)"
                     (map (fun g => DStruct [DUInt32 0; DString (case_wrap g)])
                          globs)])
  /\ (forall r, genCaseSensitivePattern r = case_wrap r)
  /\ case_wrap (lit "*.TXT") = lit "*.[tT][xX][tT]".
Proof.
  intros Hn Hne Hwf. split; [|split; [|split]].
  - intro Hfit. apply Win_AppendSingleFilter_ok; assumption.
  - intros emitted Hrun. destruct (all_fit_cases globs) as [Hfit|Hbig].
    + rewrite (Win_AppendSingleFilter_ok shown globs after1 after2) in Hrun
        by assumption.
      injection Hrun as <-. reflexivity.
    + rewrite (Win_AppendSingleFilter_overflow shown globs after1 after2) in Hrun
        by assumption.
      discriminate Hrun.
  - apply genCaseSensitivePattern_case_wrap.
  - reflexivity.
Qed.

Lemma win_pattern_case_wrap_witness :
  Win.AppendSingleFilter (c_string (lit "Text")) (c_string (lit "*.TXT"))
  = Def (DStruct [DString (lit "Text");
                  DArray "(us)" [DStruct [DUInt32 0; DString (lit "*.[tT][xX][tT]")]]]).
Proof.
  refine (proj1 (win_pattern_case_wrap (lit "Text") [lit "*.TXT"] [] [] _ _ _) _).
  - intro X; simpl in X; intuition discriminate.
  - discriminate.
  - repeat constructor; try discriminate;
      intro X; simpl in X; intuition discriminate.
  - repeat constructor. vm_compute. discriminate.
Defined.

Section ScratchBuffer.

Import Win.

Lemma reads_only_Def {A : Type} (a : A) : reads_only (Def a).
Proof. intros f H. discriminate H. Qed.

Lemma reads_only_read {A : Type} : reads_only (@Undef A ReadOutOfBounds).
Proof. intros f H. injection H as <-. reflexivity. Qed.

Lemma reads_only_bind {A B : Type} (c : ub A) (k : A -> ub B) :
  reads_only c -> (forall a, reads_only (k a)) -> reads_only (ub_bind c k).
Proof.
  intros Hc Hk f H. destruct c as [a|f']; simpl in H.
  - apply (Hk a). exact H.
  - injection H as <-. apply Hc. reflexivity.
Qed.

Lemma reads_only_deref (p : ptr) : reads_only (deref p).
Proof. destruct p; [apply reads_only_read | apply reads_only_Def]. Qed.

Lemma reads_only_scan_string (p : ptr) : reads_only (scan_string p).
Proof.
  induction p as [|c p IH]; simpl; [apply reads_only_read|].
  destruct (is_nul c); [apply reads_only_Def|].
  destruct (scan_string p) as [[s q]|f]; [apply reads_only_Def|].
  intros f' H. injection H as <-. apply IH. reflexivity.
Qed.

Lemma reads_only_string_at (p : ptr) : reads_only (string_at p).
Proof.
  unfold string_at. pose proof (reads_only_scan_string p) as H.
  destruct (scan_string p) as [[s q]|f]; [apply reads_only_Def|].
  intros f' E. injection E as <-. apply H. reflexivity.
Qed.

Lemma reads_only_count_sep (sep : char) (p : ptr) :
  reads_only (Native.count_sep sep p).
Proof.
  induction p as [|c p IH]; simpl; [apply reads_only_read|].
  destruct (is_nul c); [apply reads_only_Def|].
  destruct (Native.count_sep sep p) as [n|f]; [apply reads_only_Def|].
  intros f' H. injection H as <-. apply IH. reflexivity.
Qed.

Lemma reads_only_scan_to (sep : char) (p : ptr) : reads_only (scan_to sep p).
Proof.
  induction p as [|c p IH]; simpl; [apply reads_only_read|].
  destruct (Ascii.eqb c sep || is_nul c); [apply reads_only_Def|].
  destruct (scan_to sep p) as [[r e]|f]; [apply reads_only_Def|].
  intros f' H. injection H as <-. apply IH. reflexivity.
Qed.

Lemma reads_only_next_item (sep : char) (p : ptr) : reads_only (next_item sep p).
Proof.
  destruct p as [|c p]; simpl; [apply reads_only_read|].
  pose proof (reads_only_scan_to sep p) as H.
  destruct (scan_to sep p) as [[r e]|f]; [apply reads_only_Def|].
  intros f' E. injection E as <-. apply H. reflexivity.
Qed.

Lemma no_overrun_Def {A : Type} (a : A) : no_overrun (Def a).
Proof. discriminate. Qed.

Lemma no_overrun_reads {A : Type} (c : ub A) : reads_only c -> no_overrun c.
Proof. intros H E. apply H in E. discriminate E. Qed.

Lemma no_overrun_bind {A B : Type} (c : ub A) (k : A -> ub B) :
  no_overrun c -> (forall a, no_overrun (k a)) -> no_overrun (ub_bind c k).
Proof.
  intros Hc Hk H. destruct c as [a|f]; simpl in H.
  - exact (Hk a H).
  - injection H as ->. apply Hc. reflexivity.
Qed.

(** Once [3 * letter_count] is an [int], the scratch buffer of
    [AppendSingleFilter] holds the emitted pattern and its terminator. *)
Lemma scratch_buffer_fits (r : list char) :
  store (length r + 3 * length (filter is_ascii_letter r) + 1)
        (genCaseSensitivePattern r ++ [NUL])
  = Def (genCaseSensitivePattern r ++ [NUL]).
Proof.
  apply store_fits. rewrite length_app, genCaseSensitivePattern_length.
  cbn [length]. lia.
Qed.

Lemma no_overrun_glob_pattern (r : list char) : no_overrun (glob_pattern r).
Proof.
  unfold glob_pattern. rewrite letter_count_spec.
  unfold int_result at 1.
  destruct (N.ltb INT_MAX (N.of_nat (length (filter is_ascii_letter r))));
    [discriminate|].
  cbn [ub_bind]. unfold int_result.
  destruct (N.ltb INT_MAX (N.of_nat (3 * length (filter is_ascii_letter r))));
    [discriminate|].
  cbn [ub_bind]. rewrite scratch_buffer_fits. cbn [ub_bind].
  apply no_overrun_bind; [apply no_overrun_reads, reads_only_string_at|].
  intro s. apply no_overrun_Def.
Qed.

Lemma no_overrun_pattern_loop (fuel : nat) :
  forall p, no_overrun (pattern_loop fuel p).
Proof.
  induction fuel as [|fuel IH]; intro p; cbn [pattern_loop]; [discriminate|].
  apply no_overrun_bind; [apply no_overrun_reads, reads_only_next_item|].
  intros [r e]. apply no_overrun_bind; [apply no_overrun_glob_pattern|].
  intro entry. apply no_overrun_bind; [apply no_overrun_reads, reads_only_deref|].
  intro c. destruct (is_nul c); [apply no_overrun_Def|].
  apply no_overrun_bind; [apply IH|]. intro rest. apply no_overrun_Def.
Qed.

Lemma no_overrun_AppendSingleFilter (name pattern : ptr) :
  no_overrun (AppendSingleFilter name pattern).
Proof.
  unfold AppendSingleFilter.
  apply no_overrun_bind; [apply no_overrun_reads, reads_only_count_sep|].
  intros _.
  apply no_overrun_bind; [apply no_overrun_reads, reads_only_string_at|].
  intro shown.
  apply no_overrun_bind; [apply no_overrun_pattern_loop|]. intro patterns.
  apply no_overrun_Def.
Qed.

Lemma filter_letters_repeat (n : nat) :
  filter is_ascii_letter (repeat "a"%char n) = repeat "a"%char n.
Proof.
  induction n as [|n IH]; [reflexivity|].
  cbn [repeat filter]. change (is_ascii_letter "a") with true. cbv iota.
  rewrite IH. reflexivity.
Qed.

(** A pattern of one glob of [n] letters ['a'], [n] from 715,827,883
    on. *)
Lemma long_glob_overflows (shown : list char) (n : nat) :
  no_nul shown -> (715827883 <= N.of_nat n)%N ->
  AppendSingleFilter (c_string shown) (c_string (repeat "a"%char n))
  = Undef SizeOverflow.
Proof.
  intros Hshown Hbig. unfold AppendSingleFilter, c_string.
  assert (Hs : no_nul (repeat "a"%char n))
    by (intro X; apply repeat_spec in X; discriminate X).
  assert (Hitem : list_item ";" (repeat "a"%char n)).
  { split; [|split; [|exact Hs]].
    - destruct n; [cbn in Hbig; lia | discriminate].
    - intro X. apply repeat_spec in X. discriminate X. }
  rewrite count_sep_app by exact Hs. cbn [ub_bind].
  rewrite string_at_app by exact Hshown. cbn [ub_bind].
  rewrite length_app. cbn [length]. rewrite Nat.add_1_r. cbn [pattern_loop].
  rewrite next_item_app by (exact Hitem || (right; reflexivity)).
  cbn [ub_bind]. rewrite glob_pattern_overflow; [reflexivity|].
  unfold letters_fit. rewrite filter_letters_repeat, repeat_length. lia.
Qed.

End ScratchBuffer.

(** C10.  For every range with [k] alphabetic bytes
    [genCaseSensitivePattern] writes exactly [(end - begin) + 3 * k]
    bytes, and the capacity
    [(pattern_end - pattern_begin) + 3 * letter_count + 1] of the scratch
    buffer of the Windows-list [AppendSingleFilter] is that number and
    one for the NUL as long as [3 * letter_count] is an [int]: up to
    715,827,882 letters in a glob.  From 715,827,883 letters on the
    product overflows [int], and the capacity is no longer the one the
    pattern needs; a pattern of 715,827,883 letters ['a'] is such an
    input.  No other run of [AppendSingleFilter] writes outside the
    buffer. *)
Theorem scratch_buffer_capacity_overflows :
  (forall r : list char,
     length (genCaseSensitivePattern r)
     = length r + 3 * length (filter is_ascii_letter r))
  /\ (forall r : list char,
        letters_fit r ->
        Win.letter_count r = Def (length (filter is_ascii_letter r))
        /\ Win.int_result (3 * length (filter is_ascii_letter r))
           = Def (3 * length (filter is_ascii_letter r))
        /\ length (genCaseSensitivePattern r ++ [NUL])
           = length r + 3 * length (filter is_ascii_letter r) + 1)
  /\ (forall r : list char,
        ~ letters_fit r -> Win.glob_pattern r = Undef SizeOverflow)
  /\ (forall name pattern : ptr,
        Win.AppendSingleFilter name pattern <> Undef WriteOutOfBounds)
  /\ Win.AppendSingleFilter
       (c_string (lit "All"))
       (c_string (repeat "a"%char (N.to_nat 715827883)))
     = Undef SizeOverflow.
Proof.
  split; [|split; [|split; [|split]]].
  - apply genCaseSensitivePattern_length.
  - intros r Hfit. unfold letters_fit in Hfit.
    split; [|split].
    + rewrite letter_count_spec. apply int_result_fits. unfold Win.INT_MAX. lia.
    + apply int_result_fits. unfold Win.INT_MAX. lia.
    + rewrite length_app, genCaseSensitivePattern_length. cbn [length]. lia.
  - apply glob_pattern_overflow.
  - apply no_overrun_AppendSingleFilter.
  - apply long_glob_overflows.
    + intro X; simpl in X; intuition discriminate.
    + rewrite N2Nat.id. apply N.le_refl.
Qed.

Section WinFilterList.

Import Win.

Lemma win_buffer_bytes (pairs : list win_filter) :
  win_buffer pairs = win_pairs_bytes pairs ++ [NUL].
Proof. reflexivity. Qed.

Lemma win_pairs_bytes_cons (f : win_filter) (pairs : list win_filter) (after : list char) :
  win_pairs_bytes (f :: pairs) ++ after
  = fst f ++ NUL :: join_with ";" (snd f) ++ NUL :: win_pairs_bytes pairs ++ after.
Proof.
  unfold win_pairs_bytes. cbn [flat_map].
  rewrite <- !app_assoc. cbn [app]. rewrite <- !app_assoc. reflexivity.
Qed.

Lemma deref_first (s after : list char) (stop : char) :
  s <> [] -> deref (s ++ stop :: after) = Def (hd stop s).
Proof. destruct s; [congruence | reflexivity]. Qed.

Lemma hd_not_nul (s : list char) : s <> [] -> no_nul s -> is_nul (hd NUL s) = false.
Proof.
  destruct s as [|c s]; [congruence|]. intros _ H.
  apply no_nul_cons in H. apply is_nul_false. tauto.
Qed.

(** The entry the code appends for the pair at the head of the buffer,
    and the same for the current filter. *)
Lemma append_pair_ok (f : win_filter) (after : list char) :
  win_filter_wf f -> Forall letters_fit (snd f) ->
  (c <- deref (join_with ";" (snd f) ++ NUL :: after) ;;
   if is_nul c
   then AppendWildcardFilter
          (Some (fst f ++ NUL :: join_with ";" (snd f) ++ NUL :: after))
   else AppendSingleFilter
          (fst f ++ NUL :: join_with ";" (snd f) ++ NUL :: after)
          (join_with ";" (snd f) ++ NUL :: after))%ub
  = Def (encode_win_filter f).
Proof.
  intros [Hne [Hn Hwf]] Hfit. destruct f as [shown globs]. cbn [fst snd] in *.
  destruct globs as [|g globs].
  - cbn [join_with app deref ub_bind]. change (is_nul NUL) with true. cbv iota.
    unfold AppendWildcardFilter. rewrite string_at_app by assumption.
    reflexivity.
  - assert (Hs : no_nul (join_with ";" (g :: globs)))
      by (apply join_with_no_nul; [discriminate | assumption]).
    assert (Hj : join_with ";" (g :: globs) <> [])
      by (apply join_with_not_nil; [discriminate | assumption]).
    rewrite deref_first by assumption. cbn [ub_bind].
    rewrite hd_not_nul by assumption.
    rewrite Win_AppendSingleFilter_ok;
      [reflexivity | assumption | discriminate | assumption | assumption].
Qed.

Lemma append_pair_overflow (f : win_filter) (after : list char) :
  win_filter_wf f -> ~ Forall letters_fit (snd f) ->
  (c <- deref (join_with ";" (snd f) ++ NUL :: after) ;;
   if is_nul c
   then AppendWildcardFilter
          (Some (fst f ++ NUL :: join_with ";" (snd f) ++ NUL :: after))
   else AppendSingleFilter
          (fst f ++ NUL :: join_with ";" (snd f) ++ NUL :: after)
          (join_with ";" (snd f) ++ NUL :: after))%ub
  = Undef SizeOverflow.
Proof.
  intros [Hne [Hn Hwf]] Hbig. destruct f as [shown globs]. cbn [fst snd] in *.
  destruct globs as [|g globs]; [exfalso; apply Hbig; constructor|].
  assert (Hs : no_nul (join_with ";" (g :: globs)))
    by (apply join_with_no_nul; [discriminate | assumption]).
  assert (Hj : join_with ";" (g :: globs) <> [])
    by (apply join_with_not_nil; [discriminate | assumption]).
  rewrite deref_first by assumption. cbn [ub_bind].
  rewrite hd_not_nul by assumption.
  rewrite Win_AppendSingleFilter_overflow;
    [reflexivity | assumption | discriminate | assumption | assumption].
Qed.

Lemma cur_after_in (i filterIndex : N) (pairs : list win_filter)
    (after cur : list char) :
  (i <= filterIndex)%N -> (filterIndex < i + N.of_nat (length pairs))%N ->
  cur_after i filterIndex pairs after cur
  = win_pairs_bytes (skipn (N.to_nat (filterIndex - i)) pairs) ++ after.
Proof.
  intros H1 H2. unfold cur_after.
  apply N.leb_le in H1. apply N.ltb_lt in H2. rewrite H1, H2. reflexivity.
Qed.

Lemma cur_after_out (i filterIndex : N) (pairs : list win_filter)
    (after cur : list char) :
  (filterIndex < i)%N \/ (i + N.of_nat (length pairs) <= filterIndex)%N ->
  cur_after i filterIndex pairs after cur = cur.
Proof.
  intros H. unfold cur_after.
  destruct (N.leb_spec i filterIndex); [|reflexivity].
  destruct (N.ltb_spec filterIndex (i + N.of_nat (length pairs)));
    [lia | reflexivity].
Qed.

Lemma cur_after_step (i filterIndex : N) (f : win_filter)
    (pairs : list win_filter) (after cur : list char) :
  cur_after (i + 1) filterIndex pairs after
    (if (i =? filterIndex)%N
     then win_pairs_bytes (f :: pairs) ++ after else cur)
  = cur_after i filterIndex (f :: pairs) after cur.
Proof.
  destruct (N.eqb_spec i filterIndex) as [->|Hneq].
  - rewrite cur_after_out by lia.
    rewrite cur_after_in by (cbn [length]; lia).
    rewrite N.sub_diag. reflexivity.
  - destruct (N.lt_ge_cases filterIndex i) as [Hlt|Hge].
    + rewrite !cur_after_out by lia. reflexivity.
    + destruct (N.lt_ge_cases filterIndex (i + 1 + N.of_nat (length pairs)))
        as [Hin|Hout].
      * rewrite !cur_after_in by (cbn [length]; lia).
        replace (N.to_nat (filterIndex - i))
          with (S (N.to_nat (filterIndex - (i + 1)))) by lia.
        reflexivity.
      * rewrite !cur_after_out by (cbn [length]; lia). reflexivity.
Qed.

Lemma filters_loop_ok (pairs : list win_filter) (after : list char) (filterIndex : N) :
  Forall win_filter_wf pairs ->
  Forall (fun f => Forall letters_fit (snd f)) pairs ->
  Forall (fun f => snd f <> []) (removelast pairs) ->
  forall fuel i cur,
    length pairs < fuel ->
    filters_loop fuel i filterIndex (win_pairs_bytes pairs ++ NUL :: after) cur
    = Def (map encode_win_filter pairs,
           cur_after i filterIndex pairs (NUL :: after) cur).
Proof.
  induction pairs as [|f pairs IH]; intros Hwf Hfit Hlast fuel i cur Hfuel.
  - destruct fuel; [simpl in Hfuel; lia|].
    cbn [win_pairs_bytes flat_map app filters_loop deref ub_bind].
    change (is_nul NUL) with true. cbv iota.
    rewrite cur_after_out by (cbn [length]; lia). reflexivity.
  - destruct fuel as [|fuel]; [simpl in Hfuel; lia|].
    inversion Hwf as [|? ? Hf Hrest]; subst.
    inversion Hfit as [|? ? Hffit Hrestfit]; subst.
    pose proof Hf as [Hne [Hn Hglobs]].
    rewrite <- cur_after_step.
    rewrite win_pairs_bytes_cons. cbn [filters_loop].
    rewrite deref_first by assumption. cbn [ub_bind].
    rewrite hd_not_nul by assumption.
    rewrite past_string_app by assumption. cbn [ub_bind].
    pose proof (append_pair_ok f (win_pairs_bytes pairs ++ NUL :: after) Hf Hffit)
      as Hpair.
    destruct (snd f) as [|g globs] eqn:Eglobs.
    + (* the empty pattern ends the list *)
      destruct pairs as [|f2 pairs]; [|inversion Hlast; congruence].
      cbn [join_with app deref ub_bind] in Hpair |- *.
      change (is_nul NUL) with true in Hpair |- *. cbv iota in Hpair |- *.
      unfold ptr in *. rewrite Hpair. cbn [ub_bind map].
      rewrite cur_after_out by (cbn [length]; lia). reflexivity.
    + assert (Hs : no_nul (join_with ";" (g :: globs)))
        by (apply join_with_no_nul; [discriminate | assumption]).
      assert (Hj : join_with ";" (g :: globs) <> [])
        by (apply join_with_not_nil; [discriminate | assumption]).
      rewrite deref_first in Hpair |- * by assumption.
      cbn [ub_bind] in Hpair |- *.
      rewrite hd_not_nul in Hpair |- * by assumption.
      unfold ptr in *. rewrite Hpair. cbn [ub_bind].
      rewrite past_string_app by assumption. cbn [ub_bind].
      rewrite IH;
        [| assumption
         | assumption
         | destruct pairs; [constructor | inversion Hlast; assumption]
         | simpl in Hfuel; lia].
      reflexivity.
Qed.

Lemma pairs_fit_cases (pairs : list win_filter) :
  Forall (fun f => Forall letters_fit (snd f)) pairs
  \/ ~ Forall (fun f => Forall letters_fit (snd f)) pairs.
Proof.
  induction pairs as [|f pairs IH]; [left; constructor|].
  destruct (all_fit_cases (snd f)) as [Hf|Hf].
  - destruct IH as [IH|IH].
    + left. constructor; assumption.
    + right. intro H. inversion H; subst. contradiction.
  - right. intro H. inversion H; subst. contradiction.
Qed.

(** A glob with too many letters anywhere in the buffer stops the loop
    over the pairs. *)
Lemma filters_loop_overflow (pairs : list win_filter) (after : list char)
    (filterIndex : N) :
  Forall win_filter_wf pairs ->
  ~ Forall (fun f => Forall letters_fit (snd f)) pairs ->
  Forall (fun f => snd f <> []) (removelast pairs) ->
  forall fuel i cur,
    length pairs < fuel ->
    filters_loop fuel i filterIndex (win_pairs_bytes pairs ++ NUL :: after) cur
    = Undef SizeOverflow.
Proof.
  induction pairs as [|f pairs IH]; intros Hwf Hbig Hlast fuel i cur Hfuel;
    [exfalso; apply Hbig; constructor|].
  destruct fuel as [|fuel]; [simpl in Hfuel; lia|].
  inversion Hwf as [|? ? Hf Hrest]; subst.
  pose proof Hf as [Hne [Hn Hglobs]].
  rewrite win_pairs_bytes_cons. cbn [filters_loop].
  rewrite deref_first by assumption. cbn [ub_bind].
  rewrite hd_not_nul by assumption.
  rewrite past_string_app by assumption. cbn [ub_bind].
  destruct (all_fit_cases (snd f)) as [Hffit|Hfbig].
  - pose proof (append_pair_ok f (win_pairs_bytes pairs ++ NUL :: after) Hf Hffit)
      as Hpair.
    assert (Hrestbig : ~ Forall (fun f => Forall letters_fit (snd f)) pairs)
      by (intro Hall; apply Hbig; constructor; assumption).
    destruct (snd f) as [|g globs] eqn:Eglobs.
    + destruct pairs as [|f2 pairs]; [|inversion Hlast; congruence].
      exfalso. apply Hrestbig. constructor.
    + assert (Hs : no_nul (join_with ";" (g :: globs)))
        by (apply join_with_no_nul; [discriminate | assumption]).
      assert (Hj : join_with ";" (g :: globs) <> [])
        by (apply join_with_not_nil; [discriminate | assumption]).
      rewrite deref_first in Hpair |- * by assumption.
      cbn [ub_bind] in Hpair |- *.
      rewrite hd_not_nul in Hpair |- * by assumption.
      unfold ptr in *. rewrite Hpair. cbn [ub_bind].
      rewrite past_string_app by assumption. cbn [ub_bind].
      rewrite IH;
        [| assumption
         | assumption
         | destruct pairs; [constructor | inversion Hlast; assumption]
         | simpl in Hfuel; lia].
      reflexivity.
  - pose proof (append_pair_overflow f (win_pairs_bytes pairs ++ NUL :: after)
                  Hf Hfbig) as Hpair.
    destruct (snd f) as [|g globs] eqn:Eglobs;
      [exfalso; apply Hfbig; constructor|].
    assert (Hs : no_nul (join_with ";" (g :: globs)))
      by (apply join_with_no_nul; [discriminate | assumption]).
    assert (Hj : join_with ";" (g :: globs) <> [])
      by (apply join_with_not_nil; [discriminate | assumption]).
    rewrite deref_first in Hpair |- * by assumption.
    cbn [ub_bind] in Hpair |- *.
    rewrite hd_not_nul in Hpair |- * by assumption.
    unfold ptr in *. rewrite Hpair. reflexivity.
Qed.

Lemma skipn_nth_error {A : Type} (l : list A) (k : nat) (x : A) :
  nth_error l k = Some x -> exists rest, skipn k l = x :: rest.
Proof.
  revert k. induction l as [|y l IH]; intros [|k] H; try discriminate H.
  - injection H as ->. exists l. reflexivity.
  - apply IH. exact H.
Qed.

Lemma win_pairs_bytes_length (pairs : list win_filter) :
  length pairs <= length (win_pairs_bytes pairs).
Proof.
  induction pairs as [|f pairs IH]; [apply Nat.le_refl|].
  unfold win_pairs_bytes in *. cbn [flat_map length].
  rewrite !length_app. cbn [length]. rewrite !length_app. cbn [length]. lia.
Qed.

(** The [current_filter] struct computed from [curFilter]. *)
Lemma current_filter_ok (f : win_filter) (rest : list win_filter) (after : list char) :
  win_filter_wf f -> Forall letters_fit (snd f) ->
  (curFilterPattern <- past_string (win_pairs_bytes (f :: rest) ++ after) ;;
   c <- deref curFilterPattern ;;
   if is_nul c
   then AppendWildcardFilter (Some (win_pairs_bytes (f :: rest) ++ after))
   else AppendSingleFilter (win_pairs_bytes (f :: rest) ++ after) curFilterPattern)%ub
  = Def (encode_win_filter f).
Proof.
  intros Hf Hfit. rewrite win_pairs_bytes_cons.
  rewrite past_string_app by apply Hf. cbn [ub_bind].
  apply (append_pair_ok f (win_pairs_bytes rest ++ after) Hf Hfit).
Qed.

End WinFilterList.

(** C4.  For every non-empty Windows-style filter buffer (name and
    pattern pairs, each string NUL-terminated, closed by one more NUL;
    an empty pattern, which makes that double NUL, can only be the last)
    and every [filterIndex], the options dictionary gets two entries:
    "filters", the array of the encodings of all pairs in order, and
    "current_filter", the encoding of the pair at the 1-based position
    [filterIndex], and of the first pair when [filterIndex] is 0 or
    larger than the number of pairs; a pair with an empty pattern is
    encoded as the wildcard filter, single pattern "*", under the pair's
    name.  The entries are appended when the number of letters of each
    glob, times three, is an [int]; and whatever the buffer, the
    function appends no other entries. *)
Theorem win_current_filter (pairs : list win_filter) (filterIndex : N)
    (after : list char) :
  pairs <> [] ->
  Forall win_filter_wf pairs ->
  Forall (fun f => snd f <> []) (removelast pairs) ->
  exists f,
    selected_filter filterIndex pairs = Some f
    /\ (Forall (fun f => Forall letters_fit (snd f)) pairs ->
        Win.AppendFileQueryDictEntryFilters
          (Some (win_buffer pairs ++ after)) filterIndex
        = Def [filters_option (map encode_win_filter pairs);
               current_filter_option (encode_win_filter f)])
    /\ (forall entries,
          Win.AppendFileQueryDictEntryFilters
            (Some (win_buffer pairs ++ after)) filterIndex
          = Def entries ->
          entries = [filters_option (map encode_win_filter pairs);
                     current_filter_option (encode_win_filter f)])
    /\ (snd f = [] -> encode_win_filter f = wildcard_filter (fst f)).
Proof.
  intros Hne Hwf Hlast.
  assert (Hsel : exists f k, selected_filter filterIndex pairs = Some f
                             /\ nth_error pairs k = Some f
                             /\ cur_after 1 filterIndex pairs (NUL :: after)
                                  (win_pairs_bytes pairs ++ NUL :: after)
                                = win_pairs_bytes (skipn k pairs) ++ NUL :: after).
  { unfold selected_filter.
    destruct (N.leb_spec 1 filterIndex) as [H1|H1];
      [destruct (N.leb_spec filterIndex (N.of_nat (length pairs))) as [H2|H2]|];
      cbn [andb].
    - destruct (nth_error pairs (N.to_nat filterIndex - 1)) as [f|] eqn:E.
      + exists f, (N.to_nat filterIndex - 1). split; [reflexivity|].
        split; [exact E|]. rewrite cur_after_in by lia.
        replace (N.to_nat (filterIndex - 1)) with (N.to_nat filterIndex - 1)
          by lia.
        reflexivity.
      + apply nth_error_None in E. lia.
    - destruct pairs as [|f0 rest]; [congruence|].
      exists f0, 0. split; [reflexivity|]. split; [reflexivity|].
      apply cur_after_out. lia.
    - destruct pairs as [|f0 rest]; [congruence|].
      exists f0, 0. split; [reflexivity|]. split; [reflexivity|].
      apply cur_after_out. lia. }
  destruct Hsel as [f [k [Hsel [Hnth Hcur]]]].
  assert (Hfirst : exists c, deref (win_pairs_bytes pairs ++ NUL :: after) = Def c
                             /\ is_nul c = false).
  { destruct pairs as [|f0 rest]; [congruence|].
    inversion Hwf as [|? ? Hf0 _]; subst. destruct Hf0 as [H0 [H1 _]].
    rewrite win_pairs_bytes_cons. exists (hd NUL (fst f0)).
    split; [apply deref_first; assumption | apply hd_not_nul; assumption]. }
  destruct Hfirst as [c [Hc Hcn]].
  assert (Hlen : length pairs < length (win_pairs_bytes pairs ++ NUL :: after)).
  { rewrite length_app. pose proof (win_pairs_bytes_length pairs).
    cbn [length]. lia. }
  assert (Htotal : Forall (fun f => Forall letters_fit (snd f)) pairs ->
                   Win.AppendFileQueryDictEntryFilters
                     (Some (win_buffer pairs ++ after)) filterIndex
                   = Def [filters_option (map encode_win_filter pairs);
                          current_filter_option (encode_win_filter f)]).
  { intro Hfit. unfold Win.AppendFileQueryDictEntryFilters.
    rewrite win_buffer_bytes, <- app_assoc. cbn [app].
    rewrite Hc. cbn [ub_bind]. rewrite Hcn.
    rewrite filters_loop_ok; [| assumption | assumption | assumption | exact Hlen].
    cbn [ub_bind]. rewrite Hcur.
    destruct (skipn_nth_error _ _ _ Hnth) as [rest Hskip]. rewrite Hskip.
    assert (Hf : win_filter_wf f).
    { rewrite Forall_forall in Hwf. apply Hwf.
      apply nth_error_In with (n := k). exact Hnth. }
    assert (Hffit : Forall letters_fit (snd f)).
    { rewrite Forall_forall in Hfit. apply Hfit.
      apply nth_error_In with (n := k). exact Hnth. }
    pose proof (current_filter_ok f rest (NUL :: after) Hf Hffit) as Hcf.
    unfold ptr in *.
    destruct (past_string (win_pairs_bytes (f :: rest) ++ NUL :: after))
      as [cfp|e]; [|discriminate Hcf].
    cbn [ub_bind] in Hcf |- *.
    destruct (deref cfp) as [c'|e]; [|discriminate Hcf].
    cbn [ub_bind] in Hcf |- *. rewrite Hcf. reflexivity. }
  exists f. split; [exact Hsel|]. split; [exact Htotal|]. split.
  2:{ intro E. unfold encode_win_filter. rewrite E. reflexivity. }
  intros entries Hrun. destruct (pairs_fit_cases pairs) as [Hfit|Hbig].
  - rewrite (Htotal Hfit) in Hrun. injection Hrun as <-. reflexivity.
  - exfalso. unfold Win.AppendFileQueryDictEntryFilters in Hrun.
    rewrite win_buffer_bytes, <- app_assoc in Hrun. cbn [app] in Hrun.
    rewrite Hc in Hrun. cbn [ub_bind] in Hrun. rewrite Hcn in Hrun.
    rewrite filters_loop_overflow in Hrun;
      [discriminate Hrun | assumption | assumption | assumption | exact Hlen].
Qed.

Lemma win_current_filter_witness :
  exists f,
    selected_filter 2 [(lit "All", [lit "*.*"]); (lit "Text", [lit "*.TXT"]);
                       (lit "C/C++ files", [lit "*.c"; lit "*.cpp"; lit "*.cc"])]
    = Some f
    /\ Win.AppendFileQueryDictEntryFilters
         (Some (win_buffer [(lit "All", [lit "*.*"]); (lit "Text", [lit "*.TXT"]);
                            (lit "C/C++ files", [lit "*.c"; lit "*.cpp"; lit "*.cc"])]
                ++ []))
         2
       = Def [filters_option
                (map encode_win_filter
                   [(lit "All", [lit "*.*"]); (lit "Text", [lit "*.TXT"]);
                    (lit "C/C++ files", [lit "*.c"; lit "*.cpp"; lit "*.cc"])]);
              current_filter_option (encode_win_filter f)]
    /\ (snd f = [] -> encode_win_filter f = wildcard_filter (fst f)).
Proof.
  destruct (win_current_filter
              [(lit "All", [lit "*.*"]); (lit "Text", [lit "*.TXT"]);
               (lit "C/C++ files", [lit "*.c"; lit "*.cpp"; lit "*.cc"])] 2 [])
    as [f [Hsel [Hrun [_ Hwild]]]].
  - discriminate.
  - repeat constructor; try discriminate;
      intro X; simpl in X; intuition discriminate.
  - repeat constructor; discriminate.
  - exists f. split; [exact Hsel|]. split; [|exact Hwild].
    apply Hrun. repeat constructor; vm_compute; discriminate.
Defined.


(* ----------------------------------------------------------------- *)
(** *** Response parser *)

Section ResponseFacts.

Import Iter Response.

Lemma bytes_eqb_neq (a b : list char) : a <> b -> bytes_eqb a b = false.
Proof.
  intro H. destruct (bytes_eqb a b) eqn:E; [|reflexivity].
  apply bytes_eqb_eq in E. contradiction.
Qed.

Lemma string_at_c_string (s : list char) : no_nul s -> string_at (c_string s) = Def s.
Proof. intro H. apply string_at_app. exact H. Qed.

(** Entries under other keys are passed over. *)
Lemma ReadDict_loop_others {S : Type} (entries : list DBusValue)
    (cb : callback S) (rest : DBusMessageIter) (captured : S) (w : world) :
  Forall other_entry entries ->
  ReadDict_loop (entries ++ rest) [(STR_URIS, cb)] captured w
  = ReadDict_loop rest [(STR_URIS, cb)] captured w.
Proof.
  intro H. induction H as [|e entries He Hrest IH]; [reflexivity|].
  destruct He as [k [sig [v [-> [Hk Hne]]]]].
  cbn [app ReadDict_loop get_arg_type type_of arg_type_eqb negb get_string].
  unfold bind at 1. unfold lift. cbn [ub_bind]. unfold c_string.
  rewrite string_at_app by assumption.
  cbn [next get_arg_type type_of arg_type_eqb negb recurse].
  unfold bind. cbn [ReadDictImpl]. rewrite bytes_eqb_neq by assumption.
  unfold ret. cbn [nfdresult_eqb]. exact IH.
Qed.

(** The entry "uris" reaches the callback; when that does not fail, the
    entries after it are passed over. *)
Lemma ReadDict_uris {S : Type} (before after : list DBusValue)
    (uris : list (list char)) (cb : callback S) (captured captured' : S)
    (w w' : world) (res : nfdresult_t) :
  Forall other_entry before -> Forall other_entry after ->
  cb [DArray "s" (map DString uris)] captured w = Def ((res, captured'), w') ->
  res <> NFD_ERROR ->
  ReadDict [DArray "{sv}" (before ++ uris_entry uris :: after)]
           [(STR_URIS, cb)] captured w
  = Def ((NFD_OKAY, captured'), w').
Proof.
  intros Hb Ha Hcb Hres. unfold ReadDict.
  cbn [get_arg_type type_of arg_type_eqb negb recurse].
  unfold bind at 1. unfold lift.
  rewrite ReadDict_loop_others by assumption.
  unfold uris_entry.
  cbn [ReadDict_loop get_arg_type type_of arg_type_eqb negb get_string].
  unfold bind at 1. unfold lift. cbn [ub_bind].
  rewrite string_at_c_string by (intro X; simpl in X; intuition discriminate).
  cbn [next get_arg_type type_of arg_type_eqb negb recurse].
  unfold bind at 1. unfold bind at 1.
  cbn [ReadDictImpl]. change (bytes_eqb (lit "uris") STR_URIS) with true.
  cbv iota. rewrite Hcb.
  replace (nfdresult_eqb res NFD_ERROR) with false
    by (destruct res; [congruence | reflexivity | reflexivity]).
  rewrite <- (app_nil_r after).
  rewrite ReadDict_loop_others by assumption. reflexivity.
Qed.

Lemma ReadResponseUris_ok (msg : DBusMessage) (before after : list DBusValue)
    (uris : list (list char)) (w : world) :
  msg_args msg = response_body 0 before uris after ->
  Forall other_entry before -> Forall other_entry after ->
  ReadResponseUris msg w = Def ((NFD_OKAY, Some (map DString uris)), w).
Proof.
  intros Hargs Hb Ha. unfold ReadResponseUris, ReadResponseResults, init.
  rewrite Hargs. unfold response_body.
  cbn [negb get_arg_type type_of arg_type_eqb get_uint32 next].
  unfold bind at 1. unfold bind at 1. unfold lift. cbn [N.eqb negb].
  unfold ret at 1. cbv iota beta.
  unfold bind at 1.
  rewrite (@ReadDict_uris (option DBusMessageIter * bool) before after uris _
             (None, false) (Some (map DString uris), true) w w NFD_OKAY);
    [reflexivity | assumption | assumption | reflexivity | discriminate].
Qed.

Lemma ReadResponseUrisUnchecked_ok (msg : DBusMessage) (before after : list DBusValue)
    (uris : list (list char)) (w : world) :
  msg_args msg = response_body 0 before uris after ->
  Forall other_entry before -> Forall other_entry after ->
  ReadResponseUrisUnchecked msg w = Def (Some (map DString uris), w).
Proof.
  intros Hargs Hb Ha. unfold ReadResponseUrisUnchecked, init.
  rewrite Hargs. unfold response_body. cbn [next].
  unfold bind at 1.
  rewrite (@ReadDict_uris (option DBusMessageIter) before after uris _
             None (Some (map DString uris)) w w NFD_OKAY);
    [reflexivity | assumption | assumption | reflexivity | discriminate].
Qed.

Lemma NFD_PathSet_GetCount_ok (msg : DBusMessage) (before after : list DBusValue)
    (uris : list (list char)) (w : world) :
  msg_args msg = response_body 0 before uris after ->
  Forall other_entry before -> Forall other_entry after ->
  PathList.NFD_PathSet_GetCount msg w = Def (length uris, w).
Proof.
  intros Hargs Hb Ha.
  unfold PathList.NFD_PathSet_GetCount, ReadResponseUrisUncheckedGetArraySize, init.
  rewrite Hargs. unfold response_body. cbn [next].
  unfold bind at 1.
  rewrite (@ReadDict_uris nat before after uris _ 0 (length uris) w w NFD_OKAY);
    [reflexivity | assumption | assumption | | discriminate].
  unfold bind, lift. cbn [get_element_count]. rewrite length_map. reflexivity.
Qed.

(** A response with code 1 is a cancel, whatever follows the code, and
    the state is untouched. *)
Lemma ReadResponseResults_cancel (msg : DBusMessage) (rest : list DBusValue)
    (w : world) :
  msg_args msg = DUInt32 1 :: rest ->
  ReadResponseResults msg w = Def ((NFD_CANCEL, None), w).
Proof.
  intro Hargs. unfold ReadResponseResults, init. rewrite Hargs. reflexivity.
Qed.

Lemma ReadResponseUris_cancel (msg : DBusMessage) (rest : list DBusValue)
    (w : world) :
  msg_args msg = DUInt32 1 :: rest ->
  ReadResponseUris msg w = Def ((NFD_CANCEL, None), w).
Proof.
  intro Hargs. unfold ReadResponseUris, bind.
  rewrite (ReadResponseResults_cancel msg rest w Hargs). reflexivity.
Qed.

Lemma ReadResponseUrisSingle_cancel (msg : DBusMessage) (rest : list DBusValue)
    (w : world) :
  msg_args msg = DUInt32 1 :: rest ->
  ReadResponseUrisSingle msg w = Def ((NFD_CANCEL, None), w).
Proof.
  intro Hargs. unfold ReadResponseUrisSingle, bind.
  rewrite (ReadResponseUris_cancel msg rest w Hargs). reflexivity.
Qed.

End ResponseFacts.

(* ----------------------------------------------------------------- *)
(** *** dirname and basename *)

Section LibgenFacts.

Import Libgen.

Lemma last_index_none (c : char) (s : list char) :
  ~ In c s -> last_index c s = None.
Proof.
  induction s as [|x s IH]; intro H; simpl; [reflexivity|].
  rewrite IH by (intro X; apply H; right; exact X).
  destruct (Ascii.eqb x c) eqn:E; [|reflexivity].
  apply Ascii.eqb_eq in E. subst. exfalso. apply H. left. reflexivity.
Qed.

Lemma last_index_app (c : char) (s t : list char) :
  ~ In c t -> last_index c (s ++ c :: t) = Some (length s).
Proof.
  intro H. induction s as [|x s IH]; simpl.
  - rewrite last_index_none by assumption. rewrite Ascii.eqb_refl. reflexivity.
  - rewrite IH. reflexivity.
Qed.

Lemma nth_last (d r : list char) :
  d <> [] -> nth (length d - 1) (d ++ r) NUL = last d NUL.
Proof.
  intro H. destruct (exists_last H) as [d' [x ->]].
  rewrite last_last, length_app. cbn [length].
  replace (length d' + 1 - 1) with (length d') by lia.
  rewrite <- app_assoc. cbn [app]. rewrite nth_middle. reflexivity.
Qed.

Lemma run_back_stays (d r : list char) :
  d <> [] -> last d NUL <> "/"%char ->
  run_back (d ++ r) (length d) = length d.
Proof.
  intros Hne Hlast. destruct (length d) as [|j] eqn:E.
  - destruct d; [congruence | discriminate E].
  - cbn [run_back]. pose proof (nth_last d r Hne) as Hn.
    rewrite E in Hn. simpl in Hn. rewrite Nat.sub_0_r in Hn. rewrite Hn.
    apply Ascii.eqb_neq in Hlast. rewrite Hlast. reflexivity.
Qed.

Lemma set_nth_middle (d r : list char) (x c : char) :
  set_nth (length d) c (d ++ x :: r) = Def (d ++ c :: r).
Proof.
  unfold set_nth.
  replace (length d <? length (d ++ x :: r)) with true.
  2:{ symmetry. apply Nat.ltb_lt. rewrite length_app. simpl. lia. }
  rewrite firstn_app, firstn_all, Nat.sub_diag. cbn [firstn].
  rewrite app_nil_r.
  change (S (length d)) with (1 + length d).
  rewrite <- skipn_skipn.
  rewrite skipn_app, skipn_all, Nat.sub_diag. cbn [skipn app].
  reflexivity.
Qed.

Lemma regular_path_no_nul (p : list char * list char) :
  regular_path p -> no_nul (full_path p).
Proof.
  intros [_ [_ [Hd [_ [_ Hb]]]]]. unfold full_path.
  apply no_nul_app. split; [assumption|].
  apply no_nul_cons. split; [discriminate | assumption].
Qed.

Lemma dirname_regular (p : list char * list char) :
  regular_path p ->
  dirname (full_path p ++ [NUL])
  = Def (fst p ++ NUL :: snd p ++ [NUL], InBuffer 0).
Proof.
  intro Hreg. pose proof (regular_path_no_nul p Hreg) as Hnn.
  destruct Hreg as [Hd [Hlast [Hdn [Hb [Hbs Hbn]]]]].
  destruct p as [dir base]. cbn [fst snd] in *. unfold dirname, full_path in *.
  cbn [fst snd]. rewrite string_at_app by assumption. cbn [ub_bind].
  rewrite last_index_app by assumption.
  assert (Hls : (length dir =? 0) = false)
    by (apply Nat.eqb_neq; destruct dir; [congruence | discriminate]).
  rewrite Hls. cbn [negb andb].
  assert (Hnext : is_nul (nth (S (length dir)) ((dir ++ "/"%char :: base) ++ [NUL]) NUL)
                  = false).
  { rewrite <- app_assoc. cbn [app].
    rewrite app_nth2 by lia.
    replace (S (length dir) - length dir) with 1 by lia.
    destruct base as [|b base]; [congruence|]. cbn [nth app].
    apply is_nul_false. apply no_nul_cons in Hbn. tauto. }
  rewrite Hnext. rewrite run_back_stays by assumption. rewrite Hls.
  rewrite <- app_assoc. cbn [app]. rewrite set_nth_middle. reflexivity.
Qed.

Lemma basename_regular (p : list char * list char) :
  regular_path p ->
  basename (full_path p ++ [NUL])
  = Def (full_path p ++ [NUL], InBuffer (S (length (fst p)))).
Proof.
  intro Hreg. pose proof (regular_path_no_nul p Hreg) as Hnn.
  destruct Hreg as [Hd [Hlast [Hdn [Hb [Hbs Hbn]]]]].
  destruct p as [dir base]. cbn [fst snd] in *. unfold basename, full_path in *.
  cbn [fst snd]. rewrite string_at_app by assumption. cbn [ub_bind].
  destruct (dir ++ "/"%char :: base) as [|x s] eqn:E.
  { destruct dir; discriminate E. }
  rewrite <- E. rewrite last_index_app by assumption.
  assert (Hnext : is_nul (nth (S (length dir)) ((dir ++ "/"%char :: base) ++ [NUL]) NUL)
                  = false).
  { rewrite <- app_assoc. cbn [app].
    rewrite app_nth2 by lia.
    replace (S (length dir) - length dir) with 1 by lia.
    destruct base as [|b base]; [congruence|]. cbn [nth app].
    apply is_nul_false. apply no_nul_cons in Hbn. tauto. }
  rewrite Hnext. reflexivity.
Qed.

End LibgenFacts.

(* ----------------------------------------------------------------- *)
(** *** The expanding buffer *)

Section PathListFacts.

Import PathList.

Lemma grow_ok (fuel : nat) :
  forall size offset targetSize,
    0 < size -> offset <= size ->
    (N.of_nat size <= INT_MAX)%N ->
    (N.of_nat (offset + targetSize) <= SIZE_LIMIT)%N ->
    (N.of_nat (offset + targetSize) <= N.of_nat size * 2 ^ N.of_nat fuel)%N ->
    exists size',
      grow fuel size offset targetSize = Def size'
      /\ size <= size' /\ offset + targetSize <= size'
      /\ (N.of_nat size' <= INT_MAX)%N.
Proof.
  unfold INT_MAX, SIZE_LIMIT.
  induction fuel as [|fuel IH]; intros size offset targetSize Hpos Hoff Hmax Hlim Hfuel.
  - cbn [grow]. destruct (Nat.ltb_spec (size - offset) targetSize) as [Hlt|Hge].
    + exfalso. cbn in Hfuel. lia.
    + exists size. repeat split; try reflexivity; try lia; assumption.
  - cbn [grow]. destruct (Nat.ltb_spec (size - offset) targetSize) as [Hlt|Hge].
    + destruct (N.ltb_spec INT_MAX (N.of_nat (2 * size))) as [Hbig|Hsmall];
        unfold INT_MAX in *.
      * exfalso. lia.
      * destruct (IH (2 * size) offset targetSize) as [size' [Hg [H1 [H2 H3]]]];
          try lia.
        { rewrite Nat2N.inj_succ, N.pow_succ_r' in Hfuel. lia. }
        exists size'. repeat split; try assumption; lia.
    + exists size. repeat split; try reflexivity; try lia; assumption.
Qed.

Lemma expandOnDemand_ok (out : OutPathList) (targetSize : nat) :
  out_ok out ->
  (N.of_nat (length (written out) + targetSize) <= SIZE_LIMIT)%N ->
  exists size',
    expandOnDemand out targetSize = Def (mkOut (written out) size')
    /\ capacity out <= size'
    /\ length (written out) + targetSize <= size'
    /\ (N.of_nat size' <= INT_MAX)%N.
Proof.
  intros [H256 [Hw Hmax]] Hlim. unfold expandOnDemand.
  destruct (grow_ok 32 (capacity out) (length (written out)) targetSize)
    as [size' [Hg [H1 [H2 H3]]]]; try assumption; try lia.
  { unfold SIZE_LIMIT in Hlim.
    assert (256 * 2 ^ 32 <= N.of_nat (capacity out) * 2 ^ N.of_nat 32)%N.
    { apply N.mul_le_mono_r. lia. }
    change (2 ^ N.of_nat 32)%N with 4294967296%N in *. lia. }
  exists size'. rewrite Hg. cbn [ub_bind]. auto.
Qed.

Lemma append_ok (out : OutPathList) (bytes : list char) :
  length (written out) + length bytes <= capacity out ->
  append out bytes = Def (mkOut (written out ++ bytes) (capacity out)).
Proof.
  intro H. unfold append. apply Nat.leb_le in H. rewrite H. reflexivity.
Qed.

End PathListFacts.

Lemma bind_Def {A B : Type} (c : M A) (k : A -> M B) (w w' : world) (a : A) :
  c w = Def (a, w') -> bind c k w = k a w'.
Proof. intro H. unfold bind. rewrite H. reflexivity. Qed.

Lemma lift_Def {A : Type} (c : ub A) (a : A) (w : world) :
  c = Def a -> lift c w = Def (a, w).
Proof. intros ->. reflexivity. Qed.

Section CopyFileInfo.

Import PathList.

Lemma decodes_to_inv (uri path : list char) :
  decodes_to uri path ->
  exists fileUri e,
    UriCodec.skip_file_uri_prefix UriCodec.FILE_URI_PREFIX (c_string uri)
    = Def (Some fileUri)
    /\ UriCodec.TryUriDecodeLen fileUri = Def (Some (length path, e))
    /\ UriCodec.UriDecodeUnchecked (range fileUri e) = Def path.
Proof.
  intro H. specialize (H quiet_world).
  unfold UriCodec.AllocAndCopyFilePath, bind, lift in H.
  destruct (UriCodec.skip_file_uri_prefix UriCodec.FILE_URI_PREFIX (c_string uri))
    as [[fileUri|]|f] eqn:E1; [| discriminate H | discriminate H].
  destruct (UriCodec.TryUriDecodeLen fileUri) as [[[len e]|]|f] eqn:E2;
    [| discriminate H | discriminate H].
  destruct (UriCodec.UriDecodeUnchecked (range fileUri e)) as [decoded|f] eqn:E3;
    [| discriminate H].
  unfold store in H.
  destruct (length (decoded ++ [NUL]) <=? len + 1); [| discriminate H].
  unfold ret, c_string in H. injection H as Hd Hl.
  apply app_inj_tail in Hd. destruct Hd as [-> _].
  assert (len = length path) by lia. subst len.
  exists fileUri, e. repeat split; assumption.
Qed.

Lemma out_ok_grown (out : OutPathList) (size' : nat) (bytes : list char) :
  out_ok out -> capacity out <= size' ->
  length (written out) + length bytes <= size' ->
  (N.of_nat size' <= INT_MAX)%N ->
  out_ok (mkOut (written out ++ bytes) size').
Proof.
  intros [H256 _] Hcap Hfit Hmax. unfold out_ok. cbn [capacity written].
  rewrite length_app. repeat split; [lia | lia | assumption].
Qed.

Lemma copyFileInfo_full (uri path : list char) (out : OutPathList) (w : world) :
  decodes_to uri path -> out_ok out ->
  (N.of_nat (length (written out) + (length path + 1)) <= SIZE_LIMIT)%N ->
  exists out',
    copyFileInfo FullPath (c_string uri) out w = Def ((NFD_OKAY, out'), w)
    /\ written out' = written out ++ path ++ [NUL]
    /\ out_ok out'.
Proof.
  intros Hdec Hok Hlim.
  destruct (decodes_to_inv uri path Hdec) as [fileUri [e [Hskip [Hlen Hdecode]]]].
  destruct (expandOnDemand_ok out (length path + 1) Hok Hlim)
    as [size' [Hexp [Hcap [Hfit Hmax]]]].
  exists (mkOut (written out ++ path ++ [NUL]) size').
  split; [|split; [reflexivity|]].
  - unfold copyFileInfo.
    rewrite (bind_Def _ _ _ _ _ (lift_Def _ _ w Hskip)).
    rewrite (bind_Def _ _ _ _ _ (lift_Def _ _ w Hlen)).
    rewrite (bind_Def _ _ _ _ _ (lift_Def _ _ w Hdecode)).
    rewrite (bind_Def _ _ _ _ _ (lift_Def _ _ w Hexp)).
    rewrite (bind_Def _ _ w w (mkOut (written out ++ path ++ [NUL]) size'));
      [reflexivity|].
    apply lift_Def. apply append_ok. cbn [written capacity].
    rewrite length_app. simpl. lia.
  - apply out_ok_grown; try assumption. rewrite length_app. simpl. lia.
Qed.

Lemma copyFileInfo_dirname (uri : list char) (p : list char * list char)
    (out : OutPathList) (w : world) :
  decodes_to uri (full_path p) -> regular_path p -> out_ok out ->
  length (written out) + length (fst p) + length (snd p) + 2 <= capacity out ->
  (N.of_nat (capacity out) <= SIZE_LIMIT)%N ->
  exists out',
    copyFileInfo Dirname (c_string uri) out w = Def ((NFD_OKAY, out'), w)
    /\ written out' = written out ++ fst p ++ NUL :: snd p ++ [NUL]
    /\ out_ok out'.
Proof.
  intros Hdec Hreg Hok Hfits Hlim.
  destruct (decodes_to_inv uri _ Hdec) as [fileUri [e [Hskip [Hlen Hdecode]]]].
  assert (Hlim' : (N.of_nat (length (written out) + (length (fst p) + 1))
                   <= SIZE_LIMIT)%N) by lia.
  destruct (expandOnDemand_ok out (length (fst p) + 1) Hok Hlim')
    as [size' [Hexp [Hcap [Hfit Hmax]]]].
  exists (mkOut (written out ++ fst p ++ NUL :: snd p ++ [NUL]) size').
  split; [|split; [reflexivity|]].
  - unfold copyFileInfo.
    rewrite (bind_Def _ _ _ _ _ (lift_Def _ _ w Hskip)).
    rewrite (bind_Def _ _ _ _ _ (lift_Def _ _ w Hlen)).
    rewrite (bind_Def _ _ _ _ _ (lift_Def _ _ w Hdecode)).
    rewrite (bind_Def _ _ w w (full_path p ++ [NUL]))
      by (apply lift_Def, store_fits; rewrite length_app; simpl; lia).
    rewrite (bind_Def _ _ _ _ _ (lift_Def _ _ w (dirname_regular p Hreg))).
    cbn [skipn].
    rewrite (bind_Def _ _ w w (length (fst p)))
      by (apply lift_Def, strlen_app, Hreg).
    rewrite (bind_Def _ _ _ _ _ (lift_Def _ _ w Hexp)).
    rewrite (bind_Def _ _ w w
               (mkOut (written out ++ fst p ++ NUL :: snd p ++ [NUL]) size'));
      [reflexivity|].
    apply lift_Def. apply append_ok. cbn [written capacity].
    rewrite length_app. simpl. rewrite length_app. simpl. lia.
  - apply out_ok_grown; try assumption.
    rewrite length_app. simpl. rewrite length_app. simpl. lia.
Qed.

Lemma skipn_past_dir (dir base : list char) :
  skipn (S (length dir)) ((dir ++ "/"%char :: base) ++ [NUL]) = base ++ [NUL].
Proof.
  rewrite <- app_assoc. cbn [app].
  change (S (length dir)) with (1 + length dir).
  rewrite <- skipn_skipn.
  rewrite skipn_app, skipn_all, Nat.sub_diag. reflexivity.
Qed.

Lemma copyFileInfo_basename (uri : list char) (p : list char * list char)
    (out : OutPathList) (w : world) :
  decodes_to uri (full_path p) -> regular_path p -> out_ok out ->
  (N.of_nat (length (written out) + (length (snd p) + 1)) <= SIZE_LIMIT)%N ->
  exists out',
    copyFileInfo Basename (c_string uri) out w = Def ((NFD_OKAY, out'), w)
    /\ written out' = written out ++ snd p ++ [NUL]
    /\ out_ok out'.
Proof.
  intros Hdec Hreg Hok Hlim.
  destruct (decodes_to_inv uri _ Hdec) as [fileUri [e [Hskip [Hlen Hdecode]]]].
  destruct (expandOnDemand_ok out (length (snd p) + 1) Hok Hlim)
    as [size' [Hexp [Hcap [Hfit Hmax]]]].
  exists (mkOut (written out ++ snd p ++ [NUL]) size').
  split; [|split; [reflexivity|]].
  - unfold copyFileInfo.
    rewrite (bind_Def _ _ _ _ _ (lift_Def _ _ w Hskip)).
    rewrite (bind_Def _ _ _ _ _ (lift_Def _ _ w Hlen)).
    rewrite (bind_Def _ _ _ _ _ (lift_Def _ _ w Hdecode)).
    rewrite (bind_Def _ _ w w (full_path p ++ [NUL]))
      by (apply lift_Def, store_fits; rewrite length_app; simpl; lia).
    rewrite (bind_Def _ _ _ _ _ (lift_Def _ _ w (basename_regular p Hreg))).
    unfold full_path at 1 2. rewrite skipn_past_dir.
    rewrite (bind_Def _ _ w w (length (snd p)))
      by (apply lift_Def; change (snd p ++ [NUL]) with (snd p ++ NUL :: []);
          apply strlen_app, Hreg).
    rewrite (bind_Def _ _ _ _ _ (lift_Def _ _ w Hexp)).
    rewrite (bind_Def _ _ w w (mkOut (written out ++ snd p ++ [NUL]) size'));
      [reflexivity|].
    apply lift_Def. apply append_ok. cbn [written capacity].
    rewrite length_app. simpl. lia.
  - apply out_ok_grown; try assumption. rewrite length_app. simpl. lia.
Qed.

End CopyFileInfo.

Section Packing.

Import Iter PathList.

Lemma advance_ok (l : DBusMessageIter) :
  forall index x,
    nth_error l index = Some x ->
    exists rest, advance index l = Some (x :: rest).
Proof.
  induction l as [|y l IH]; intros [|index] x H; try discriminate H.
  - injection H as ->. exists l. reflexivity.
  - cbn [nth_error] in H. cbn [advance next].
    destruct l as [|z l']; [destruct index; discriminate H|].
    cbn [negb]. apply IH. exact H.
Qed.

Lemma NFD_PathSet_GetPathWin_ok (policy : Policy) (msg : DBusMessage)
    (before after : list DBusValue) (uris : list (list char))
    (index : nat) (uri : list char) (out : OutPathList) (w : world) :
  msg_args msg = response_body 0 before uris after ->
  Forall other_entry before -> Forall other_entry after ->
  nth_error uris index = Some uri ->
  NFD_PathSet_GetPathWin policy msg index out w
  = copyFileInfo policy (c_string uri) out w.
Proof.
  intros Hargs Hb Ha Hnth. unfold NFD_PathSet_GetPathWin.
  rewrite (bind_Def _ _ _ _ _
             (ReadResponseUrisUnchecked_ok msg before after uris w Hargs Hb Ha)).
  destruct (advance_ok (map DString uris) index (DString uri)) as [rest Hadv].
  { rewrite nth_error_map, Hnth. reflexivity. }
  rewrite Hadv. cbn [get_arg_type type_of arg_type_eqb negb get_string].
  unfold bind at 1. unfold lift. reflexivity.
Qed.

Lemma basenames_loop_ok (msg : DBusMessage) (before after : list DBusValue)
    (uris : list (list char)) (w : world) :
  msg_args msg = response_body 0 before uris after ->
  Forall other_entry before -> Forall other_entry after ->
  forall (others : list (list char * list char)) (i : nat) (out : OutPathList),
    Forall2 (fun uri p => decodes_to uri (full_path p)) (skipn i uris) others ->
    Forall regular_path others ->
    out_ok out ->
    (N.of_nat (length (written out)
               + length (flat_map (fun p => snd p ++ [NUL]) others))
     <= SIZE_LIMIT)%N ->
    exists out',
      basenames_loop (length others) msg i out w = Def ((NFD_OKAY, out'), w)
      /\ written out'
         = written out ++ flat_map (fun p => snd p ++ [NUL]) others
      /\ out_ok out'.
Proof.
  intros Hargs Hb Ha others.
  induction others as [|p others IH]; intros i out Hdec Hreg Hok Hlim.
  - exists out. cbn [length basenames_loop flat_map]. rewrite app_nil_r. auto.
  - inversion Hdec as [|uri ? us ? Hp Hrest Hskip]; subst.
    inversion Hreg as [|? ? Hregp Hregs]; subst.
    assert (Hnth : nth_error uris i = Some uri).
    { rewrite <- (firstn_skipn i uris), <- Hskip.
      assert (Hi : i <= length uris).
      { destruct (Nat.le_gt_cases i (length uris)) as [H|H]; [exact H|].
        rewrite skipn_all2 in Hskip by lia. discriminate Hskip. }
      rewrite nth_error_app2 by (rewrite length_firstn; lia).
      rewrite length_firstn. replace (i - Nat.min i (length uris)) with 0 by lia.
      reflexivity. }
    assert (Hnext : skipn (S i) uris = us).
    { change (S i) with (1 + i). rewrite <- skipn_skipn, <- Hskip. reflexivity. }
    cbn [flat_map] in Hlim |- *. rewrite length_app in Hlim.
    destruct (copyFileInfo_basename uri p out w Hp Hregp Hok)
      as [out1 [Hcopy [Hw1 Hok1]]].
    { rewrite length_app in Hlim. simpl in Hlim. lia. }
    destruct (IH (S i) out1) as [out' [Hloop [Hw' Hok']]]; try assumption.
    { rewrite Hnext. exact Hrest. }
    { rewrite Hw1, length_app. lia. }
    exists out'. split; [|split; [|assumption]].
    + cbn [length basenames_loop].
      rewrite (bind_Def _ _ w w (NFD_OKAY, out1)).
      * cbn [nfdresult_eqb negb]. exact Hloop.
      * rewrite (NFD_PathSet_GetPathWin_ok Basename msg before after uris i uri)
          by assumption.
        exact Hcopy.
    + rewrite Hw', Hw1, <- app_assoc. reflexivity.
Qed.

Lemma terminate_list_ok (out : OutPathList) :
  out_ok out ->
  exists out',
    terminate_list out = Def out' /\ written out' = written out ++ [NUL].
Proof.
  intros [_ [Hw _]]. unfold terminate_list.
  destruct (Nat.eqb_spec (capacity out) (length (written out))) as [E|E].
  - eexists. split; [apply append_ok; cbn [written capacity length]; lia|].
    reflexivity.
  - eexists. split; [apply append_ok; cbn [length]; lia|]. reflexivity.
Qed.

Lemma decodes_to_plain (path : list char) :
  no_nul path -> ~ In "%"%char path ->
  decodes_to (UriCodec.FILE_URI_PREFIX ++ path) path.
Proof.
  intros Hn Hp w. unfold c_string. rewrite <- app_assoc.
  apply AllocAndCopyFilePath_plain; assumption.
Qed.

End Packing.

(** C1, as the code has it.  For a successful multi-select open whose
    response holds one URI, the buffer written by
    [NFD_OpenDialogMultipleWin] is the decoded path, a NUL and the
    terminating extra NUL.  When it holds two or more URIs whose decoded
    paths have the form "dir/name", the buffer is the directory of the
    first path and a NUL, then the file name of every path, the first
    included, each followed by a NUL, then one more NUL (the list of the
    Windows dialog: a directory and the names in it).  The first path
    must fit the initial allocation of 256 bytes, into which it is copied
    whole. *)
Theorem multi_select_packing (params : DialogParams) (w w1 : world)
    (msg : DBusMessage) (before after : list DBusValue)
    (uris : list (list char)) :
  outAsyncOpHandle params = None ->
  Driver.NFD_DBus_OpenFileWin true false params w
  = Def ((NFD_OKAY, Some msg), w1) ->
  msg_args msg = response_body 0 before uris after ->
  Forall other_entry before -> Forall other_entry after ->
  (forall uri path,
     uris = [uri] -> decodes_to uri path ->
     (N.of_nat (length path + 2) <= SIZE_LIMIT)%N ->
     NFD_OpenDialogMultipleWin params w
     = Def ((NFD_OKAY,
             set_outPath (Some (path ++ [NUL; NUL])) (length path + 2) params),
            w1))
  /\ (forall first others,
        others <> [] ->
        Forall2 (fun uri p => decodes_to uri (full_path p)) uris (first :: others) ->
        Forall regular_path (first :: others) ->
        length (full_path first) + 1 <= 256 ->
        (N.of_nat (length (packed_list first others)) <= SIZE_LIMIT)%N ->
        NFD_OpenDialogMultipleWin params w
        = Def ((NFD_OKAY,
                set_outPath (Some (packed_list first others))
                            (length (packed_list first others)) params),
               w1)).
Proof.
  intros Hsync Hdriver Hargs Hb Ha.
  assert (Hstart : out_ok (PathList.mkOut [] 256)).
  { unfold out_ok, PathList.INT_MAX. cbn [PathList.capacity PathList.written length].
    repeat split; lia. }
  assert (Hhead :
    forall k : nfdresult_t * option DBusMessage -> M (nfdresult_t * DialogParams),
      NFD_OpenDialogMultipleWin params w
      = (numPaths <- PathList.NFD_PathSet_GetCount msg ;;
         let out := PathList.mkOut [] 256 in
         '(res, out) <-
           PathList.NFD_PathSet_GetPathWin
             (if numPaths =? 1 then PathList.FullPath else PathList.Dirname)
             msg 0 out ;;
         if negb (nfdresult_eqb res NFD_OKAY)
         then ret (NFD_ERROR, set_outPath None (outPathSize params) params)
         else
           '(res, out) <- PathList.basenames_loop (numPaths - 1) msg 1 out ;;
           if negb (nfdresult_eqb res NFD_OKAY)
           then ret (NFD_ERROR, set_outPath None (outPathSize params) params)
           else
             out <- lift (PathList.terminate_list out) ;;
             ret (NFD_OKAY,
                  set_outPath (Some (PathList.written out))
                              (length (PathList.written out)) params))%M w1).
  { intros _. unfold NFD_OpenDialogMultipleWin. rewrite Hsync.
    rewrite (bind_Def _ _ _ _ _ Hdriver).
    rewrite (bind_Def _ _ _ _ _
               (ReadResponseUris_ok msg before after uris w1 Hargs Hb Ha)).
    reflexivity. }
  rewrite (Hhead (fun _ => ret (NFD_OKAY, params))). clear Hhead.
  rewrite (bind_Def _ _ _ _ _
             (NFD_PathSet_GetCount_ok msg before after uris w1 Hargs Hb Ha)).
  cbv zeta. split.
  - intros uri path -> Hdec Hlim. cbn [length Nat.eqb].
    destruct (copyFileInfo_full uri path (PathList.mkOut [] 256) w1 Hdec Hstart)
      as [out1 [Hcopy [Hw1 Hok1]]].
    { cbn [PathList.written length]. lia. }
    rewrite (bind_Def _ _ w1 w1 (NFD_OKAY, out1)).
    2:{ rewrite (NFD_PathSet_GetPathWin_ok _ msg before after [uri] 0 uri)
          by (assumption || reflexivity).
        exact Hcopy. }
    cbn [nfdresult_eqb negb Nat.sub PathList.basenames_loop].
    unfold bind at 1. unfold ret at 1. cbn [nfdresult_eqb negb].
    destruct (terminate_list_ok out1 Hok1) as [out2 [Hterm Hw2]].
    rewrite (bind_Def _ _ _ _ _ (lift_Def _ _ w1 Hterm)).
    rewrite Hw2, Hw1. cbn [PathList.written app]. rewrite <- app_assoc.
    cbn [app]. unfold ret. do 4 f_equal.
    rewrite length_app. cbn [length]. reflexivity.
  - intros first others Hne Hdec Hreg Hfit Hlim.
    inversion Hdec as [|uri ? us ? Hp Hrest]; subst.
    inversion Hreg as [|? ? Hregp Hregs]; subst.
    assert (Hlen : length us = length others)
      by (eapply Forall2_length; eassumption).
    assert (Hmany : (length (uri :: us) =? 1) = false).
    { cbn [length]. destruct us; [destruct others; [congruence | discriminate Hlen]|].
      reflexivity. }
    rewrite Hmany.
    unfold packed_list in Hlim.
    repeat (rewrite length_app in Hlim || cbn [length] in Hlim).
    destruct (copyFileInfo_dirname uri first (PathList.mkOut [] 256) w1 Hp Hregp Hstart)
      as [out1 [Hcopy [Hw1 Hok1]]].
    { cbn [PathList.written PathList.capacity length].
      unfold full_path in Hfit. rewrite length_app in Hfit.
      cbn [length] in Hfit. lia. }
    { cbn [PathList.capacity]. unfold SIZE_LIMIT. lia. }
    rewrite (bind_Def _ _ w1 w1 (NFD_OKAY, out1)).
    2:{ rewrite (NFD_PathSet_GetPathWin_ok _ msg before after (uri :: us) 0 uri)
          by (assumption || reflexivity).
        exact Hcopy. }
    cbn [nfdresult_eqb negb length Nat.sub]. rewrite Nat.sub_0_r, Hlen.
    destruct (basenames_loop_ok msg before after (uri :: us) w1 Hargs Hb Ha
                others 1 out1) as [out2 [Hloop [Hw2 Hok2]]];
      try assumption.
    { rewrite Hw1. cbn [PathList.written app]. rewrite length_app.
      cbn [length]. rewrite length_app. cbn [length]. lia. }
    rewrite (bind_Def _ _ _ _ _ Hloop). cbn [nfdresult_eqb negb].
    destruct (terminate_list_ok out2 Hok2) as [out3 [Hterm Hw3]].
    rewrite (bind_Def _ _ _ _ _ (lift_Def _ _ w1 Hterm)).
    rewrite Hw3, Hw2, Hw1. cbn [PathList.written app].
    unfold ret, packed_list.
    replace ((fst first ++ NUL :: snd first ++ [NUL])
             ++ flat_map (fun p => snd p ++ [NUL]) others)
      with (fst first ++ NUL :: snd first ++ NUL
            :: flat_map (fun p => snd p ++ [NUL]) others).
    2:{ rewrite <- app_assoc. cbn [app]. rewrite <- app_assoc. reflexivity. }
    replace ((fst first ++ NUL :: snd first ++ NUL
              :: flat_map (fun p => snd p ++ [NUL]) others) ++ [NUL])
      with (fst first ++ NUL :: snd first ++ NUL
            :: flat_map (fun p => snd p ++ [NUL]) others ++ [NUL]).
    2:{ rewrite <- app_assoc. cbn [app]. rewrite <- app_assoc. reflexivity. }
    reflexivity.
Qed.

Lemma multi_select_packing_witness :
  exists w1,
    NFD_OpenDialogMultipleWin sample_params three_files_world
    = Def ((NFD_OKAY,
            set_outPath
              (Some (packed_list (lit "/home/u", lit "a.c")
                                 [(lit "/home/u/sub", lit "b.c");
                                  (lit "/home/u/sub", lit "c.c")]))
              (length (packed_list (lit "/home/u", lit "a.c")
                                   [(lit "/home/u/sub", lit "b.c");
                                    (lit "/home/u/sub", lit "c.c")]))
              sample_params),
           w1).
Proof.
  eexists.
  refine (proj2 (multi_select_packing sample_params three_files_world _
                   (response_signal
                      (results_with_uris [lit "file:///home/u/a.c";
                                          lit "file:///home/u/sub/b.c";
                                          lit "file:///home/u/sub/c.c"]))
                   [] []
                   [lit "file:///home/u/a.c"; lit "file:///home/u/sub/b.c";
                    lit "file:///home/u/sub/c.c"]
                   _ _ _ _ _)
                (lit "/home/u", lit "a.c")
                [(lit "/home/u/sub", lit "b.c"); (lit "/home/u/sub", lit "c.c")]
                _ _ _ _ _).
  - reflexivity.
  - vm_compute. reflexivity.
  - reflexivity.
  - constructor.
  - constructor.
  - discriminate.
  - repeat constructor;
      apply (decodes_to_plain (full_path _));
      intro X; simpl in X; intuition discriminate.
  - repeat constructor; simpl; try discriminate;
      intro X; simpl in X; intuition discriminate.
  - simpl. lia.
  - vm_compute. discriminate.
Defined.

(** C1 as stated fails on scenario S3 of the spec: the buffer holds the
    name of the first file too, "/home/u\0a.c\0b.c\0c.c\0\0", and not the
    directory followed by the names of the remaining files only. *)
Lemma multi_select_packing_counterexample :
  outcome_of (NFD_OpenDialogMultipleWin sample_params three_files_world)
  = Some (NFD_OKAY,
          Some (lit "/home/u" ++ NUL :: lit "a.c" ++ NUL :: lit "b.c" ++ NUL
                :: lit "c.c" ++ [NUL; NUL]))
  /\ lit "/home/u" ++ NUL :: lit "a.c" ++ NUL :: lit "b.c" ++ NUL
     :: lit "c.c" ++ [NUL; NUL]
     <> lit "/home/u" ++ NUL :: lit "b.c" ++ NUL :: lit "c.c" ++ [NUL; NUL].
Proof.
  split; [vm_compute; reflexivity | discriminate].
Qed.

(* ----------------------------------------------------------------- *)
(** *** Async monitor *)

(** C9.  A retrieve before [completed] is true returns [NFD_ERROR] and
    leaves the stored result and the buffer of the monitor as they are.
    The first retrieve after a completion with [NFD_OKAY] hands the
    output buffer and its size to the caller and nulls the buffer
    pointer of the monitor, so that a further retrieve returns
    [NFD_OKAY] with a null path.  A retrieve after a completion with
    another result returns that result and hands over no buffer. *)
Theorem async_retrieve (self : NfdDialogMonitor) (result : NfdDialogResponse)
    (w : world) :
  (completed self = false ->
   NFD_GetAsyncOpResult (Some self) result w
   = Def ((NFD_ERROR, Some self, result),
          set_err_ptr (Some "response not ready"%string) w))
  /\ (completed self = true -> resultCode self = NFD_OKAY ->
      exists self',
        NFD_GetAsyncOpResult (Some self) result w
        = Def ((NFD_OKAY, Some self',
                mkResponse (mon_outPath self) (mon_outPathSize self)), w)
        /\ mon_outPath self' = None
        /\ forall result2 w2,
             NFD_GetAsyncOpResult (Some self') result2 w2
             = Def ((NFD_OKAY, Some self',
                     mkResponse None (mon_outPathSize self)), w2))
  /\ (completed self = true -> resultCode self <> NFD_OKAY ->
      NFD_GetAsyncOpResult (Some self) result w
      = Def ((resultCode self, Some self, result), w)).
Proof.
  unfold NFD_GetAsyncOpResult, Monitor.getDialogResult.
  split; [|split].
  - intros ->. reflexivity.
  - intros -> ->.
    exists (mkMonitor None (mon_outPathSize self) NFD_OKAY true).
    split; [reflexivity|]. split; [reflexivity|]. reflexivity.
  - intros -> Hres. destruct (resultCode self); [reflexivity | congruence | reflexivity].
Qed.

Lemma async_retrieve_witness :
  NFD_GetAsyncOpResult (Some Monitor.fresh) (mkResponse None 0) quiet_world
  = Def ((NFD_ERROR, Some Monitor.fresh, mkResponse None 0),
         set_err_ptr (Some "response not ready"%string) quiet_world)
  /\ (exists self',
        NFD_GetAsyncOpResult
          (Some (monitor_after (Monitor.monitorUntilReturn false Monitor.fresh
                                  one_file_world)))
          (mkResponse None 0) quiet_world
        = Def ((NFD_OKAY, Some self',
                mkResponse (Some (c_string (lit "/tmp/a b.txt"))) 13),
               quiet_world)
        /\ mon_outPath self' = None
        /\ forall result2 w2,
             NFD_GetAsyncOpResult (Some self') result2 w2
             = Def ((NFD_OKAY, Some self', mkResponse None 13), w2))
  /\ NFD_GetAsyncOpResult
       (Some (monitor_after (Monitor.monitorUntilReturn false Monitor.fresh
                               cancel_world)))
       (mkResponse None 0) quiet_world
     = Def ((NFD_CANCEL,
             Some (monitor_after (Monitor.monitorUntilReturn false Monitor.fresh
                                    cancel_world)),
             mkResponse None 0), quiet_world).
Proof.
  split; [|split].
  - apply (async_retrieve Monitor.fresh (mkResponse None 0) quiet_world).
    reflexivity.
  - apply (async_retrieve
             (monitor_after (Monitor.monitorUntilReturn false Monitor.fresh
                               one_file_world))
             (mkResponse None 0) quiet_world); reflexivity.
  - apply (async_retrieve
             (monitor_after (Monitor.monitorUntilReturn false Monitor.fresh
                               cancel_world))
             (mkResponse None 0) quiet_world); [reflexivity | discriminate].
Defined.

(* ----------------------------------------------------------------- *)
(** *** Cancel and the error slot *)

Section ErrorSlot.

Import Iter.

Lemma bind_inv {A B : Type} (c : M A) (k : A -> M B) (w w' : world) (b : B) :
  bind c k w = Def (b, w') ->
  exists a w1, c w = Def (a, w1) /\ k a w1 = Def (b, w').
Proof.
  unfold bind. destruct (c w) as [[a w1]|f]; [|discriminate].
  intro H. exists a, w1. split; [reflexivity | exact H].
Qed.

Lemma steady_ret {A : Type} (code : A -> nfdresult_t) (a : A) :
  steady code (ret a).
Proof.
  intros w a' w' H Hacc. injection H as <- <-. split; [assumption | reflexivity].
Qed.

Lemma steady_lift {A : Type} (code : A -> nfdresult_t) (c : ub A) :
  steady code (lift c).
Proof.
  intros w a w' H Hacc. unfold lift in H. destruct c; [|discriminate].
  injection H as <- <-. split; [assumption | reflexivity].
Qed.

Lemma steady_get {A : Type} (code : A -> nfdresult_t) (field : world -> A) :
  steady code (get field).
Proof.
  intros w a w' H Hacc. injection H as <- <-. split; [assumption | reflexivity].
Qed.

Lemma steady_error {A : Type} (code : A -> nfdresult_t) (msg : option string)
    (a : A) :
  code a = NFD_ERROR -> steady code (NFDi_SetError msg ;;; ret a)%M.
Proof.
  intros Hcode w a' w' H Hacc.
  unfold bind, NFDi_SetError, modify, ret in H. injection H as <- <-.
  split; [exact Hacc | congruence].
Qed.

Lemma steady_bind {A B : Type} (cm : A -> nfdresult_t) (ck : B -> nfdresult_t)
    (c : M A) (k : A -> M B) :
  steady cm c ->
  (forall a, steady ck (k a)) ->
  (forall a w b w', cm a = NFD_ERROR -> k a w = Def (b, w') -> ck b = NFD_ERROR) ->
  steady ck (bind c k).
Proof.
  intros Hc Hk Hfail w b w' H Hacc.
  apply bind_inv in H. destruct H as (a & w1 & H1 & H2).
  destruct (Hc _ _ _ H1 Hacc) as [Hacc1 Herr1].
  destruct (Hk a _ _ _ H2 Hacc1) as [Hacc2 Herr2].
  split; [exact Hacc2|]. intro Hb.
  rewrite (Herr2 Hb). apply Herr1. intro Ha. apply Hb.
  exact (Hfail _ _ _ _ Ha H2).
Qed.

Lemma steady_then {A B : Type} (ck : B -> nfdresult_t) (c : M A) (k : A -> M B) :
  steady no_code c -> (forall a, steady ck (k a)) -> steady ck (bind c k).
Proof.
  intros Hc Hk. apply steady_bind with (cm := no_code); try assumption.
  intros a w b w' Ha. discriminate Ha.
Qed.

Lemma steady_any {A : Type} (code : A -> nfdresult_t) (c : M A) :
  steady no_code c -> steady code c.
Proof.
  intros H w a w' E Hacc. destruct (H _ _ _ E Hacc) as [Hacc' He].
  split; [exact Hacc'|]. intros _. apply He. discriminate.
Qed.

Ltac steady_leaf :=
  first [ apply steady_ret
        | apply steady_lift
        | apply steady_get
        | apply steady_error; reflexivity ].

Ltac steady_if :=
  match goal with
  | |- steady _ (if ?b then _ else _) => destruct b
  end.

Ltac steady_let :=
  match goal with
  | |- steady _ (let '(_, _) := ?p in _) => destruct p
  end.

Lemma ReadDictImpl_steady {S : Type} (key : list char) (iter : DBusMessageIter)
    (args : list (list char * Response.callback S)) (captured : S) :
  steady_callbacks args ->
  steady fst (Response.ReadDictImpl key iter args captured).
Proof.
  induction 1 as [|[k cb] args Hcb _ IH]; simpl.
  - apply steady_ret.
  - destruct (bytes_eqb key k); [apply Hcb | exact IH].
Qed.

Lemma ReadDict_loop_steady {S : Type} (sub_iter : DBusMessageIter)
    (args : list (list char * Response.callback S)) :
  steady_callbacks args ->
  forall captured, steady fst (Response.ReadDict_loop sub_iter args captured).
Proof.
  intro Hargs. induction sub_iter as [|v sub_iter IH]; intro captured.
  - apply steady_ret.
  - destruct v; try apply steady_ret.
    cbn [Response.ReadDict_loop].
    steady_if; [steady_leaf|].
    apply steady_then; [steady_leaf|]. intro key.
    steady_let. steady_if; [steady_leaf|]. steady_if; [steady_leaf|].
    apply steady_then; [steady_leaf|]. intro de_variant_iter.
    apply steady_bind with (cm := fst).
    + apply ReadDictImpl_steady. exact Hargs.
    + intros [res captured']. destruct (nfdresult_eqb res NFD_ERROR);
        [steady_leaf | apply IH].
    + intros [res captured'] w1 b1 w2 Hres H. cbn in Hres. subst res.
      cbn in H. injection H as <- _. reflexivity.
Qed.

Lemma ReadDict_steady {S : Type} (iter : DBusMessageIter)
    (args : list (list char * Response.callback S)) (captured : S) :
  steady_callbacks args ->
  steady fst (Response.ReadDict iter args captured).
Proof.
  intro Hargs. unfold Response.ReadDict.
  destruct (negb (arg_type_eqb (get_arg_type iter) TYPE_ARRAY)); [steady_leaf|].
  apply steady_then; [steady_leaf|]. intro sub_iter.
  apply ReadDict_loop_steady. exact Hargs.
Qed.

Lemma ReadResponseResults_steady (msg : DBusMessage) :
  steady fst (Response.ReadResponseResults msg).
Proof.
  unfold Response.ReadResponseResults.
  destruct (init msg) as [has_args iter].
  destruct (negb has_args); [steady_leaf|].
  destruct (negb (arg_type_eqb (get_arg_type iter) TYPE_UINT32)); [steady_leaf|].
  apply steady_then; [steady_leaf|]. intro resp_code.
  destruct (negb (resp_code =? 0)%N).
  - destruct (resp_code =? 1)%N; steady_leaf.
  - destruct (next iter) as [more iter']. destruct (negb more); steady_leaf.
Qed.

Lemma ReadResponseUris_steady (msg : DBusMessage) :
  steady fst (Response.ReadResponseUris msg).
Proof.
  unfold Response.ReadResponseUris.
  apply steady_bind with (cm := fst).
  - apply ReadResponseResults_steady.
  - intros [res iter]. destruct res, iter; try steady_leaf.
    apply steady_bind with (cm := fst).
    + apply ReadDict_steady. constructor; [|constructor].
      intros uris_iter [uriIter has_uris]. cbn [snd].
      destruct (negb (arg_type_eqb (get_arg_type uris_iter) TYPE_ARRAY));
        [steady_leaf|].
      apply steady_then; [steady_leaf|]. intro sub. steady_leaf.
    + intros [res [uriIter has_uris]].
      destruct (nfdresult_eqb res NFD_ERROR); [steady_leaf|].
      destruct (negb has_uris); steady_leaf.
    + intros [res [uriIter has_uris]] w1 b1 w2 Hres H. cbn in Hres. subst res.
      cbn in H. injection H as <- _. reflexivity.
  - intros [res iter] w1 b1 w2 Hres H. cbn in Hres. subst res.
    destruct iter; cbn in H; injection H as <- _; reflexivity.
Qed.

Lemma ReadResponseUrisSingle_steady (msg : DBusMessage) :
  steady fst (Response.ReadResponseUrisSingle msg).
Proof.
  unfold Response.ReadResponseUrisSingle.
  apply steady_bind with (cm := fst).
  - apply ReadResponseUris_steady.
  - intros [res uri_iter]. destruct res, uri_iter; try steady_leaf.
    steady_if; [steady_leaf|].
    apply steady_then; [steady_leaf|]. intro file. steady_leaf.
  - intros [res iter] w1 b1 w2 Hres H. cbn in Hres. subst res.
    destruct iter; cbn in H; injection H as <- _; reflexivity.
Qed.

Lemma AllocAndCopyFilePath_steady (fileUri : ptr) :
  steady fst (UriCodec.AllocAndCopyFilePath fileUri).
Proof.
  unfold UriCodec.AllocAndCopyFilePath.
  apply steady_then; [steady_leaf|]. intros [stripped|]; [|steady_leaf].
  apply steady_then; [steady_leaf|]. intros [[decoded_len file_uri_end]|];
    [|steady_leaf].
  apply steady_then; [steady_leaf|]. intro decoded.
  apply steady_then; [steady_leaf|]. intro path. steady_leaf.
Qed.

Ltac steady_reads :=
  repeat first
    [ steady_leaf
    | steady_if
    | apply steady_then; [|intro]
    | match goal with
      | |- steady _ (match ?x with _ => _ end) => destruct x
      end ].

Lemma steady_modify (code : unit -> nfdresult_t) (f : world -> world) :
  (forall w, add_match_replies (f w) = add_match_replies w) ->
  (forall w, err_ptr (f w) = err_ptr w) ->
  steady code (modify f).
Proof.
  intros Hreplies Herr w a w' H Hacc. injection H as <- <-.
  split; [|intros _; apply Herr]. unfold accepts. rewrite Hreplies. exact Hacc.
Qed.

Lemma access_steady (pathname : list char) :
  steady no_code (Query.access pathname).
Proof. unfold Query.access. steady_reads. Qed.

Lemma CurrentFile_steady (path name : option ptr) :
  steady no_code (Query.AppendSaveFileQueryDictEntryCurrentFile path name).
Proof.
  unfold Query.AppendSaveFileQueryDictEntryCurrentFile.
  destruct path, name; try steady_leaf.
  do 4 (apply steady_then; [steady_leaf | intro]).
  apply steady_then; [apply access_steady | intro]. steady_if; steady_leaf.
Qed.

Lemma AppendSaveFileQueryParams_win_steady {handle : Type} (handle_token : ptr)
    (params : NfdDialogParams handle) :
  steady no_code (Query.AppendSaveFileQueryParams_win handle_token params).
Proof.
  unfold Query.AppendSaveFileQueryParams_win.
  do 5 (apply steady_then; [steady_leaf | intro]).
  apply steady_then; [apply CurrentFile_steady | intro]. steady_leaf.
Qed.

Lemma AppendSaveFileQueryParams_steady (handle_token : ptr)
    (filterList : list nfdnfilteritem_t) (filterCount : nat)
    (defaultPath defaultName : option ptr) :
  steady no_code (Query.AppendSaveFileQueryParams
                    handle_token filterList filterCount defaultPath defaultName).
Proof.
  unfold Query.AppendSaveFileQueryParams.
  do 4 (apply steady_then; [steady_leaf | intro]).
  apply steady_then; [apply CurrentFile_steady | intro]. steady_leaf.
Qed.

Lemma Generate64RandomChars_steady :
  steady no_code HandleGenerator.Generate64RandomChars.
Proof.
  intros w a w' H Hacc. unfold HandleGenerator.Generate64RandomChars in H.
  destruct (HandleGenerator.Generate64RandomChars_loop (getrandom_replies w) 32)
    as [[out rest]|f]; [|discriminate].
  injection H as <- <-. split; [exact Hacc | reflexivity].
Qed.

Lemma MakeUniqueObjectPath_steady :
  steady no_code HandleGenerator.MakeUniqueObjectPath.
Proof.
  unfold HandleGenerator.MakeUniqueObjectPath.
  do 3 (apply steady_then; [steady_leaf | intro]).
  apply steady_then; [apply Generate64RandomChars_steady | intro].
  apply steady_then; [steady_leaf | intro]. steady_leaf.
Qed.

(** On a bus that accepts every match rule, [dbus_bus_add_match] sets no
    error. *)
Lemma dbus_bus_add_match_accepted (rule : list char) (w w' : world)
    (err : option string) :
  Driver.dbus_bus_add_match rule w = Def (err, w') -> accepts w ->
  err = None /\ accepts w' /\ err_ptr w' = err_ptr w.
Proof.
  unfold Driver.dbus_bus_add_match, accepts. intros H Hacc.
  destruct (add_match_replies w) as [|reply rest]; [discriminate|].
  inversion Hacc as [|? ? Hreply Hrest]; subst reply.
  injection H as <- <-. repeat split; assumption.
Qed.

Lemma steady_add_match {B : Type} (ck : B -> nfdresult_t) (rule : list char)
    (k : option string -> M B) :
  steady ck (k None) -> steady ck (bind (Driver.dbus_bus_add_match rule) k).
Proof.
  intros Hk w b w' H Hacc.
  apply bind_inv in H. destruct H as (err & w1 & H1 & H2).
  destruct (dbus_bus_add_match_accepted _ _ _ _ H1 Hacc) as (-> & Hacc1 & Herr1).
  destruct (Hk _ _ _ H2 Hacc1) as [Hacc2 Herr2].
  split; [exact Hacc2|]. intro Hb. rewrite (Herr2 Hb). exact Herr1.
Qed.

Lemma dbus_bus_remove_match_steady (rule : list char) :
  steady no_code (Driver.dbus_bus_remove_match rule).
Proof.
  intros w a w' H Hacc. injection H as <- <-. split; [exact Hacc | reflexivity].
Qed.

Lemma Unsubscribe_steady (sub_cmd : option (list char)) :
  steady no_code (Driver.Unsubscribe sub_cmd).
Proof.
  destruct sub_cmd as [rule|]; [|apply steady_ret].
  apply steady_then; [apply dbus_bus_remove_match_steady | intro]. steady_leaf.
Qed.

Lemma destroy_subscription_steady (code : unit -> nfdresult_t)
    (sub_cmd : option (list char)) :
  steady code (Driver.destroy_subscription sub_cmd).
Proof.
  apply steady_any. destruct sub_cmd as [rule|]; [|apply steady_ret].
  apply steady_then; [apply Unsubscribe_steady | intro]. steady_leaf.
Qed.

(** On a bus that accepts every match rule, [Subscribe] leaves the error
    slot as it is. *)
Lemma Subscribe_steady (handle_path : ptr) (sub_cmd : option (list char)) :
  steady no_code (Driver.Subscribe handle_path sub_cmd).
Proof.
  unfold Driver.Subscribe.
  apply steady_then.
  { destruct sub_cmd; [apply Unsubscribe_steady | apply steady_ret]. }
  intro sub_cmd'.
  do 3 (apply steady_then; [steady_leaf | intro]).
  apply steady_add_match. steady_leaf.
Qed.

Lemma send_with_reply_and_block_steady (query : DBusMessage) :
  steady no_code (Driver.send_with_reply_and_block query).
Proof.
  intros w a w' H Hacc. unfold Driver.send_with_reply_and_block in H.
  destruct (send_replies w) as [|r rest]; [discriminate|].
  injection H as <- <-. split; [exact Hacc | reflexivity].
Qed.

Lemma send_and_rebind_steady (query : DBusMessage) (handle_obj_path : list char)
    (sub_cmd : option (list char)) :
  steady fst (Driver.send_and_rebind query handle_obj_path sub_cmd).
Proof.
  unfold Driver.send_and_rebind.
  apply steady_then; [apply send_with_reply_and_block_steady|].
  intros [message|reply].
  - intros w a w' H Hacc. unfold bind, NFDi_SetError, modify, ret in H.
    injection H as <- <-. split; [exact Hacc | intro Hc; contradiction Hc; reflexivity].
  - destruct (init reply) as [has_args iter].
    steady_if; [steady_leaf|]. steady_if; [steady_leaf|].
    do 3 (apply steady_then; [steady_leaf | intro]).
    steady_if; [|steady_leaf].
    apply steady_then; [apply Subscribe_steady|]. intros [res sub_cmd'].
    steady_leaf.
Qed.

Lemma wait_for_response_steady : steady fst Driver.wait_for_response.
Proof.
  unfold Driver.wait_for_response.
  do 2 (apply steady_then; [steady_leaf | intro]).
  match goal with
  | |- context [Driver.wait_loop ?q ?later] =>
      destruct (Driver.wait_loop q later) as [[found q'] later']
  end.
  apply steady_then.
  { apply steady_modify; intro; reflexivity. }
  intros _. apply steady_then.
  { apply steady_modify; intro; reflexivity. }
  intros _. destruct found; steady_leaf.
Qed.

Lemma then_ret_inv {A B : Type} (c : M A) (b r : B) (w w' : world) :
  (c ;;; ret b)%M w = Def (r, w') -> r = b.
Proof.
  intro H. apply bind_inv in H. destruct H as (a & w1 & _ & H).
  injection H as <- _. reflexivity.
Qed.

Lemma NFD_DBus_OpenFile_steady (Multiple Directory : bool)
    (filterList : list nfdnfilteritem_t) (filterCount : nat) :
  steady fst (Driver.NFD_DBus_OpenFile Multiple Directory filterList filterCount).
Proof.
  unfold Driver.NFD_DBus_OpenFile.
  apply steady_then; [apply MakeUniqueObjectPath_steady|].
  intros [handle_obj_path handle_token_ptr].
  apply steady_then; [apply Subscribe_steady|]. intros [res signal_sub].
  steady_if.
  { apply steady_then; [apply destroy_subscription_steady | intro]. steady_leaf. }
  apply steady_then; [steady_leaf | intro args].
  apply steady_bind with (cm := fst).
  - apply send_and_rebind_steady.
  - intros [res' signal_sub']. steady_if.
    + apply steady_then; [apply destroy_subscription_steady | intro]. steady_leaf.
    + apply steady_bind with (cm := fst).
      * apply wait_for_response_steady.
      * intro out. apply steady_then; [apply destroy_subscription_steady | intro].
        steady_leaf.
      * intros out w1 b1 w2 Hout H. apply then_ret_inv in H. subst b1. exact Hout.
  - intros [res' signal_sub'] w1 b1 w2 Hres H. cbn in Hres. subst res'.
    cbn in H. apply then_ret_inv in H. subst b1. reflexivity.
Qed.

Lemma NFD_DBus_SaveFile_steady (filterList : list nfdnfilteritem_t)
    (filterCount : nat) (defaultPath defaultName : option ptr) :
  steady fst (Driver.NFD_DBus_SaveFile filterList filterCount defaultPath defaultName).
Proof.
  unfold Driver.NFD_DBus_SaveFile.
  apply steady_then; [apply MakeUniqueObjectPath_steady|].
  intros [handle_obj_path handle_token_ptr].
  apply steady_then; [apply Subscribe_steady|]. intros [res signal_sub].
  steady_if.
  { apply steady_then; [apply destroy_subscription_steady | intro]. steady_leaf. }
  apply steady_then; [apply AppendSaveFileQueryParams_steady | intro args].
  apply steady_bind with (cm := fst).
  - apply send_and_rebind_steady.
  - intros [res' signal_sub']. steady_if.
    + apply steady_then; [apply destroy_subscription_steady | intro]. steady_leaf.
    + apply steady_bind with (cm := fst).
      * apply wait_for_response_steady.
      * intro out. apply steady_then; [apply destroy_subscription_steady | intro].
        steady_leaf.
      * intros out w1 b1 w2 Hout H. apply then_ret_inv in H. subst b1. exact Hout.
  - intros [res' signal_sub'] w1 b1 w2 Hres H. cbn in Hres. subst res'.
    cbn in H. apply then_ret_inv in H. subst b1. reflexivity.
Qed.

Lemma NFD_DBus_ShowOpenFileDialog_steady {handle : Type}
    (Multiple Directory : bool) (params : NfdDialogParams handle) :
  steady (fun res => res)
         (Driver.NFD_DBus_ShowOpenFileDialog Multiple Directory params).
Proof.
  unfold Driver.NFD_DBus_ShowOpenFileDialog.
  apply steady_then; [apply MakeUniqueObjectPath_steady|].
  intros [handle_obj_path handle_token_ptr].
  apply steady_then; [apply Subscribe_steady|]. intros [res signal_sub].
  steady_if.
  { apply steady_then; [apply destroy_subscription_steady | intro]. steady_leaf. }
  apply steady_then; [steady_leaf | intro args].
  apply steady_bind with (cm := fst).
  - apply send_and_rebind_steady.
  - intros [res' signal_sub'].
    apply steady_then; [apply destroy_subscription_steady | intro]. steady_leaf.
  - intros [res' signal_sub'] w1 b1 w2 Hres H. cbn in Hres. subst res'.
    apply then_ret_inv in H. exact H.
Qed.

Lemma NFD_DBus_ShowSaveFileDialog_steady {handle : Type}
    (params : NfdDialogParams handle) :
  steady (fun res => res) (Driver.NFD_DBus_ShowSaveFileDialog params).
Proof.
  unfold Driver.NFD_DBus_ShowSaveFileDialog.
  apply steady_then; [apply MakeUniqueObjectPath_steady|].
  intros [handle_obj_path handle_token_ptr].
  apply steady_then; [apply Subscribe_steady|]. intros [res signal_sub].
  steady_if.
  { apply steady_then; [apply destroy_subscription_steady | intro]. steady_leaf. }
  apply steady_then; [apply AppendSaveFileQueryParams_win_steady | intro args].
  apply steady_bind with (cm := fst).
  - apply send_and_rebind_steady.
  - intros [res' signal_sub'].
    apply steady_then; [apply destroy_subscription_steady | intro]. steady_leaf.
  - intros [res' signal_sub'] w1 b1 w2 Hres H. cbn in Hres. subst res'.
    apply then_ret_inv in H. exact H.
Qed.

Lemma NFD_DBus_OpenFileWin_steady {handle : Type} (Multiple Directory : bool)
    (params : NfdDialogParams handle) :
  steady fst (Driver.NFD_DBus_OpenFileWin Multiple Directory params).
Proof.
  unfold Driver.NFD_DBus_OpenFileWin.
  apply steady_bind with (cm := fun res => res).
  - apply NFD_DBus_ShowOpenFileDialog_steady.
  - intro res. steady_if; [steady_leaf | apply wait_for_response_steady].
  - intros res w1 b1 w2 -> H. injection H as <- _. reflexivity.
Qed.

Lemma NFD_DBus_SaveFileWin_steady {handle : Type} (params : NfdDialogParams handle) :
  steady fst (Driver.NFD_DBus_SaveFileWin params).
Proof.
  unfold Driver.NFD_DBus_SaveFileWin.
  apply steady_bind with (cm := fun res => res).
  - apply NFD_DBus_ShowSaveFileDialog_steady.
  - intro res. steady_if; [steady_leaf | apply wait_for_response_steady].
  - intros res w1 b1 w2 -> H. injection H as <- _. reflexivity.
Qed.

Lemma read_single_path_steady (msg : DBusMessage) (params : DialogParams) :
  steady fst (read_single_path msg params).
Proof.
  unfold read_single_path.
  apply steady_bind with (cm := fst).
  - apply ReadResponseUrisSingle_steady.
  - intros [res uri]. destruct res, uri; try steady_leaf.
    apply steady_bind with (cm := fst).
    + apply AllocAndCopyFilePath_steady.
    + intros [res path]. destruct path as [[path size]|]; steady_leaf.
    + intros [res path] w1 b1 w2 Hres H. cbn in Hres. subst res.
      destruct path as [[path size]|]; injection H as <- _; reflexivity.
  - intros [res uri] w1 b1 w2 Hres H. cbn in Hres. subst res.
    destruct uri; injection H as <- _; reflexivity.
Qed.

Lemma start_monitor_steady (res : nfdresult_t) (params : DialogParams) :
  steady fst (start_monitor res params).
Proof.
  unfold start_monitor. steady_if; [steady_leaf|].
  unfold Monitor.create.
  intros w a w' H Hacc.
  unfold bind, get, NFDi_SetError, modify, ret, lift in H.
  destruct (negb (mutex_available w)); [|destruct (negb (threads_available w))];
    cbn in H; try discriminate H;
    injection H as <- <-; (split; [exact Hacc|]); intro Hc;
    try reflexivity; contradiction Hc; reflexivity.
Qed.

Lemma NFD_OpenDialogWin_steady (params : DialogParams) :
  steady fst (NFD_OpenDialogWin params).
Proof.
  unfold NFD_OpenDialogWin. destruct (outAsyncOpHandle params).
  - apply steady_bind with (cm := fun res => res).
    + apply NFD_DBus_ShowOpenFileDialog_steady.
    + intro res. apply start_monitor_steady.
    + intros res w1 b1 w2 -> H. injection H as <- _. reflexivity.
  - apply steady_bind with (cm := fst).
    + apply NFD_DBus_OpenFileWin_steady.
    + intros [res msg]. destruct res, msg; try steady_leaf.
      apply read_single_path_steady.
    + intros [res msg] w1 b1 w2 Hres H. cbn in Hres. subst res.
      destruct msg; injection H as <- _; reflexivity.
Qed.

Lemma NFD_SaveDialogWin_steady (params : DialogParams) :
  steady fst (NFD_SaveDialogWin params).
Proof.
  unfold NFD_SaveDialogWin. destruct (outAsyncOpHandle params).
  - apply steady_bind with (cm := fun res => res).
    + apply NFD_DBus_ShowSaveFileDialog_steady.
    + intro res. apply start_monitor_steady.
    + intros res w1 b1 w2 -> H. injection H as <- _. reflexivity.
  - apply steady_bind with (cm := fst).
    + apply NFD_DBus_SaveFileWin_steady.
    + intros [res msg]. destruct res, msg; try steady_leaf.
      apply read_single_path_steady.
    + intros [res msg] w1 b1 w2 Hres H. cbn in Hres. subst res.
      destruct msg; injection H as <- _; reflexivity.
Qed.

(** The tail that [NFD_OpenDialogN], [NFD_SaveDialogN] and
    [NFD_PickFolderN] have after their request. *)
Lemma single_path_tail_steady (request : M (nfdresult_t * option DBusMessage)) :
  steady fst request ->
  steady fst
    ('(res, msg) <- request ;;
     match res, msg with
     | NFD_OKAY, Some msg =>
         '(res, uri) <- Response.ReadResponseUrisSingle msg ;;
         match res, uri with
         | NFD_OKAY, Some uri =>
             '(res, path) <- UriCodec.AllocAndCopyFilePath uri ;;
             ret (res, option_map fst path)
         | _, _ => ret (res, None)
         end
     | _, _ => ret (res, None)
     end)%M.
Proof.
  intro Hrequest. apply steady_bind with (cm := fst).
  - exact Hrequest.
  - intros [res msg]. destruct res, msg; try steady_leaf.
    apply steady_bind with (cm := fst).
    + apply ReadResponseUrisSingle_steady.
    + intros [res uri]. destruct res, uri; try steady_leaf.
      apply steady_bind with (cm := fst).
      * apply AllocAndCopyFilePath_steady.
      * intros [res path]. steady_leaf.
      * intros [res path] w1 b1 w2 Hres H. cbn in Hres. subst res.
        injection H as <- _. reflexivity.
    + intros [res uri] w1 b1 w2 Hres H. cbn in Hres. subst res.
      destruct uri; injection H as <- _; reflexivity.
  - intros [res msg] w1 b1 w2 Hres H. cbn in Hres. subst res.
    destruct msg; injection H as <- _; reflexivity.
Qed.

Lemma NFD_OpenDialogN_steady (filterList : list nfdnfilteritem_t)
    (filterCount : nat) (defaultPath : option ptr) :
  steady fst (NFD_OpenDialogN filterList filterCount defaultPath).
Proof. apply single_path_tail_steady, NFD_DBus_OpenFile_steady. Qed.

Lemma NFD_SaveDialogN_steady (filterList : list nfdnfilteritem_t)
    (filterCount : nat) (defaultPath defaultName : option ptr) :
  steady fst (NFD_SaveDialogN filterList filterCount defaultPath defaultName).
Proof. apply single_path_tail_steady, NFD_DBus_SaveFile_steady. Qed.

Lemma NFD_PickFolderN_steady (defaultPath : option ptr) :
  steady fst (NFD_PickFolderN defaultPath).
Proof. apply single_path_tail_steady, NFD_DBus_OpenFile_steady. Qed.

Lemma NFD_OpenDialogMultipleN_steady (filterList : list nfdnfilteritem_t)
    (filterCount : nat) (defaultPath : option ptr) :
  steady fst (NFD_OpenDialogMultipleN filterList filterCount defaultPath).
Proof.
  unfold NFD_OpenDialogMultipleN. apply steady_bind with (cm := fst).
  - apply NFD_DBus_OpenFile_steady.
  - intros [res msg]. destruct res, msg; try steady_leaf.
    apply steady_bind with (cm := fst).
    + apply ReadResponseUris_steady.
    + intros [res uri_iter]. steady_if; steady_leaf.
    + intros [res uri_iter] w1 b1 w2 Hres H. cbn in Hres. subst res.
      injection H as <- _. reflexivity.
  - intros [res msg] w1 b1 w2 Hres H. cbn in Hres. subst res.
    destruct msg; injection H as <- _; reflexivity.
Qed.

(** Once the URIs of a multi-select are read, the packing ends in
    [NFD_OKAY] or [NFD_ERROR]; a cancel is reported before it. *)
Lemma NFD_OpenDialogMultipleWin_cancel (params out : DialogParams) (w w' : world) :
  outAsyncOpHandle params = None ->
  NFD_OpenDialogMultipleWin params w = Def ((NFD_CANCEL, out), w') ->
  accepts w ->
  err_ptr w' = err_ptr w.
Proof.
  intros Hsync H Hacc. unfold NFD_OpenDialogMultipleWin in H. rewrite Hsync in H.
  apply bind_inv in H. destruct H as ([res msg] & w1 & H1 & H).
  destruct (NFD_DBus_OpenFileWin_steady _ _ _ _ _ _ H1 Hacc) as [Hacc1 Herr1].
  cbn [fst] in Herr1.
  assert (Hearly : forall (r : nfdresult_t),
            ret (r, params) w1 = Def ((NFD_CANCEL, out), w') ->
            r = res -> err_ptr w' = err_ptr w).
  { intros r E Hr. injection E as -> _ <-. apply Herr1. rewrite <- Hr. discriminate. }
  destruct res; try (apply (Hearly _ H); reflexivity).
  destruct msg as [msg|]; [|apply (Hearly _ H); reflexivity].
  clear Hearly.
  apply bind_inv in H. destruct H as ([res uri_iter] & w2 & H2 & H).
  destruct (ReadResponseUris_steady _ _ _ _ H2 Hacc1) as [Hacc2 Herr2].
  cbn [fst] in Herr2.
  destruct (negb (nfdresult_eqb res NFD_OKAY)).
  - injection H as -> _ <-. rewrite Herr2 by discriminate.
    apply Herr1. discriminate.
  - exfalso.
    apply bind_inv in H. destruct H as (numPaths & w3 & _ & H).
    apply bind_inv in H. destruct H as ([res3 out3] & w4 & _ & H).
    destruct (negb (nfdresult_eqb res3 NFD_OKAY)); [discriminate H|].
    apply bind_inv in H. destruct H as ([res4 out4] & w5 & _ & H).
    destruct (negb (nfdresult_eqb res4 NFD_OKAY)); [discriminate H|].
    apply bind_inv in H. destruct H as (out5 & w6 & _ & H).
    discriminate H.
Qed.

(** Away from a failed change of subscription the error slot is kept: on
    a bus that accepts every match rule, a synchronous dialog whose
    [Response] carries code 1 returns [NFD_CANCEL] and leaves the error
    slot as it was. *)
Lemma cancel_on_accepting_bus (params : DialogParams) (msg : DBusMessage)
    (rest : list DBusValue) (w w1 : world) :
  outAsyncOpHandle params = None ->
  accepts w ->
  Driver.NFD_DBus_OpenFileWin false false params w = Def ((NFD_OKAY, Some msg), w1) ->
  msg_args msg = DUInt32 1 :: rest ->
  NFD_OpenDialogWin params w = Def ((NFD_CANCEL, params), w1)
  /\ err_ptr w1 = err_ptr w.
Proof.
  intros Hsync Hacc Hrequest Hargs.
  assert (Hrun : NFD_OpenDialogWin params w = Def ((NFD_CANCEL, params), w1)).
  { unfold NFD_OpenDialogWin. rewrite Hsync. unfold bind at 1. rewrite Hrequest.
    unfold read_single_path, bind.
    rewrite (ReadResponseUrisSingle_cancel msg rest w1 Hargs). reflexivity. }
  split; [exact Hrun|].
  apply (NFD_OpenDialogWin_steady params _ _ _ Hrun Hacc). discriminate.
Qed.

End ErrorSlot.

(** C6 at its failing input.  The portal answers with another object
    path than the generated handle, the bus rejects the match rule for
    it, and the user cancels.  [Subscribe] records the bus error in the
    error slot, its result is dropped, and the call goes on to return
    [NFD_CANCEL]: [NFD_GetError] gave null before the call and gives the
    bus error after it. *)
Theorem cancel_after_failed_rebind :
  NFD_GetError cancel_world_failed_rebind
  = Def (None, cancel_world_failed_rebind)
  /\ code_and_error (NFD_OpenDialogWin sample_params cancel_world_failed_rebind)
     = Some (NFD_CANCEL, Some "Did not receive a reply."%string)
  /\ code_and_error (NFD_OpenDialogMultipleWin sample_params cancel_world_failed_rebind)
     = Some (NFD_CANCEL, Some "Did not receive a reply."%string)
  /\ code_and_error (NFD_SaveDialogWin sample_params cancel_world_failed_rebind)
     = Some (NFD_CANCEL, Some "Did not receive a reply."%string)
  /\ code_and_error (NFD_OpenDialogN [] 0 None cancel_world_failed_rebind)
     = Some (NFD_CANCEL, Some "Did not receive a reply."%string)
  /\ code_and_error (NFD_OpenDialogWin sample_params cancel_world)
     = Some (NFD_CANCEL, None).
Proof.
  repeat split; vm_compute; reflexivity.
Qed.
(* ================================================================= *)
(** * Further properties *)

(* ----------------------------------------------------------------- *)
(** *** URI decoding *)

Section UriDecodingFacts.

Import UriCodec.

Lemma skip_file_uri_prefix_mismatch (prefix s rest : list char) :
  no_nul prefix -> no_nul s ->
  (forall t, s <> prefix ++ t) ->
  skip_file_uri_prefix prefix (s ++ NUL :: rest) = Def None.
Proof.
  revert s. induction prefix as [|c prefix IH]; intros s Hp Hs Hne.
  - exfalso. apply (Hne s). reflexivity.
  - apply no_nul_cons in Hp. destruct Hp as [Hc Hp].
    destruct s as [|d s]; simpl.
    + destruct (Ascii.eqb c NUL) eqn:E; [|reflexivity].
      apply Ascii.eqb_eq in E. contradiction.
    + destruct (Ascii.eqb c d) eqn:E; [|reflexivity].
      apply Ascii.eqb_eq in E. subst d.
      apply no_nul_cons in Hs. destruct Hs as [_ Hs].
      apply IH; try assumption.
      intros t Ht. apply (Hne t). simpl. rewrite Ht. reflexivity.
Qed.

Lemma IsHex_ParseHexUnchecked (h : char) :
  IsHex h = true -> exists v, ParseHexUnchecked h = Def v.
Proof.
  unfold IsHex, ParseHexUnchecked. intro H.
  destruct (char_le "0" h && char_le h "9"); [eexists; reflexivity|].
  destruct (char_le "A" h && char_le h "F"); [eexists; reflexivity|].
  destruct (char_le "a" h && char_le h "f"); [eexists; reflexivity|].
  discriminate H.
Qed.

(** What the measuring pass accepts, the decoding pass decodes, to as
    many bytes as were counted: two fewer for each ['%']. *)
Lemma TryUriDecodeLen_from_decodes (s rest : list char) :
  no_nul s ->
  forall len n e,
    TryUriDecodeLen_from len (s ++ NUL :: rest) = Def (Some (n, e)) ->
    e = NUL :: rest
    /\ exists path,
         UriDecodeUnchecked s = Def path
         /\ n = len + length path
         /\ length path + 2 * count_occ ascii_dec s "%"%char = length s.
Proof.
  remember (length s) as k eqn:Hk.
  revert s Hk. induction k as [k IH] using lt_wf_ind.
  intros s Hk Hs len n e Hrun. destruct s as [|c s1].
  - simpl in Hrun. injection Hrun as <- <-. split; [reflexivity|].
    exists []. simpl in *. repeat split; lia.
  - simpl in Hrun. apply no_nul_cons in Hs. destruct Hs as [Hc Hs1].
    rewrite (is_nul_false c Hc) in Hrun.
    destruct (Ascii.eqb c "%") eqn:Ec; simpl in Hrun.
    + apply Ascii.eqb_eq in Ec. subst c.
      destruct s1 as [|h1 s2]; simpl in Hrun; [discriminate|].
      apply no_nul_cons in Hs1. destruct Hs1 as [Hh1 Hs2].
      rewrite (is_nul_false h1 Hh1) in Hrun.
      destruct s2 as [|h2 s3]; simpl in Hrun; [discriminate|].
      apply no_nul_cons in Hs2. destruct Hs2 as [Hh2 Hs3].
      rewrite (is_nul_false h2 Hh2) in Hrun.
      destruct (IsHex h1) eqn:E1; [|discriminate].
      destruct (IsHex h2) eqn:E2; [|discriminate].
      simpl in Hrun.
      destruct (IH (length s3)) with (s := s3) (len := S len) (n := n) (e := e)
        as [He [path [Hdec [Hn Hlen]]]];
        [simpl in Hk; lia | reflexivity | assumption | assumption |].
      split; [exact He|].
      destruct (IsHex_ParseHexUnchecked h1 E1) as [v1 Hv1].
      destruct (IsHex_ParseHexUnchecked h2 E2) as [v2 Hv2].
      eexists. cbn [UriDecodeUnchecked Ascii.eqb Bool.eqb negb].
      rewrite Hv1, Hv2, Hdec. split; [reflexivity|].
      assert (N1 : h1 <> "%"%char) by (apply IsHex_not_percent; exact E1).
      assert (N2 : h2 <> "%"%char) by (apply IsHex_not_percent; exact E2).
      cbn [count_occ length].
      destruct (ascii_dec "%" "%") as [_|X]; [|congruence].
      destruct (ascii_dec h1 "%") as [X|_]; [congruence|].
      destruct (ascii_dec h2 "%") as [X|_]; [congruence|].
      simpl in Hk. split; lia.
    + destruct (IH (length s1)) with (s := s1) (len := S len) (n := n) (e := e)
        as [He [path [Hdec [Hn Hlen]]]];
        [simpl in Hk; lia | reflexivity | assumption | assumption |].
      split; [exact He|].
      exists (c :: path). cbn [UriDecodeUnchecked]. rewrite Ec. cbn [negb].
      rewrite Hdec. split; [reflexivity|].
      cbn [count_occ length].
      destruct (ascii_dec c "%") as [X|_].
      * subst c. discriminate Ec.
      * simpl in Hk. split; lia.
Qed.

(** What the measuring pass rejects holds a ['%'] that starts no
    escape. *)
Lemma TryUriDecodeLen_from_rejects (s rest : list char) :
  no_nul s ->
  forall len,
    TryUriDecodeLen_from len (s ++ NUL :: rest) = Def None ->
    exists i, bad_escape_at s i.
Proof.
  remember (length s) as k eqn:Hk.
  revert s Hk. induction k as [k IH] using lt_wf_ind.
  intros s Hk Hs len Hrun. destruct s as [|c s1]; [discriminate Hrun|].
  simpl in Hrun. apply no_nul_cons in Hs. destruct Hs as [Hc Hs1].
  rewrite (is_nul_false c Hc) in Hrun.
  destruct (Ascii.eqb c "%") eqn:Ec; simpl in Hrun.
  - apply Ascii.eqb_eq in Ec. subst c.
    destruct s1 as [|h1 s2]; [exists 0; split; reflexivity|].
    apply no_nul_cons in Hs1. destruct Hs1 as [Hh1 Hs2].
    simpl in Hrun. rewrite (is_nul_false h1 Hh1) in Hrun.
    destruct s2 as [|h2 s3]; [exists 0; split; reflexivity|].
    apply no_nul_cons in Hs2. destruct Hs2 as [Hh2 Hs3].
    simpl in Hrun. rewrite (is_nul_false h2 Hh2) in Hrun.
    destruct (IsHex h1) eqn:E1; [|exists 0; split; [reflexivity | left; exact E1]].
    destruct (IsHex h2) eqn:E2; [|exists 0; split; [reflexivity | right; exact E2]].
    simpl in Hrun.
    destruct (IH (length s3)) with (s := s3) (len := S len) as [i [Hi Hbad]];
      [simpl in Hk; lia | reflexivity | assumption | assumption |].
    exists (3 + i). split; [exact Hi|]. exact Hbad.
  - destruct (IH (length s1)) with (s := s1) (len := S len) as [i [Hi Hbad]];
      [simpl in Hk; lia | reflexivity | assumption | assumption |].
    exists (S i). split; [exact Hi|]. exact Hbad.
Qed.

End UriDecodingFacts.
Section PercentEncoding.

Import UriCodec.

Lemma escape_digits (upper_high upper_low : bool) (b : char) :
  let h1 := hex_of upper_high (N_of_ascii b / 16) in
  let h2 := hex_of upper_low (N_of_ascii b mod 16) in
  is_nul h1 = false /\ is_nul h2 = false
  /\ IsHex h1 = true /\ IsHex h2 = true
  /\ exists v1 v2,
       ParseHexUnchecked h1 = Def v1 /\ ParseHexUnchecked h2 = Def v2
       /\ int_to_char (Z.lor (Z.shiftl (char_to_int v1) 4) (char_to_int v2)) = b.
Proof.
  destruct upper_high, upper_low;
    destruct b as [[] [] [] [] [] [] [] []];
    (repeat split; try reflexivity);
    eexists; eexists; (repeat split; reflexivity).
Qed.

Lemma TryUriDecodeLen_from_pieces (pieces : list uri_piece) (rest : list char) :
  Forall plain_ok pieces ->
  forall len,
    TryUriDecodeLen_from len (flat_map render_piece pieces ++ NUL :: rest)
    = Def (Some (len + length pieces, NUL :: rest)).
Proof.
  induction 1 as [|p pieces Hp _ IH]; intro len.
  - simpl. rewrite Nat.add_0_r. reflexivity.
  - destruct p as [c|u1 u2 b].
    + destruct Hp as [Hc Hpc].
      cbn [flat_map render_piece app TryUriDecodeLen_from].
      rewrite (is_nul_false c Hc).
      destruct (Ascii.eqb c "%") eqn:E;
        [apply Ascii.eqb_eq in E; contradiction|].
      cbn [negb]. rewrite IH. cbn [length]. do 3 f_equal. lia.
    + destruct (escape_digits u1 u2 b) as (N1 & N2 & H1 & H2 & _).
      cbv zeta in N1, N2, H1, H2.
      cbn [flat_map render_piece app TryUriDecodeLen_from].
      change (is_nul "%") with false. change (Ascii.eqb "%" "%") with true.
      cbn [negb]. rewrite N1, N2, H1, H2. cbn [negb orb].
      rewrite IH. cbn [length]. do 3 f_equal. lia.
Qed.

Lemma UriDecodeUnchecked_pieces (pieces : list uri_piece) :
  Forall plain_ok pieces ->
  UriDecodeUnchecked (flat_map render_piece pieces) = Def (map piece_byte pieces).
Proof.
  induction 1 as [|p pieces Hp _ IH].
  - reflexivity.
  - destruct p as [c|u1 u2 b].
    + destruct Hp as [Hc Hpc].
      cbn [flat_map render_piece app UriDecodeUnchecked map piece_byte].
      destruct (Ascii.eqb c "%") eqn:E;
        [apply Ascii.eqb_eq in E; contradiction|].
      cbn [negb]. rewrite IH. reflexivity.
    + destruct (escape_digits u1 u2 b) as (_ & _ & _ & _ & v1 & v2 & P1 & P2 & Hb).
      cbn [flat_map render_piece app UriDecodeUnchecked map piece_byte].
      change (Ascii.eqb "%" "%") with true. cbn [negb].
      rewrite P1, P2, IH, Hb. reflexivity.
Qed.

End PercentEncoding.

(** X1.  [AllocAndCopyFilePath] refuses every NUL-terminated string that
    does not begin with ["file://"], a string shorter than the prefix
    included: it returns [NFD_ERROR], assigns no path and sets the error
    to "... returned a URI that is not a file URI.". *)
Theorem AllocAndCopyFilePath_rejects_other_schemes (s rest : list char)
    (w : world) :
  no_nul s ->
  (forall t, s <> UriCodec.FILE_URI_PREFIX ++ t) ->
  UriCodec.AllocAndCopyFilePath (s ++ NUL :: rest) w
  = Def ((NFD_ERROR, None), set_err_ptr (Some UriCodec.ERR_NOT_FILE_URI) w).
Proof.
  intros Hs Hne. unfold UriCodec.AllocAndCopyFilePath, bind, lift.
  rewrite skip_file_uri_prefix_mismatch; try assumption.
  - reflexivity.
  - unfold no_nul, UriCodec.FILE_URI_PREFIX. simpl. intuition discriminate.
Qed.

Lemma AllocAndCopyFilePath_rejects_other_schemes_witness :
  UriCodec.AllocAndCopyFilePath (lit "file:/" ++ NUL :: []) quiet_world
  = Def ((NFD_ERROR, None),
         set_err_ptr (Some UriCodec.ERR_NOT_FILE_URI) quiet_world).
Proof.
  apply (AllocAndCopyFilePath_rejects_other_schemes (lit "file:/") [] quiet_world).
  - unfold no_nul. simpl. intuition discriminate.
  - intros t H. discriminate H.
Defined.

(** X2.  On a string that begins with ["file://"] and is NUL-terminated,
    [AllocAndCopyFilePath] either finds a ['%'] that starts no escape,
    and returns [NFD_ERROR] with the error "... returned a malformed
    URI." and no path, or returns [NFD_OKAY] with a buffer that is
    exactly [outPathSize] bytes long, ends in NUL and holds two bytes
    fewer than the URI part for each ['%'] in it; the error slot is left
    alone then.  No read or write leaves the string or the buffer. *)
Theorem AllocAndCopyFilePath_exact_buffer (t rest : list char) (w : world) :
  no_nul t ->
  ((exists i, bad_escape_at t i)
   /\ UriCodec.AllocAndCopyFilePath
        (UriCodec.FILE_URI_PREFIX ++ t ++ NUL :: rest) w
      = Def ((NFD_ERROR, None),
             set_err_ptr (Some UriCodec.ERR_MALFORMED_URI) w))
  \/ (exists path,
        UriCodec.AllocAndCopyFilePath
          (UriCodec.FILE_URI_PREFIX ++ t ++ NUL :: rest) w
        = Def ((NFD_OKAY, Some (path ++ [NUL], length path + 1)), w)
        /\ length path + 2 * count_occ ascii_dec t "%"%char = length t).
Proof.
  intro Ht. unfold UriCodec.AllocAndCopyFilePath, bind, lift.
  rewrite skip_file_uri_prefix_app. unfold UriCodec.TryUriDecodeLen.
  destruct (TryUriDecodeLen_from_total t rest Ht 0) as [Hno | [n Hyes]].
  - left. split.
    + exact (TryUriDecodeLen_from_rejects t rest Ht 0 Hno).
    + rewrite Hno. reflexivity.
  - right.
    destruct (TryUriDecodeLen_from_decodes t rest Ht 0 n _ Hyes)
      as [_ [path [Hdec [Hn Hlen]]]].
    exists path. split; [|exact Hlen].
    rewrite Hyes. cbv beta iota. rewrite range_app, Hdec.
    rewrite store_fits by (rewrite length_app; simpl; lia).
    simpl in Hn. subst n. reflexivity.
Qed.

Lemma AllocAndCopyFilePath_exact_buffer_witness :
  ((exists i, bad_escape_at (lit "/tmp/a%20b.txt") i)
   /\ UriCodec.AllocAndCopyFilePath
        (UriCodec.FILE_URI_PREFIX ++ lit "/tmp/a%20b.txt" ++ NUL :: []) quiet_world
      = Def ((NFD_ERROR, None),
             set_err_ptr (Some UriCodec.ERR_MALFORMED_URI) quiet_world))
  \/ (exists path,
        UriCodec.AllocAndCopyFilePath
          (UriCodec.FILE_URI_PREFIX ++ lit "/tmp/a%20b.txt" ++ NUL :: []) quiet_world
        = Def ((NFD_OKAY, Some (path ++ [NUL], length path + 1)), quiet_world)
        /\ length path + 2 * count_occ ascii_dec (lit "/tmp/a%20b.txt") "%"%char
           = length (lit "/tmp/a%20b.txt")).
Proof.
  apply (AllocAndCopyFilePath_exact_buffer (lit "/tmp/a%20b.txt") [] quiet_world).
  unfold no_nul. simpl. intuition discriminate.
Defined.

(** X3.  Decoding inverts percent-encoding.  When every byte of a path,
    NUL and ['%'] included, is written either as it is (any byte but NUL
    and ['%']) or as ['%'] and its two hexadecimal digits, upper or
    lower case, [AllocAndCopyFilePath] on ["file://"] and that text
    returns [NFD_OKAY] with exactly the bytes of the path, a NUL after
    them, and their number plus one as size. *)
Theorem percent_decoding_inverts_encoding (pieces : list uri_piece)
    (rest : list char) (w : world) :
  Forall plain_ok pieces ->
  UriCodec.AllocAndCopyFilePath
    (UriCodec.FILE_URI_PREFIX ++ flat_map render_piece pieces ++ NUL :: rest) w
  = Def ((NFD_OKAY, Some (map piece_byte pieces ++ [NUL], length pieces + 1)), w).
Proof.
  intro Hp. unfold UriCodec.AllocAndCopyFilePath, bind, lift.
  rewrite skip_file_uri_prefix_app. unfold UriCodec.TryUriDecodeLen.
  rewrite TryUriDecodeLen_from_pieces by assumption. cbv beta iota.
  rewrite range_app, UriDecodeUnchecked_pieces by assumption.
  rewrite store_fits by (rewrite length_app, length_map; simpl; lia).
  reflexivity.
Qed.

Lemma percent_decoding_inverts_encoding_witness :
  UriCodec.AllocAndCopyFilePath
    (UriCodec.FILE_URI_PREFIX
     ++ flat_map render_piece
          [Plain "/"; Plain "a"; Escaped true false " "; Escaped false true "%";
           Escaped true true "/"; Plain "b"]
     ++ NUL :: []) quiet_world
  = Def ((NFD_OKAY, Some (lit "/a %/b" ++ [NUL], 7)), quiet_world).
Proof.
  apply (percent_decoding_inverts_encoding
           [Plain "/"; Plain "a"; Escaped true false " "; Escaped false true "%";
            Escaped true true "/"; Plain "b"] [] quiet_world).
  repeat constructor; discriminate.
Defined.
(* ----------------------------------------------------------------- *)
(** *** The request handle *)

Section TokenBound.

Import HandleGenerator.

(** The loop ends as soon as [getrandom] reports an error or enough
    bytes have come in, with at most [amount] bytes encoded. *)
Lemma Generate64RandomChars_loop_ends (replies : list getrandom_reply) :
  forall amount,
    In GR_error replies \/ amount <= length (flat_map reply_bytes replies) ->
    exists bytes rest,
      Generate64RandomChars_loop replies amount
      = Def (flat_map encode_random_byte bytes, rest)
      /\ length bytes <= amount.
Proof.
  induction replies as [|r replies IH]; intros amount H.
  - destruct H as [[] | H]. simpl in H. assert (amount = 0) by lia. subst.
    exists [], []. split; [reflexivity | simpl; lia].
  - destruct amount as [|a].
    + exists [], (r :: replies). split; [reflexivity | simpl; lia].
    + cbn [Generate64RandomChars_loop]. destruct r as [bytes | |].
      * destruct (IH (S a - length (firstn (S a) bytes)))
          as [bs [rest [E Hlen]]].
        { destruct H as [[X | H] | H]; [discriminate X | left; exact H |].
          right. simpl in H. rewrite length_app in H.
          rewrite length_firstn. lia. }
        rewrite E. exists (firstn (S a) bytes ++ bs), rest. split.
        -- rewrite flat_map_app. reflexivity.
        -- rewrite length_app. rewrite length_firstn in *. lia.
      * destruct (IH (S a)) as [bs [rest [E Hlen]]].
        { destruct H as [[X | H] | H]; [discriminate X | left; exact H |].
          right. exact H. }
        exists bs, rest. split; assumption.
      * exists [], replies. split; [reflexivity | simpl; lia].
Qed.

End TokenBound.

(** X4.  Whatever [getrandom] answers (bytes in any portions, interrupted
    calls, an error at any point), [MakeUniqueObjectPath] stays within
    the buffer it allocated: the path is the prefix, the sanitized
    sender, ['/'] and a token of at most 64 characters in ['A'..'P'], two
    for each of at most 32 random bytes, and the error slot is left
    alone. *)
Theorem MakeUniqueObjectPath_bounded_token (w : world) (name after : list char) :
  dbus_unique_name w = name ++ NUL :: after ->
  no_nul name ->
  In GR_error (getrandom_replies w)
  \/ 32 <= length (flat_map reply_bytes (getrandom_replies w)) ->
  exists random_bytes w',
    let token := flat_map HandleGenerator.encode_random_byte random_bytes in
    HandleGenerator.MakeUniqueObjectPath w
    = Def ((HandleGenerator.STR_RESPONSE_HANDLE_PREFIX
            ++ sanitized_sender name ++ "/"%char :: token ++ [NUL],
            token ++ [NUL]), w')
    /\ length random_bytes <= 32
    /\ length token <= 64
    /\ Forall in_A_to_P token
    /\ err_ptr w' = err_ptr w.
Proof.
  intros Hname Hnn Hends.
  destruct (Generate64RandomChars_loop_ends _ 32 Hends)
    as [bytes [rest [Hloop Hlen]]].
  exists bytes, (set_getrandom_replies rest w). cbv zeta.
  assert (Htok : length (flat_map HandleGenerator.encode_random_byte bytes) <= 64)
    by (rewrite encode_random_bytes_length; lia).
  split; [|split; [exact Hlen | split; [exact Htok | split;
    [apply encode_random_bytes_range | reflexivity]]]].
  unfold HandleGenerator.MakeUniqueObjectPath, bind, get, lift.
  rewrite Hname.
  assert (Hfirst : deref (name ++ NUL :: after)
                   = Def (hd NUL (name ++ NUL :: after)))
    by (destruct name; reflexivity).
  rewrite Hfirst. cbv beta iota zeta.
  match goal with
  | |- context [string_at ?p] =>
      assert (Hsender :
        string_at p
        = Def match name with
              | c :: rest => if Ascii.eqb c ":" then rest else name
              | [] => []
              end)
  end.
  { destruct name as [|c name']; simpl.
    - reflexivity.
    - apply no_nul_cons in Hnn. destruct Hnn as [Hc Hn'].
      destruct (Ascii.eqb c ":") eqn:Ec.
      + apply string_at_app. exact Hn'.
      + change (c :: name' ++ NUL :: after) with ((c :: name') ++ NUL :: after).
        apply string_at_app. apply no_nul_cons. split; assumption. }
  rewrite Hsender. cbv beta iota zeta.
  unfold HandleGenerator.Generate64RandomChars.
  rewrite Hloop. cbv beta iota zeta. rewrite store_fits.
  - unfold ret, sanitized_sender. rewrite dot_to_underscore_spec. reflexivity.
  - unfold HandleGenerator.STR_RESPONSE_HANDLE_PREFIX_LEN.
    rewrite !length_app. cbn [length]. rewrite length_app, length_map.
    cbn [length]. lia.
Qed.

Lemma MakeUniqueObjectPath_bounded_token_witness :
  exists random_bytes w',
    let token := flat_map HandleGenerator.encode_random_byte random_bytes in
    HandleGenerator.MakeUniqueObjectPath
      (world_with_random [GR_bytes (firstn 5 sample_random_bytes); GR_eintr;
                          GR_error])
    = Def ((HandleGenerator.STR_RESPONSE_HANDLE_PREFIX
            ++ sanitized_sender (lit ":1.42") ++ "/"%char :: token ++ [NUL],
            token ++ [NUL]), w')
    /\ length random_bytes <= 32
    /\ length token <= 64
    /\ Forall in_A_to_P token
    /\ err_ptr w' = None.
Proof.
  apply (MakeUniqueObjectPath_bounded_token
           (world_with_random [GR_bytes (firstn 5 sample_random_bytes); GR_eintr;
                               GR_error])
           (lit ":1.42") []).
  - reflexivity.
  - unfold no_nul. simpl. intuition discriminate.
  - left. simpl. intuition.
Defined.
(* ----------------------------------------------------------------- *)
(** *** The request of a dialog with a native filter list *)

Section OpenFilters.

Import Native.

Lemma filter_array_all (items : list nfdnfilteritem_t) :
  filter_array items (length items) = Def items.
Proof.
  unfold filter_array. rewrite Nat.leb_refl, firstn_all. reflexivity.
Qed.

Lemma each_filter_ok (fs : list (list char * list (list char))) :
  Forall native_filter_wf fs ->
  (fix each (l : list nfdnfilteritem_t) : ub (list DBusValue) :=
     match l with
     | [] => Def []
     | filter :: l' =>
         (entry <- AppendSingleFilter filter ;;
          rest <- each l' ;;
          Def (entry :: rest))%ub
     end) (map native_item fs)
  = Def (map encode_native_filter fs).
Proof.
  induction 1 as [|f fs Hf _ IH]; [reflexivity|].
  cbn [map]. unfold ub_bind. rewrite AppendSingleFilter_ok by exact Hf.
  unfold ub_bind in IH. rewrite IH. reflexivity.
Qed.

Lemma AppendOpenFileQueryDictEntryFilters_ok
    (f0 : list char * list (list char)) (fs : list (list char * list (list char))) :
  Forall native_filter_wf (f0 :: fs) ->
  AppendOpenFileQueryDictEntryFilters
    (map native_item (f0 :: fs)) (length (f0 :: fs))
  = Def [filters_entry (map encode_native_filter (f0 :: fs)
                        ++ [wildcard_filter (lit "All files")]);
         current_filter_entry (encode_native_filter f0)].
Proof.
  intro Hwf. unfold AppendOpenFileQueryDictEntryFilters.
  change (length (f0 :: fs) =? 0) with false. cbn [negb].
  rewrite <- (length_map native_item), filter_array_all.
  cbn [ub_bind]. rewrite (each_filter_ok _ Hwf). cbn [ub_bind].
  cbn [map nth_error]. rewrite AppendSingleFilter_ok by (inversion Hwf; assumption).
  reflexivity.
Qed.

End OpenFilters.

(** X5.  The arguments of the [OpenFile] call that [NFD_OpenDialogN],
    [NFD_OpenDialogMultipleN] and [NFD_PickFolderN] send: the empty parent
    window, the title of the variant, and the options with the handle
    token first, [multiple] and [directory] only where they are true,
    and, unless a folder is picked, the filter list: every filter in
    order, the wildcard "All files" after them, and the first filter as
    [current_filter].  A folder picker sends no filter even when it is
    given some, and an empty filter list sends none either. *)
Theorem open_dialog_arguments (Multiple Directory : bool)
    (token after : list char) (filters : list (list char * list (list char))) :
  no_nul token ->
  Forall native_filter_wf filters ->
  Multiple && Directory = false ->
  Query.AppendOpenFileQueryParams Multiple Directory (token ++ NUL :: after)
    (map native_item filters) (length filters)
  = Def [DString [];
         DString (if Directory then lit "Select Folder"
                  else if Multiple then lit "Open Files" else lit "Open File");
         DArray "{sv}"
           ([DDictEntry [DString (lit "handle_token"); DVariant "s" (DString token)]]
            ++ (if Multiple
                then [DDictEntry [DString (lit "multiple");
                                  DVariant "b" (DBoolean true)]]
                else [])
            ++ (if Directory
                then [DDictEntry [DString (lit "directory");
                                  DVariant "b" (DBoolean true)]]
                else [])
            ++ match Directory, filters with
               | false, f0 :: _ =>
                   [filters_option
                      (map encode_native_filter filters
                       ++ [wildcard_filter (lit "All files")]);
                    current_filter_option (encode_native_filter f0)]
               | _, _ => []
               end)].
Proof.
  intros Htoken Hwf Hvariant.
  unfold Query.AppendOpenFileQueryParams, Query.AppendOpenFileQueryDictEntryHandleToken.
  rewrite string_at_app by assumption.
  assert (Hfilters :
    (if negb Directory
     then Native.AppendOpenFileQueryDictEntryFilters
            (map native_item filters) (length filters)
     else Def [])
    = Def match Directory, filters with
          | false, f0 :: _ =>
              [filters_option
                 (map encode_native_filter filters
                  ++ [wildcard_filter (lit "All files")]);
               current_filter_option (encode_native_filter f0)]
          | _, _ => []
          end).
  { destruct Directory; [reflexivity|]. cbn [negb].
    destruct filters as [|f0 fs]; [reflexivity|].
    apply AppendOpenFileQueryDictEntryFilters_ok. exact Hwf. }
  destruct Multiple, Directory; try discriminate Hvariant;
    cbn [Query.AppendOpenFileQueryTitle negb andb ub_bind];
    cbn [negb] in Hfilters; try rewrite Hfilters; reflexivity.
Qed.

Lemma open_dialog_arguments_witness :
  Query.AppendOpenFileQueryParams true false (lit "TOKEN" ++ NUL :: [])
    (map native_item [(lit "Source code", [lit "c"; lit "cpp"; lit "cc"]);
                      (lit "Headers", [lit "h"; lit "hpp"])]) 2
  = Def [DString [];
         DString (lit "Open Files");
         DArray "{sv}"
           ([DDictEntry [DString (lit "handle_token");
                         DVariant "s" (DString (lit "TOKEN"))]]
            ++ [DDictEntry [DString (lit "multiple"); DVariant "b" (DBoolean true)]]
            ++ []
            ++ [filters_option
                  (map encode_native_filter
                     [(lit "Source code", [lit "c"; lit "cpp"; lit "cc"]);
                      (lit "Headers", [lit "h"; lit "hpp"])]
                   ++ [wildcard_filter (lit "All files")]);
                current_filter_option
                  (encode_native_filter
                     (lit "Source code", [lit "c"; lit "cpp"; lit "cc"]))])].
Proof.
  apply (open_dialog_arguments true false (lit "TOKEN") []
           [(lit "Source code", [lit "c"; lit "cpp"; lit "cc"]);
            (lit "Headers", [lit "h"; lit "hpp"])]).
  - unfold no_nul. simpl. intuition discriminate.
  - repeat constructor; unfold no_nul; simpl; try intuition discriminate.
  - reflexivity.
Defined.

(** X6.  The save dialog and a [defaultName] without extension.  With a
    non-empty filter list and no [defaultName], the options list every
    filter, then the wildcard "All files", and make the wildcard the
    [current_filter].  With a [defaultName] that holds no ['.'] (and
    begins its object, as a string constant or a buffer of its own
    does), the search for the extension walks back from the terminator
    past the first byte of the name: the code reads before the string. *)
Theorem save_dialog_name_without_extension
    (filters : list (list char * list (list char))) :
  filters <> [] ->
  Forall native_filter_wf filters ->
  Native.AppendSaveFileQueryDictEntryFilters
    (map native_item filters) (length filters) None
  = Def [filters_option
           (map encode_native_filter filters ++ [wildcard_filter (lit "All files")]);
         current_filter_option (wildcard_filter (lit "All files"))]
  /\ forall name after,
       no_nul name -> ~ In "."%char name ->
       Native.AppendSaveFileQueryDictEntryFilters
         (map native_item filters) (length filters)
         (Some (name ++ NUL :: after))
       = Undef ReadOutOfBounds.
Proof.
  intros Hne Hwf. unfold Native.AppendSaveFileQueryDictEntryFilters.
  destruct filters as [|f0 fs]; [congruence|].
  change (length (f0 :: fs) =? 0) with false. cbn [negb].
  rewrite <- (length_map native_item), filter_array_all. cbn [ub_bind].
  split.
  - cbn [Native.default_extn ub_bind].
    rewrite save_filters_loop_plain by auto. reflexivity.
  - intros name after Hname Hdot. unfold Native.default_extn.
    rewrite past_last_dot_none by assumption. reflexivity.
Qed.

Lemma save_dialog_name_without_extension_witness :
  Native.AppendSaveFileQueryDictEntryFilters
    (map native_item [(lit "Text", [lit "txt"])]) 1 None
  = Def [filters_option
           (map encode_native_filter [(lit "Text", [lit "txt"])]
            ++ [wildcard_filter (lit "All files")]);
         current_filter_option (wildcard_filter (lit "All files"))]
  /\ forall name after,
       no_nul name -> ~ In "."%char name ->
       Native.AppendSaveFileQueryDictEntryFilters
         (map native_item [(lit "Text", [lit "txt"])]) 1
         (Some (name ++ NUL :: after))
       = Undef ReadOutOfBounds.
Proof.
  apply (save_dialog_name_without_extension [(lit "Text", [lit "txt"])]).
  - discriminate.
  - repeat constructor; unfold no_nul; simpl; try intuition discriminate.
Defined.
(* ----------------------------------------------------------------- *)
(** *** Reading the response *)

Section ResponseOutcomes.

Import Iter Response.

Lemma ReadDict_without_uris {S : Type} (entries : list DBusValue)
    (cb : callback S) (captured : S) (w : world) :
  Forall other_entry entries ->
  ReadDict [DArray "{sv}" entries] [(STR_URIS, cb)] captured w
  = Def ((NFD_OKAY, captured), w).
Proof.
  intro H. unfold ReadDict.
  cbn [get_arg_type type_of arg_type_eqb negb recurse].
  unfold bind at 1. unfold lift.
  rewrite <- (app_nil_r entries).
  rewrite ReadDict_loop_others by assumption. reflexivity.
Qed.

Lemma ReadResponseUris_without_uris (msg : DBusMessage)
    (entries : list DBusValue) (w : world) :
  msg_args msg = [DUInt32 0; DArray "{sv}" entries] ->
  Forall other_entry entries ->
  ReadResponseUris msg w
  = Def ((NFD_ERROR, None),
         set_err_ptr (Some "D-Bus response signal has no URI field."%string) w).
Proof.
  intros Hargs Hothers. unfold ReadResponseUris, ReadResponseResults, init.
  rewrite Hargs.
  cbn [negb get_arg_type type_of arg_type_eqb get_uint32 next].
  unfold bind at 1. unfold bind at 1. unfold lift. cbn [N.eqb negb].
  unfold ret at 1. cbv iota beta.
  unfold bind at 1.
  rewrite (@ReadDict_without_uris (option DBusMessageIter * bool) entries _
             (None, false) w Hothers).
  reflexivity.
Qed.

End ResponseOutcomes.

(** X7.  What [ReadResponseUrisSingle] makes of a response whose body is
    a code and a results dictionary.  Code 1 is [NFD_CANCEL], with the
    error slot untouched; a code of 2 or more is [NFD_ERROR] "... was
    ended abruptly."; with code 0, a dictionary without "uris" is
    [NFD_ERROR] "... has no URI field.", an empty "uris" array is
    [NFD_ERROR] "... URI sub iter is not a string.", and otherwise the
    result is [NFD_OKAY] with the first URI of the "uris" entry, wherever
    that entry stands among the others. *)
Theorem ReadResponseUrisSingle_outcomes (msg : DBusMessage) (code : N)
    (entries : list DBusValue) (w : world) :
  msg_args msg = [DUInt32 code; DArray "{sv}" entries] ->
  (code = 1%N ->
   Response.ReadResponseUrisSingle msg w = Def ((NFD_CANCEL, None), w))
  /\ ((2 <= code)%N ->
      Response.ReadResponseUrisSingle msg w
      = Def ((NFD_ERROR, None),
             set_err_ptr
               (Some "D-Bus file dialog interaction was ended abruptly."%string) w))
  /\ (code = 0%N -> Forall other_entry entries ->
      Response.ReadResponseUrisSingle msg w
      = Def ((NFD_ERROR, None),
             set_err_ptr
               (Some "D-Bus response signal has no URI field."%string) w))
  /\ (forall before after,
        code = 0%N -> entries = before ++ uris_entry [] :: after ->
        Forall other_entry before -> Forall other_entry after ->
        Response.ReadResponseUrisSingle msg w
        = Def ((NFD_ERROR, None),
               set_err_ptr
                 (Some "D-Bus response signal URI sub iter is not a string."%string)
                 w))
  /\ (forall before after uri uris,
        code = 0%N -> entries = before ++ uris_entry (uri :: uris) :: after ->
        Forall other_entry before -> Forall other_entry after ->
        Response.ReadResponseUrisSingle msg w
        = Def ((NFD_OKAY, Some (c_string uri)), w)).
Proof.
  intro Hargs. split; [|split; [|split; [|split]]].
  - intros ->. apply (ReadResponseUrisSingle_cancel msg [DArray "{sv}" entries]).
    exact Hargs.
  - intro Hcode.
    unfold Response.ReadResponseUrisSingle, Response.ReadResponseUris,
      Response.ReadResponseResults, Iter.init.
    rewrite Hargs.
    cbn [negb Iter.get_arg_type Iter.type_of Iter.arg_type_eqb Iter.get_uint32].
    unfold bind, lift.
    destruct (N.eqb_spec code 0) as [E|_]; [lia|].
    destruct (N.eqb_spec code 1) as [E|_]; [lia|].
    reflexivity.
  - intros -> Hothers.
    unfold Response.ReadResponseUrisSingle. unfold bind at 1.
    rewrite (ReadResponseUris_without_uris msg entries w Hargs Hothers).
    reflexivity.
  - intros before after -> -> Hb Ha.
    unfold Response.ReadResponseUrisSingle. unfold bind at 1.
    rewrite (ReadResponseUris_ok msg before after [] w Hargs Hb Ha).
    reflexivity.
  - intros before after uri uris -> -> Hb Ha.
    unfold Response.ReadResponseUrisSingle. unfold bind at 1.
    rewrite (ReadResponseUris_ok msg before after (uri :: uris) w Hargs Hb Ha).
    reflexivity.
Qed.

Lemma ReadResponseUrisSingle_outcomes_witness :
  Response.ReadResponseUrisSingle
    (response_signal
       [DUInt32 0;
        DArray "{sv}"
          [DDictEntry [DString (lit "choices"); DVariant "a(ss)" (DArray "(ss)" [])];
           uris_entry [lit "file:///tmp/a"; lit "file:///tmp/b"]]])
    quiet_world
  = Def ((NFD_OKAY, Some (c_string (lit "file:///tmp/a"))), quiet_world).
Proof.
  refine (proj2 (proj2 (proj2 (proj2
    (ReadResponseUrisSingle_outcomes
       (response_signal
          [DUInt32 0;
           DArray "{sv}"
             [DDictEntry [DString (lit "choices");
                          DVariant "a(ss)" (DArray "(ss)" [])];
              uris_entry [lit "file:///tmp/a"; lit "file:///tmp/b"]]])
       0 _ quiet_world eq_refl))))
    [DDictEntry [DString (lit "choices"); DVariant "a(ss)" (DArray "(ss)" [])]]
    [] (lit "file:///tmp/a") [lit "file:///tmp/b"] eq_refl eq_refl _ _).
  - constructor; [|constructor].
    exists (lit "choices"), "a(ss)"%string, (DArray "(ss)" []).
    split; [reflexivity|]. split; [|discriminate].
    unfold no_nul. simpl. intuition discriminate.
  - constructor.
Defined.

(* ----------------------------------------------------------------- *)
(** *** Waiting for the response *)

Section WaitLoop.

Import Driver.

Lemma pop_until_response_spec (q : list DBusMessage) :
  (exists before resp after,
     q = before ++ resp :: after
     /\ Forall (fun m => is_response m = false) before
     /\ is_response resp = true
     /\ pop_until_response q = (Some resp, after))
  \/ (Forall (fun m => is_response m = false) q
      /\ fst (pop_until_response q) = None).
Proof.
  induction q as [|m q IH].
  - right. split; [constructor | reflexivity].
  - cbn [pop_until_response]. fold (is_response m).
    destruct (is_response m) eqn:E.
    + left. exists [], m, q. repeat split; [constructor | exact E].
    + destruct IH as [(before & resp & after & -> & Hb & Hr & Hpop) | [Hall Hpop]].
      * left. exists (m :: before), resp, after.
        repeat split; [constructor; assumption | exact Hr | exact Hpop].
      * right. split; [constructor; assumption | exact Hpop].
Qed.

Lemma first_response_unique (b1 b2 : list DBusMessage) (r1 r2 : DBusMessage)
    (a1 a2 : list DBusMessage) :
  b1 ++ r1 :: a1 = b2 ++ r2 :: a2 ->
  Forall (fun m => is_response m = false) b1 ->
  Forall (fun m => is_response m = false) b2 ->
  is_response r1 = true -> is_response r2 = true ->
  r1 = r2 /\ a1 = a2.
Proof.
  revert b2. induction b1 as [|m b1 IH]; intros [|m2 b2] H H1 H2 R1 R2;
    simpl in H.
  - injection H as -> ->. split; reflexivity.
  - injection H as -> _. inversion H2; subst. congruence.
  - injection H as -> _. inversion H1; subst. congruence.
  - injection H as _ H. inversion H1; inversion H2; subst.
    apply (IH b2); assumption.
Qed.

Lemma skip_other_messages (q rest before : list DBusMessage) (resp : DBusMessage)
    (after : list DBusMessage) :
  Forall (fun m => is_response m = false) q ->
  q ++ rest = before ++ resp :: after ->
  Forall (fun m => is_response m = false) before ->
  is_response resp = true ->
  exists before',
    rest = before' ++ resp :: after
    /\ Forall (fun m => is_response m = false) before'.
Proof.
  revert before. induction q as [|m q IH]; intros before Hq H Hb Hr.
  - exists before. split; assumption.
  - inversion Hq as [|? ? Hm Hq']; subst. destruct before as [|m' before]; simpl in H.
    + injection H as -> _. congruence.
    + injection H as _ H. inversion Hb; subst. apply (IH before); assumption.
Qed.

Lemma wait_loop_none (later : list (list DBusMessage)) :
  forall q,
    Forall (fun m => is_response m = false) (q ++ concat later) ->
    wait_loop q later = (None, [], []).
Proof.
  induction later as [|batch later IH]; intros q H.
  - simpl in H. rewrite app_nil_r in H. cbn [wait_loop].
    destruct (pop_until_response_spec q)
      as [(before & resp & after & -> & _ & Hr & _) | [_ Hpop]].
    + apply Forall_app in H. destruct H as [_ H]. inversion H; subst. congruence.
    + destruct (pop_until_response q) as [[m|] q']; [discriminate Hpop | reflexivity].
  - cbn [wait_loop]. apply Forall_app in H. destruct H as [Hq H].
    destruct (pop_until_response_spec q)
      as [(before & resp & after & -> & _ & Hr & _) | [_ Hpop]].
    + apply Forall_app in Hq. destruct Hq as [_ Hq]. inversion Hq; subst. congruence.
    + destruct (pop_until_response q) as [[m|] q']; [discriminate Hpop|].
      apply IH. exact H.
Qed.

Lemma wait_loop_first (later : list (list DBusMessage)) :
  forall q before resp after,
    q ++ concat later = before ++ resp :: after ->
    Forall (fun m => is_response m = false) before ->
    is_response resp = true ->
    exists q' later',
      wait_loop q later = (Some resp, q', later')
      /\ q' ++ concat later' = after.
Proof.
  induction later as [|batch later IH]; intros q before resp after H Hb Hr.
  - cbn [wait_loop].
    destruct (pop_until_response_spec q)
      as [(b & r & a & -> & Hb' & Hr' & Hpop) | [Hall _]].
    + rewrite Hpop. exists a, []. split.
      * rewrite <- app_assoc in H. simpl in H.
        destruct (first_response_unique _ _ _ _ _ _ H Hb' Hb Hr' Hr) as [-> _].
        reflexivity.
      * rewrite <- app_assoc in H. simpl in H.
        destruct (first_response_unique _ _ _ _ _ _ H Hb' Hb Hr' Hr) as [_ E].
        exact E.
    + simpl in H. rewrite app_nil_r in H. subst q.
      apply Forall_app in Hall. destruct Hall as [_ Hall].
      inversion Hall; subst. congruence.
  - cbn [wait_loop].
    destruct (pop_until_response_spec q)
      as [(b & r & a & -> & Hb' & Hr' & Hpop) | [Hall Hpop]].
    + rewrite Hpop. exists a, (batch :: later).
      rewrite <- app_assoc in H. simpl in H.
      destruct (first_response_unique _ _ _ _ _ _ H Hb' Hb Hr' Hr) as [-> E].
      split; [reflexivity | exact E].
    + destruct (pop_until_response q) as [[m|] q']; [discriminate Hpop|].
      cbn [concat] in H.
      destruct (skip_other_messages q _ before resp after Hall H Hb Hr)
        as (before' & H' & Hb'').
      apply (IH batch before' resp after H' Hb'' Hr).
Qed.

End WaitLoop.

(** X8.  The wait for the response ([NFD_DBus_OpenFile] and its three
    siblings end in it, and the worker of a monitor starts with it).
    Over the messages already queued and those that the later blocking
    reads bring in, in order: when none is a [Response] signal of
    [org.freedesktop.portal.Request], the wait ends with the connection,
    returns [NFD_ERROR] and sets the error "... did not give us a
    reply."; otherwise it returns [NFD_OKAY] with the first such signal,
    drops every message before it, keeps every message after it and
    leaves the error slot alone. *)
Theorem wait_for_response_first_response (w : world) :
  (Forall (fun m => is_response m = false) (queue w ++ concat (arrivals w)) ->
   exists w',
     Driver.wait_for_response w = Def ((NFD_ERROR, None), w')
     /\ err_ptr w'
        = Some "D-Bus freedesktop portal did not give us a reply."%string
     /\ queue w' = [] /\ arrivals w' = [])
  /\ (forall before resp after,
        queue w ++ concat (arrivals w) = before ++ resp :: after ->
        Forall (fun m => is_response m = false) before ->
        is_response resp = true ->
        exists w',
          Driver.wait_for_response w = Def ((NFD_OKAY, Some resp), w')
          /\ queue w' ++ concat (arrivals w') = after
          /\ err_ptr w' = err_ptr w).
Proof.
  split.
  - intro H. unfold Driver.wait_for_response, bind, get, modify, NFDi_SetError, ret.
    rewrite (wait_loop_none _ _ H). eexists. split; [reflexivity|].
    repeat split.
  - intros before resp after H Hb Hr.
    destruct (wait_loop_first _ _ _ _ _ H Hb Hr) as (q' & later' & Hloop & Hrest).
    unfold Driver.wait_for_response, bind, get, modify, NFDi_SetError, ret.
    rewrite Hloop. eexists. split; [reflexivity|]. split; [exact Hrest | reflexivity].
Qed.

Lemma wait_for_response_first_response_witness :
  exists w',
    Driver.wait_for_response
      (set_queue [portal_reply (lit "/p")]
         (set_arrivals [[]; [response_signal [DUInt32 1]; portal_reply (lit "/q")];
                        [response_signal [DUInt32 0]]] quiet_world))
    = Def ((NFD_OKAY, Some (response_signal [DUInt32 1])), w')
    /\ queue w' ++ concat (arrivals w')
       = [portal_reply (lit "/q"); response_signal [DUInt32 0]]
    /\ err_ptr w' = None.
Proof.
  apply (proj2 (wait_for_response_first_response
                  (set_queue [portal_reply (lit "/p")]
                     (set_arrivals
                        [[]; [response_signal [DUInt32 1]; portal_reply (lit "/q")];
                         [response_signal [DUInt32 0]]] quiet_world)))
           [portal_reply (lit "/p")] (response_signal [DUInt32 1])
           [portal_reply (lit "/q"); response_signal [DUInt32 0]]).
  - reflexivity.
  - repeat constructor.
  - reflexivity.
Defined.
(* ----------------------------------------------------------------- *)
(** *** The error slot *)

Section LoudSteps.

Import Iter.

Lemma loud_ret {A : Type} (failed : A -> bool) (a : A) :
  failed a = false -> loud failed (ret a).
Proof.
  intros Hf w a' w' H. injection H as <- <-. split; [tauto | congruence].
Qed.

Lemma loud_lift {A : Type} (c : ub A) : loud never (lift c).
Proof.
  intros w a w' H. unfold lift in H. destruct c; [|discriminate].
  injection H as <- <-. split; [tauto | discriminate].
Qed.

Lemma loud_get {A : Type} (field : world -> A) : loud never (get field).
Proof.
  intros w a w' H. injection H as <- <-. split; [tauto | discriminate].
Qed.

Lemma loud_error {A : Type} (failed : A -> bool) (msg : string) (a : A) :
  loud failed (NFDi_SetError (Some msg) ;;; ret a)%M.
Proof.
  intros w a' w' H. unfold bind, NFDi_SetError, modify, ret in H.
  injection H as <- <-. split; discriminate.
Qed.

Lemma loud_modify (f : world -> world) :
  (forall w, err_ptr (f w) = err_ptr w) -> loud never (modify f).
Proof.
  intros Hf w a w' H. injection H as <- <-. rewrite Hf.
  split; [tauto | discriminate].
Qed.

Lemma loud_weaken {A : Type} (failed : A -> bool) (c : M A) :
  loud failed c -> loud never c.
Proof.
  intros H w a w' E. destruct (H _ _ _ E) as [Hk _]. split; [exact Hk | discriminate].
Qed.

Lemma loud_bind {A B : Type} (fm : A -> bool) (fk : B -> bool)
    (c : M A) (k : A -> M B) :
  loud fm c ->
  (forall a, fm a = false -> loud fk (k a)) ->
  (forall a, fm a = true -> loud never (k a)) ->
  loud fk (bind c k).
Proof.
  intros Hc Hk Hfail w b w' H.
  apply bind_inv in H. destruct H as (a & w1 & H1 & H2).
  destruct (Hc _ _ _ H1) as [Hkeep1 Hset1].
  destruct (fm a) eqn:E.
  - destruct (Hfail a E _ _ _ H2) as [Hkeep2 _].
    split; intros _; apply Hkeep2, Hset1; reflexivity.
  - destruct (Hk a E _ _ _ H2) as [Hkeep2 Hset2].
    split; [intro H0; apply Hkeep2, Hkeep1, H0 | exact Hset2].
Qed.

Lemma loud_then {A B : Type} (fk : B -> bool) (c : M A) (k : A -> M B) :
  loud never c -> (forall a, loud fk (k a)) -> loud fk (bind c k).
Proof.
  intros Hc Hk. apply loud_bind with (fm := never); auto.
  intros a Ha. discriminate Ha.
Qed.

End LoudSteps.
Ltac loud_leaf :=
  first [ apply loud_error
        | apply loud_ret; reflexivity
        | apply loud_lift
        | apply loud_get ].

Ltac loud_if :=
  match goal with
  | |- loud _ (if ?b then _ else _) => destruct b
  end.

Ltac loud_let :=
  match goal with
  | |- loud _ (let '(_, _) := ?p in _) => destruct p
  end.

Section LoudFunctions.

Import Iter.

Lemma loud_lift_any {A : Type} (failed : A -> bool) (c : ub A) :
  (forall a, c = Def a -> failed a = false) -> loud failed (lift c).
Proof.
  intros Hc w a w' H. unfold lift in H. destruct c as [a0|f]; [|discriminate].
  injection H as <- <-. split; [tauto|]. rewrite (Hc a0 eq_refl). discriminate.
Qed.

Lemma ReadDictImpl_loud {S : Type} (key : list char) (iter : DBusMessageIter)
    (args : list (list char * Response.callback S)) (captured : S) :
  Forall (fun entry => forall it c, loud (fun r => is_error (fst r)) (snd entry it c))
         args ->
  loud (fun r => is_error (fst r)) (Response.ReadDictImpl key iter args captured).
Proof.
  induction 1 as [|[k cb] args Hcb _ IH]; simpl.
  - apply loud_ret. reflexivity.
  - destruct (bytes_eqb key k); [apply Hcb | exact IH].
Qed.

Lemma ReadDict_loop_loud {S : Type} (sub_iter : DBusMessageIter)
    (args : list (list char * Response.callback S)) :
  Forall (fun entry => forall it c, loud (fun r => is_error (fst r)) (snd entry it c))
         args ->
  forall captured,
    loud (fun r => is_error (fst r)) (Response.ReadDict_loop sub_iter args captured).
Proof.
  intro Hargs. induction sub_iter as [|v sub_iter IH]; intro captured.
  - apply loud_ret. reflexivity.
  - destruct v; try (apply loud_ret; reflexivity).
    cbn [Response.ReadDict_loop].
    loud_if; [loud_leaf|].
    apply loud_then; [loud_leaf|]. intro key.
    loud_let. loud_if; [loud_leaf|]. loud_if; [loud_leaf|].
    apply loud_then; [loud_leaf|]. intro de_variant_iter.
    apply loud_bind with (fm := fun r => is_error (fst r)).
    + apply ReadDictImpl_loud. exact Hargs.
    + intros [res captured'] E. cbn in E. unfold is_error in E. rewrite E. apply IH.
    + intros [res captured'] E. cbn in E. unfold is_error in E. rewrite E.
      apply loud_ret. reflexivity.
Qed.

Lemma ReadDict_loud {S : Type} (iter : DBusMessageIter)
    (args : list (list char * Response.callback S)) (captured : S) :
  Forall (fun entry => forall it c, loud (fun r => is_error (fst r)) (snd entry it c))
         args ->
  loud (fun r => is_error (fst r)) (Response.ReadDict iter args captured).
Proof.
  intro Hargs. unfold Response.ReadDict.
  loud_if; [loud_leaf|].
  apply loud_then; [loud_leaf|]. intro sub_iter.
  apply ReadDict_loop_loud. exact Hargs.
Qed.

Lemma ReadResponseResults_loud (msg : DBusMessage) :
  loud (fun r => is_error (fst r)) (Response.ReadResponseResults msg).
Proof.
  unfold Response.ReadResponseResults.
  destruct (init msg) as [has_args iter].
  loud_if; [loud_leaf|]. loud_if; [loud_leaf|].
  apply loud_then; [loud_leaf|]. intro resp_code.
  loud_if.
  - loud_if; loud_leaf.
  - loud_let. loud_if; loud_leaf.
Qed.

Lemma ReadResponseUris_loud (msg : DBusMessage) :
  loud (fun r => is_error (fst r)) (Response.ReadResponseUris msg).
Proof.
  unfold Response.ReadResponseUris.
  apply loud_bind with (fm := fun r => is_error (fst r)).
  - apply ReadResponseResults_loud.
  - intros [res iter] E.
    destruct res, iter; try discriminate E; try (apply loud_ret; reflexivity).
    apply loud_bind with (fm := fun r => is_error (fst r)).
    + apply ReadDict_loud. constructor; [|constructor].
      intros uris_iter [uriIter has_uris]. cbn [snd].
      loud_if; [loud_leaf|].
      apply loud_then; [loud_leaf|]. intro sub. loud_leaf.
    + intros [res [uriIter has_uris]] E'. cbn in E'. unfold is_error in E'.
      rewrite E'. loud_if; loud_leaf.
    + intros [res [uriIter has_uris]] E'. cbn in E'. unfold is_error in E'.
      rewrite E'. apply loud_ret. reflexivity.
  - intros [res iter] E. destruct res, iter; try discriminate E;
      apply loud_ret; reflexivity.
Qed.

Lemma ReadResponseUrisSingle_loud (msg : DBusMessage) :
  loud (fun r => is_error (fst r)) (Response.ReadResponseUrisSingle msg).
Proof.
  unfold Response.ReadResponseUrisSingle.
  apply loud_bind with (fm := fun r => is_error (fst r)).
  - apply ReadResponseUris_loud.
  - intros [res uri_iter] E.
    destruct res, uri_iter; try discriminate E; try (apply loud_ret; reflexivity).
    loud_if; [loud_leaf|].
    apply loud_then; [loud_leaf|]. intro file. loud_leaf.
  - intros [res iter] E. destruct res, iter; try discriminate E;
      apply loud_ret; reflexivity.
Qed.

Lemma ReadResponseUrisUnchecked_loud (msg : DBusMessage) :
  loud never (Response.ReadResponseUrisUnchecked msg).
Proof.
  unfold Response.ReadResponseUrisUnchecked.
  destruct (init msg) as [has_args iter]. destruct (next iter) as [more iter'].
  apply loud_then.
  - apply (loud_weaken (fun r => is_error (fst r))).
    apply ReadDict_loud. constructor; [|constructor].
    intros uris_iter uriIter. cbn [snd].
    apply loud_then; [loud_leaf|]. intro sub. loud_leaf.
  - intros [res uriIter]. loud_leaf.
Qed.

Lemma NFD_PathSet_GetCount_loud (msg : DBusMessage) :
  loud never (PathList.NFD_PathSet_GetCount msg).
Proof.
  unfold PathList.NFD_PathSet_GetCount, Response.ReadResponseUrisUncheckedGetArraySize.
  destruct (init msg) as [has_args iter]. destruct (next iter) as [more iter'].
  apply loud_then.
  - apply (loud_weaken (fun r => is_error (fst r))).
    apply ReadDict_loud. constructor; [|constructor].
    intros uris_iter sz. cbn [snd].
    apply loud_then; [loud_leaf|]. intro sz'. loud_leaf.
  - intros [res sz]. loud_leaf.
Qed.

Lemma AllocAndCopyFilePath_loud (fileUri : ptr) :
  loud (fun r => not_okay (fst r)) (UriCodec.AllocAndCopyFilePath fileUri).
Proof.
  unfold UriCodec.AllocAndCopyFilePath.
  apply loud_then; [loud_leaf|]. intros [stripped|]; [|loud_leaf].
  apply loud_then; [loud_leaf|]. intros [[decoded_len file_uri_end]|]; [|loud_leaf].
  apply loud_then; [loud_leaf|]. intro decoded.
  apply loud_then; [loud_leaf|]. intro path. loud_leaf.
Qed.

Lemma copyFileInfo_loud (policy : PathList.Policy) (fileUri : ptr)
    (out : PathList.OutPathList) :
  loud (fun r => not_okay (fst r)) (PathList.copyFileInfo policy fileUri out).
Proof.
  unfold PathList.copyFileInfo.
  apply loud_then; [loud_leaf|]. intros [stripped|]; [|loud_leaf].
  apply loud_then; [loud_leaf|]. intros [[decoded_len file_uri_end]|]; [|loud_leaf].
  apply loud_then; [loud_leaf|]. intro decoded.
  destruct policy.
  - apply loud_then; [loud_leaf|]. intro buf.
    apply loud_then; [loud_leaf|]. intros [buf' [offset|s]].
    + do 3 (apply loud_then; [loud_leaf | intro]). loud_leaf.
    + apply loud_lift_any. discriminate.
  - apply loud_then; [loud_leaf|]. intro buf.
    apply loud_then; [loud_leaf|]. intros [buf' [offset|s]].
    + do 3 (apply loud_then; [loud_leaf | intro]). loud_leaf.
    + apply loud_lift_any. discriminate.
  - do 2 (apply loud_then; [loud_leaf | intro]). loud_leaf.
Qed.

Lemma NFD_PathSet_GetPathWin_loud (policy : PathList.Policy) (msg : DBusMessage)
    (index : nat) (out : PathList.OutPathList) :
  loud (fun r => not_okay (fst r))
       (PathList.NFD_PathSet_GetPathWin policy msg index out).
Proof.
  unfold PathList.NFD_PathSet_GetPathWin.
  apply loud_then; [apply ReadResponseUrisUnchecked_loud|].
  intros [uri_iter|]; [|apply loud_lift_any; discriminate].
  destruct (PathList.advance index uri_iter) as [uri_iter'|]; [|loud_leaf].
  loud_if; [loud_leaf|].
  apply loud_then; [loud_leaf|]. intro uri. apply copyFileInfo_loud.
Qed.

Lemma basenames_loop_loud (count : nat) (msg : DBusMessage) :
  forall i out,
    loud (fun r => not_okay (fst r)) (PathList.basenames_loop count msg i out).
Proof.
  induction count as [|count IH]; intros i out.
  - apply loud_ret. reflexivity.
  - cbn [PathList.basenames_loop].
    apply loud_bind with (fm := fun r => not_okay (fst r)).
    + apply NFD_PathSet_GetPathWin_loud.
    + intros [res out'] E. cbn in E. unfold not_okay in E. rewrite E. apply IH.
    + intros [res out'] E. cbn in E. unfold not_okay in E. rewrite E.
      apply loud_ret. reflexivity.
Qed.

End LoudFunctions.
Section LoudDialogs.

Import Iter.

Lemma loud_failing_step {A B : Type} (c : M A) (b : B) :
  loud never c -> loud never (c ;;; ret b)%M.
Proof.
  intro Hc. apply loud_then; [exact Hc|]. intro. apply loud_ret. reflexivity.
Qed.

Lemma access_loud (pathname : list char) : loud never (Query.access pathname).
Proof.
  unfold Query.access. apply loud_then; [loud_leaf|]. intro. loud_leaf.
Qed.

Lemma CurrentFile_loud (path name : option ptr) :
  loud never (Query.AppendSaveFileQueryDictEntryCurrentFile path name).
Proof.
  unfold Query.AppendSaveFileQueryDictEntryCurrentFile.
  destruct path, name; try loud_leaf.
  do 4 (apply loud_then; [loud_leaf | intro]).
  apply loud_then; [apply access_loud | intro]. loud_if; loud_leaf.
Qed.

Lemma AppendSaveFileQueryParams_win_loud {handle : Type} (handle_token : ptr)
    (params : NfdDialogParams handle) :
  loud never (Query.AppendSaveFileQueryParams_win handle_token params).
Proof.
  unfold Query.AppendSaveFileQueryParams_win.
  do 5 (apply loud_then; [loud_leaf | intro]).
  apply loud_then; [apply CurrentFile_loud | intro]. loud_leaf.
Qed.

Lemma AppendSaveFileQueryParams_loud (handle_token : ptr)
    (filterList : list nfdnfilteritem_t) (filterCount : nat)
    (defaultPath defaultName : option ptr) :
  loud never (Query.AppendSaveFileQueryParams
                handle_token filterList filterCount defaultPath defaultName).
Proof.
  unfold Query.AppendSaveFileQueryParams.
  do 4 (apply loud_then; [loud_leaf | intro]).
  apply loud_then; [apply CurrentFile_loud | intro]. loud_leaf.
Qed.

Lemma MakeUniqueObjectPath_loud : loud never HandleGenerator.MakeUniqueObjectPath.
Proof.
  unfold HandleGenerator.MakeUniqueObjectPath.
  do 3 (apply loud_then; [loud_leaf | intro]).
  apply loud_then.
  { intros w r w' H. unfold HandleGenerator.Generate64RandomChars in H.
    destruct (HandleGenerator.Generate64RandomChars_loop (getrandom_replies w) 32)
      as [[out rest]|f]; [|discriminate].
    injection H as <- <-. split; [tauto | discriminate]. }
  intro. apply loud_then; [loud_leaf | intro]. loud_leaf.
Qed.

Lemma Unsubscribe_loud (sub_cmd : option (list char)) :
  loud never (Driver.Unsubscribe sub_cmd).
Proof.
  destruct sub_cmd as [rule|]; [|loud_leaf].
  apply loud_then; [|intro; loud_leaf].
  intros w a w' H. injection H as <- <-. split; [tauto | discriminate].
Qed.

Lemma destroy_subscription_loud (sub_cmd : option (list char)) :
  loud never (Driver.destroy_subscription sub_cmd).
Proof.
  destruct sub_cmd as [rule|]; [|loud_leaf].
  apply loud_then; [apply Unsubscribe_loud | intro]. loud_leaf.
Qed.

Lemma Subscribe_loud (handle_path : ptr) (sub_cmd : option (list char)) :
  loud (fun r => not_okay (fst r)) (Driver.Subscribe handle_path sub_cmd).
Proof.
  unfold Driver.Subscribe.
  apply loud_then.
  { destruct sub_cmd; [apply Unsubscribe_loud | loud_leaf]. }
  intro sub_cmd'.
  do 3 (apply loud_then; [loud_leaf | intro]).
  apply loud_then.
  { intros w r w' H. unfold Driver.dbus_bus_add_match in H.
    destruct (add_match_replies w) as [|[message|] rest]; [discriminate| |];
      injection H as <- <-; (split; [tauto | discriminate]). }
  intros [message|]; [|loud_leaf].
  apply loud_then; [apply loud_modify; reflexivity|]. intros _. loud_leaf.
Qed.

Lemma send_and_rebind_loud (query : DBusMessage) (handle_obj_path : list char)
    (sub_cmd : option (list char)) :
  loud (fun r => not_okay (fst r))
       (Driver.send_and_rebind query handle_obj_path sub_cmd).
Proof.
  unfold Driver.send_and_rebind.
  apply loud_then.
  { intros w a w' H. unfold Driver.send_with_reply_and_block in H.
    destruct (send_replies w) as [|r rest]; [discriminate|].
    injection H as <- <-. split; [tauto | discriminate]. }
  intros [message|reply].
  - apply loud_then; [apply loud_modify; reflexivity|]. intros _. loud_leaf.
  - destruct (init reply) as [has_args iter].
    loud_if; [loud_leaf|]. loud_if; [loud_leaf|].
    do 3 (apply loud_then; [loud_leaf | intro]).
    loud_if; [|loud_leaf].
    apply loud_then.
    + apply (loud_weaken (fun r => not_okay (fst r))). apply Subscribe_loud.
    + intros [res sub_cmd']. loud_leaf.
Qed.

Lemma wait_for_response_loud :
  loud (fun r => not_okay (fst r)) Driver.wait_for_response.
Proof.
  unfold Driver.wait_for_response.
  do 2 (apply loud_then; [loud_leaf | intro]).
  match goal with
  | |- context [Driver.wait_loop ?q ?later] =>
      destruct (Driver.wait_loop q later) as [[found q'] later']
  end.
  apply loud_then; [apply loud_modify; reflexivity|]. intros _.
  apply loud_then; [apply loud_modify; reflexivity|]. intros _.
  destruct found; loud_leaf.
Qed.

(** The shape the four request functions share. *)
Lemma request_loud (build : ptr -> M (list DBusValue)) (method : string) :
  (forall token, loud never (build token)) ->
  loud (fun r => not_okay (fst r))
    ('(handle_obj_path, handle_token_ptr) <- HandleGenerator.MakeUniqueObjectPath ;;
     '(res, signal_sub) <- Driver.Subscribe handle_obj_path None ;;
     if negb (nfdresult_eqb res NFD_OKAY)
     then Driver.destroy_subscription signal_sub ;;; ret (res, None)
     else
       args <- build handle_token_ptr ;;
       '(res, signal_sub) <-
         Driver.send_and_rebind (Driver.portal_call method args)
                                handle_obj_path signal_sub ;;
       if negb (nfdresult_eqb res NFD_OKAY)
       then Driver.destroy_subscription signal_sub ;;; ret (res, None)
       else
         out <- Driver.wait_for_response ;;
         Driver.destroy_subscription signal_sub ;;;
         ret out)%M.
Proof.
  intro Hbuild.
  apply loud_then; [apply MakeUniqueObjectPath_loud|].
  intros [handle_obj_path handle_token_ptr].
  apply loud_bind with (fm := fun r => not_okay (fst r)).
  - apply Subscribe_loud.
  - intros [res signal_sub] E. cbn in E. unfold not_okay in E. rewrite E.
    apply loud_then; [apply Hbuild | intro args].
    apply loud_bind with (fm := fun r => not_okay (fst r)).
    + apply send_and_rebind_loud.
    + intros [res' signal_sub'] E'. cbn in E'. unfold not_okay in E'. rewrite E'.
      apply loud_bind with (fm := fun r => not_okay (fst r)).
      * apply wait_for_response_loud.
      * intros out Eout. apply loud_then; [apply destroy_subscription_loud|].
        intros _. apply loud_ret. exact Eout.
      * intros out Eout. apply loud_failing_step, destroy_subscription_loud.
    + intros [res' signal_sub'] E'. cbn in E'. unfold not_okay in E'. rewrite E'.
      apply loud_failing_step, destroy_subscription_loud.
  - intros [res signal_sub] E. cbn in E. unfold not_okay in E. rewrite E.
    apply loud_failing_step, destroy_subscription_loud.
Qed.

Lemma NFD_DBus_OpenFile_loud (Multiple Directory : bool)
    (filterList : list nfdnfilteritem_t) (filterCount : nat) :
  loud (fun r => not_okay (fst r))
       (Driver.NFD_DBus_OpenFile Multiple Directory filterList filterCount).
Proof.
  apply (request_loud
           (fun token => lift (Query.AppendOpenFileQueryParams
                                 Multiple Directory token filterList filterCount))
           "OpenFile").
  intro. apply loud_lift.
Qed.

Lemma NFD_DBus_SaveFile_loud (filterList : list nfdnfilteritem_t)
    (filterCount : nat) (defaultPath defaultName : option ptr) :
  loud (fun r => not_okay (fst r))
       (Driver.NFD_DBus_SaveFile filterList filterCount defaultPath defaultName).
Proof.
  apply (request_loud
           (fun token => Query.AppendSaveFileQueryParams
                           token filterList filterCount defaultPath defaultName)
           "SaveFile").
  intro. apply AppendSaveFileQueryParams_loud.
Qed.

(** The shape the two [NFD_DBus_Show...Dialog] functions share. *)
Lemma show_loud (build : ptr -> M (list DBusValue)) (method : string) :
  (forall token, loud never (build token)) ->
  loud not_okay
    ('(handle_obj_path, handle_token_ptr) <- HandleGenerator.MakeUniqueObjectPath ;;
     '(res, signal_sub) <- Driver.Subscribe handle_obj_path None ;;
     if negb (nfdresult_eqb res NFD_OKAY)
     then Driver.destroy_subscription signal_sub ;;; ret res
     else
       args <- build handle_token_ptr ;;
       '(res, signal_sub) <-
         Driver.send_and_rebind (Driver.portal_call method args)
                                handle_obj_path signal_sub ;;
       Driver.destroy_subscription signal_sub ;;;
       ret res)%M.
Proof.
  intro Hbuild.
  apply loud_then; [apply MakeUniqueObjectPath_loud|].
  intros [handle_obj_path handle_token_ptr].
  apply loud_bind with (fm := fun r => not_okay (fst r)).
  - apply Subscribe_loud.
  - intros [res signal_sub] E. cbn in E. unfold not_okay in E. rewrite E.
    apply loud_then; [apply Hbuild | intro args].
    apply loud_bind with (fm := fun r => not_okay (fst r)).
    + apply send_and_rebind_loud.
    + intros [res' signal_sub'] E'. cbn in E'.
      apply loud_then; [apply destroy_subscription_loud|].
      intros _. apply loud_ret. exact E'.
    + intros [res' signal_sub'] E'.
      apply loud_failing_step, destroy_subscription_loud.
  - intros [res signal_sub] E. cbn in E. unfold not_okay in E. rewrite E.
    apply loud_failing_step, destroy_subscription_loud.
Qed.

Lemma NFD_DBus_ShowOpenFileDialog_loud {handle : Type}
    (Multiple Directory : bool) (params : NfdDialogParams handle) :
  loud not_okay (Driver.NFD_DBus_ShowOpenFileDialog Multiple Directory params).
Proof.
  apply (show_loud
           (fun token => lift (Query.AppendOpenFileQueryParams_win
                                 Multiple Directory token params))
           "OpenFile").
  intro. apply loud_lift.
Qed.

Lemma NFD_DBus_ShowSaveFileDialog_loud {handle : Type}
    (params : NfdDialogParams handle) :
  loud not_okay (Driver.NFD_DBus_ShowSaveFileDialog params).
Proof.
  apply (show_loud (fun token => Query.AppendSaveFileQueryParams_win token params)
                   "SaveFile").
  intro. apply AppendSaveFileQueryParams_win_loud.
Qed.

Lemma show_then_wait_loud (show : M nfdresult_t) :
  loud not_okay show ->
  loud (fun r => not_okay (fst r))
    (res <- show ;;
     if negb (nfdresult_eqb res NFD_OKAY) then ret (res, None)
     else Driver.wait_for_response)%M.
Proof.
  intro Hshow. apply loud_bind with (fm := not_okay).
  - exact Hshow.
  - intros res E. unfold not_okay in E. rewrite E. apply wait_for_response_loud.
  - intros res E. unfold not_okay in E. rewrite E. apply loud_ret. reflexivity.
Qed.

End LoudDialogs.
Section LoudEntryPoints.

Import Iter.

Lemma okay_not_error (res : nfdresult_t) : not_okay res = false -> is_error res = false.
Proof. destruct res; [discriminate | reflexivity | discriminate]. Qed.

Lemma read_single_path_loud (msg : DBusMessage) (params : DialogParams) :
  loud (fun r => is_error (fst r)) (read_single_path msg params).
Proof.
  unfold read_single_path.
  apply loud_bind with (fm := fun r => is_error (fst r)).
  - apply ReadResponseUrisSingle_loud.
  - intros [res uri] E.
    destruct res, uri; try discriminate E; try (apply loud_ret; reflexivity).
    apply loud_bind with (fm := fun r => not_okay (fst r)).
    + apply AllocAndCopyFilePath_loud.
    + intros [res path] E'. cbn in E'. apply okay_not_error in E'.
      destruct path as [[path size]|]; apply loud_ret; exact E'.
    + intros [res path] E'. destruct path as [[path size]|]; apply loud_ret; reflexivity.
  - intros [res uri] E. destruct res, uri; try discriminate E;
      apply loud_ret; reflexivity.
Qed.

Lemma start_monitor_loud (res : nfdresult_t) (params : DialogParams) :
  not_okay res = false ->
  loud (fun r => is_error (fst r)) (start_monitor res params).
Proof.
  intro E. unfold start_monitor. unfold not_okay in E. rewrite E.
  intros w a w' H.
  unfold Monitor.create in H.
  unfold bind, get, NFDi_SetError, modify, ret, lift in H.
  destruct (negb (mutex_available w)); [|destruct (negb (threads_available w))];
    cbn in H; try discriminate H;
    injection H as <- <-; split; try tauto; discriminate.
Qed.

Lemma show_then_monitor_loud (show : M nfdresult_t) (params : DialogParams) :
  loud not_okay show ->
  loud (fun r => is_error (fst r)) (res <- show ;; start_monitor res params)%M.
Proof.
  intro Hshow. apply loud_bind with (fm := not_okay).
  - exact Hshow.
  - intros res E. apply start_monitor_loud. exact E.
  - intros res E. unfold start_monitor. unfold not_okay in E. rewrite E.
    apply loud_ret. reflexivity.
Qed.

Lemma single_dialog_loud (request : M (nfdresult_t * option DBusMessage))
    (params : DialogParams) :
  loud (fun r => not_okay (fst r)) request ->
  loud (fun r => is_error (fst r))
    ('(res, msg) <- request ;;
     match res, msg with
     | NFD_OKAY, Some msg => read_single_path msg params
     | _, _ => ret (res, params)
     end)%M.
Proof.
  intro Hrequest. apply loud_bind with (fm := fun r => not_okay (fst r)).
  - exact Hrequest.
  - intros [res msg] E. destruct res; try discriminate E.
    destruct msg; [apply read_single_path_loud | apply loud_ret; reflexivity].
  - intros [res msg] E. destruct res; try discriminate E;
      apply loud_ret; reflexivity.
Qed.

Lemma NFD_OpenDialogWin_loud (params : DialogParams) :
  loud (fun r => is_error (fst r)) (NFD_OpenDialogWin params).
Proof.
  unfold NFD_OpenDialogWin. destruct (outAsyncOpHandle params).
  - apply show_then_monitor_loud, NFD_DBus_ShowOpenFileDialog_loud.
  - apply single_dialog_loud.
    apply show_then_wait_loud, NFD_DBus_ShowOpenFileDialog_loud.
Qed.

Lemma NFD_SaveDialogWin_loud (params : DialogParams) :
  loud (fun r => is_error (fst r)) (NFD_SaveDialogWin params).
Proof.
  unfold NFD_SaveDialogWin. destruct (outAsyncOpHandle params).
  - apply show_then_monitor_loud, NFD_DBus_ShowSaveFileDialog_loud.
  - apply single_dialog_loud.
    apply show_then_wait_loud, NFD_DBus_ShowSaveFileDialog_loud.
Qed.

Lemma single_path_tail_loud (request : M (nfdresult_t * option DBusMessage)) :
  loud (fun r => not_okay (fst r)) request ->
  loud (fun r => is_error (fst r))
    ('(res, msg) <- request ;;
     match res, msg with
     | NFD_OKAY, Some msg =>
         '(res, uri) <- Response.ReadResponseUrisSingle msg ;;
         match res, uri with
         | NFD_OKAY, Some uri =>
             '(res, path) <- UriCodec.AllocAndCopyFilePath uri ;;
             ret (res, option_map fst path)
         | _, _ => ret (res, None)
         end
     | _, _ => ret (res, None)
     end)%M.
Proof.
  intro Hrequest. apply loud_bind with (fm := fun r => not_okay (fst r)).
  - exact Hrequest.
  - intros [res msg] E. destruct res; try discriminate E.
    destruct msg; [|apply loud_ret; reflexivity].
    apply loud_bind with (fm := fun r => is_error (fst r)).
    + apply ReadResponseUrisSingle_loud.
    + intros [res uri] E'.
      destruct res, uri; try discriminate E'; try (apply loud_ret; reflexivity).
      apply loud_bind with (fm := fun r => not_okay (fst r)).
      * apply AllocAndCopyFilePath_loud.
      * intros [res path] E''. cbn in E''. apply okay_not_error in E''.
        apply loud_ret. exact E''.
      * intros [res path] E''. apply loud_ret. reflexivity.
    + intros [res uri] E'. destruct res, uri; try discriminate E';
        apply loud_ret; reflexivity.
  - intros [res msg] E. destruct res; try discriminate E;
      apply loud_ret; reflexivity.
Qed.

Lemma packing_loud (msg : DBusMessage) (A : Type)
    (failure1 failure2 : nfdresult_t -> nfdresult_t * A)
    (finish : PathList.OutPathList -> A) (numPaths : nat) :
  loud (fun r => is_error (fst r))
    (let out := PathList.mkOut [] 256 in
     '(res, out) <-
       PathList.NFD_PathSet_GetPathWin
         (if numPaths =? 1 then PathList.FullPath else PathList.Dirname)
         msg 0 out ;;
     if negb (nfdresult_eqb res NFD_OKAY) then ret (failure1 res)
     else
       '(res, out) <- PathList.basenames_loop (numPaths - 1) msg 1 out ;;
       if negb (nfdresult_eqb res NFD_OKAY) then ret (failure2 res)
       else
         out <- lift (PathList.terminate_list out) ;;
         ret (NFD_OKAY, finish out))%M.
Proof.
  cbv zeta.
  apply loud_bind with (fm := fun r => not_okay (fst r)).
  - apply NFD_PathSet_GetPathWin_loud.
  - intros [res out] E. cbn in E. unfold not_okay in E. rewrite E.
    apply loud_bind with (fm := fun r => not_okay (fst r)).
    + apply basenames_loop_loud.
    + intros [res' out'] E'. cbn in E'. unfold not_okay in E'. rewrite E'.
      apply loud_then; [loud_leaf|]. intro. apply loud_ret. reflexivity.
    + intros [res' out'] E'. cbn in E'. unfold not_okay in E'. rewrite E'.
      apply loud_ret. reflexivity.
  - intros [res out] E. cbn in E. unfold not_okay in E. rewrite E.
    apply loud_ret. reflexivity.
Qed.

Lemma NFD_OpenDialogMultipleWin_loud (params : DialogParams) :
  loud (fun r => is_error (fst r)) (NFD_OpenDialogMultipleWin params).
Proof.
  unfold NFD_OpenDialogMultipleWin. destruct (outAsyncOpHandle params).
  - apply show_then_monitor_loud, NFD_DBus_ShowOpenFileDialog_loud.
  - apply loud_bind with (fm := fun r => not_okay (fst r)).
    + apply show_then_wait_loud, NFD_DBus_ShowOpenFileDialog_loud.
    + intros [res msg] E. destruct res; try discriminate E.
      destruct msg as [msg|]; [|apply loud_ret; reflexivity].
      apply loud_bind with (fm := fun r => is_error (fst r)).
      * apply ReadResponseUris_loud.
      * intros [res uri_iter] E'.
        destruct res; try discriminate E'; cbn [nfdresult_eqb negb];
          [|apply loud_ret; reflexivity].
        apply loud_then; [apply NFD_PathSet_GetCount_loud|]. intro numPaths.
        apply (packing_loud msg DialogParams
                 (fun _ => (NFD_ERROR, set_outPath None (outPathSize params) params))
                 (fun _ => (NFD_ERROR, set_outPath None (outPathSize params) params))
                 (fun out => set_outPath (Some (PathList.written out))
                                         (length (PathList.written out)) params)).
      * intros [res uri_iter] E'. destruct res; try discriminate E'.
        apply loud_ret. reflexivity.
    + intros [res msg] E. destruct res; try discriminate E;
        apply loud_ret; reflexivity.
Qed.

Lemma NFD_OpenDialogMultipleN_loud (filterList : list nfdnfilteritem_t)
    (filterCount : nat) (defaultPath : option ptr) :
  loud (fun r => is_error (fst r))
       (NFD_OpenDialogMultipleN filterList filterCount defaultPath).
Proof.
  unfold NFD_OpenDialogMultipleN.
  apply loud_bind with (fm := fun r => not_okay (fst r)).
  - apply NFD_DBus_OpenFile_loud.
  - intros [res msg] E. destruct res; try discriminate E.
    destruct msg as [msg|]; [|apply loud_ret; reflexivity].
    apply loud_bind with (fm := fun r => is_error (fst r)).
    + apply ReadResponseUris_loud.
    + intros [res uri_iter] E'.
      destruct res; try discriminate E'; apply loud_ret; reflexivity.
    + intros [res uri_iter] E'. destruct res; try discriminate E'.
      apply loud_ret. reflexivity.
  - intros [res msg] E. destruct res; try discriminate E;
      apply loud_ret; reflexivity.
Qed.

Lemma wait_for_response_message :
  loud (fun r => match snd r with Some _ => false | None => true end)
       Driver.wait_for_response.
Proof.
  unfold Driver.wait_for_response.
  do 2 (apply loud_then; [loud_leaf | intro]).
  match goal with
  | |- context [Driver.wait_loop ?q ?later] =>
      destruct (Driver.wait_loop q later) as [[found q'] later']
  end.
  apply loud_then; [apply loud_modify; reflexivity|]. intros _.
  apply loud_then; [apply loud_modify; reflexivity|]. intros _.
  destruct found; loud_leaf.
Qed.

Lemma copySingleFilepath_loud (self : NfdDialogMonitor) (msg : DBusMessage) :
  loud (fun r => is_error (fst r)) (Monitor.copySingleFilepath self msg).
Proof.
  unfold Monitor.copySingleFilepath.
  apply loud_bind with (fm := fun r => is_error (fst r)).
  - apply ReadResponseUrisSingle_loud.
  - intros [res uri] E.
    destruct res, uri; try discriminate E; try (apply loud_ret; reflexivity).
    apply loud_bind with (fm := fun r => not_okay (fst r)).
    + unfold Monitor.allocAndCopyFilePath.
      apply loud_then; [loud_leaf|]. intros [stripped|]; [|loud_leaf].
      apply loud_then; [loud_leaf|].
      intros [[decoded_len file_uri_end]|]; [|loud_leaf].
      apply loud_then; [loud_leaf|]. intro decoded.
      apply loud_then; [loud_leaf|]. intro path. loud_leaf.
    + intros [res self'] E'. cbn in E'. unfold not_okay in E'. rewrite E'.
      apply loud_ret. reflexivity.
    + intros [res self'] E'. cbn in E'. unfold not_okay in E'. rewrite E'.
      apply loud_ret. reflexivity.
  - intros [res uri] E. destruct res, uri; try discriminate E;
      apply loud_ret; reflexivity.
Qed.

Lemma copyMultipleFilePath_loud (self : NfdDialogMonitor) (msg : DBusMessage) :
  loud (fun r => is_error (fst r)) (Monitor.copyMultipleFilePath self msg).
Proof.
  unfold Monitor.copyMultipleFilePath.
  apply loud_bind with (fm := fun r => is_error (fst r)).
  - apply ReadResponseUris_loud.
  - intros [res uri_iter] E.
    destruct res; try discriminate E; cbn [nfdresult_eqb negb];
      [|apply loud_ret; reflexivity].
    apply loud_then; [apply NFD_PathSet_GetCount_loud|]. intro numPaths.
    apply (packing_loud msg NfdDialogMonitor
             (fun res => (res, self)) (fun _ => (NFD_ERROR, self))
             (fun out => Monitor.set_out (Some (PathList.written out))
                                         (length (PathList.written out)) self)).
  - intros [res uri_iter] E. destruct res; try discriminate E.
    apply loud_ret. reflexivity.
Qed.

Lemma monitorUntilReturn_loud (Multiple : bool) (self : NfdDialogMonitor) :
  loud (fun monitor => is_error (resultCode monitor))
       (Monitor.monitorUntilReturn Multiple self).
Proof.
  unfold Monitor.monitorUntilReturn.
  apply loud_bind
    with (fm := fun r : nfdresult_t * option DBusMessage =>
                  match snd r with Some _ => false | None => true end).
  - apply wait_for_response_message.
  - intros [res [msg|]] E; [|discriminate E].
    apply loud_bind with (fm := fun r => is_error (fst r)).
    + destruct Multiple;
        [apply copyMultipleFilePath_loud | apply copySingleFilepath_loud].
    + intros [res' self'] E'. apply loud_ret. exact E'.
    + intros [res' self'] E'. apply loud_ret. reflexivity.
  - intros [res [msg|]] E; [discriminate E|]. apply loud_ret. reflexivity.
Qed.

End LoudEntryPoints.
Section UncheckedReads.

Import Iter Response.

(** Once a dictionary has been read without [NFD_ERROR], reading it
    again with a callback that cannot fail changes nothing. *)
Lemma ReadDict_loop_again {SA SB : Type} (cbA : callback SA) (cbB : callback SB)
    (sub_iter : DBusMessageIter) :
  quiet_callback cbB ->
  forall cA w res cA' w',
    ReadDict_loop sub_iter [(STR_URIS, cbA)] cA w = Def ((res, cA'), w') ->
    res <> NFD_ERROR ->
    forall cB w2 r w2',
      ReadDict_loop sub_iter [(STR_URIS, cbB)] cB w2 = Def (r, w2') -> w2' = w2.
Proof.
  intro HB. induction sub_iter as [|v sub_iter IH];
    intros cA w res cA' w' HA Hres cB w2 r w2' HBrun.
  - injection HBrun as _ <-. reflexivity.
  - destruct v as [?|?|?|?|?|?|? ?|?|? ?|l];
      try (injection HBrun as _ <-; reflexivity).
    cbn [ReadDict_loop] in HA, HBrun.
    destruct (negb (arg_type_eqb (get_arg_type l) TYPE_STRING)).
    { unfold bind, NFDi_SetError, modify, ret in HA. injection HA as <- _ _.
      contradiction Hres. reflexivity. }
    apply bind_inv in HA. destruct HA as (key & wa & HkeyA & HA).
    apply bind_inv in HBrun. destruct HBrun as (key' & wb & HkeyB & HBrun).
    unfold lift in HkeyA, HkeyB.
    destruct (ub_bind (get_string l) string_at) as [k|f]; [|discriminate].
    injection HkeyA as <- <-. injection HkeyB as <- <-.
    destruct (next l) as [more de_iter].
    destruct (negb more).
    { unfold bind, NFDi_SetError, modify, ret in HA. injection HA as <- _ _.
      contradiction Hres. reflexivity. }
    destruct (negb (arg_type_eqb (get_arg_type de_iter) TYPE_VARIANT)).
    { unfold bind, NFDi_SetError, modify, ret in HA. injection HA as <- _ _.
      contradiction Hres. reflexivity. }
    apply bind_inv in HA. destruct HA as (va & wa & HrecA & HA).
    apply bind_inv in HBrun. destruct HBrun as (vb & wb & HrecB & HBrun).
    unfold lift in HrecA, HrecB.
    destruct (recurse de_iter) as [content|f]; [|discriminate].
    injection HrecA as <- <-. injection HrecB as <- <-.
    apply bind_inv in HA. destruct HA as ([resA cA1] & wa & HimplA & HA).
    apply bind_inv in HBrun. destruct HBrun as ([resB cB1] & wb & HimplB & HBrun).
    cbn [ReadDictImpl] in HimplA, HimplB.
    assert (HwB : wb = w2 /\ resB <> NFD_ERROR).
    { destruct (bytes_eqb k STR_URIS).
      - apply (HB _ _ _ _ _ HimplB).
      - injection HimplB as <- _ <-. split; [reflexivity | discriminate]. }
    destruct HwB as [-> HresB].
    destruct (nfdresult_eqb resA NFD_ERROR).
    { injection HA as <- _ _. contradiction Hres. reflexivity. }
    replace (nfdresult_eqb resB NFD_ERROR) with false in HBrun
      by (destruct resB; [contradiction HresB; reflexivity | reflexivity | reflexivity]).
    exact (IH _ _ _ _ _ HA Hres _ _ _ _ HBrun).
Qed.

Lemma ReadDict_again {SA SB : Type} (cbA : callback SA) (cbB : callback SB)
    (iter : DBusMessageIter) :
  quiet_callback cbB ->
  forall cA w res cA' w',
    ReadDict iter [(STR_URIS, cbA)] cA w = Def ((res, cA'), w') ->
    res <> NFD_ERROR ->
    forall cB w2 r w2',
      ReadDict iter [(STR_URIS, cbB)] cB w2 = Def (r, w2') -> w2' = w2.
Proof.
  intros HB cA w res cA' w' HA Hres cB w2 r w2' HBrun.
  unfold ReadDict in HA, HBrun.
  destruct (negb (arg_type_eqb (get_arg_type iter) TYPE_ARRAY)).
  { unfold bind, NFDi_SetError, modify, ret in HA. injection HA as <- _ _.
    contradiction Hres. reflexivity. }
  apply bind_inv in HA. destruct HA as (sa & wa & HrecA & HA).
  apply bind_inv in HBrun. destruct HBrun as (sb & wb & HrecB & HBrun).
  unfold lift in HrecA, HrecB.
  destruct (recurse iter) as [content|f]; [|discriminate].
  injection HrecA as <- <-. injection HrecB as <- <-.
  exact (ReadDict_loop_again cbA cbB content HB _ _ _ _ _ HA Hres _ _ _ _ HBrun).
Qed.

(** A message that [ReadResponseUris] has read with [NFD_OKAY]. *)
Lemma ReadResponseUris_dictionary (msg : DBusMessage) (w w' : world)
    (uriIter : option DBusMessageIter) :
  ReadResponseUris msg w = Def ((NFD_OKAY, uriIter), w') ->
  exists (cbA : callback (option DBusMessageIter * bool)) cA res cA' w1 w1',
    ReadDict (snd (next (snd (init msg)))) [(STR_URIS, cbA)] cA w1
    = Def ((res, cA'), w1')
    /\ res <> NFD_ERROR.
Proof.
  intro H. unfold ReadResponseUris in H.
  apply bind_inv in H. destruct H as ([res iter] & w1 & Hres & H).
  unfold ReadResponseResults in Hres.
  destruct (init msg) as [has_args it0] eqn:Einit. cbn [snd].
  destruct (negb has_args).
  { unfold bind, NFDi_SetError, modify, ret in Hres. injection Hres as <- <- <-.
    discriminate H. }
  destruct (negb (arg_type_eqb (get_arg_type it0) TYPE_UINT32)).
  { unfold bind, NFDi_SetError, modify, ret in Hres. injection Hres as <- <- <-.
    discriminate H. }
  apply bind_inv in Hres. destruct Hres as (code & w0 & _ & Hres).
  destruct (negb (code =? 0)%N).
  { destruct (code =? 1)%N.
    - injection Hres as <- <- <-. discriminate H.
    - unfold bind, NFDi_SetError, modify, ret in Hres. injection Hres as <- <- <-.
      discriminate H. }
  destruct (next it0) as [more it1]. cbn [snd].
  destruct (negb more).
  { unfold bind, NFDi_SetError, modify, ret in Hres. injection Hres as <- <- <-.
    discriminate H. }
  injection Hres as <- <- <-.
  apply bind_inv in H. destruct H as ([res [u has]] & w2 & Hdict & H).
  eexists. exists (None, false), res, (u, has), w0, w2.
  split; [exact Hdict|].
  intro E. subst res. cbn in H. discriminate H.
Qed.

Lemma ReadResponseUrisUnchecked_again (msg : DBusMessage) (w0 w0' : world)
    (uriIter : option DBusMessageIter) :
  ReadResponseUris msg w0 = Def ((NFD_OKAY, uriIter), w0') ->
  forall w r w', ReadResponseUrisUnchecked msg w = Def (r, w') -> w' = w.
Proof.
  intros Hread w r w' H.
  destruct (ReadResponseUris_dictionary _ _ _ _ Hread)
    as (cbA & cA & res & cA' & w1 & w1' & Hdict & Hres).
  unfold ReadResponseUrisUnchecked in H.
  destruct (init msg) as [has_args it0]. cbn [snd] in Hdict.
  destruct (next it0) as [more it1] eqn:Enext. cbn [snd] in Hdict.
  apply bind_inv in H. destruct H as ([resB u] & wb & HB & H).
  injection H as _ <-.
  refine (ReadDict_again cbA _ it1 _ _ _ _ _ _ Hdict Hres _ _ _ _ HB).
  intros it c w2 r2 w2' Hcb. unfold bind, lift, ret in Hcb.
  destruct (recurse it); [|discriminate]. injection Hcb as <- <-.
  split; [reflexivity | discriminate].
Qed.

Lemma NFD_PathSet_GetCount_again (msg : DBusMessage) (w0 w0' : world)
    (uriIter : option DBusMessageIter) :
  ReadResponseUris msg w0 = Def ((NFD_OKAY, uriIter), w0') ->
  forall w n w', PathList.NFD_PathSet_GetCount msg w = Def (n, w') -> w' = w.
Proof.
  intros Hread w n w' H.
  destruct (ReadResponseUris_dictionary _ _ _ _ Hread)
    as (cbA & cA & res & cA' & w1 & w1' & Hdict & Hres).
  unfold PathList.NFD_PathSet_GetCount, ReadResponseUrisUncheckedGetArraySize in H.
  destruct (init msg) as [has_args it0]. cbn [snd] in Hdict.
  destruct (next it0) as [more it1] eqn:Enext. cbn [snd] in Hdict.
  apply bind_inv in H. destruct H as ([resB u] & wb & HB & H).
  injection H as _ <-.
  refine (ReadDict_again cbA _ it1 _ _ _ _ _ _ Hdict Hres _ _ _ _ HB).
  intros it c w2 r2 w2' Hcb. unfold bind, lift, ret in Hcb.
  destruct (get_element_count it); [|discriminate]. injection Hcb as <- <-.
  split; [reflexivity | discriminate].
Qed.

End UncheckedReads.
Ltac keep_leaf :=
  first [ apply steady_ret
        | apply steady_lift
        | apply steady_get
        | apply steady_error; reflexivity ].

Ltac keep_if :=
  match goal with
  | |- steady _ (if ?b then _ else _) => destruct b
  end.

Section PackingKeepsSlot.

Import Iter.

Lemma copyFileInfo_steady (policy : PathList.Policy) (fileUri : ptr)
    (out : PathList.OutPathList) :
  steady fst (PathList.copyFileInfo policy fileUri out).
Proof.
  unfold PathList.copyFileInfo.
  apply steady_then; [keep_leaf|]. intros [stripped|]; [|keep_leaf].
  apply steady_then; [keep_leaf|]. intros [[decoded_len file_uri_end]|]; [|keep_leaf].
  apply steady_then; [keep_leaf|]. intro decoded.
  destruct policy.
  - apply steady_then; [keep_leaf|]. intro buf.
    apply steady_then; [keep_leaf|]. intros [buf' [offset|s]].
    + do 3 (apply steady_then; [keep_leaf | intro]). keep_leaf.
    + keep_leaf.
  - apply steady_then; [keep_leaf|]. intro buf.
    apply steady_then; [keep_leaf|]. intros [buf' [offset|s]].
    + do 3 (apply steady_then; [keep_leaf | intro]). keep_leaf.
    + keep_leaf.
  - do 2 (apply steady_then; [keep_leaf | intro]). keep_leaf.
Qed.

Section AfterRead.

Variables (msg : DBusMessage) (w0 w0' : world) (uriIter : option DBusMessageIter).
Hypothesis Hread : Response.ReadResponseUris msg w0 = Def ((NFD_OKAY, uriIter), w0').

Lemma NFD_PathSet_GetCount_steady :
  steady no_code (PathList.NFD_PathSet_GetCount msg).
Proof.
  intros w n w' H Hacc.
  rewrite (NFD_PathSet_GetCount_again msg w0 w0' uriIter Hread w n w' H).
  split; [exact Hacc | reflexivity].
Qed.

Lemma NFD_PathSet_GetPathWin_steady (policy : PathList.Policy) (index : nat)
    (out : PathList.OutPathList) :
  steady fst
         (PathList.NFD_PathSet_GetPathWin policy msg index out).
Proof.
  unfold PathList.NFD_PathSet_GetPathWin.
  apply steady_then.
  - intros w r w' H Hacc.
    rewrite (ReadResponseUrisUnchecked_again msg w0 w0' uriIter Hread w r w' H).
    split; [exact Hacc | reflexivity].
  - intros [uri_iter|]; [|keep_leaf].
    destruct (PathList.advance index uri_iter) as [uri_iter'|]; [|keep_leaf].
    keep_if; [keep_leaf|].
    apply steady_then; [keep_leaf|]. intro uri. apply copyFileInfo_steady.
Qed.

Lemma basenames_loop_steady (count : nat) :
  forall i out,
    steady fst (PathList.basenames_loop count msg i out).
Proof.
  induction count as [|count IH]; intros i out.
  - apply steady_ret.
  - cbn [PathList.basenames_loop].
    apply steady_bind with (cm := fst).
    + apply NFD_PathSet_GetPathWin_steady.
    + intros [res out']. keep_if; [keep_leaf | apply IH].
    + intros [res out'] w1 b1 w2 Hres H. cbn in Hres. subst res.
      injection H as <- _. reflexivity.
Qed.

Lemma packing_steady (A : Type)
    (failure1 failure2 : nfdresult_t -> nfdresult_t * A)
    (finish : PathList.OutPathList -> A) (numPaths : nat) :
  fst (failure1 NFD_ERROR) = NFD_ERROR ->
  fst (failure2 NFD_ERROR) = NFD_ERROR ->
  steady fst
    (let out := PathList.mkOut [] 256 in
     '(res, out) <-
       PathList.NFD_PathSet_GetPathWin
         (if numPaths =? 1 then PathList.FullPath else PathList.Dirname)
         msg 0 out ;;
     if negb (nfdresult_eqb res NFD_OKAY) then ret (failure1 res)
     else
       '(res, out) <- PathList.basenames_loop (numPaths - 1) msg 1 out ;;
       if negb (nfdresult_eqb res NFD_OKAY) then ret (failure2 res)
       else
         out <- lift (PathList.terminate_list out) ;;
         ret (NFD_OKAY, finish out))%M.
Proof.
  intros Hf1 Hf2. cbv zeta.
  apply steady_bind with (cm := fst).
  - apply NFD_PathSet_GetPathWin_steady.
  - intros [res out]. keep_if; [keep_leaf|].
    apply steady_bind with (cm := fst).
    + apply basenames_loop_steady.
    + intros [res' out']. keep_if; [keep_leaf|].
      apply steady_then; [keep_leaf|]. intro. keep_leaf.
    + intros [res' out'] w1 b1 w2 Hres H. cbn in Hres. subst res'.
      injection H as <- _. exact Hf2.
  - intros [res out] w1 b1 w2 Hres H. cbn in Hres. subst res.
    injection H as <- _. exact Hf1.
Qed.

End AfterRead.

Lemma NFD_OpenDialogMultipleWin_steady (params : DialogParams) :
  steady fst (NFD_OpenDialogMultipleWin params).
Proof.
  unfold NFD_OpenDialogMultipleWin. destruct (outAsyncOpHandle params).
  - apply steady_bind with (cm := fun res => res).
    + apply NFD_DBus_ShowOpenFileDialog_steady.
    + intro res. apply start_monitor_steady.
    + intros res w1 b1 w2 -> H. injection H as <- _. reflexivity.
  - apply steady_bind with (cm := fst).
    + apply NFD_DBus_OpenFileWin_steady.
    + intros [res msg]. destruct res, msg as [msg|]; try keep_leaf.
      intros w1 r w3 H Hacc.
      apply bind_inv in H. destruct H as ([res uri_iter] & w2 & Hread & H).
      destruct (ReadResponseUris_steady _ _ _ _ Hread Hacc) as [Hacc2 Herr2].
      destruct res; cbn [nfdresult_eqb negb] in H.
      * injection H as <- <-. split; [exact Hacc2|]. intro X. contradiction X.
        reflexivity.
      * assert (Hrest :
          steady fst
            (numPaths <- PathList.NFD_PathSet_GetCount msg ;;
             let out := PathList.mkOut [] 256 in
             '(res, out) <-
               PathList.NFD_PathSet_GetPathWin
                 (if numPaths =? 1 then PathList.FullPath else PathList.Dirname)
                 msg 0 out ;;
             if negb (nfdresult_eqb res NFD_OKAY)
             then ret (NFD_ERROR, set_outPath None (outPathSize params) params)
             else
               '(res, out) <- PathList.basenames_loop (numPaths - 1) msg 1 out ;;
               if negb (nfdresult_eqb res NFD_OKAY)
               then ret (NFD_ERROR, set_outPath None (outPathSize params) params)
               else
                 out <- lift (PathList.terminate_list out) ;;
                 ret (NFD_OKAY,
                      set_outPath (Some (PathList.written out))
                                  (length (PathList.written out)) params))%M).
        { apply steady_then.
          - apply (NFD_PathSet_GetCount_steady msg w1 w2 uri_iter Hread).
          - intro numPaths.
            apply (packing_steady msg w1 w2 uri_iter Hread DialogParams
                     (fun _ => (NFD_ERROR, set_outPath None (outPathSize params) params))
                     (fun _ => (NFD_ERROR, set_outPath None (outPathSize params) params))
                     (fun out => set_outPath (Some (PathList.written out))
                                             (length (PathList.written out)) params));
              reflexivity. }
        destruct (Hrest _ _ _ H Hacc2) as [Hacc3 Herr3].
        split; [exact Hacc3|]. intro Hr. rewrite (Herr3 Hr). apply Herr2. discriminate.
      * injection H as <- <-. split; [exact Hacc2|]. intros _. apply Herr2.
        discriminate.
    + intros [res msg] w1 b1 w2 Hres H. cbn in Hres. subst res.
      destruct msg; injection H as <- _; reflexivity.
Qed.

Lemma copySingleFilepath_steady (self : NfdDialogMonitor) (msg : DBusMessage) :
  steady fst (Monitor.copySingleFilepath self msg).
Proof.
  unfold Monitor.copySingleFilepath.
  apply steady_bind with (cm := fst).
  - apply ReadResponseUrisSingle_steady.
  - intros [res uri]. destruct res, uri; try keep_leaf.
    apply steady_bind with (cm := fst).
    + unfold Monitor.allocAndCopyFilePath.
      apply steady_then; [keep_leaf|]. intros [stripped|]; [|keep_leaf].
      apply steady_then; [keep_leaf|].
      intros [[decoded_len file_uri_end]|]; [|keep_leaf].
      apply steady_then; [keep_leaf|]. intro decoded.
      apply steady_then; [keep_leaf|]. intro path. keep_leaf.
    + intros [res self']. keep_if; keep_leaf.
    + intros [res self'] w1 b1 w2 Hres H. cbn in Hres. subst res.
      injection H as <- _. reflexivity.
  - intros [res uri] w1 b1 w2 Hres H. cbn in Hres. subst res.
    destruct uri; injection H as <- _; reflexivity.
Qed.

Lemma copyMultipleFilePath_steady (self : NfdDialogMonitor) (msg : DBusMessage) :
  steady fst (Monitor.copyMultipleFilePath self msg).
Proof.
  unfold Monitor.copyMultipleFilePath.
  intros w1 r w3 H Hacc.
  apply bind_inv in H. destruct H as ([res uri_iter] & w2 & Hread & H).
  destruct (ReadResponseUris_steady _ _ _ _ Hread Hacc) as [Hacc2 Herr2].
  destruct res; cbn [nfdresult_eqb negb] in H.
  - injection H as <- <-. split; [exact Hacc2|]. intro X. contradiction X.
    reflexivity.
  - assert (Hrest :
      steady fst
        (numPaths <- PathList.NFD_PathSet_GetCount msg ;;
         let out := PathList.mkOut [] 256 in
         '(res, out) <-
           PathList.NFD_PathSet_GetPathWin
             (if numPaths =? 1 then PathList.FullPath else PathList.Dirname)
             msg 0 out ;;
         if negb (nfdresult_eqb res NFD_OKAY) then ret (res, self)
         else
           '(res, out) <- PathList.basenames_loop (numPaths - 1) msg 1 out ;;
           if negb (nfdresult_eqb res NFD_OKAY) then ret (NFD_ERROR, self)
           else
             out <- lift (PathList.terminate_list out) ;;
             ret (NFD_OKAY,
                  Monitor.set_out (Some (PathList.written out))
                                  (length (PathList.written out)) self))%M).
    { apply steady_then.
      - apply (NFD_PathSet_GetCount_steady msg w1 w2 uri_iter Hread).
      - intro numPaths.
        apply (packing_steady msg w1 w2 uri_iter Hread NfdDialogMonitor
                 (fun res => (res, self)) (fun _ => (NFD_ERROR, self))
                 (fun out => Monitor.set_out (Some (PathList.written out))
                                             (length (PathList.written out)) self));
          reflexivity. }
    destruct (Hrest _ _ _ H Hacc2) as [Hacc3 Herr3].
    split; [exact Hacc3|]. intro Hr. rewrite (Herr3 Hr). apply Herr2. discriminate.
  - injection H as <- <-. split; [exact Hacc2|]. intros _. apply Herr2.
    discriminate.
Qed.

Lemma wait_for_response_steady_message :
  steady (fun r : nfdresult_t * option DBusMessage =>
            match snd r with Some _ => NFD_OKAY | None => NFD_ERROR end)
         Driver.wait_for_response.
Proof.
  unfold Driver.wait_for_response.
  do 2 (apply steady_then; [keep_leaf | intro]).
  match goal with
  | |- context [Driver.wait_loop ?q ?later] =>
      destruct (Driver.wait_loop q later) as [[found q'] later']
  end.
  apply steady_then; [apply steady_modify; intro; reflexivity|]. intros _.
  apply steady_then; [apply steady_modify; intro; reflexivity|]. intros _.
  destruct found; keep_leaf.
Qed.

Lemma monitorUntilReturn_steady (Multiple : bool) (self : NfdDialogMonitor) :
  steady resultCode (Monitor.monitorUntilReturn Multiple self).
Proof.
  unfold Monitor.monitorUntilReturn.
  apply steady_bind
    with (cm := fun r : nfdresult_t * option DBusMessage =>
                  match snd r with Some _ => NFD_OKAY | None => NFD_ERROR end).
  - apply wait_for_response_steady_message.
  - intros [res [msg|]]; [|keep_leaf].
    apply steady_bind with (cm := fst).
    + destruct Multiple;
        [apply copyMultipleFilePath_steady | apply copySingleFilepath_steady].
    + intros [res' self']. keep_leaf.
    + intros [res' self'] w1 b1 w2 Hres H. cbn in Hres. subst res'.
      injection H as <- _. reflexivity.
  - intros [res [msg|]] w1 b1 w2 Hres H; [discriminate Hres|].
    injection H as <- _. reflexivity.
Qed.

End PackingKeepsSlot.

(** X9.  Every dialog function that returns [NFD_ERROR] leaves a message
    in the error slot: [NFD_GetError] is not null after it.  This holds
    for the seven dialog functions, synchronous or asynchronous, and for
    the worker of a monitor, whose [NFD_ERROR] result
    [NFD_GetAsyncOpResult] hands out later; and no dialog function
    clears a message that was there before the call. *)
Theorem error_result_sets_error_slot :
  (forall params, error_is_reported (NFD_OpenDialogWin params))
  /\ (forall params, error_is_reported (NFD_OpenDialogMultipleWin params))
  /\ (forall params, error_is_reported (NFD_SaveDialogWin params))
  /\ (forall filterList filterCount defaultPath,
        error_is_reported (NFD_OpenDialogN filterList filterCount defaultPath))
  /\ (forall filterList filterCount defaultPath,
        error_is_reported (NFD_OpenDialogMultipleN filterList filterCount defaultPath))
  /\ (forall filterList filterCount defaultPath defaultName,
        error_is_reported
          (NFD_SaveDialogN filterList filterCount defaultPath defaultName))
  /\ (forall defaultPath, error_is_reported (NFD_PickFolderN defaultPath))
  /\ (forall Multiple self w monitor w',
        Monitor.monitorUntilReturn Multiple self w = Def (monitor, w') ->
        resultCode monitor = NFD_ERROR -> err_ptr w' <> None).
Proof.
  assert (Hloud : forall (A : Type) (call : M (nfdresult_t * A)),
            loud (fun r => is_error (fst r)) call -> error_is_reported call).
  { intros A call H w res out w' Hrun ->.
    apply (proj2 (H _ _ _ Hrun)). reflexivity. }
  repeat split.
  - intro. apply Hloud, NFD_OpenDialogWin_loud.
  - intro. apply Hloud, NFD_OpenDialogMultipleWin_loud.
  - intro. apply Hloud, NFD_SaveDialogWin_loud.
  - intros. apply Hloud, single_path_tail_loud, NFD_DBus_OpenFile_loud.
  - intros. apply Hloud, NFD_OpenDialogMultipleN_loud.
  - intros. apply Hloud, single_path_tail_loud, NFD_DBus_SaveFile_loud.
  - intros. apply Hloud, single_path_tail_loud, NFD_DBus_OpenFile_loud.
  - intros Multiple self w monitor w' Hrun Hres.
    apply (proj2 (monitorUntilReturn_loud Multiple self _ _ _ Hrun)).
    rewrite Hres. reflexivity.
Qed.

Lemma error_result_sets_error_slot_witness :
  exists out w',
    NFD_OpenDialogWin sample_params
      (dialog_world [None; None] [[response_signal [DUInt32 2; DArray "{sv}" []]]])
    = Def ((NFD_ERROR, out), w')
    /\ err_ptr w' <> None.
Proof.
  eexists. eexists. split.
  - vm_compute. reflexivity.
  - apply (proj1 error_result_sets_error_slot sample_params
             (dialog_world [None; None]
                [[response_signal [DUInt32 2; DArray "{sv}" []]]])
             NFD_ERROR sample_params).
    + vm_compute. reflexivity.
    + reflexivity.
Defined.

(** X10.  On a bus that accepts every match rule, a dialog function that
    returns [NFD_OKAY] or [NFD_CANCEL] leaves the error slot exactly as
    it was before the call; so does the worker of a monitor that ends
    with one of these results.  (When the bus rejects the rule of a
    changed request path the slot can change under [NFD_CANCEL] and
    [NFD_OKAY].) *)
Theorem result_without_error_keeps_error_slot :
  (forall params, slot_kept_unless_error (NFD_OpenDialogWin params))
  /\ (forall params, slot_kept_unless_error (NFD_OpenDialogMultipleWin params))
  /\ (forall params, slot_kept_unless_error (NFD_SaveDialogWin params))
  /\ (forall filterList filterCount defaultPath,
        slot_kept_unless_error (NFD_OpenDialogN filterList filterCount defaultPath))
  /\ (forall filterList filterCount defaultPath,
        slot_kept_unless_error
          (NFD_OpenDialogMultipleN filterList filterCount defaultPath))
  /\ (forall filterList filterCount defaultPath defaultName,
        slot_kept_unless_error
          (NFD_SaveDialogN filterList filterCount defaultPath defaultName))
  /\ (forall defaultPath, slot_kept_unless_error (NFD_PickFolderN defaultPath))
  /\ (forall Multiple self w monitor w',
        accepts w ->
        Monitor.monitorUntilReturn Multiple self w = Def (monitor, w') ->
        resultCode monitor <> NFD_ERROR -> err_ptr w' = err_ptr w).
Proof.
  assert (Hkeep : forall (A : Type) (call : M (nfdresult_t * A)),
            steady fst call -> slot_kept_unless_error call).
  { intros A call H w res out w' Hacc Hrun Hres.
    apply (proj2 (H _ _ _ Hrun Hacc)). exact Hres. }
  repeat split.
  - intro. apply Hkeep, NFD_OpenDialogWin_steady.
  - intro. apply Hkeep, NFD_OpenDialogMultipleWin_steady.
  - intro. apply Hkeep, NFD_SaveDialogWin_steady.
  - intros. apply Hkeep, NFD_OpenDialogN_steady.
  - intros. apply Hkeep, NFD_OpenDialogMultipleN_steady.
  - intros. apply Hkeep, NFD_SaveDialogN_steady.
  - intros. apply Hkeep, NFD_PickFolderN_steady.
  - intros Multiple self w monitor w' Hacc Hrun Hres.
    apply (proj2 (monitorUntilReturn_steady Multiple self _ _ _ Hrun Hacc)).
    exact Hres.
Qed.

Lemma result_without_error_keeps_error_slot_witness :
  exists out w',
    NFD_OpenDialogMultipleWin sample_params
      (set_err_ptr (Some "an earlier error"%string) three_files_world)
    = Def ((NFD_OKAY, out), w')
    /\ err_ptr w' = Some "an earlier error"%string.
Proof.
  eexists. eexists. split.
  - vm_compute. reflexivity.
  - eapply (proj1 (proj2 result_without_error_keeps_error_slot) sample_params
             (set_err_ptr (Some "an earlier error"%string) three_files_world)
             NFD_OKAY).
    + repeat constructor.
    + vm_compute. reflexivity.
    + discriminate.
Defined.
(* ----------------------------------------------------------------- *)
(** *** The path set *)

Section PathSetFacts.

Import Iter PathList.

Lemma advance_past_end (l : DBusMessageIter) :
  forall index, length l <= index -> 0 < index -> advance index l = None.
Proof.
  induction l as [|x l IH]; intros [|index] Hlen Hpos; try lia.
  - reflexivity.
  - cbn [advance next]. destruct l as [|y l]; [reflexivity|].
    cbn [negb]. apply IH; simpl in *; lia.
Qed.

Lemma GetPathN_found (msg : DBusMessage) (before after : list DBusValue)
    (uris : list (list char)) (index : nat) (uri path : list char) (w : world) :
  msg_args msg = response_body 0 before uris after ->
  Forall other_entry before -> Forall other_entry after ->
  nth_error uris index = Some uri ->
  decodes_to uri path ->
  PathSet.NFD_PathSet_GetPathN msg index w
  = Def ((NFD_OKAY, Some (c_string path)), w).
Proof.
  intros Hargs Hb Ha Hnth Hdec. unfold PathSet.NFD_PathSet_GetPathN.
  rewrite (bind_Def _ _ _ _ _
             (ReadResponseUrisUnchecked_ok msg before after uris w Hargs Hb Ha)).
  destruct (advance_ok (map DString uris) index (DString uri)) as [rest Hadv].
  { rewrite nth_error_map, Hnth. reflexivity. }
  rewrite Hadv. cbn [get_arg_type type_of arg_type_eqb negb get_string].
  unfold bind at 1. unfold lift. unfold bind at 1. rewrite (Hdec w).
  reflexivity.
Qed.

Lemma EnumNextN_found (uri path : list char) (rest : DBusMessageIter) (w : world) :
  decodes_to uri path ->
  PathSet.NFD_PathSet_EnumNextN (DString uri :: rest) w
  = Def ((NFD_OKAY, rest, Some (Some (c_string path))), w).
Proof.
  intro Hdec. unfold PathSet.NFD_PathSet_EnumNextN.
  cbn [get_arg_type type_of arg_type_eqb negb get_string].
  unfold bind at 1. unfold lift. unfold bind at 1. rewrite (Hdec w).
  cbn [nfdresult_eqb negb next]. reflexivity.
Qed.

Lemma enumerate_all (files : list (list char * list char)) (w : world) :
  Forall (fun f => decodes_to (fst f) (snd f)) files ->
  enumerate (length files + 1) (map DString (map fst files)) w
  = Def ((map (fun f => Some (Some (c_string (snd f)))) files ++ [Some None],
          NFD_OKAY), w).
Proof.
  induction 1 as [|f files Hf _ IH].
  - reflexivity.
  - cbn [length Nat.add map enumerate].
    rewrite (bind_Def _ _ _ _ _ (EnumNextN_found _ _ _ w Hf)).
    cbn [nfdresult_eqb negb]. rewrite (bind_Def _ _ _ _ _ IH). reflexivity.
Qed.

End PathSetFacts.

(** X11.  The path set that [NFD_OpenDialogMultipleN] returns is read by
    index: [NFD_PathSet_GetCount] gives the number of URIs of the
    response, [NFD_PathSet_GetPathN] at an index below it returns
    [NFD_OKAY] with the decoded path of the URI at that index and leaves
    the error slot alone, and at an index that is not below it returns
    [NFD_ERROR] without a path, with the error "Index out of bounds."
    (at index 0 of an empty set: "... URI sub iter is not a string."). *)
Theorem PathSet_GetPathN_by_index (msg : DBusMessage)
    (before after : list DBusValue) (files : list (list char * list char))
    (w : world) :
  msg_args msg = response_body 0 before (map fst files) after ->
  Forall other_entry before -> Forall other_entry after ->
  Forall (fun f => decodes_to (fst f) (snd f)) files ->
  PathList.NFD_PathSet_GetCount msg w = Def (length files, w)
  /\ (forall index f,
        nth_error files index = Some f ->
        PathSet.NFD_PathSet_GetPathN msg index w
        = Def ((NFD_OKAY, Some (c_string (snd f))), w))
  /\ (forall index,
        length files <= index -> 0 < index ->
        PathSet.NFD_PathSet_GetPathN msg index w
        = Def ((NFD_ERROR, None),
               set_err_ptr (Some "Index out of bounds."%string) w))
  /\ (files = [] ->
      PathSet.NFD_PathSet_GetPathN msg 0 w
      = Def ((NFD_ERROR, None),
             set_err_ptr
               (Some "D-Bus response signal URI sub iter is not a string."%string)
               w)).
Proof.
  intros Hargs Hb Ha Hdec. split; [|split; [|split]].
  - rewrite (NFD_PathSet_GetCount_ok msg before after _ w Hargs Hb Ha).
    rewrite length_map. reflexivity.
  - intros index f Hnth.
    apply (GetPathN_found msg before after (map fst files) index (fst f));
      try assumption.
    + rewrite nth_error_map, Hnth. reflexivity.
    + rewrite Forall_forall in Hdec. apply Hdec.
      apply nth_error_In with index. exact Hnth.
  - intros index Hlen Hpos. unfold PathSet.NFD_PathSet_GetPathN.
    rewrite (bind_Def _ _ _ _ _
               (ReadResponseUrisUnchecked_ok msg before after _ w Hargs Hb Ha)).
    rewrite advance_past_end; [reflexivity | | exact Hpos].
    rewrite !length_map. exact Hlen.
  - intros ->. unfold PathSet.NFD_PathSet_GetPathN.
    rewrite (bind_Def _ _ _ _ _
               (ReadResponseUrisUnchecked_ok msg before after _ w Hargs Hb Ha)).
    reflexivity.
Qed.

Lemma PathSet_GetPathN_by_index_witness :
  PathSet.NFD_PathSet_GetPathN
    (response_signal
       (results_with_uris [lit "file:///home/u/a.c"; lit "file:///home/u/b%20c.h"]))
    1 quiet_world
  = Def ((NFD_OKAY, Some (c_string (lit "/home/u/b c.h"))), quiet_world).
Proof.
  refine (proj1 (proj2
    (PathSet_GetPathN_by_index
       (response_signal
          (results_with_uris [lit "file:///home/u/a.c"; lit "file:///home/u/b%20c.h"]))
       [] []
       [(lit "file:///home/u/a.c", lit "/home/u/a.c");
        (lit "file:///home/u/b%20c.h", lit "/home/u/b c.h")]
       quiet_world eq_refl _ _ _))
    1 (lit "file:///home/u/b%20c.h", lit "/home/u/b c.h") eq_refl).
  - constructor.
  - constructor.
  - repeat constructor; intro w; reflexivity.
Defined.

(** X12.  The enumerator of a path set yields every path once, in the
    order of the response, and then the null pointer: after
    [NFD_PathSet_GetEnum], as many calls of [NFD_PathSet_EnumNextN] as
    there are URIs return [NFD_OKAY] with the decoded paths, and the call
    after them returns [NFD_OKAY] with a null path.  A call on a URI that
    does not decode returns the code of the decoder and leaves the
    enumerator on that URI, so that the next call fails in the same
    way. *)
Theorem PathSet_enumeration (msg : DBusMessage)
    (before after : list DBusValue) (files : list (list char * list char))
    (w : world) :
  msg_args msg = response_body 0 before (map fst files) after ->
  Forall other_entry before -> Forall other_entry after ->
  Forall (fun f => decodes_to (fst f) (snd f)) files ->
  exists enumerator,
    PathSet.NFD_PathSet_GetEnum msg w = Def ((NFD_OKAY, Some enumerator), w)
    /\ enumerate (length files + 1) enumerator w
       = Def ((map (fun f => Some (Some (c_string (snd f)))) files ++ [Some None],
               NFD_OKAY), w)
    /\ forall uri rest res w1 w2,
         UriCodec.AllocAndCopyFilePath (c_string uri) w1 = Def ((res, None), w2) ->
         res <> NFD_OKAY ->
         PathSet.NFD_PathSet_EnumNextN (DString uri :: rest) w1
         = Def ((res, DString uri :: rest, None), w2).
Proof.
  intros Hargs Hb Ha Hdec. exists (map DString (map fst files)).
  split; [|split].
  - unfold PathSet.NFD_PathSet_GetEnum.
    rewrite (bind_Def _ _ _ _ _
               (ReadResponseUrisUnchecked_ok msg before after _ w Hargs Hb Ha)).
    reflexivity.
  - apply enumerate_all. exact Hdec.
  - intros uri rest res w1 w2 Hrun Hres. unfold PathSet.NFD_PathSet_EnumNextN.
    cbn [Iter.get_arg_type Iter.type_of Iter.arg_type_eqb negb Iter.get_string].
    unfold bind at 1. unfold lift. unfold bind at 1. rewrite Hrun.
    destruct res; [reflexivity | contradiction Hres; reflexivity | reflexivity].
Qed.

Lemma PathSet_enumeration_witness :
  exists enumerator,
    PathSet.NFD_PathSet_GetEnum
      (response_signal
         (results_with_uris [lit "file:///home/u/a.c"; lit "file:///home/u/b%20c.h"]))
      quiet_world
    = Def ((NFD_OKAY, Some enumerator), quiet_world)
    /\ enumerate 3 enumerator quiet_world
       = Def (([Some (Some (c_string (lit "/home/u/a.c")));
                Some (Some (c_string (lit "/home/u/b c.h")));
                Some None], NFD_OKAY), quiet_world)
    /\ forall uri rest res w1 w2,
         UriCodec.AllocAndCopyFilePath (c_string uri) w1 = Def ((res, None), w2) ->
         res <> NFD_OKAY ->
         PathSet.NFD_PathSet_EnumNextN (DString uri :: rest) w1
         = Def ((res, DString uri :: rest, None), w2).
Proof.
  apply (PathSet_enumeration
           (response_signal
              (results_with_uris
                 [lit "file:///home/u/a.c"; lit "file:///home/u/b%20c.h"]))
           [] []
           [(lit "file:///home/u/a.c", lit "/home/u/a.c");
            (lit "file:///home/u/b%20c.h", lit "/home/u/b c.h")]
           quiet_world eq_refl).
  - constructor.
  - constructor.
  - repeat constructor; intro w; reflexivity.
Defined.
(* ----------------------------------------------------------------- *)
(** *** The list of a multi-select *)

Section MultiSelectList.

Import Iter PathList.

Lemma bind_Undef {A B : Type} (c : M A) (k : A -> M B) (w : world) (f : fault) :
  c w = Undef f -> bind c k w = Undef f.
Proof. intro H. unfold bind. rewrite H. reflexivity. Qed.

(** The directory fits the 256 bytes, the directory and the file name
    together do not: the copy runs over the end of the list. *)
Lemma copyFileInfo_dirname_overrun (uri : list char) (p : list char * list char)
    (w : world) :
  decodes_to uri (full_path p) -> regular_path p ->
  length (fst p) + 1 <= 256 ->
  256 < length (full_path p) + 1 ->
  copyFileInfo Dirname (c_string uri) (mkOut [] 256) w = Undef WriteOutOfBounds.
Proof.
  intros Hdec Hreg Hdir Hfull.
  destruct (decodes_to_inv uri _ Hdec) as [fileUri [e [Hskip [Hlen Hdecode]]]].
  unfold copyFileInfo.
  rewrite (bind_Def _ _ _ _ _ (lift_Def _ _ w Hskip)).
  rewrite (bind_Def _ _ _ _ _ (lift_Def _ _ w Hlen)).
  rewrite (bind_Def _ _ _ _ _ (lift_Def _ _ w Hdecode)).
  rewrite (bind_Def _ _ w w (full_path p ++ [NUL]))
    by (apply lift_Def, store_fits; rewrite length_app; simpl; lia).
  rewrite (bind_Def _ _ _ _ _ (lift_Def _ _ w (dirname_regular p Hreg))).
  cbn [skipn].
  rewrite (bind_Def _ _ w w (length (fst p)))
    by (apply lift_Def, strlen_app, Hreg).
  assert (Hexp : expandOnDemand (mkOut [] 256) (length (fst p) + 1)
                 = Def (mkOut [] 256)).
  { unfold expandOnDemand. cbn [capacity written length grow].
    replace (256 - 0 <? length (fst p) + 1) with false
      by (symmetry; apply Nat.ltb_ge; lia).
    reflexivity. }
  rewrite (bind_Def _ _ _ _ _ (lift_Def _ _ w Hexp)).
  apply bind_Undef. unfold lift, append. cbn [written capacity length Nat.add].
  replace (length (fst p ++ NUL :: snd p ++ [NUL]) <=? 256) with false;
    [reflexivity|].
  symmetry. apply Nat.leb_gt. unfold full_path in Hfull.
  rewrite length_app in *. cbn [length] in *. rewrite length_app. cbn [length]. lia.
Qed.

Lemma packed_list_strings (first : list char * list char)
    (others : list (list char * list char)) :
  packed_list first others
  = flat_map (fun s => s ++ [NUL]) (fst first :: snd first :: map snd others)
    ++ [NUL].
Proof.
  assert (Hnames : flat_map (fun p : list char * list char => snd p ++ [NUL]) others
                   = flat_map (fun s => s ++ [NUL]) (map snd others)).
  { induction others as [|p others IH]; [reflexivity|].
    cbn [flat_map map]. rewrite IH. reflexivity. }
  unfold packed_list. rewrite Hnames. cbn [flat_map].
  repeat (rewrite <- app_assoc; cbn [app]). reflexivity.
Qed.

Lemma print_paths_loop_strings (strings : list (list char)) (rest : list char) :
  Forall (fun s => s <> [] /\ no_nul s) strings ->
  forall fuel,
    length strings < fuel ->
    print_paths_loop fuel (flat_map (fun s => s ++ [NUL]) strings ++ NUL :: rest)
    = Def strings.
Proof.
  induction 1 as [|s strings [Hne Hnn] _ IH]; intros fuel Hfuel.
  - destruct fuel; [simpl in Hfuel; lia|]. reflexivity.
  - destruct fuel as [|fuel]; [simpl in Hfuel; lia|].
    cbn [flat_map print_paths_loop]. rewrite <- !app_assoc. cbn [app].
    destruct s as [|c s]; [congruence|].
    apply no_nul_cons in Hnn. destruct Hnn as [Hc Hs].
    cbn [app deref ub_bind]. rewrite (is_nul_false c Hc).
    change (c :: s ++ NUL :: flat_map (fun s0 => s0 ++ [NUL]) strings ++ NUL :: rest)
      with ((c :: s) ++ NUL :: flat_map (fun s0 => s0 ++ [NUL]) strings
            ++ NUL :: rest).
    rewrite string_at_app by (apply no_nul_cons; split; assumption).
    cbn [ub_bind].
    rewrite strlen_app by (apply no_nul_cons; split; assumption).
    cbn [ub_bind].
    replace (skipn (length (c :: s) + 1)
               ((c :: s) ++ NUL :: flat_map (fun s0 => s0 ++ [NUL]) strings
                ++ NUL :: rest))
      with (flat_map (fun s0 => s0 ++ [NUL]) strings ++ NUL :: rest).
    + rewrite IH by (simpl in Hfuel; lia). reflexivity.
    + replace (length (c :: s) + 1) with (length ((c :: s) ++ [NUL]))
        by (rewrite length_app; reflexivity).
      change ((c :: s) ++ NUL :: flat_map (fun s0 => s0 ++ [NUL]) strings
              ++ NUL :: rest)
        with ((c :: s) ++ [NUL] ++ flat_map (fun s0 => s0 ++ [NUL]) strings
              ++ NUL :: rest).
      rewrite app_assoc, skipn_app, skipn_all, Nat.sub_diag. reflexivity.
Qed.

Lemma print_paths_strings (strings : list (list char)) :
  Forall (fun s => s <> [] /\ no_nul s) strings ->
  print_paths (flat_map (fun s => s ++ [NUL]) strings ++ [NUL]) = Def strings.
Proof.
  intro H. unfold print_paths. apply print_paths_loop_strings; [exact H|].
  rewrite length_app. cbn [length].
  assert (length strings <= length (flat_map (fun s => s ++ [NUL]) strings)).
  { clear H. induction strings as [|s strings IH]; [simpl; lia|].
    cbn [flat_map length]. rewrite !length_app. cbn [length]. lia. }
  lia.
Qed.

End MultiSelectList.
Section MultiSelectRun.

Import Iter PathList.

Lemma NFD_OpenDialogMultipleWin_after_response (params : DialogParams)
    (w w1 : world) (msg : DBusMessage) (before after : list DBusValue)
    (uris : list (list char)) :
  outAsyncOpHandle params = None ->
  Driver.NFD_DBus_OpenFileWin true false params w
  = Def ((NFD_OKAY, Some msg), w1) ->
  msg_args msg = response_body 0 before uris after ->
  Forall other_entry before -> Forall other_entry after ->
  NFD_OpenDialogMultipleWin params w
  = ('(res, out) <-
       NFD_PathSet_GetPathWin
         (if length uris =? 1 then FullPath else Dirname) msg 0 (mkOut [] 256) ;;
     if negb (nfdresult_eqb res NFD_OKAY)
     then ret (NFD_ERROR, set_outPath None (outPathSize params) params)
     else
       '(res, out) <- basenames_loop (length uris - 1) msg 1 out ;;
       if negb (nfdresult_eqb res NFD_OKAY)
       then ret (NFD_ERROR, set_outPath None (outPathSize params) params)
       else
         out <- lift (terminate_list out) ;;
         ret (NFD_OKAY,
              set_outPath (Some (written out)) (length (written out)) params))%M w1.
Proof.
  intros Hsync Hdriver Hargs Hb Ha.
  unfold NFD_OpenDialogMultipleWin. rewrite Hsync.
  rewrite (bind_Def _ _ _ _ _ Hdriver).
  rewrite (bind_Def _ _ _ _ _
             (ReadResponseUris_ok msg before after uris w1 Hargs Hb Ha)).
  cbn [nfdresult_eqb negb].
  rewrite (bind_Def _ _ _ _ _
             (NFD_PathSet_GetCount_ok msg before after uris w1 Hargs Hb Ha)).
  reflexivity.
Qed.

Lemma two_or_more (A B : Type) (uris : list A) (others : list B) (uri : A) :
  others <> [] -> length uris = length others ->
  (length (uri :: uris) =? 1) = false.
Proof.
  intros Hne Hlen. destruct uris; [destruct others; [congruence | discriminate Hlen]|].
  reflexivity.
Qed.

(** The run of the packing on two or more regular paths of which the
    first fits the first allocation. *)
Lemma NFD_OpenDialogMultipleWin_packs (params : DialogParams)
    (w w1 : world) (msg : DBusMessage) (before after : list DBusValue)
    (uris : list (list char)) (first : list char * list char)
    (others : list (list char * list char)) :
  outAsyncOpHandle params = None ->
  Driver.NFD_DBus_OpenFileWin true false params w
  = Def ((NFD_OKAY, Some msg), w1) ->
  msg_args msg = response_body 0 before uris after ->
  Forall other_entry before -> Forall other_entry after ->
  others <> [] ->
  Forall2 (fun uri p => decodes_to uri (full_path p)) uris (first :: others) ->
  Forall regular_path (first :: others) ->
  length (full_path first) + 1 <= 256 ->
  (N.of_nat (length (packed_list first others)) <= SIZE_LIMIT)%N ->
  NFD_OpenDialogMultipleWin params w
  = Def ((NFD_OKAY,
          set_outPath (Some (packed_list first others))
                      (length (packed_list first others)) params),
         w1).
Proof.
  intros Hsync Hdriver Hargs Hb Ha Hne Hdec Hreg Hfit Hlim.
  rewrite (NFD_OpenDialogMultipleWin_after_response
             params w w1 msg before after uris Hsync Hdriver Hargs Hb Ha).
  assert (Hstart : out_ok (mkOut [] 256)).
  { unfold out_ok, INT_MAX. cbn [capacity written length]. repeat split; lia. }
  inversion Hdec as [|uri ? us ? Hp Hrest]; subst.
  inversion Hreg as [|? ? Hregp Hregs]; subst.
  assert (Hlen : length us = length others)
    by (eapply Forall2_length; eassumption).
  rewrite (two_or_more _ _ us others uri Hne Hlen).
  unfold packed_list in Hlim.
  repeat (rewrite length_app in Hlim || cbn [length] in Hlim).
  destruct (copyFileInfo_dirname uri first (mkOut [] 256) w1 Hp Hregp Hstart)
    as [out1 [Hcopy [Hw1 Hok1]]].
  { cbn [written capacity length].
    unfold full_path in Hfit. rewrite length_app in Hfit.
    cbn [length] in Hfit. lia. }
  { cbn [capacity]. unfold SIZE_LIMIT. lia. }
  rewrite (bind_Def _ _ w1 w1 (NFD_OKAY, out1)).
  2:{ rewrite (NFD_PathSet_GetPathWin_ok _ msg before after (uri :: us) 0 uri)
        by (assumption || reflexivity).
      exact Hcopy. }
  cbn [nfdresult_eqb negb length Nat.sub]. rewrite Nat.sub_0_r, Hlen.
  destruct (basenames_loop_ok msg before after (uri :: us) w1 Hargs Hb Ha
              others 1 out1) as [out2 [Hloop [Hw2 Hok2]]];
    try assumption.
  { rewrite Hw1. cbn [written app]. rewrite length_app.
    cbn [length]. rewrite length_app. cbn [length]. lia. }
  rewrite (bind_Def _ _ _ _ _ Hloop). cbn [nfdresult_eqb negb].
  destruct (terminate_list_ok out2 Hok2) as [out3 [Hterm Hw3]].
  rewrite (bind_Def _ _ _ _ _ (lift_Def _ _ w1 Hterm)).
  rewrite Hw3, Hw2, Hw1. cbn [written app].
  unfold ret, packed_list.
  repeat (rewrite <- app_assoc; cbn [app]). reflexivity.
Qed.

End MultiSelectRun.

(** X13.  The list of a multi-select can be written past its allocation.
    With two or more files selected, the first path is copied from the
    start of its directory to the end of its file name, after the list
    was grown for the directory only: when the directory and its NUL fit
    the first 256 bytes and the whole first path with its NUL does not,
    [NFD_OpenDialogMultipleWin] writes beyond the 256 bytes it
    allocated, and so does the worker of a multi-select monitor. *)
Theorem long_first_path_overruns_list (params : DialogParams)
    (w w1 : world) (msg : DBusMessage) (before after : list DBusValue)
    (uri : list char) (uris : list (list char)) (first : list char * list char)
    (self : NfdDialogMonitor) :
  outAsyncOpHandle params = None ->
  Driver.NFD_DBus_OpenFileWin true false params w
  = Def ((NFD_OKAY, Some msg), w1) ->
  msg_args msg = response_body 0 before (uri :: uris) after ->
  Forall other_entry before -> Forall other_entry after ->
  uris <> [] ->
  decodes_to uri (full_path first) -> regular_path first ->
  length (fst first) + 1 <= 256 ->
  256 < length (full_path first) + 1 ->
  NFD_OpenDialogMultipleWin params w = Undef WriteOutOfBounds
  /\ Monitor.copyMultipleFilePath self msg w1 = Undef WriteOutOfBounds.
Proof.
  intros Hsync Hdriver Hargs Hb Ha Hne Hdec Hreg Hdir Hfull.
  assert (Hmany : (length (uri :: uris) =? 1) = false)
    by (destruct uris; [congruence | reflexivity]).
  assert (Hcopy :
    PathList.NFD_PathSet_GetPathWin PathList.Dirname msg 0 (PathList.mkOut [] 256) w1
    = Undef WriteOutOfBounds).
  { rewrite (NFD_PathSet_GetPathWin_ok _ msg before after (uri :: uris) 0 uri)
      by (assumption || reflexivity).
    apply (copyFileInfo_dirname_overrun uri first); assumption. }
  split.
  - rewrite (NFD_OpenDialogMultipleWin_after_response
               params w w1 msg before after (uri :: uris) Hsync Hdriver Hargs Hb Ha).
    rewrite Hmany. apply bind_Undef. exact Hcopy.
  - unfold Monitor.copyMultipleFilePath.
    rewrite (bind_Def _ _ _ _ _
               (ReadResponseUris_ok msg before after (uri :: uris) w1 Hargs Hb Ha)).
    cbn [nfdresult_eqb negb].
    rewrite (bind_Def _ _ _ _ _
               (NFD_PathSet_GetCount_ok msg before after (uri :: uris) w1
                  Hargs Hb Ha)).
    cbv zeta. rewrite Hmany. apply bind_Undef. exact Hcopy.
Qed.
Section CheckedStrings.

Lemma no_nul_check (s : list char) :
  forallb (fun c => negb (is_nul c)) s = true -> no_nul s.
Proof.
  intro H. unfold no_nul. intro Hin.
  rewrite forallb_forall in H. specialize (H NUL Hin). discriminate H.
Qed.

Lemma not_in_check (c : char) (s : list char) :
  forallb (fun d => negb (Ascii.eqb d c)) s = true -> ~ In c s.
Proof.
  intros H Hin. rewrite forallb_forall in H. specialize (H c Hin).
  rewrite Ascii.eqb_refl in H. discriminate H.
Qed.

End CheckedStrings.

Lemma long_first_path_overruns_list_witness :
  NFD_OpenDialogMultipleWin sample_params
    (selection_world [full_path (long_directory, long_file_name);
                      lit "/home/u/b.c"])
  = Undef WriteOutOfBounds.
Proof.
  eapply proj1.
  eapply (long_first_path_overruns_list sample_params
            (selection_world [full_path (long_directory, long_file_name);
                              lit "/home/u/b.c"])
            _ _ [] []
            (UriCodec.FILE_URI_PREFIX ++ full_path (long_directory, long_file_name))
            [UriCodec.FILE_URI_PREFIX ++ lit "/home/u/b.c"]
            (long_directory, long_file_name) Monitor.fresh).
  - reflexivity.
  - vm_compute. reflexivity.
  - reflexivity.
  - constructor.
  - constructor.
  - discriminate.
  - apply decodes_to_plain.
    + apply no_nul_check. vm_compute. reflexivity.
    + apply (not_in_check "%"). vm_compute. reflexivity.
  - repeat split.
    + discriminate.
    + vm_compute. discriminate.
    + apply no_nul_check. vm_compute. reflexivity.
    + discriminate.
    + apply (not_in_check "/"). vm_compute. reflexivity.
    + apply no_nul_check. vm_compute. reflexivity.
  - vm_compute. lia.
  - vm_compute. lia.
Defined.

(** X14.  The list of a multi-select reads back.  For two or more
    selected paths "dir/name" of which the first fits the first 256
    bytes, the loop with which test/test_opendialogmultiple_win.c prints
    the list that [NFD_OpenDialogMultipleWin] returned prints the
    directory of the first path and then the file name of every path, in
    the order of the response, and stops at the second NUL within the
    [outPathSize] bytes. *)
Theorem multi_select_list_reads_back (params : DialogParams)
    (w w1 : world) (msg : DBusMessage) (before after : list DBusValue)
    (uris : list (list char)) (first : list char * list char)
    (others : list (list char * list char)) :
  outAsyncOpHandle params = None ->
  Driver.NFD_DBus_OpenFileWin true false params w
  = Def ((NFD_OKAY, Some msg), w1) ->
  msg_args msg = response_body 0 before uris after ->
  Forall other_entry before -> Forall other_entry after ->
  others <> [] ->
  Forall2 (fun uri p => decodes_to uri (full_path p)) uris (first :: others) ->
  Forall regular_path (first :: others) ->
  length (full_path first) + 1 <= 256 ->
  (N.of_nat (length (packed_list first others)) <= SIZE_LIMIT)%N ->
  exists list,
    NFD_OpenDialogMultipleWin params w
    = Def ((NFD_OKAY, set_outPath (Some list) (length list) params), w1)
    /\ print_paths list = Def (fst first :: snd first :: map snd others).
Proof.
  intros Hsync Hdriver Hargs Hb Ha Hne Hdec Hreg Hfit Hlim.
  exists (packed_list first others). split.
  - apply (NFD_OpenDialogMultipleWin_packs params w w1 msg before after uris);
      assumption.
  - rewrite packed_list_strings. apply print_paths_strings.
    inversion Hreg as [|? ? Hfirst Hothers]; subst.
    constructor; [|constructor].
    + destruct Hfirst as (H1 & _ & H2 & _). split; assumption.
    + destruct Hfirst as (_ & _ & _ & H1 & _ & H2). split; assumption.
    + apply Forall_map. apply Forall_impl with (2 := Hothers).
      intros p (_ & _ & _ & H1 & _ & H2). split; assumption.
Qed.

Lemma multi_select_list_reads_back_witness :
  exists list,
    NFD_OpenDialogMultipleWin sample_params
      (selection_world [lit "/home/u/a.c"; lit "/home/u/sub/b.c"; lit "/tmp/c.h"])
    = Def ((NFD_OKAY, set_outPath (Some list) (length list) sample_params),
           world_of
             (Driver.NFD_DBus_OpenFileWin true false sample_params
                (selection_world
                   [lit "/home/u/a.c"; lit "/home/u/sub/b.c"; lit "/tmp/c.h"])))
    /\ print_paths list
       = Def [lit "/home/u"; lit "a.c"; lit "b.c"; lit "c.h"].
Proof.
  eapply (multi_select_list_reads_back sample_params
            (selection_world [lit "/home/u/a.c"; lit "/home/u/sub/b.c"; lit "/tmp/c.h"])
            _ _ [] []
            (map (fun p => UriCodec.FILE_URI_PREFIX ++ p)
                 [lit "/home/u/a.c"; lit "/home/u/sub/b.c"; lit "/tmp/c.h"])
            (lit "/home/u", lit "a.c")
            [(lit "/home/u/sub", lit "b.c"); (lit "/tmp", lit "c.h")]).
  - reflexivity.
  - vm_compute. reflexivity.
  - reflexivity.
  - constructor.
  - constructor.
  - discriminate.
  - repeat constructor; apply decodes_to_plain;
      (apply no_nul_check || apply (not_in_check "%")); reflexivity.
  - repeat constructor; try discriminate;
      (apply no_nul_check || apply (not_in_check "/")); reflexivity.
  - vm_compute. lia.
  - vm_compute. discriminate.
Defined.
(* ----------------------------------------------------------------- *)
(** *** The asynchronous dialog *)

Section AsyncAgainstSync.

Lemma wait_for_response_shape (w w' : world) (res : nfdresult_t)
    (msg : option DBusMessage) :
  Driver.wait_for_response w = Def ((res, msg), w') ->
  (res = NFD_OKAY /\ exists m, msg = Some m) \/ (res = NFD_ERROR /\ msg = None).
Proof.
  unfold Driver.wait_for_response, bind, get, modify, NFDi_SetError, ret.
  destruct (Driver.wait_loop (queue w) (arrivals w)) as [[[m|] q] later]; intro H;
    injection H as <- <- _.
  - left. split; [reflexivity | exists m; reflexivity].
  - right. split; reflexivity.
Qed.

(** The decoder of the monitor is [AllocAndCopyFilePath] writing into
    the monitor. *)
Lemma Monitor_allocAndCopyFilePath_eq (self : NfdDialogMonitor) (uri : ptr)
    (w : world) :
  Monitor.allocAndCopyFilePath self uri w
  = match UriCodec.AllocAndCopyFilePath uri w with
    | Def ((res, Some (path, size)), w') =>
        Def ((res, Monitor.set_out (Some path) size self), w')
    | Def ((res, None), w') => Def ((res, self), w')
    | Undef f => Undef f
    end.
Proof.
  unfold Monitor.allocAndCopyFilePath, UriCodec.AllocAndCopyFilePath, bind, lift.
  destruct (UriCodec.skip_file_uri_prefix UriCodec.FILE_URI_PREFIX uri)
    as [[fileUri|]|f]; try reflexivity.
  destruct (UriCodec.TryUriDecodeLen fileUri) as [[[n e]|]|f]; try reflexivity.
  destruct (UriCodec.UriDecodeUnchecked (range fileUri e)) as [decoded|f];
    try reflexivity.
  destruct (store (n + 1) (decoded ++ [NUL])) as [path|f]; reflexivity.
Qed.

Lemma AllocAndCopyFilePath_shape (uri : ptr) (w w' : world) (res : nfdresult_t)
    (path : option (list char * nat)) :
  UriCodec.AllocAndCopyFilePath uri w = Def ((res, path), w') ->
  (res = NFD_OKAY /\ path <> None) \/ (res = NFD_ERROR /\ path = None).
Proof.
  unfold UriCodec.AllocAndCopyFilePath, bind, lift, NFDi_SetError, modify, ret.
  destruct (UriCodec.skip_file_uri_prefix UriCodec.FILE_URI_PREFIX uri)
    as [[fileUri|]|f]; try discriminate.
  - destruct (UriCodec.TryUriDecodeLen fileUri) as [[[n e]|]|f]; try discriminate.
    + destruct (UriCodec.UriDecodeUnchecked (range fileUri e)) as [decoded|f];
        try discriminate.
      destruct (store (n + 1) (decoded ++ [NUL])) as [buffer|f]; try discriminate.
      intro H. injection H as <- <- _. left. split; [reflexivity | discriminate].
    + intro H. injection H as <- <- _. right. split; reflexivity.
  - intro H. injection H as <- <- _. right. split; reflexivity.
Qed.

Section DictInvariant.

Import Iter Response.

Variables (S : Type) (P : S -> Prop) (cb : callback S).
Hypothesis Hcb :
  forall iter captured w res captured' w',
    cb iter captured w = Def ((res, captured'), w') -> P captured -> P captured'.

Lemma ReadDict_loop_invariant (sub_iter : DBusMessageIter) :
  forall captured w res captured' w',
    ReadDict_loop sub_iter [(STR_URIS, cb)] captured w = Def ((res, captured'), w') ->
    P captured -> P captured'.
Proof.
  induction sub_iter as [|v sub_iter IH]; intros captured w res captured' w' H HP.
  - injection H as _ <- _. exact HP.
  - destruct v as [?|?|?|?|?|?|? ?|?|? ?|l];
      try (injection H as _ <- _; exact HP).
    cbn [ReadDict_loop] in H.
    destruct (negb (arg_type_eqb (get_arg_type l) TYPE_STRING)).
    { unfold bind, NFDi_SetError, modify, ret in H. injection H as _ <- _. exact HP. }
    apply bind_inv in H. destruct H as (key & wa & _ & H).
    destruct (next l) as [more de_iter].
    destruct (negb more).
    { unfold bind, NFDi_SetError, modify, ret in H. injection H as _ <- _. exact HP. }
    destruct (negb (arg_type_eqb (get_arg_type de_iter) TYPE_VARIANT)).
    { unfold bind, NFDi_SetError, modify, ret in H. injection H as _ <- _. exact HP. }
    apply bind_inv in H. destruct H as (content & wb & _ & H).
    apply bind_inv in H. destruct H as ([res1 captured1] & wc & Himpl & H).
    assert (HP1 : P captured1).
    { cbn [ReadDictImpl] in Himpl. destruct (bytes_eqb key STR_URIS).
      - exact (Hcb _ _ _ _ _ _ Himpl HP).
      - injection Himpl as _ <- _. exact HP. }
    destruct (nfdresult_eqb res1 NFD_ERROR).
    + injection H as _ <- _. exact HP1.
    + exact (IH _ _ _ _ _ H HP1).
Qed.

Lemma ReadDict_invariant (iter : DBusMessageIter) (captured : S) (w : world)
    (res : nfdresult_t) (captured' : S) (w' : world) :
  ReadDict iter [(STR_URIS, cb)] captured w = Def ((res, captured'), w') ->
  P captured -> P captured'.
Proof.
  unfold ReadDict. intros H HP.
  destruct (negb (arg_type_eqb (get_arg_type iter) TYPE_ARRAY)).
  { unfold bind, NFDi_SetError, modify, ret in H. injection H as _ <- _. exact HP. }
  apply bind_inv in H. destruct H as (sub & wa & _ & H).
  exact (ReadDict_loop_invariant _ _ _ _ _ _ H HP).
Qed.

End DictInvariant.

Lemma ReadResponseUris_shape (msg : DBusMessage) (w w' : world)
    (uriIter : option Iter.DBusMessageIter) :
  Response.ReadResponseUris msg w = Def ((NFD_OKAY, uriIter), w') ->
  uriIter <> None.
Proof.
  intro H. unfold Response.ReadResponseUris in H.
  apply bind_inv in H. destruct H as ([res iter] & w1 & Hres & H).
  assert (Hiter : res = NFD_OKAY -> iter <> None).
  { unfold Response.ReadResponseResults in Hres.
    destruct (Iter.init msg) as [has_args it0].
    destruct (negb has_args);
      [unfold bind, NFDi_SetError, modify, ret in Hres;
       injection Hres as <- _ _; discriminate|].
    destruct (negb (Iter.arg_type_eqb (Iter.get_arg_type it0) Iter.TYPE_UINT32));
      [unfold bind, NFDi_SetError, modify, ret in Hres;
       injection Hres as <- _ _; discriminate|].
    apply bind_inv in Hres. destruct Hres as (code & w0 & _ & Hres).
    destruct (negb (code =? 0)%N).
    - destruct (code =? 1)%N; unfold bind, NFDi_SetError, modify, ret in Hres;
        injection Hres as <- _ _; discriminate.
    - destruct (Iter.next it0) as [more it1].
      destruct (negb more); unfold bind, NFDi_SetError, modify, ret in Hres;
        injection Hres as <- <- _; discriminate. }
  destruct res; try (destruct iter; discriminate H).
  destruct iter as [iter|]; [|contradiction (Hiter eq_refl); reflexivity].
  apply bind_inv in H. destruct H as ([res [u has]] & w2 & Hdict & H).
  assert (Hinv : has = true -> u <> None).
  { refine (ReadDict_invariant _ (fun c => snd c = true -> fst c <> None) _ _
              iter (None, false) w1 res (u, has) w2 Hdict _).
    - intros it [u0 h0] wa r [u1 h1] wb Hcb HP. cbv beta iota in Hcb.
      destruct (negb (Iter.arg_type_eqb (Iter.get_arg_type it) Iter.TYPE_ARRAY));
        unfold bind, lift, NFDi_SetError, modify, ret in Hcb.
      + injection Hcb as _ <- <- _. exact HP.
      + destruct (Iter.recurse it); [|discriminate Hcb].
        injection Hcb as _ <- <- _. cbn. discriminate.
    - cbn. discriminate. }
  destruct (nfdresult_eqb res NFD_ERROR); [discriminate H|].
  destruct has; cbn [negb] in H.
  - injection H as <- _. apply Hinv. reflexivity.
  - unfold bind, NFDi_SetError, modify, ret in H. discriminate H.
Qed.

Lemma ReadResponseUrisSingle_shape (msg : DBusMessage) (w w' : world)
    (file : option ptr) :
  Response.ReadResponseUrisSingle msg w = Def ((NFD_OKAY, file), w') ->
  file <> None.
Proof.
  intro H. unfold Response.ReadResponseUrisSingle in H.
  apply bind_inv in H. destruct H as ([res uri_iter] & w1 & Hres & H).
  destruct res; try (destruct uri_iter; discriminate H).
  destruct uri_iter as [uri_iter|].
  - unfold bind, lift, NFDi_SetError, modify, ret in H.
    destruct (negb (Iter.arg_type_eqb (Iter.get_arg_type uri_iter) Iter.TYPE_STRING));
      [discriminate H|].
    destruct (Iter.get_string uri_iter); [|discriminate H].
    injection H as <- _. discriminate.
  - contradiction (ReadResponseUris_shape _ _ _ _ Hres). reflexivity.
Qed.

(** After the request, the worker and the synchronous tail agree. *)
Lemma worker_matches_tail (params params' : DialogParams) (w1 : world) :
  outAsyncOpHandle params' = Some (Some Monitor.fresh) ->
  async_outcome params' (mkResponse (outPath params) (outPathSize params)) w1
  = sync_outcome
      (('(res, msg) <- Driver.wait_for_response ;;
        match res, msg with
        | NFD_OKAY, Some msg => read_single_path msg params
        | _, _ => ret (res, params)
        end)%M w1).
Proof.
  intro Hhandle.
  unfold async_outcome, sync_outcome, Monitor.monitorUntilReturn, bind.
  rewrite Hhandle.
  destruct (Driver.wait_for_response w1) as [[[res msg] w2]|f] eqn:Ewait;
    [|reflexivity].
  destruct (wait_for_response_shape _ _ _ _ Ewait) as [[-> [m ->]] | [-> ->]];
    [|reflexivity].
  unfold Monitor.copySingleFilepath, read_single_path, bind.
  destruct (Response.ReadResponseUrisSingle m w2) as [[[res uri] w3]|f] eqn:Eread;
    [|reflexivity].
  destruct res; try (destruct uri; reflexivity).
  destruct uri as [uri|];
    [|contradiction (ReadResponseUrisSingle_shape _ _ _ _ Eread); reflexivity].
  rewrite Monitor_allocAndCopyFilePath_eq.
  destruct (UriCodec.AllocAndCopyFilePath uri w3) as [[[res path] w4]|f] eqn:Ealloc;
    [|reflexivity].
  destruct (AllocAndCopyFilePath_shape _ _ _ _ _ Ealloc) as [[-> Hpath] | [-> ->]].
  - destruct path as [[path size]|]; [reflexivity | contradiction Hpath; reflexivity].
  - reflexivity.
Qed.

End AsyncAgainstSync.

(** X15.  The asynchronous single-path dialogs deliver what the
    synchronous ones return.  When [NFD_OpenDialogWin] (or
    [NFD_SaveDialogWin]) with an [outAsyncOpHandle] returns [NFD_OKAY],
    the worker of the monitor it left in the handle, run in the state in
    which the monitor was created (the call itself does nothing after
    that), followed by [NFD_GetAsyncOpResult], yields the result code,
    the path and the size that the same call without [outAsyncOpHandle]
    returns in the same situation, with the same state at the end.
    The worker and the retrieval are each one step on the monitor: the
    mutex, which [create] has destroyed by then, does not enter. *)
Theorem async_dialog_delivers_sync_result (params : DialogParams)
    (slot : option NfdDialogMonitor) (w w1 : world) (params' : DialogParams) :
  outAsyncOpHandle params = None ->
  (NFD_OpenDialogWin (with_handle slot params) w = Def ((NFD_OKAY, params'), w1) ->
   async_outcome params' (mkResponse (outPath params) (outPathSize params)) w1
   = sync_outcome (NFD_OpenDialogWin params w))
  /\ (NFD_SaveDialogWin (with_handle slot params) w = Def ((NFD_OKAY, params'), w1) ->
      async_outcome params' (mkResponse (outPath params) (outPathSize params)) w1
      = sync_outcome (NFD_SaveDialogWin params w)).
Proof.
  intro Hsync.
  assert (Hstart : forall res (wa : world) p' wb,
            start_monitor res (with_handle slot params) wa = Def ((NFD_OKAY, p'), wb) ->
            res = NFD_OKAY /\ wb = wa
            /\ outAsyncOpHandle p' = Some (Some Monitor.fresh)).
  { intros res wa p' wb H. unfold start_monitor in H.
    destruct res; cbn [nfdresult_eqb negb] in H; try discriminate H.
    unfold Monitor.create in H.
    unfold bind, get, NFDi_SetError, modify, ret, lift in H.
    destruct (negb (mutex_available wa)); [discriminate H|].
    destruct (negb (threads_available wa)); [discriminate H|].
    cbn in H. injection H as <- <-. repeat split. }
  split; intro Hasync.
  - unfold NFD_OpenDialogWin in Hasync. cbn [with_handle outAsyncOpHandle] in Hasync.
    apply bind_inv in Hasync. destruct Hasync as (res & wa & Hshow & Hmon).
    destruct (Hstart _ _ _ _ Hmon) as (-> & -> & Hhandle).
    rewrite (worker_matches_tail params params' _ Hhandle). f_equal.
    unfold NFD_OpenDialogWin. rewrite Hsync.
    unfold Driver.NFD_DBus_OpenFileWin.
    change (Driver.NFD_DBus_ShowOpenFileDialog false false (with_handle slot params))
      with (Driver.NFD_DBus_ShowOpenFileDialog false false params) in Hshow.
    unfold bind. rewrite Hshow. reflexivity.
  - unfold NFD_SaveDialogWin in Hasync. cbn [with_handle outAsyncOpHandle] in Hasync.
    apply bind_inv in Hasync. destruct Hasync as (res & wa & Hshow & Hmon).
    destruct (Hstart _ _ _ _ Hmon) as (-> & -> & Hhandle).
    rewrite (worker_matches_tail params params' _ Hhandle). f_equal.
    unfold NFD_SaveDialogWin. rewrite Hsync.
    unfold Driver.NFD_DBus_SaveFileWin.
    change (Driver.NFD_DBus_ShowSaveFileDialog (with_handle slot params))
      with (Driver.NFD_DBus_ShowSaveFileDialog params) in Hshow.
    unfold bind. rewrite Hshow. reflexivity.
Qed.
Lemma async_dialog_delivers_sync_result_witness :
  exists params' w1,
    NFD_OpenDialogWin (with_handle None sample_params) one_file_world
    = Def ((NFD_OKAY, params'), w1)
    /\ async_outcome params' (mkResponse None 0) w1
       = sync_outcome (NFD_OpenDialogWin sample_params one_file_world).
Proof.
  eexists. eexists. split.
  - vm_compute. reflexivity.
  - refine (proj1 (async_dialog_delivers_sync_result
                     sample_params None one_file_world _ _ eq_refl) _).
    vm_compute. reflexivity.
Defined.

(** X16.  Whenever the worker of a monitor returns, it has marked the
    monitor completed, whatever the response was and also when the
    connection closed without one; started on a new monitor, it leaves a
    path in the monitor exactly when the result it stores is [NFD_OKAY].
    So a retrieve after the worker never answers "response not ready",
    and an [NFD_OKAY] from it always comes with a buffer. *)
Theorem worker_completes_monitor (Multiple : bool) (w w' : world)
    (monitor : NfdDialogMonitor) :
  Monitor.monitorUntilReturn Multiple Monitor.fresh w = Def (monitor, w') ->
  completed monitor = true
  /\ (resultCode monitor = NFD_OKAY <-> mon_outPath monitor <> None)
  /\ NFD_HasAsyncOpCompleted (Some monitor) w' = Def (true, w').
Proof.
  intro H. unfold Monitor.monitorUntilReturn in H.
  apply bind_inv in H. destruct H as ([res msg] & w1 & Hwait & H).
  assert (Hcopy : forall m res' self' w2,
            (if Multiple then Monitor.copyMultipleFilePath Monitor.fresh m
             else Monitor.copySingleFilepath Monitor.fresh m) w1
            = Def ((res', self'), w2) ->
            res' = NFD_OKAY <-> mon_outPath self' <> None).
  { intros m res' self' w2 Hrun. destruct Multiple.
    - unfold Monitor.copyMultipleFilePath in Hrun.
      apply bind_inv in Hrun. destruct Hrun as ([r1 it] & wa & _ & Hrun).
      destruct (negb (nfdresult_eqb r1 NFD_OKAY)) eqn:E1.
      { injection Hrun as <- <- _. destruct r1; try discriminate E1;
          split; [discriminate | intro X; contradiction X; reflexivity
                 | discriminate | intro X; contradiction X; reflexivity]. }
      apply bind_inv in Hrun. destruct Hrun as (n & wb & _ & Hrun).
      cbv zeta in Hrun.
      apply bind_inv in Hrun. destruct Hrun as ([r2 out2] & wc & Hget & Hrun).
      destruct (negb (nfdresult_eqb r2 NFD_OKAY)) eqn:E2.
      { injection Hrun as <- <- _. destruct r2; try discriminate E2;
          split; [discriminate | intro X; contradiction X; reflexivity
                 | discriminate | intro X; contradiction X; reflexivity]. }
      apply bind_inv in Hrun. destruct Hrun as ([r3 out3] & wd & _ & Hrun).
      destruct (negb (nfdresult_eqb r3 NFD_OKAY)).
      { injection Hrun as <- <- _.
        split; [discriminate | intro X; contradiction X; reflexivity]. }
      apply bind_inv in Hrun. destruct Hrun as (out4 & we & _ & Hrun).
      injection Hrun as <- <- _. split; [discriminate | reflexivity].
    - unfold Monitor.copySingleFilepath in Hrun.
      apply bind_inv in Hrun. destruct Hrun as ([r1 uri] & wa & Hread & Hrun).
      assert (Hfail : forall r self'' wz,
                r <> NFD_OKAY ->
                ret (r, Monitor.fresh) wa = Def ((res', self''), wz) ->
                self'' = self' ->
                res' = NFD_OKAY <-> mon_outPath self' <> None).
      { intros r self'' wz Hr Hret <-. injection Hret as <- <- _.
        split; [intro X; contradiction (Hr X) | intro X; contradiction X; reflexivity]. }
      destruct r1.
      { destruct uri; apply (Hfail NFD_ERROR _ _ ltac:(discriminate) Hrun eq_refl). }
      2:{ destruct uri; apply (Hfail NFD_CANCEL _ _ ltac:(discriminate) Hrun eq_refl). }
      destruct uri as [uri|];
        [|contradiction (ReadResponseUrisSingle_shape _ _ _ _ Hread); reflexivity].
      apply bind_inv in Hrun. destruct Hrun as ([r2 self2] & wb & Halloc & Hrun).
      rewrite Monitor_allocAndCopyFilePath_eq in Halloc.
      destruct (UriCodec.AllocAndCopyFilePath uri wa) as [[[r path] wc]|f] eqn:E;
        [|discriminate Halloc].
      destruct (AllocAndCopyFilePath_shape _ _ _ _ _ E) as [[-> Hpath] | [-> ->]].
      + destruct path as [[path size]|]; [|contradiction Hpath; reflexivity].
        injection Halloc as <- <- _. injection Hrun as <- <- _.
        split; [discriminate | reflexivity].
      + injection Halloc as <- <- _. injection Hrun as <- <- _.
        split; [discriminate | intro X; contradiction X; reflexivity]. }
  destruct msg as [msg|].
  - apply bind_inv in H. destruct H as ([res' self'] & w2 & Hrun & H).
    injection H as <- <-. cbn [Monitor.finish completed resultCode mon_outPath].
    split; [reflexivity|]. split; [|reflexivity].
    apply (Hcopy _ _ _ _ Hrun).
  - injection H as <- <-. cbn. split; [reflexivity|]. split; [|reflexivity].
    split; [discriminate | intro X; contradiction X; reflexivity].
Qed.

Lemma worker_completes_monitor_witness :
  completed (monitor_after (Monitor.monitorUntilReturn true Monitor.fresh
                              (selection_world [lit "/home/u/a.c"; lit "/tmp/b.h"])))
  = true
  /\ (resultCode (monitor_after (Monitor.monitorUntilReturn true Monitor.fresh
                                   (selection_world [lit "/home/u/a.c"; lit "/tmp/b.h"])))
      = NFD_OKAY
      <-> mon_outPath (monitor_after (Monitor.monitorUntilReturn true Monitor.fresh
                                        (selection_world
                                           [lit "/home/u/a.c"; lit "/tmp/b.h"])))
          <> None)
  /\ NFD_HasAsyncOpCompleted
       (Some (monitor_after (Monitor.monitorUntilReturn true Monitor.fresh
                               (selection_world [lit "/home/u/a.c"; lit "/tmp/b.h"]))))
       (world_of (Monitor.monitorUntilReturn true Monitor.fresh
                    (selection_world [lit "/home/u/a.c"; lit "/tmp/b.h"])))
     = Def (true,
            world_of (Monitor.monitorUntilReturn true Monitor.fresh
                        (selection_world [lit "/home/u/a.c"; lit "/tmp/b.h"]))).
Proof.
  apply (worker_completes_monitor true
           (selection_world [lit "/home/u/a.c"; lit "/tmp/b.h"])).
  vm_compute. reflexivity.
Defined.
(* ----------------------------------------------------------------- *)
(** *** The subscription and the request *)

Section CalmSteps.

Import Iter.

Lemma calm_ret {A : Type} (a : A) : calm (ret a).
Proof. intros w a' w' H. injection H as <- <-. repeat split. Qed.

Lemma calm_lift {A : Type} (c : ub A) : calm (lift c).
Proof.
  intros w a w' H. unfold lift in H. destruct c; [|discriminate].
  injection H as <- <-. repeat split.
Qed.

Lemma calm_get {A : Type} (field : world -> A) : calm (get field).
Proof. intros w a w' H. injection H as <- <-. repeat split. Qed.

Lemma calm_modify (f : world -> world) :
  (forall w, match_rules (f w) = match_rules w
             /\ sent (f w) = sent w
             /\ add_match_replies (f w) = add_match_replies w) ->
  calm (modify f).
Proof. intros Hf w a w' H. injection H as <- <-. apply Hf. Qed.

Lemma calm_bind {A B : Type} (c : M A) (k : A -> M B) :
  calm c -> (forall a, calm (k a)) -> calm (bind c k).
Proof.
  intros Hc Hk w b w' H. apply bind_inv in H. destruct H as (a & w1 & H1 & H2).
  destruct (Hc _ _ _ H1) as (R1 & S1 & A1).
  destruct (Hk a _ _ _ H2) as (R2 & S2 & A2).
  repeat split; congruence.
Qed.

End CalmSteps.

Ltac calm_step :=
  match goal with
  | |- calm (ret _) => apply calm_ret
  | |- calm (lift _) => apply calm_lift
  | |- calm (get _) => apply calm_get
  | |- calm (NFDi_SetError _) => apply calm_modify; intro; repeat split
  | |- calm (modify _) => apply calm_modify; intro; repeat split
  | |- calm (bind _ _) => apply calm_bind; [|intro; cbv beta]
  | |- calm (match ?x with _ => _ end) => destruct x
  | |- calm _ => solve [eauto]
  end.

Ltac calm_auto := repeat calm_step.

Section CalmFunctions.

Import Iter.

Lemma ReadDictImpl_calm {S : Type} (key : list char) (iter : DBusMessageIter)
    (args : list (list char * Response.callback S)) (captured : S) :
  Forall (fun entry => forall it c, calm (snd entry it c)) args ->
  calm (Response.ReadDictImpl key iter args captured).
Proof.
  induction 1 as [|[k cb] args Hcb _ IH]; simpl.
  - calm_step.
  - destruct (bytes_eqb key k); [apply Hcb | exact IH].
Qed.

Lemma ReadDict_loop_calm {S : Type} (sub_iter : DBusMessageIter)
    (args : list (list char * Response.callback S)) :
  Forall (fun entry => forall it c, calm (snd entry it c)) args ->
  forall captured, calm (Response.ReadDict_loop sub_iter args captured).
Proof.
  intro Hargs. induction sub_iter as [|v sub_iter IH]; intro captured.
  - apply calm_ret.
  - pose proof (ReadDictImpl_calm (S := S)) as Himpl.
    destruct v; cbn [Response.ReadDict_loop]; calm_auto.
Qed.

Lemma ReadDict_calm {S : Type} (iter : DBusMessageIter)
    (args : list (list char * Response.callback S)) (captured : S) :
  Forall (fun entry => forall it c, calm (snd entry it c)) args ->
  calm (Response.ReadDict iter args captured).
Proof.
  intro Hargs. pose proof (ReadDict_loop_calm (S := S)) as Hloop.
  unfold Response.ReadDict. calm_auto.
Qed.

Lemma ReadResponseResults_calm (msg : DBusMessage) :
  calm (Response.ReadResponseResults msg).
Proof. unfold Response.ReadResponseResults. calm_auto. Qed.

Lemma ReadResponseUris_calm (msg : DBusMessage) :
  calm (Response.ReadResponseUris msg).
Proof.
  pose proof ReadResponseResults_calm as Hresults.
  unfold Response.ReadResponseUris. calm_auto.
  apply ReadDict_calm. constructor; [|constructor].
  intros uris_iter [uriIter has_uris]. cbn [snd]. calm_auto.
Qed.

Lemma ReadResponseUrisSingle_calm (msg : DBusMessage) :
  calm (Response.ReadResponseUrisSingle msg).
Proof.
  pose proof ReadResponseUris_calm as Huris.
  unfold Response.ReadResponseUrisSingle. calm_auto.
Qed.

Lemma ReadResponseUrisUnchecked_calm (msg : DBusMessage) :
  calm (Response.ReadResponseUrisUnchecked msg).
Proof.
  unfold Response.ReadResponseUrisUnchecked.
  calm_auto.
  apply ReadDict_calm. constructor; [|constructor].
  intros uris_iter uriIter. cbn [snd]. calm_auto.
Qed.

Lemma NFD_PathSet_GetCount_calm (msg : DBusMessage) :
  calm (PathList.NFD_PathSet_GetCount msg).
Proof.
  unfold PathList.NFD_PathSet_GetCount, Response.ReadResponseUrisUncheckedGetArraySize.
  calm_auto.
  apply ReadDict_calm. constructor; [|constructor].
  intros uris_iter sz. cbn [snd]. calm_auto.
Qed.

Lemma AllocAndCopyFilePath_calm (fileUri : ptr) :
  calm (UriCodec.AllocAndCopyFilePath fileUri).
Proof. unfold UriCodec.AllocAndCopyFilePath. calm_auto. Qed.

Lemma copyFileInfo_calm (policy : PathList.Policy) (fileUri : ptr)
    (out : PathList.OutPathList) :
  calm (PathList.copyFileInfo policy fileUri out).
Proof. unfold PathList.copyFileInfo. calm_auto. Qed.

Lemma NFD_PathSet_GetPathWin_calm (policy : PathList.Policy) (msg : DBusMessage)
    (index : nat) (out : PathList.OutPathList) :
  calm (PathList.NFD_PathSet_GetPathWin policy msg index out).
Proof.
  pose proof ReadResponseUrisUnchecked_calm as Huris.
  pose proof copyFileInfo_calm as Hcopy.
  unfold PathList.NFD_PathSet_GetPathWin. calm_auto.
Qed.

Lemma basenames_loop_calm (count : nat) (msg : DBusMessage) :
  forall i out, calm (PathList.basenames_loop count msg i out).
Proof.
  pose proof NFD_PathSet_GetPathWin_calm as Hpath.
  induction count as [|count IH]; intros i out;
    cbn [PathList.basenames_loop]; calm_auto.
Qed.

End CalmFunctions.

Section Subscription.

Import Iter Driver.

Lemma remove_rule_absent (rule : list char) (rules : list (list char)) :
  ~ In rule rules -> remove_rule rule rules = rules.
Proof.
  induction rules as [|r rules IH]; intro Hin; simpl; [reflexivity|].
  rewrite bytes_eqb_neq.
  - f_equal. apply IH. intro H. apply Hin. right. exact H.
  - intro E. apply Hin. left. exact E.
Qed.

Lemma remove_rule_last (rule : list char) (rules : list (list char)) :
  ~ In rule rules -> remove_rule rule (rules ++ [rule]) = rules.
Proof.
  induction rules as [|r rules IH]; intro Hin; simpl.
  - rewrite (proj2 (bytes_eqb_eq rule rule) eq_refl). reflexivity.
  - rewrite bytes_eqb_neq.
    + f_equal. apply IH. intro H. apply Hin. right. exact H.
    + intro E. apply Hin. left. exact E.
Qed.

Lemma response_rule_absent (rule : list char) (base : list (list char)) :
  response_rule rule -> Forall (fun r => ~ response_rule r) base -> ~ In rule base.
Proof.
  intros Hrule Hbase Hin. rewrite Forall_forall in Hbase.
  exact (Hbase rule Hin Hrule).
Qed.

Lemma scan_string_prefix (pre : list char) :
  no_nul pre ->
  forall p s q, scan_string (pre ++ p) = Def (s, q) -> exists rest, s = pre ++ rest.
Proof.
  induction pre as [|c pre IH]; intros Hpre p s q H.
  - exists s. reflexivity.
  - apply no_nul_cons in Hpre. destruct Hpre as [Hc Hpre].
    simpl in H. rewrite (is_nul_false c Hc) in H.
    destruct (scan_string (pre ++ p)) as [[s' q']|f] eqn:E; [|discriminate].
    injection H as <- <-. destruct (IH Hpre _ _ _ E) as [rest ->].
    exists rest. reflexivity.
Qed.

Lemma MakeResponseSubscriptionPath_rule (handle_path unique_name : ptr)
    (p rule : list char) :
  MakeResponseSubscriptionPath handle_path unique_name = Def p ->
  string_at p = Def rule ->
  response_rule rule.
Proof.
  unfold MakeResponseSubscriptionPath, ub_bind, store.
  destruct (string_at handle_path) as [handle_chars|f]; [|discriminate].
  destruct (string_at unique_name) as [unique_chars|f]; [|discriminate].
  match goal with |- (if ?c then _ else _) = _ -> _ => destruct c end;
    [|discriminate].
  intro H. injection H as <-. unfold string_at.
  match goal with
  | |- match scan_string ?x with _ => _ end = _ -> _ =>
      destruct (scan_string x) as [[s q]|f] eqn:E; [|discriminate]
  end.
  intro H. injection H as <-.
  assert (Hpre : no_nul STR_RESPONSE_SUBSCRIPTION_PATH_1)
    by (apply no_nul_check; reflexivity).
  exact (scan_string_prefix STR_RESPONSE_SUBSCRIPTION_PATH_1 Hpre
           (handle_chars ++ STR_RESPONSE_SUBSCRIPTION_PATH_2 ++ unique_chars
            ++ STR_RESPONSE_SUBSCRIPTION_PATH_3 ++ [NUL]) s q E).
Qed.

Lemma Subscribe_held (base : list (list char)) (handle_path : ptr)
    (sub_cmd sub_cmd' : option (list char)) (res : nfdresult_t) (w w' : world) :
  Forall (fun r => ~ response_rule r) base ->
  held base sub_cmd w ->
  Subscribe handle_path sub_cmd w = Def ((res, sub_cmd'), w') ->
  held base sub_cmd' w'
  /\ sent w' = sent w
  /\ match hd_error (add_match_replies w) with
     | Some None => res = NFD_OKAY
     | _ => res = NFD_ERROR
     end.
Proof.
  intros Hbase Hheld H. unfold Subscribe in H.
  apply bind_inv in H. destruct H as (sub0 & w0 & Hun & H).
  assert (Hw0 : match_rules w0 = base /\ sent w0 = sent w
                /\ add_match_replies w0 = add_match_replies w).
  { destruct sub_cmd as [rule|]; cbn in Hun.
    - injection Hun as <- <-. cbn. destruct Hheld as [Hrule [E|E]]; rewrite E.
      + split; [|split; reflexivity].
        apply remove_rule_last, (response_rule_absent _ _ Hrule Hbase).
      + split; [|split; reflexivity].
        apply remove_rule_absent, (response_rule_absent _ _ Hrule Hbase).
    - injection Hun as <- <-. split; [exact Hheld | split; reflexivity]. }
  destruct Hw0 as (R0 & S0 & A0). clear Hun.
  unfold bind, get, lift in H.
  destruct (MakeResponseSubscriptionPath handle_path (dbus_unique_name w0))
    as [p|f] eqn:Ep; [|discriminate].
  destruct (string_at p) as [rule|f] eqn:Er; [|discriminate].
  pose proof (MakeResponseSubscriptionPath_rule _ _ _ _ Ep Er) as Hrule.
  unfold dbus_bus_add_match in H. rewrite <- A0.
  destruct (add_match_replies w0) as [|[message|] rest]; [discriminate| |].
  - cbn in H. injection H as <- <- <-. cbn.
    split; [|split; [exact S0 | reflexivity]].
    split; [exact Hrule | right; exact R0].
  - cbn in H. injection H as <- <- <-. cbn.
    split; [|split; [exact S0 | reflexivity]].
    split; [exact Hrule | left; rewrite R0; reflexivity].
Qed.

Lemma destroy_subscription_held (base : list (list char))
    (sub_cmd : option (list char)) (w w' : world) (u : unit) :
  Forall (fun r => ~ response_rule r) base ->
  held base sub_cmd w ->
  destroy_subscription sub_cmd w = Def (u, w') ->
  match_rules w' = base /\ sent w' = sent w.
Proof.
  intros Hbase Hheld H. destruct sub_cmd as [rule|]; cbn in H.
  - injection H as <- <-. cbn. destruct Hheld as [Hrule [E|E]]; rewrite E.
    + split; [|reflexivity].
      apply remove_rule_last, (response_rule_absent _ _ Hrule Hbase).
    + split; [|reflexivity].
      apply remove_rule_absent, (response_rule_absent _ _ Hrule Hbase).
  - injection H as <- <-. split; [exact Hheld | reflexivity].
Qed.

Lemma held_calm {A : Type} (c : M A) (base : list (list char))
    (sub_cmd : option (list char)) (w w' : world) (a : A) :
  calm c -> held base sub_cmd w -> c w = Def (a, w') -> held base sub_cmd w'.
Proof.
  intros Hc Hheld H. destruct (Hc _ _ _ H) as (R & _ & _).
  unfold held in *. rewrite R. exact Hheld.
Qed.

Lemma send_and_rebind_held (base : list (list char)) (query : DBusMessage)
    (handle_obj_path : list char) (sub_cmd sub_cmd' : option (list char))
    (res : nfdresult_t) (w w' : world) :
  Forall (fun r => ~ response_rule r) base ->
  held base sub_cmd w ->
  send_and_rebind query handle_obj_path sub_cmd w = Def ((res, sub_cmd'), w') ->
  held base sub_cmd' w' /\ sent w' = sent w ++ [query].
Proof.
  intros Hbase Hheld H. unfold send_and_rebind in H.
  apply bind_inv in H. destruct H as (reply & w1 & Hsend & H).
  assert (Hw1 : held base sub_cmd w1 /\ sent w1 = sent w ++ [query]).
  { unfold send_with_reply_and_block in Hsend.
    destruct (send_replies w) as [|r rest]; [discriminate|].
    injection Hsend as <- <-. split; [exact Hheld | reflexivity]. }
  destruct Hw1 as [Hheld1 S1]. clear Hsend.
  assert (Hstay : forall (c : M (nfdresult_t * option (list char))),
            calm c ->
            (forall w2 r s w3, c w2 = Def ((r, s), w3) -> s = sub_cmd) ->
            c w1 = Def ((res, sub_cmd'), w') ->
            held base sub_cmd' w' /\ sent w' = sent w ++ [query]).
  { intros c Hc Hsub Hrun. rewrite (Hsub _ _ _ _ Hrun).
    split; [exact (held_calm c _ _ _ _ _ Hc Hheld1 Hrun)|].
    destruct (Hc _ _ _ Hrun) as (_ & S & _). rewrite S. exact S1. }
  destruct reply as [message|reply].
  - revert H. apply Hstay; [calm_auto|].
    intros w2 r s w3 E. cbn in E. injection E as _ <- _. reflexivity.
  - destruct (init reply) as [has_args iter].
    destruct (negb has_args).
    { revert H. apply Hstay; [calm_auto|].
      intros w2 r s w3 E. cbn in E. injection E as _ <- _. reflexivity. }
    destruct (negb (arg_type_eqb (get_arg_type iter) TYPE_OBJECT_PATH)).
    { revert H. apply Hstay; [calm_auto|].
      intros w2 r s w3 E. cbn in E. injection E as _ <- _. reflexivity. }
    unfold bind at 1 2 3 in H. unfold lift in H.
    destruct (get_string iter) as [path|f]; [|discriminate].
    destruct (string_at path) as [path_chars|f]; [|discriminate].
    destruct (string_at handle_obj_path) as [handle_chars|f]; [|discriminate].
    destruct (negb (bytes_eqb path_chars handle_chars)).
    + apply bind_inv in H. destruct H as ([r sub1] & w2 & Hsub & H).
      injection H as <- <- <-.
      destruct (Subscribe_held _ _ _ _ _ _ _ Hbase Hheld1 Hsub) as (Hh & S2 & _).
      split; [exact Hh | rewrite S2; exact S1].
    + injection H as <- <- <-. split; [exact Hheld1 | exact S1].
Qed.

Lemma Generate64RandomChars_calm : calm HandleGenerator.Generate64RandomChars.
Proof.
  intros w a w' H. unfold HandleGenerator.Generate64RandomChars in H.
  destruct (HandleGenerator.Generate64RandomChars_loop (getrandom_replies w) 32)
    as [[out rest]|f]; [|discriminate].
  injection H as <- <-. repeat split.
Qed.

Lemma MakeUniqueObjectPath_calm : calm HandleGenerator.MakeUniqueObjectPath.
Proof.
  pose proof Generate64RandomChars_calm as Hrandom.
  unfold HandleGenerator.MakeUniqueObjectPath. calm_auto.
Qed.

Lemma CurrentFile_calm (path name : option ptr) :
  calm (Query.AppendSaveFileQueryDictEntryCurrentFile path name).
Proof.
  unfold Query.AppendSaveFileQueryDictEntryCurrentFile, Query.access. calm_auto.
Qed.

Lemma AppendSaveFileQueryParams_calm (handle_token : ptr)
    (filterList : list nfdnfilteritem_t) (filterCount : nat)
    (defaultPath defaultName : option ptr) :
  calm (Query.AppendSaveFileQueryParams handle_token filterList filterCount
          defaultPath defaultName).
Proof.
  pose proof CurrentFile_calm as Hfile.
  unfold Query.AppendSaveFileQueryParams. calm_auto.
Qed.

Lemma AppendSaveFileQueryParams_win_calm {handle : Type} (handle_token : ptr)
    (params : NfdDialogParams handle) :
  calm (Query.AppendSaveFileQueryParams_win handle_token params).
Proof.
  pose proof CurrentFile_calm as Hfile.
  unfold Query.AppendSaveFileQueryParams_win. calm_auto.
Qed.

Lemma wait_for_response_calm : calm wait_for_response.
Proof. unfold wait_for_response. calm_auto. Qed.

End Subscription.

Section Requests.

Import Iter Driver.

(** The shape the four request functions share. *)
Lemma request_one (build : ptr -> M (list DBusValue)) (method : string) :
  (forall token, calm (build token)) ->
  one_request method fst
    ('(handle_obj_path, handle_token_ptr) <- HandleGenerator.MakeUniqueObjectPath ;;
     '(res, signal_sub) <- Subscribe handle_obj_path None ;;
     if negb (nfdresult_eqb res NFD_OKAY)
     then destroy_subscription signal_sub ;;; ret (res, None)
     else
       args <- build handle_token_ptr ;;
       '(res, signal_sub) <-
         send_and_rebind (portal_call method args) handle_obj_path signal_sub ;;
       if negb (nfdresult_eqb res NFD_OKAY)
       then destroy_subscription signal_sub ;;; ret (res, None)
       else
         out <- wait_for_response ;;
         destroy_subscription signal_sub ;;;
         ret out)%M.
Proof.
  intros Hbuild w [res msg] w' Hno H.
  apply bind_inv in H. destruct H as ([hp tok] & w1 & Hpath & H).
  destruct (MakeUniqueObjectPath_calm _ _ _ Hpath) as (R1 & S1 & A1).
  apply bind_inv in H. destruct H as ([res1 sub1] & w2 & Hsub & H).
  destruct (Subscribe_held (match_rules w) hp None sub1 res1 w1 w2 Hno R1 Hsub)
    as (Hheld2 & S2 & Hres).
  rewrite A1 in Hres.
  assert (Hrefused : res1 = NFD_ERROR ->
            match_rules w' = match_rules w
            /\ sent w' = sent w /\ fst (res, msg) = NFD_ERROR).
  { intros ->. cbn in H.
    apply bind_inv in H. destruct H as (u & w3 & Hdestroy & H).
    injection H as <- <- <-.
    destruct (destroy_subscription_held _ _ _ _ _ Hno Hheld2 Hdestroy) as [R3 S3].
    split; [exact R3|]. split; [congruence | reflexivity]. }
  destruct (hd_error (add_match_replies w)) as [[message|]|];
    [destruct (Hrefused Hres) as [R S]; split; [exact R | exact S]
    | | destruct (Hrefused Hres) as [R S]; split; [exact R | exact S]].
  clear Hrefused. subst res1. cbn in H.
  apply bind_inv in H. destruct H as (args & w3 & Hargs & H).
  destruct (Hbuild _ _ _ _ Hargs) as (R3 & S3 & _).
  pose proof (held_calm _ _ _ _ _ _ (Hbuild tok) Hheld2 Hargs) as Hheld3.
  apply bind_inv in H. destruct H as ([res4 sub4] & w4 & Hsend & H).
  destruct (send_and_rebind_held _ _ _ _ _ _ _ _ Hno Hheld3 Hsend) as [Hheld4 S4].
  assert (Hsent : sent w4 = sent w ++ [portal_call method args]) by congruence.
  destruct (negb (nfdresult_eqb res4 NFD_OKAY)).
  - apply bind_inv in H. destruct H as (u & w5 & Hdestroy & H).
    injection H as <- <- <-.
    destruct (destroy_subscription_held _ _ _ _ _ Hno Hheld4 Hdestroy) as [R5 S5].
    split; [exact R5|]. exists args. congruence.
  - apply bind_inv in H. destruct H as (out & w5 & Hwait & H).
    destruct (wait_for_response_calm _ _ _ Hwait) as (R5 & S5 & _).
    pose proof (held_calm _ _ _ _ _ _ wait_for_response_calm Hheld4 Hwait) as Hheld5.
    apply bind_inv in H. destruct H as (u & w6 & Hdestroy & H).
    injection H as _ <-.
    destruct (destroy_subscription_held _ _ _ _ _ Hno Hheld5 Hdestroy) as [R6 S6].
    split; [exact R6|]. exists args. congruence.
Qed.

(** The shape the two [NFD_DBus_Show...Dialog] functions share. *)
Lemma show_one (build : ptr -> M (list DBusValue)) (method : string) :
  (forall token, calm (build token)) ->
  one_request method (fun res => res)
    ('(handle_obj_path, handle_token_ptr) <- HandleGenerator.MakeUniqueObjectPath ;;
     '(res, signal_sub) <- Subscribe handle_obj_path None ;;
     if negb (nfdresult_eqb res NFD_OKAY)
     then destroy_subscription signal_sub ;;; ret res
     else
       args <- build handle_token_ptr ;;
       '(res, signal_sub) <-
         send_and_rebind (portal_call method args) handle_obj_path signal_sub ;;
       destroy_subscription signal_sub ;;;
       ret res)%M.
Proof.
  intros Hbuild w res w' Hno H.
  apply bind_inv in H. destruct H as ([hp tok] & w1 & Hpath & H).
  destruct (MakeUniqueObjectPath_calm _ _ _ Hpath) as (R1 & S1 & A1).
  apply bind_inv in H. destruct H as ([res1 sub1] & w2 & Hsub & H).
  destruct (Subscribe_held (match_rules w) hp None sub1 res1 w1 w2 Hno R1 Hsub)
    as (Hheld2 & S2 & Hres).
  rewrite A1 in Hres.
  assert (Hrefused : res1 = NFD_ERROR ->
            match_rules w' = match_rules w
            /\ sent w' = sent w /\ res = NFD_ERROR).
  { intros ->. cbn in H.
    apply bind_inv in H. destruct H as (u & w3 & Hdestroy & H).
    injection H as <- <-.
    destruct (destroy_subscription_held _ _ _ _ _ Hno Hheld2 Hdestroy) as [R3 S3].
    split; [exact R3|]. split; [congruence | reflexivity]. }
  destruct (hd_error (add_match_replies w)) as [[message|]|];
    [destruct (Hrefused Hres) as [R S]; split; [exact R | exact S]
    | | destruct (Hrefused Hres) as [R S]; split; [exact R | exact S]].
  clear Hrefused. subst res1. cbn in H.
  apply bind_inv in H. destruct H as (args & w3 & Hargs & H).
  destruct (Hbuild _ _ _ _ Hargs) as (R3 & S3 & _).
  pose proof (held_calm _ _ _ _ _ _ (Hbuild tok) Hheld2 Hargs) as Hheld3.
  apply bind_inv in H. destruct H as ([res4 sub4] & w4 & Hsend & H).
  destruct (send_and_rebind_held _ _ _ _ _ _ _ _ Hno Hheld3 Hsend) as [Hheld4 S4].
  apply bind_inv in H. destruct H as (u & w5 & Hdestroy & H).
  injection H as <- <-.
  destruct (destroy_subscription_held _ _ _ _ _ Hno Hheld4 Hdestroy) as [R5 S5].
  split; [exact R5|]. exists args. congruence.
Qed.

(** What follows a request leaves the connection alone. *)
Lemma one_request_then {A B : Type} (method : string)
    (codeA : A -> nfdresult_t) (codeB : B -> nfdresult_t)
    (c : M A) (k : A -> M B) :
  one_request method codeA c ->
  (forall a, calm (k a)) ->
  (forall a w b w', codeA a = NFD_ERROR -> k a w = Def (b, w') ->
                    codeB b = NFD_ERROR) ->
  one_request method codeB (bind c k).
Proof.
  intros Hc Hk Hcode w b w' Hno H.
  apply bind_inv in H. destruct H as (a & w1 & H1 & H2).
  destruct (Hc _ _ _ Hno H1) as [R1 Hsent].
  destruct (Hk a _ _ _ H2) as (R2 & S2 & _).
  split; [congruence|].
  destruct (hd_error (add_match_replies w)) as [[message|]|].
  - destruct Hsent as [S1 E]. split; [congruence | exact (Hcode _ _ _ _ E H2)].
  - destruct Hsent as [args S1]. exists args. congruence.
  - destruct Hsent as [S1 E]. split; [congruence | exact (Hcode _ _ _ _ E H2)].
Qed.

Lemma NFD_DBus_OpenFile_one (Multiple Directory : bool)
    (filterList : list nfdnfilteritem_t) (filterCount : nat) :
  one_request "OpenFile" fst
    (NFD_DBus_OpenFile Multiple Directory filterList filterCount).
Proof.
  apply (request_one
           (fun token => lift (Query.AppendOpenFileQueryParams
                                 Multiple Directory token filterList filterCount))
           "OpenFile").
  intro. apply calm_lift.
Qed.

Lemma NFD_DBus_SaveFile_one (filterList : list nfdnfilteritem_t)
    (filterCount : nat) (defaultPath defaultName : option ptr) :
  one_request "SaveFile" fst
    (NFD_DBus_SaveFile filterList filterCount defaultPath defaultName).
Proof.
  apply (request_one
           (fun token => Query.AppendSaveFileQueryParams
                           token filterList filterCount defaultPath defaultName)
           "SaveFile").
  intro. apply AppendSaveFileQueryParams_calm.
Qed.

Lemma NFD_DBus_ShowOpenFileDialog_one {handle : Type}
    (Multiple Directory : bool) (params : NfdDialogParams handle) :
  one_request "OpenFile" (fun res => res)
    (NFD_DBus_ShowOpenFileDialog Multiple Directory params).
Proof.
  apply (show_one
           (fun token => lift (Query.AppendOpenFileQueryParams_win
                                 Multiple Directory token params))
           "OpenFile").
  intro. apply calm_lift.
Qed.

Lemma NFD_DBus_ShowSaveFileDialog_one {handle : Type}
    (params : NfdDialogParams handle) :
  one_request "SaveFile" (fun res => res) (NFD_DBus_ShowSaveFileDialog params).
Proof.
  apply (show_one (fun token => Query.AppendSaveFileQueryParams_win token params)
                  "SaveFile").
  intro. apply AppendSaveFileQueryParams_win_calm.
Qed.

Lemma show_then_wait_one (method : string) (show : M nfdresult_t) :
  one_request method (fun res => res) show ->
  one_request method fst
    (res <- show ;;
     if negb (nfdresult_eqb res NFD_OKAY) then ret (res, None)
     else wait_for_response)%M.
Proof.
  intro Hshow. apply one_request_then with (codeA := fun res => res).
  - exact Hshow.
  - intro res. pose proof wait_for_response_calm. calm_auto.
  - intros res w b w' -> H. cbn in H. injection H as <- _. reflexivity.
Qed.

Lemma create_calm : calm Monitor.create.
Proof. unfold Monitor.create. calm_auto. Qed.

Lemma start_monitor_calm (res : nfdresult_t) (params : DialogParams) :
  calm (start_monitor res params).
Proof. pose proof create_calm. unfold start_monitor. calm_auto. Qed.

Lemma read_single_path_calm (msg : DBusMessage) (params : DialogParams) :
  calm (read_single_path msg params).
Proof.
  pose proof ReadResponseUrisSingle_calm. pose proof AllocAndCopyFilePath_calm.
  unfold read_single_path. calm_auto.
Qed.

(** The two single-path dialogs on [NfdDialogParams]. *)
Lemma single_dialog_one (method : string) (show : M nfdresult_t)
    (params : DialogParams) :
  one_request method (fun res => res) show ->
  one_request method fst
    (match outAsyncOpHandle params with
     | Some _ => (res <- show ;; start_monitor res params)%M
     | None =>
         ('(res, msg) <- (res <- show ;;
                          if negb (nfdresult_eqb res NFD_OKAY) then ret (res, None)
                          else wait_for_response) ;;
          match res, msg with
          | NFD_OKAY, Some msg => read_single_path msg params
          | _, _ => ret (res, params)
          end)%M
     end).
Proof.
  intro Hshow. destruct (outAsyncOpHandle params).
  - apply one_request_then with (codeA := fun res => res).
    + exact Hshow.
    + intro. apply start_monitor_calm.
    + intros res w b w' -> H. cbn in H. injection H as <- _. reflexivity.
  - apply one_request_then with (codeA := fst).
    + apply show_then_wait_one, Hshow.
    + pose proof read_single_path_calm. intros [res msg]. calm_auto.
    + intros [res msg] w b w' E H. cbn in E. subst res. cbn in H.
      injection H as <- _. reflexivity.
Qed.

(** The tail of the three single-path dialogs with a native filter
    list. *)
Lemma single_path_tail_one (method : string)
    (request : M (nfdresult_t * option DBusMessage)) :
  one_request method fst request ->
  one_request method fst
    ('(res, msg) <- request ;;
     match res, msg with
     | NFD_OKAY, Some msg =>
         '(res, uri) <- Response.ReadResponseUrisSingle msg ;;
         match res, uri with
         | NFD_OKAY, Some uri =>
             '(res, path) <- UriCodec.AllocAndCopyFilePath uri ;;
             ret (res, option_map fst path)
         | _, _ => ret (res, None)
         end
     | _, _ => ret (res, None)
     end)%M.
Proof.
  intro Hrequest. apply one_request_then with (codeA := fst).
  - exact Hrequest.
  - pose proof ReadResponseUrisSingle_calm. pose proof AllocAndCopyFilePath_calm.
    intros [res msg]. calm_auto.
  - intros [res msg] w b w' E H. cbn in E. subst res. cbn in H.
    injection H as <- _. reflexivity.
Qed.

Lemma NFD_OpenDialogMultipleWin_one (params : DialogParams) :
  one_request "OpenFile" fst (NFD_OpenDialogMultipleWin params).
Proof.
  unfold NFD_OpenDialogMultipleWin. destruct (outAsyncOpHandle params).
  - apply one_request_then with (codeA := fun res => res).
    + apply NFD_DBus_ShowOpenFileDialog_one.
    + intro. apply start_monitor_calm.
    + intros res w b w' -> H. cbn in H. injection H as <- _. reflexivity.
  - apply one_request_then with (codeA := fst).
    + apply show_then_wait_one, NFD_DBus_ShowOpenFileDialog_one.
    + pose proof ReadResponseUris_calm. pose proof NFD_PathSet_GetCount_calm.
      pose proof NFD_PathSet_GetPathWin_calm. pose proof basenames_loop_calm.
      intros [res msg]. calm_auto.
    + intros [res msg] w b w' E H. cbn in E. subst res. cbn in H.
      injection H as <- _. reflexivity.
Qed.

Lemma NFD_OpenDialogMultipleN_one (filterList : list nfdnfilteritem_t)
    (filterCount : nat) (defaultPath : option ptr) :
  one_request "OpenFile" fst
    (NFD_OpenDialogMultipleN filterList filterCount defaultPath).
Proof.
  apply one_request_then with (codeA := fst).
  - apply NFD_DBus_OpenFile_one.
  - pose proof ReadResponseUris_calm. intros [res msg]. calm_auto.
  - intros [res msg] w b w' E H. cbn in E. subst res. cbn in H.
    injection H as <- _. reflexivity.
Qed.

End Requests.

Section Worker.

Import Iter.

Lemma Monitor_allocAndCopyFilePath_calm (self : NfdDialogMonitor) (fileUri : ptr) :
  calm (Monitor.allocAndCopyFilePath self fileUri).
Proof. unfold Monitor.allocAndCopyFilePath. calm_auto. Qed.

Lemma copySingleFilepath_calm (self : NfdDialogMonitor) (msg : DBusMessage) :
  calm (Monitor.copySingleFilepath self msg).
Proof.
  pose proof ReadResponseUrisSingle_calm.
  pose proof Monitor_allocAndCopyFilePath_calm.
  unfold Monitor.copySingleFilepath. calm_auto.
Qed.

Lemma copyMultipleFilePath_calm (self : NfdDialogMonitor) (msg : DBusMessage) :
  calm (Monitor.copyMultipleFilePath self msg).
Proof.
  pose proof ReadResponseUris_calm. pose proof NFD_PathSet_GetCount_calm.
  pose proof NFD_PathSet_GetPathWin_calm. pose proof basenames_loop_calm.
  unfold Monitor.copyMultipleFilePath. calm_auto.
Qed.

Lemma monitorUntilReturn_calm (Multiple : bool) (self : NfdDialogMonitor) :
  calm (Monitor.monitorUntilReturn Multiple self).
Proof.
  pose proof wait_for_response_calm. pose proof copySingleFilepath_calm.
  pose proof copyMultipleFilePath_calm.
  unfold Monitor.monitorUntilReturn. calm_auto.
Qed.

End Worker.

(** X17.  A dialog is one request and leaves no subscription behind.  On
    a connection that carries no [Response] subscription when the call
    starts, each of the seven dialog functions, synchronous or
    asynchronous, returns with the match rules of the connection exactly
    as they were: the rule it installed, and the one it installed for a
    changed request path, are removed again on every path, whether or
    not the bus accepted them.  When the bus accepts the first rule the
    call sends exactly one message, the [OpenFile] or [SaveFile] method
    call of the portal's file chooser; when the bus refuses it the call
    sends nothing and returns [NFD_ERROR].  The worker of a monitor
    installs no rule and sends nothing: it waits for the response after
    the rule was removed. *)
Theorem dialog_is_one_request :
  (forall params, one_request "OpenFile" fst (NFD_OpenDialogWin params))
  /\ (forall params, one_request "OpenFile" fst (NFD_OpenDialogMultipleWin params))
  /\ (forall params, one_request "SaveFile" fst (NFD_SaveDialogWin params))
  /\ (forall filterList filterCount defaultPath,
        one_request "OpenFile" fst
          (NFD_OpenDialogN filterList filterCount defaultPath))
  /\ (forall filterList filterCount defaultPath,
        one_request "OpenFile" fst
          (NFD_OpenDialogMultipleN filterList filterCount defaultPath))
  /\ (forall filterList filterCount defaultPath defaultName,
        one_request "SaveFile" fst
          (NFD_SaveDialogN filterList filterCount defaultPath defaultName))
  /\ (forall defaultPath, one_request "OpenFile" fst (NFD_PickFolderN defaultPath))
  /\ (forall Multiple self, calm (Monitor.monitorUntilReturn Multiple self)).
Proof.
  split; [|split; [|split; [|split; [|split; [|split; [|split]]]]]].
  - intro params.
    apply (single_dialog_one "OpenFile"
             (Driver.NFD_DBus_ShowOpenFileDialog false false params)).
    apply NFD_DBus_ShowOpenFileDialog_one.
  - intro params. apply NFD_OpenDialogMultipleWin_one.
  - intro params.
    apply (single_dialog_one "SaveFile" (Driver.NFD_DBus_ShowSaveFileDialog params)).
    apply NFD_DBus_ShowSaveFileDialog_one.
  - intros. apply single_path_tail_one, NFD_DBus_OpenFile_one.
  - intros. apply NFD_OpenDialogMultipleN_one.
  - intros. apply single_path_tail_one, NFD_DBus_SaveFile_one.
  - intros. apply single_path_tail_one, NFD_DBus_OpenFile_one.
  - intros. apply monitorUntilReturn_calm.
Qed.

Lemma dialog_is_one_request_witness :
  exists out w',
    NFD_OpenDialogMultipleWin sample_params subscribed_world
    = Def ((NFD_OKAY, out), w')
    /\ match_rules w' = match_rules subscribed_world
    /\ exists args,
         sent w' = sent subscribed_world ++ [Driver.portal_call "OpenFile" args].
Proof.
  eexists. eexists. split.
  - vm_compute. reflexivity.
  - refine (proj1 (proj2 dialog_is_one_request) sample_params subscribed_world
              _ _ _ _).
    + constructor; [|constructor]. intros [rest E]. discriminate E.
    + vm_compute. reflexivity.
Defined.
(* ----------------------------------------------------------------- *)
(** *** The location options of the save dialog *)

Section SaveLocation.

Lemma last_is_first_of_rev (s : list char) (c : char) (rest : list char) :
  rev s = c :: rest -> s <> [] /\ last s NUL = c.
Proof.
  intro H. assert (E : s = rev rest ++ [c]).
  { rewrite <- (rev_involutive s), H. reflexivity. }
  rewrite E. split.
  - destruct (rev rest); discriminate.
  - apply last_last.
Qed.

Lemma CurrentFile_joined (dir name : list char) (w : world) :
  no_nul dir -> no_nul name ->
  Query.AppendSaveFileQueryDictEntryCurrentFile
    (Some (c_string dir)) (Some (c_string name)) w
  = Def (if existsb (bytes_eqb (join_path dir name)) (existing_files w)
         then [DDictEntry [DString Query.STR_CURRENT_FILE;
                           path_bytes (join_path dir name)]]
         else [],
         w).
Proof.
  intros Hdir Hname. unfold Query.AppendSaveFileQueryDictEntryCurrentFile.
  unfold bind at 1. rewrite lift_Def with (a := dir)
    by (apply string_at_c_string; exact Hdir).
  unfold bind at 1. rewrite lift_Def with (a := name)
    by (apply string_at_c_string; exact Hname).
  assert (Hjoin : (if negb (length dir =? 0) && Ascii.eqb (last dir NUL) "/"
                   then store (length dir + length name + 1)
                              (dir ++ name ++ [NUL])
                   else store (length dir + 1 + length name + 1)
                              (dir ++ "/"%char :: name ++ [NUL]))
                  = Def (c_string (join_path dir name))).
  { unfold join_path, c_string. destruct (rev dir) as [|c rest] eqn:E.
    - assert (dir = []) as -> by (rewrite <- (rev_involutive dir), E; reflexivity).
      cbn [length Nat.eqb negb andb]. apply store_fits.
      simpl. rewrite length_app. simpl. lia.
    - destruct (last_is_first_of_rev _ _ _ E) as [Hne ->].
      replace (length dir =? 0) with false
        by (destruct dir; [congruence | reflexivity]).
      cbn [negb andb]. destruct (Ascii.eqb c "/").
      + rewrite <- app_assoc. apply store_fits.
        rewrite !length_app. simpl. lia.
      + rewrite <- app_assoc. cbn [app]. apply store_fits.
        rewrite !length_app. simpl. rewrite length_app. simpl. lia. }
  unfold bind at 1. rewrite lift_Def with (a := c_string (join_path dir name))
    by exact Hjoin.
  assert (Hnn : no_nul (join_path dir name)).
  { unfold join_path. destruct (rev dir) as [|c rest].
    - apply no_nul_cons. split; [discriminate | exact Hname].
    - destruct (Ascii.eqb c "/").
      + apply no_nul_app. split; assumption.
      + apply no_nul_app. split; [exact Hdir|].
        apply no_nul_cons. split; [discriminate | exact Hname]. }
  unfold bind at 1. rewrite lift_Def with (a := join_path dir name)
    by (apply string_at_c_string; exact Hnn).
  unfold Query.access. cbv [bind get ret].
  destruct (existsb (bytes_eqb (join_path dir name)) (existing_files w));
    reflexivity.
Qed.

End SaveLocation.

(** X18.  What a save dialog tells the portal about the location
    ([NFD_SaveDialogN] without filters).  The options hold the handle
    token; [current_name] with the default name when one is given;
    [current_folder] with the bytes of the default path and its NUL when
    one is given; and [current_file] only when both are given and the
    file exists that is named by the path, one ['/'] unless the path
    ends in one, and the name: then with the bytes of that file name and
    its NUL.  An empty default path makes that file "/name".  Building
    the arguments changes no state. *)
Theorem save_dialog_location (token : list char) (dir name : option (list char))
    (w : world) :
  no_nul token ->
  (forall d, dir = Some d -> no_nul d) ->
  (forall n, name = Some n -> no_nul n) ->
  Query.AppendSaveFileQueryParams
    (c_string token) [] 0 (option_map c_string dir) (option_map c_string name) w
  = Def ([DString (lit ""); DString (lit "Save File");
          DArray "{sv}" (save_options token dir name (existing_files w))],
         w).
Proof.
  intros Htoken Hdir Hname. unfold Query.AppendSaveFileQueryParams.
  unfold bind at 1. rewrite lift_Def
    with (a := [DDictEntry [DString Query.STR_HANDLE_TOKEN;
                            DVariant "s" (DString token)]]).
  2:{ unfold Query.AppendOpenFileQueryDictEntryHandleToken, ub_bind.
      rewrite string_at_c_string by exact Htoken. reflexivity. }
  unfold bind at 1. rewrite lift_Def with (a := []) by reflexivity.
  destruct name as [n|]; destruct dir as [d|]; cbn [option_map].
  - pose proof (Hname n eq_refl) as Hn. pose proof (Hdir d eq_refl) as Hd.
    unfold bind at 1. rewrite lift_Def
      with (a := [DDictEntry [DString Query.STR_CURRENT_NAME;
                              DVariant "s" (DString n)]]).
    2:{ cbn [Query.AppendSaveFileQueryDictEntryCurrentName]. unfold ub_bind.
        rewrite string_at_c_string by exact Hn. reflexivity. }
    unfold bind at 1. rewrite lift_Def
      with (a := [DDictEntry [DString Query.STR_CURRENT_FOLDER; path_bytes d]]).
    2:{ cbn [Query.AppendSaveFileQueryDictEntryCurrentFolder]. unfold ub_bind.
        rewrite string_at_c_string by exact Hd. reflexivity. }
    unfold bind at 1. rewrite CurrentFile_joined by assumption.
    unfold save_options.
    destruct (existsb (bytes_eqb (join_path d n)) (existing_files w)); reflexivity.
  - pose proof (Hname n eq_refl) as Hn.
    unfold bind at 1. rewrite lift_Def
      with (a := [DDictEntry [DString Query.STR_CURRENT_NAME;
                              DVariant "s" (DString n)]]).
    2:{ cbn [Query.AppendSaveFileQueryDictEntryCurrentName]. unfold ub_bind.
        rewrite string_at_c_string by exact Hn. reflexivity. }
    reflexivity.
  - pose proof (Hdir d eq_refl) as Hd.
    unfold bind at 1. rewrite lift_Def with (a := []) by reflexivity.
    unfold bind at 1. rewrite lift_Def
      with (a := [DDictEntry [DString Query.STR_CURRENT_FOLDER; path_bytes d]]).
    2:{ cbn [Query.AppendSaveFileQueryDictEntryCurrentFolder]. unfold ub_bind.
        rewrite string_at_c_string by exact Hd. reflexivity. }
    reflexivity.
  - reflexivity.
Qed.

Lemma save_dialog_location_witness :
  Query.AppendSaveFileQueryParams
    (c_string (lit "TOKEN")) [] 0
    (Some (c_string (lit "/home/u/"))) (Some (c_string (lit "notes.txt")))
    (mkWorld None None (c_string (lit ":1.42")) [] [] [] [] []
             [lit "/home/u/notes.txt"] true true [] [])
  = Def ([DString (lit ""); DString (lit "Save File");
          DArray "{sv}"
            [DDictEntry [DString (lit "handle_token");
                         DVariant "s" (DString (lit "TOKEN"))];
             DDictEntry [DString (lit "current_name");
                         DVariant "s" (DString (lit "notes.txt"))];
             DDictEntry [DString (lit "current_folder");
                         path_bytes (lit "/home/u/")];
             DDictEntry [DString (lit "current_file");
                         path_bytes (lit "/home/u/notes.txt")]]],
         mkWorld None None (c_string (lit ":1.42")) [] [] [] [] []
                 [lit "/home/u/notes.txt"] true true [] []).
Proof.
  apply (save_dialog_location (lit "TOKEN") (Some (lit "/home/u/"))
           (Some (lit "notes.txt"))).
  - apply no_nul_check. reflexivity.
  - intros d E. injection E as <-. apply no_nul_check. reflexivity.
  - intros n E. injection E as <-. apply no_nul_check. reflexivity.
Defined.
(* ----------------------------------------------------------------- *)
(** *** The parent window *)

Section ParentWindow.

Import Query.

Lemma hex_digits_zero (fuel : nat) (acc : list char) : hex_digits fuel 0 acc = acc.
Proof. destruct fuel; reflexivity. Qed.

Lemma div16_facts (n : N) :
  (n = 16 * (n / 16) + n mod 16 /\ n mod 16 < 16)%N.
Proof.
  split.
  - apply N.div_mod. discriminate.
  - apply N.mod_lt. discriminate.
Qed.

Lemma hex_digits_at_most (k : nat) :
  forall fuel n acc,
    (n < 16 ^ N.of_nat k)%N ->
    length (hex_digits fuel n acc) <= length acc + k.
Proof.
  induction k as [|k IH]; intros fuel n acc Hn.
  - assert (n = 0%N) as -> by (cbn in Hn; lia).
    rewrite hex_digits_zero. lia.
  - destruct fuel as [|fuel]; cbn [hex_digits]; [lia|].
    destruct (n =? 0)%N; [lia|].
    rewrite Nat2N.inj_succ, N.pow_succ_r' in Hn.
    destruct (div16_facts n) as [Hdiv Hmod].
    specialize (IH fuel (n / 16)%N (hex_digit (n mod 16) :: acc)).
    cbn [length] in IH.
    remember (n / 16)%N as q. remember (n mod 16)%N as r.
    remember (16 ^ N.of_nat k)%N as z.
    assert (H : (q < z)%N) by lia.
    specialize (IH H). lia.
Qed.

Lemma hex_digits_at_least (k : nat) :
  forall fuel n acc,
    (16 ^ N.of_nat k <= n)%N ->
    (n < 2 ^ N.of_nat fuel)%N ->
    length acc + k + 1 <= length (hex_digits fuel n acc).
Proof.
  induction k as [|k IH]; intros fuel n acc Hk Hfuel.
  - destruct fuel as [|fuel]; [cbn in Hk, Hfuel; lia|].
    cbn [hex_digits].
    destruct (n =? 0)%N eqn:E; [apply N.eqb_eq in E; cbn in Hk; lia|].
    clear Hk Hfuel E. generalize (hex_digit (n mod 16)). intro d.
    generalize (n / 16)%N. intro m.
    assert (Hmono : forall f m0 a, length a <= length (hex_digits f m0 a)).
    { induction f as [|f IHf]; intros m0 a; cbn [hex_digits]; [lia|].
      destruct (m0 =? 0)%N; [lia|].
      specialize (IHf (m0 / 16)%N (hex_digit (m0 mod 16) :: a)).
      cbn [length] in IHf. lia. }
    specialize (Hmono fuel m (d :: acc)). cbn [length] in Hmono. lia.
  - rewrite Nat2N.inj_succ, N.pow_succ_r' in Hk.
    assert (Hpos : (0 < 16 ^ N.of_nat k)%N)
      by (apply N.neq_0_lt_0, N.pow_nonzero; discriminate).
    destruct fuel as [|fuel]; [cbn in Hfuel; lia|].
    cbn [hex_digits].
    destruct (n =? 0)%N eqn:E; [apply N.eqb_eq in E; lia|].
    rewrite Nat2N.inj_succ, N.pow_succ_r' in Hfuel.
    destruct (div16_facts n) as [Hdiv Hmod].
    specialize (IH fuel (n / 16)%N (hex_digit (n mod 16) :: acc)).
    cbn [length] in IH.
    remember (n / 16)%N as q. remember (n mod 16)%N as r.
    remember (16 ^ N.of_nat k)%N as z. remember (2 ^ N.of_nat fuel)%N as y.
    assert (H1 : (z <= q)%N) by lia.
    assert (H2 : (q < y)%N) by lia.
    specialize (IH H1 H2). lia.
Qed.

Lemma size_nat_bound (n : N) : (n < 2 ^ N.of_nat (N.size_nat n))%N.
Proof.
  destruct n as [|p]; [reflexivity|]. cbn [N.size_nat].
  induction p as [p IH|p IH|]; cbn [Pos.size_nat];
    rewrite Nat2N.inj_succ, N.pow_succ_r'; lia.
Qed.

Lemma hex_digit_not_nul (d : N) : (d < 16)%N -> hex_digit d <> NUL.
Proof.
  intro H. destruct d as [|p]; [discriminate|].
  do 4 (destruct p as [p|p|]; try discriminate; try lia).
Qed.

Lemma hex_digits_no_nul (fuel : nat) :
  forall n acc, no_nul acc -> no_nul (hex_digits fuel n acc).
Proof.
  induction fuel as [|fuel IH]; intros n acc Hacc; cbn [hex_digits]; [exact Hacc|].
  destruct (n =? 0)%N; [exact Hacc|].
  apply IH. apply no_nul_cons. split; [|exact Hacc].
  apply hex_digit_not_nul, N.mod_lt. discriminate.
Qed.

Lemma format_08lx_no_nul (n : N) : no_nul (format_08lx n).
Proof.
  unfold format_08lx. apply no_nul_app. split.
  - intro H. apply repeat_spec in H. discriminate H.
  - apply hex_digits_no_nul. intros [].
Qed.

(** X19.  The parent window of a request on [NfdDialogParams], with an
    [unsigned long] of eight bytes.  Zero is sent as the empty string.  A
    window identifier below 2^32 is sent as ["x11:"] and exactly eight
    characters, and with its NUL fills the 13 bytes of the buffer for
    it.  For an identifier of 2^32 or more the conversion has more than
    eight digits, and [sprintf] writes past the end of that buffer. *)
Theorem parent_window_buffer (parentWindow : N) :
  (parentWindow = 0%N ->
   AppendFileQueryParentWindow parentWindow = Def [DString []])
  /\ ((0 < parentWindow < 2 ^ 32)%N ->
      AppendFileQueryParentWindow parentWindow
      = Def [DString (lit "x11:" ++ format_08lx parentWindow)]
      /\ length (format_08lx parentWindow) = 8
      /\ length (lit "x11:" ++ format_08lx parentWindow ++ [NUL])
         = 5 + SIZEOF_PARENT_WINDOW)
  /\ ((2 ^ 32 <= parentWindow)%N ->
      AppendFileQueryParentWindow parentWindow = Undef WriteOutOfBounds).
Proof.
  split; [intros ->; reflexivity|]. split.
  - intros [Hpos Hlt].
    assert (Hlen : length (format_08lx parentWindow) = 8).
    { unfold format_08lx. rewrite length_app, repeat_length.
      pose proof (hex_digits_at_most 8 (N.size_nat parentWindow) parentWindow [])
        as Hmost.
      specialize (Hmost Hlt). change (length (@nil char)) with 0 in Hmost. unfold char in *. lia. }
    split; [|split; [exact Hlen|]].
    + unfold AppendFileQueryParentWindow.
      replace (parentWindow =? 0)%N with false by (symmetry; apply N.eqb_neq; lia).
      cbn [negb]. unfold ub_bind. rewrite store_fits.
      * assert (Hnn : no_nul (lit "x11:" ++ format_08lx parentWindow)).
        { apply no_nul_app. split; [apply no_nul_check; reflexivity|].
          apply format_08lx_no_nul. }
        rewrite app_assoc. rewrite (string_at_app _ [] Hnn). reflexivity.
      * rewrite !length_app, Hlen. unfold SIZEOF_PARENT_WINDOW. simpl. lia.
    + rewrite !length_app, Hlen. reflexivity.
  - intro Hge. unfold AppendFileQueryParentWindow.
    replace (parentWindow =? 0)%N with false by (symmetry; apply N.eqb_neq; lia).
    cbn [negb]. unfold ub_bind, store.
    assert (Hlen : 9 <= length (format_08lx parentWindow)).
    { unfold format_08lx. rewrite length_app, repeat_length.
      pose proof (hex_digits_at_least 8 (N.size_nat parentWindow) parentWindow []
                    Hge (size_nat_bound parentWindow)) as Hleast.
      change (length (@nil char)) with 0 in Hleast. unfold char in *. lia. }
    replace (length (lit "x11:" ++ format_08lx parentWindow ++ [NUL])
             <=? 5 + SIZEOF_PARENT_WINDOW) with false; [reflexivity|].
    symmetry. apply Nat.leb_gt. rewrite !length_app.
    unfold SIZEOF_PARENT_WINDOW, char in *. simpl. lia.
Qed.

Lemma parent_window_buffer_witness :
  AppendFileQueryParentWindow 60817415
  = Def [DString (lit "x11:03a00007")]
  /\ AppendFileQueryParentWindow 4294967296 = Undef WriteOutOfBounds.
Proof.
  split.
  - apply (proj1 (proj2 (parent_window_buffer 60817415))). split; reflexivity.
  - apply (proj2 (proj2 (parent_window_buffer 4294967296))). discriminate.
Defined.

End ParentWindow.
